(** * melonDS software rasterizer (GPU3D_Soft.cpp): shallow embedding

    The C++ code works on fixed-width integers.  Every value is a [Z] here
    and every place where the machine truncates is written out with one of
    the casts of the first section, so that e.g. [s32 (a - b)] is the
    subtraction of two [s32] operands as the hardware performs it. *)

From Stdlib Require Import ZArith Lia Bool List Strings.Byte.
From stdpp Require Import base option list gmap.

Local Open Scope Z_scope.

(** ** Fixed-width integers *)

Definition wrap_unsigned (w v : Z) : Z := v mod 2 ^ w.
Definition wrap_signed (w v : Z) : Z := (v + 2 ^ (w - 1)) mod 2 ^ w - 2 ^ (w - 1).

Definition u8 : Z -> Z := wrap_unsigned 8.
Definition u16 : Z -> Z := wrap_unsigned 16.
Definition u32 : Z -> Z := wrap_unsigned 32.
Definition s16 : Z -> Z := wrap_signed 16.
Definition s32 : Z -> Z := wrap_signed 32.
Definition s64 : Z -> Z := wrap_signed 64.

Definition in_u8 (v : Z) : Prop := 0 <= v < 2 ^ 8.
Definition in_u16 (v : Z) : Prop := 0 <= v < 2 ^ 16.
Definition in_u32 (v : Z) : Prop := 0 <= v < 2 ^ 32.
Definition in_s16 (v : Z) : Prop := - 2 ^ 15 <= v < 2 ^ 15.
Definition in_s32 (v : Z) : Prop := - 2 ^ 31 <= v < 2 ^ 31.

(** C's truth value of an integer, and [a & (1<<n)] used as a condition. *)
Definition nonzero (v : Z) : bool := negb (v =? 0).
Definition bit (v n : Z) : bool := nonzero (Z.land v (Z.shiftl 1 n)).

(** ** Buffer geometry *)

Definition ScanlineWidth : Z := 258.
Definition NumScanlines : Z := 194.
Definition BufferSize : Z := ScanlineWidth * NumScanlines.
Definition FirstPixelOffset : Z := ScanlineWidth + 1.

(** ** Interpolator<dir>

    [dir = false] is [Interpolator<0>] (along X), [dir = true] is
    [Interpolator<1>] (along Y). *)

Module Interpolator.

Record t : Type := {
  x0 : Z; x1 : Z; xdiff : Z; x : Z;
  shift : Z;
  linear : bool;
  xrecip : Z; xrecip_z : Z;
  w0n : Z; w0d : Z; w1d : Z;
  yfactor : Z
}.

(** The default constructor leaves every member indeterminate; a caller
    that needs such an object quantifies over it, and concrete runs start
    from this one. *)
Definition blank : t :=
  {| x0 := 0; x1 := 0; xdiff := 0; x := 0; shift := 0; linear := false;
     xrecip := 0; xrecip_z := 0; w0n := 0; w0d := 0; w1d := 0; yfactor := 0 |}.

Definition Setup (dir : bool) (this : t) (x0 x1 w0 w1 : Z) : t :=
  let xdiff := s32 (x1 - x0) in
  let xrecip := if negb (xdiff =? 0) then s32 (Z.quot (Z.shiftl 1 30) xdiff) else 0 in
  let xrecip_z := Z.shiftr xrecip 8 in
  let mask := if dir then 0x7E else 0x7F in
  let linear :=
    (w0 =? w1) && negb (nonzero (Z.land (u32 w0) mask))
               && negb (nonzero (Z.land (u32 w1) mask)) in
  if dir then
    if nonzero (Z.land w0 0x1) && negb (nonzero (Z.land w1 0x1)) then
      {| x0 := x0; x1 := x1; xdiff := xdiff; x := this.(x);
         shift := 9; linear := linear;
         xrecip := xrecip; xrecip_z := xrecip_z;
         w0n := s32 (w0 - 1); w0d := s32 (w0 + 1); w1d := w1;
         yfactor := this.(yfactor) |}
    else
      {| x0 := x0; x1 := x1; xdiff := xdiff; x := this.(x);
         shift := 9; linear := linear;
         xrecip := xrecip; xrecip_z := xrecip_z;
         w0n := Z.land w0 0xFFFE; w0d := Z.land w0 0xFFFE; w1d := Z.land w1 0xFFFE;
         yfactor := this.(yfactor) |}
  else
    {| x0 := x0; x1 := x1; xdiff := xdiff; x := this.(x);
       shift := 8; linear := linear;
       xrecip := xrecip; xrecip_z := xrecip_z;
       w0n := w0; w0d := w0; w1d := w1;
       yfactor := this.(yfactor) |}.

Definition SetX (this : t) (x : Z) : t :=
  let x := s32 (x - this.(x0)) in
  let yfactor :=
    if negb (this.(xdiff) =? 0) && negb this.(linear) then
      let num := s64 (Z.shiftl (s64 (x * this.(w0n))) this.(shift)) in
      let den := s32 (s32 (x * this.(w0d))
                      + s32 (s32 (this.(xdiff) - x) * this.(w1d))) in
      if den =? 0 then 0 else u32 (s32 (Z.quot num den))
    else this.(yfactor) in
  {| x0 := this.(x0); x1 := this.(x1); xdiff := this.(xdiff); x := x;
     shift := this.(shift); linear := this.(linear);
     xrecip := this.(xrecip); xrecip_z := this.(xrecip_z);
     w0n := this.(w0n); w0d := this.(w0d); w1d := this.(w1d);
     yfactor := yfactor |}.

(** [yfactor] is a [u32], so the products of the perspective-correct path
    are computed modulo 2^32 and shifted logically. *)
Definition Interpolate (this : t) (y0 y1 : Z) : Z :=
  if (this.(xdiff) =? 0) || (y0 =? y1) then y0
  else if negb this.(linear) then
    if y0 <? y1 then
      s32 (u32 (y0 + Z.shiftr (u32 (s32 (y1 - y0) * this.(yfactor))) this.(shift)))
    else
      s32 (u32 (y1 + Z.shiftr (u32 (s32 (y0 - y1)
                                    * u32 (Z.shiftl 1 this.(shift) - this.(yfactor))))
                              this.(shift)))
  else
    if y0 <? y1 then
      s32 (s64 (y0 + Z.shiftr (s64 (s64 (s64 (s32 (y1 - y0) * this.(x)) * this.(xrecip))
                                    + Z.shiftl 3 24)) 30))
    else
      s32 (s64 (y1 + Z.shiftr (s64 (s64 (s64 (s32 (y0 - y1) * s32 (this.(xdiff) - this.(x)))
                                         * this.(xrecip))
                                    + Z.shiftl 3 24)) 30)).

(** The normalisation loop of the Z-buffer path along Y:
    [while (disp > 0x3FF) { disp >>= 1; shift++; }].  A positive [s32]
    needs at most 21 halvings, so 32 rounds always reach the exit. *)
Fixpoint normalize_disp (fuel : nat) (disp shift : Z) : Z * Z :=
  match fuel with
  | O => (disp, shift)
  | S fuel' =>
      if disp >? 0x3FF then normalize_disp fuel' (Z.shiftr disp 1) (shift + 1)
      else (disp, shift)
  end.

Definition InterpolateZ (dir : bool) (this : t) (z0 z1 : Z) (wbuffer : bool) : Z :=
  if (this.(xdiff) =? 0) || (z0 =? z1) then z0
  else if wbuffer then
    if z0 <? z1 then
      s32 (s64 (z0 + Z.shiftr (s64 (s32 (z1 - z0) * this.(yfactor))) this.(shift)))
    else
      s32 (s64 (z1 + Z.shiftr (s64 (s32 (z0 - z1)
                                    * u32 (Z.shiftl 1 this.(shift) - this.(yfactor))))
                              this.(shift)))
  else
    let '(base, disp, factor) :=
      if z0 <? z1 then (z0, s32 (z1 - z0), this.(x))
      else (z1, s32 (z0 - z1), s32 (this.(xdiff) - this.(x))) in
    if dir then
      let '(disp, shift) := normalize_disp 32 disp 0 in
      s32 (s64 (base + s64 (Z.shiftl
                              (Z.shiftr (s64 (s64 (disp * factor) * this.(xrecip_z))) 22)
                              shift)))
    else
      let disp := Z.shiftr disp 9 in
      s32 (s64 (base + Z.shiftr (s64 (s64 (disp * factor) * this.(xrecip_z))) 13)).

End Interpolator.

(** ** Slope<side>

    [side = false] is the left edge ([Slope<0>]), [side = true] the right
    edge ([Slope<1>]). *)

Module Slope.

Record t : Type := {
  Increment : Z;
  Negative : bool;
  XMajor : bool;
  Interp : Interpolator.t;
  x0 : Z; xmin : Z; xmax : Z;
  xlen : Z; ylen : Z;
  dx : Z;
  y : Z;
  xcov_incr : Z
}.

Definition blank : t :=
  {| Increment := 0; Negative := false; XMajor := false;
     Interp := Interpolator.blank;
     x0 := 0; xmin := 0; xmax := 0; xlen := 0; ylen := 0; dx := 0; y := 0;
     xcov_incr := 0 |}.

Definition XVal (this : t) : Z :=
  let ret :=
    if this.(Negative) then s32 (this.(x0) - Z.shiftr this.(dx) 18)
    else s32 (this.(x0) + Z.shiftr this.(dx) 18) in
  if ret <? this.(xmin) then this.(xmin)
  else if ret >? this.(xmax) then this.(xmax)
  else ret.

Definition SetupDummy (side : bool) (this : t) (x0 : Z) : t * Z :=
  let dx := if side then -0x40000 else 0 in
  let x0 := if side then s32 (x0 - 1) else x0 in
  let interp :=
    Interpolator.SetX (Interpolator.Setup true this.(Interp) 0 0 0 0) 0 in
  ({| Increment := 0; Negative := this.(Negative); XMajor := false;
      Interp := interp;
      x0 := x0; xmin := x0; xmax := x0;
      xlen := this.(xlen); ylen := this.(ylen);
      dx := dx; y := this.(y); xcov_incr := 0 |}, x0).

Definition Setup (side : bool) (this : t) (x0 x1 y0 y1 w0 w1 y : Z) : t * Z :=
  let '(xmin, xmax, Negative) :=
    if x1 >? x0 then (x0, s32 (x1 - 1), false)
    else if x1 <? x0 then (x1, s32 (x0 - 1), true)
    else
      let xmin := if side then s32 (x0 - 1) else x0 in
      (xmin, xmin, false) in
  let xlen := s32 (s32 (xmax + 1) - xmin) in
  let ylen := s32 (y1 - y0) in
  let Increment :=
    if ylen =? 0 then 0
    else if ylen =? xlen then 0x40000
    else
      let yrecip := s32 (Z.quot (Z.shiftl 1 18) ylen) in
      let Increment := s32 (s32 (x1 - x0) * yrecip) in
      if Increment <? 0 then s32 (- Increment) else Increment in
  let XMajor := Increment >? 0x40000 in
  let dx :=
    if side then
      if XMajor then
        (if Negative then 0x20000 + 0x40000 else s32 (Increment - 0x20000))
      else if negb (Increment =? 0) then (if Negative then 0x40000 else 0)
      else -0x40000
    else
      if XMajor then
        (if Negative then s32 (s32 (Increment - 0x20000) + 0x40000) else 0x20000)
      else if negb (Increment =? 0) then (if Negative then 0x40000 else 0)
      else 0 in
  let dx := s32 (dx + s32 (s32 (y - y0) * Increment)) in
  let placed :=
    {| Increment := Increment; Negative := Negative; XMajor := XMajor;
       Interp := this.(Interp);
       x0 := x0; xmin := xmin; xmax := xmax; xlen := xlen; ylen := ylen;
       dx := dx; y := y; xcov_incr := this.(xcov_incr) |} in
  let x := XVal placed in
  if XMajor then
    let interp :=
      if side then Interpolator.Setup true this.(Interp) (s32 (x0 - 1)) (s32 (x1 - 1)) w0 w1
      else Interpolator.Setup true this.(Interp) x0 x1 w0 w1 in
    ({| Increment := Increment; Negative := Negative; XMajor := XMajor;
        Interp := Interpolator.SetX interp x;
        x0 := x0; xmin := xmin; xmax := xmax; xlen := xlen; ylen := ylen;
        dx := dx; y := y;
        xcov_incr := s32 (Z.quot (s32 (Z.shiftl ylen 10)) xlen) |}, x)
  else
    ({| Increment := Increment; Negative := Negative; XMajor := XMajor;
        Interp := Interpolator.SetX (Interpolator.Setup true this.(Interp) y0 y1 w0 w1) y;
        x0 := x0; xmin := xmin; xmax := xmax; xlen := xlen; ylen := ylen;
        dx := dx; y := y; xcov_incr := this.(xcov_incr) |}, x).

Definition Step (this : t) : t * Z :=
  let moved :=
    {| Increment := this.(Increment); Negative := this.(Negative);
       XMajor := this.(XMajor); Interp := this.(Interp);
       x0 := this.(x0); xmin := this.(xmin); xmax := this.(xmax);
       xlen := this.(xlen); ylen := this.(ylen);
       dx := s32 (this.(dx) + this.(Increment));
       y := s32 (this.(y) + 1);
       xcov_incr := this.(xcov_incr) |} in
  let x := XVal moved in
  ({| Increment := moved.(Increment); Negative := moved.(Negative);
      XMajor := moved.(XMajor);
      Interp := Interpolator.SetX moved.(Interp) (if moved.(XMajor) then x else moved.(y));
      x0 := moved.(x0); xmin := moved.(xmin); xmax := moved.(xmax);
      xlen := moved.(xlen); ylen := moved.(ylen);
      dx := moved.(dx); y := moved.(y); xcov_incr := moved.(xcov_incr) |}, x).

(** [n] successive calls of [Step]. *)
Fixpoint Steps (n : nat) (this : t) : t :=
  match n with
  | O => this
  | S n' => Steps n' (fst (Step this))
  end.

Definition EdgeParams_XMajor (side : bool) (this : t) : Z * Z :=
  let length :=
    if xorb side this.(Negative) then
      s32 (Z.shiftr this.(dx) 18 - Z.shiftr (s32 (this.(dx) - this.(Increment))) 18)
    else
      s32 (Z.shiftr (s32 (this.(dx) + this.(Increment))) 18 - Z.shiftr this.(dx) 18) in
  let startx := Z.shiftr this.(dx) 18 in
  let startx := if this.(Negative) then s32 (this.(xlen) - startx) else startx in
  let startx := if side then s32 (s32 (startx - length) + 1) else startx in
  let startcov :=
    s32 (Z.quot (s32 (s32 (s32 (Z.shiftl startx 10) + 0x1FF) * this.(ylen))) this.(xlen)) in
  let coverage :=
    Z.lor (Z.lor (s32 (Z.shiftl 1 31)) (s32 (Z.shiftl (Z.land startcov 0x3FF) 12)))
          (Z.land this.(xcov_incr) 0x3FF) in
  (length, coverage).

Definition EdgeParams_YMajor (side : bool) (this : t) : Z * Z :=
  if this.(Increment) =? 0 then (1, 31)
  else
    let cov := Z.shiftr (s32 (Z.shiftr this.(dx) 9 + Z.shiftr this.(Increment) 10)) 4 in
    let cov := if negb (Z.shiftr cov 5 =? Z.shiftr this.(dx) 18) then 31 else cov in
    let cov := Z.land cov 0x1F in
    let cov := if negb (xorb side this.(Negative)) then s32 (0x1F - cov) else cov in
    (1, cov).

Definition EdgeParams (side : bool) (this : t) : Z * Z :=
  if this.(XMajor) then EdgeParams_XMajor side this
  else EdgeParams_YMajor side this.

End Slope.

(** ** Depth tests

    The arguments are already converted to the parameter types
    ([s32 dstz], [s32 z], [u32 dstattr]). *)

Definition DepthTest_Equal_Z (dstz z dstattr : Z) : bool :=
  let diff := s32 (dstz - z) in
  u32 (diff + 0x200) <=? 0x400.

Definition DepthTest_Equal_W (dstz z dstattr : Z) : bool :=
  let diff := s32 (dstz - z) in
  u32 (diff + 0xFF) <=? 0x1FE.

Definition DepthTest_LessThan (dstz z dstattr : Z) : bool :=
  z <? dstz.

Definition DepthTest_LessThan_FrontFacing (dstz z dstattr : Z) : bool :=
  if Z.land dstattr 0x00400010 =? 0x00000010 then z <=? dstz
  else z <? dstz.

(** ** Configuration registers

    Modelled from the spec: the registers are globals of GPU3D.cpp, which
    is not among the sources; names, widths and table sizes as in the
    spec's section 6 ([RenderFogDensityTable[34]] of [u8],
    [RenderToonTable[32]] of [u16]). *)

Record Registers : Type := {
  RenderDispCnt : Z;
  RenderAlphaRef : Z;
  RenderFogOffset : Z;
  RenderFogShift : Z;
  RenderFogDensityTable : list Z;
  RenderToonTable : list Z
}.

(** ** Alpha blending *)

Definition AlphaBlend (regs : Registers) (srccolor dstcolor alpha : Z) : Z :=
  let dstalpha := Z.shiftr dstcolor 24 in
  if dstalpha =? 0 then srccolor
  else
    let srcR := Z.land srccolor 0x3F in
    let srcG := Z.land (Z.shiftr srccolor 8) 0x3F in
    let srcB := Z.land (Z.shiftr srccolor 16) 0x3F in
    let '(srcR, srcG, srcB) :=
      if bit regs.(RenderDispCnt) 3 then
        let dstR := Z.land dstcolor 0x3F in
        let dstG := Z.land (Z.shiftr dstcolor 8) 0x3F in
        let dstB := Z.land (Z.shiftr dstcolor 16) 0x3F in
        let alpha := u32 (alpha + 1) in
        (Z.shiftr (u32 (u32 (srcR * alpha) + u32 (dstR * u32 (32 - alpha)))) 5,
         Z.shiftr (u32 (u32 (srcG * alpha) + u32 (dstG * u32 (32 - alpha)))) 5,
         Z.shiftr (u32 (u32 (srcB * alpha) + u32 (dstB * u32 (32 - alpha)))) 5)
      else (srcR, srcG, srcB) in
    let dstalpha := if alpha >? dstalpha then alpha else dstalpha in
    Z.lor (Z.lor (Z.lor srcR (u32 (Z.shiftl srcG 8))) (u32 (Z.shiftl srcB 16)))
          (u32 (Z.shiftl dstalpha 24)).

(** The fields of a packed 6-6-6-5 colour word. *)
Definition chanR (c : Z) : Z := Z.land c 0x3F.
Definition chanG (c : Z) : Z := Z.land (Z.shiftr c 8) 0x3F.
Definition chanB (c : Z) : Z := Z.land (Z.shiftr c 16) 0x3F.
Definition chanA (c : Z) : Z := Z.shiftr c 24.

(** ** Arrays

    A C array is a list; an index outside it is undefined behaviour in the
    source and a failure ([None]) here. *)

Definition load {A : Type} (buf : list A) (i : Z) : option A :=
  if 0 <=? i then buf !! Z.to_nat i else None.

Definition store {A : Type} (buf : list A) (i : Z) (v : A) : option (list A) :=
  if (0 <=? i) && (i <? Z.of_nat (length buf)) then Some (<[Z.to_nat i := v]> buf)
  else None.

(** ** Texture memory

    Modelled from the spec: [GPU::VRAMFlat_Texture] and
    [GPU::VRAMFlat_TexPal] are byte arrays of GPU.cpp, of 0x80000 and
    0x20000 bytes (spec, section 6).  A 16-bit read takes two consecutive
    bytes, low byte first. *)

Record VRAM : Type := {
  VRAMFlat_Texture : list byte;
  VRAMFlat_TexPal : list byte
}.

Definition byte_val (b : byte) : Z := Z.of_N (Byte.to_N b).

Definition read_u8 (mem : list byte) (i : Z) : option Z :=
  b ← load mem i; Some (byte_val b).

Definition read_u16 (mem : list byte) (i : Z) : option Z :=
  lo ← load mem i; hi ← load mem (i + 1);
  Some (Z.lor (byte_val lo) (Z.shiftl (byte_val hi) 8)).

Definition ReadVRAM_Texture_u8 (vram : VRAM) (addr : Z) : option Z :=
  read_u8 vram.(VRAMFlat_Texture) (Z.land addr 0x7FFFF).
Definition ReadVRAM_Texture_u16 (vram : VRAM) (addr : Z) : option Z :=
  read_u16 vram.(VRAMFlat_Texture) (Z.land addr 0x7FFFF).
Definition ReadVRAM_TexPal_u16 (vram : VRAM) (addr : Z) : option Z :=
  read_u16 vram.(VRAMFlat_TexPal) (Z.land addr 0x1FFFF).

(** The channel-wise mixes of two palette colours used by the compressed
    format ([cr0*m0 + cr1*m1 >> sh] on each masked 5-bit field). *)
Definition mix_colors (color0 color1 m0 m1 sh : Z) : Z :=
  let r0 := Z.land color0 0x001F in
  let g0 := Z.land color0 0x03E0 in
  let b0 := Z.land color0 0x7C00 in
  let r1 := Z.land color1 0x001F in
  let g1 := Z.land color1 0x03E0 in
  let b1 := Z.land color1 0x7C00 in
  let r := Z.shiftr (u32 (u32 (r0 * m0) + u32 (r1 * m1))) sh in
  let g := Z.land (Z.shiftr (u32 (u32 (g0 * m0) + u32 (g1 * m1))) sh) 0x03E0 in
  let b := Z.land (Z.shiftr (u32 (u32 (b0 * m0) + u32 (b1 * m1))) sh) 0x7C00 in
  u16 (Z.lor (Z.lor r g) b).

(** Wrapping, mirroring or clamping of one texel coordinate; [rep] and
    [mir] are the repeat and mirror bits of texparam for that axis. *)
Definition wrap_coord (rep mir : bool) (s size : Z) : Z :=
  if rep then
    if mir then
      if nonzero (Z.land s size) then s16 (s32 (size - 1) - Z.land s (s32 (size - 1)))
      else s16 (Z.land s (s32 (size - 1)))
    else s16 (Z.land s (s32 (size - 1)))
  else
    if s <? 0 then 0
    else if s >=? size then s16 (s32 (size - 1))
    else s.

(** ** Texture sampler

    [out] holds the values of [*color] and [*alpha] before the call: the
    switch has no case for format 0 and leaves them as they are. *)

Definition TextureLookup (vram : VRAM) (texparam texpal s t : Z) (out : Z * Z)
  : option (Z * Z) :=
  let vramaddr := u32 (Z.shiftl (Z.land texparam 0xFFFF) 3) in
  let width := s32 (Z.shiftl 8 (Z.land (Z.shiftr texparam 20) 0x7)) in
  let height := s32 (Z.shiftl 8 (Z.land (Z.shiftr texparam 23) 0x7)) in
  let s := s16 (Z.shiftr s 4) in
  let t := s16 (Z.shiftr t 4) in
  let s := wrap_coord (bit texparam 16) (bit texparam 18) s width in
  let t := wrap_coord (bit texparam 17) (bit texparam 19) t height in
  let alpha0 := if bit texparam 29 then 0 else 31 in
  let format := Z.land (Z.shiftr texparam 26) 0x7 in
  if format =? 1 then (* A3I5 *)
    let vramaddr := u32 (vramaddr + s32 (s32 (t * width) + s)) in
    pixel ← ReadVRAM_Texture_u8 vram vramaddr;
    let texpal := u32 (Z.shiftl texpal 4) in
    color ← ReadVRAM_TexPal_u16 vram (u32 (texpal + Z.shiftl (Z.land pixel 0x1F) 1));
    Some (color, u8 (Z.land (Z.shiftr pixel 3) 0x1C + Z.shiftr pixel 6))
  else if format =? 2 then (* 4-color *)
    let vramaddr := u32 (vramaddr + Z.shiftr (s32 (s32 (t * width) + s)) 2) in
    pixel ← ReadVRAM_Texture_u8 vram vramaddr;
    let pixel := u8 (Z.shiftr pixel (Z.shiftl (Z.land s 0x3) 1)) in
    let pixel := Z.land pixel 0x3 in
    let texpal := u32 (Z.shiftl texpal 3) in
    color ← ReadVRAM_TexPal_u16 vram (u32 (texpal + Z.shiftl pixel 1));
    Some (color, if pixel =? 0 then alpha0 else 31)
  else if format =? 3 then (* 16-color *)
    let vramaddr := u32 (vramaddr + Z.shiftr (s32 (s32 (t * width) + s)) 1) in
    pixel ← ReadVRAM_Texture_u8 vram vramaddr;
    let pixel :=
      if nonzero (Z.land s 0x1) then u8 (Z.shiftr pixel 4) else Z.land pixel 0xF in
    let texpal := u32 (Z.shiftl texpal 4) in
    color ← ReadVRAM_TexPal_u16 vram (u32 (texpal + Z.shiftl pixel 1));
    Some (color, if pixel =? 0 then alpha0 else 31)
  else if format =? 4 then (* 256-color *)
    let vramaddr := u32 (vramaddr + s32 (s32 (t * width) + s)) in
    pixel ← ReadVRAM_Texture_u8 vram vramaddr;
    let texpal := u32 (Z.shiftl texpal 4) in
    color ← ReadVRAM_TexPal_u16 vram (u32 (texpal + Z.shiftl pixel 1));
    Some (color, if pixel =? 0 then alpha0 else 31)
  else if format =? 5 then (* compressed *)
    let vramaddr :=
      u32 (vramaddr + s32 (s32 (Z.land t 0x3FC * Z.shiftr width 2) + Z.land s 0x3FC)) in
    let vramaddr := u32 (vramaddr + Z.land t 0x3) in
    let slot1addr := u32 (0x20000 + Z.shiftr (Z.land vramaddr 0x1FFFC) 1) in
    let slot1addr := if vramaddr >=? 0x40000 then u32 (slot1addr + 0x10000) else slot1addr in
    val ← ReadVRAM_Texture_u8 vram vramaddr;
    let val := u8 (Z.shiftr val (2 * Z.land s 0x3)) in
    palinfo ← ReadVRAM_Texture_u16 vram slot1addr;
    let paloffset := u32 (Z.shiftl (Z.land palinfo 0x3FFF) 2) in
    let texpal := u32 (Z.shiftl texpal 4) in
    let sel := Z.land val 0x3 in
    let mode := Z.shiftr palinfo 14 in
    if sel =? 0 then
      color ← ReadVRAM_TexPal_u16 vram (u32 (texpal + paloffset));
      Some (color, 31)
    else if sel =? 1 then
      color ← ReadVRAM_TexPal_u16 vram (u32 (u32 (texpal + paloffset) + 2));
      Some (color, 31)
    else if sel =? 2 then
      if mode =? 1 then
        color0 ← ReadVRAM_TexPal_u16 vram (u32 (texpal + paloffset));
        color1 ← ReadVRAM_TexPal_u16 vram (u32 (u32 (texpal + paloffset) + 2));
        Some (mix_colors color0 color1 1 1 1, 31)
      else if mode =? 3 then
        color0 ← ReadVRAM_TexPal_u16 vram (u32 (texpal + paloffset));
        color1 ← ReadVRAM_TexPal_u16 vram (u32 (u32 (texpal + paloffset) + 2));
        Some (mix_colors color0 color1 5 3 3, 31)
      else
        color ← ReadVRAM_TexPal_u16 vram (u32 (u32 (texpal + paloffset) + 4));
        Some (color, 31)
    else
      if mode =? 2 then
        color ← ReadVRAM_TexPal_u16 vram (u32 (u32 (texpal + paloffset) + 6));
        Some (color, 31)
      else if mode =? 3 then
        color0 ← ReadVRAM_TexPal_u16 vram (u32 (texpal + paloffset));
        color1 ← ReadVRAM_TexPal_u16 vram (u32 (u32 (texpal + paloffset) + 2));
        Some (mix_colors color0 color1 3 5 3, 31)
      else Some (0, 0)
  else if format =? 6 then (* A5I3 *)
    let vramaddr := u32 (vramaddr + s32 (s32 (t * width) + s)) in
    pixel ← ReadVRAM_Texture_u8 vram vramaddr;
    let texpal := u32 (Z.shiftl texpal 4) in
    color ← ReadVRAM_TexPal_u16 vram (u32 (texpal + Z.shiftl (Z.land pixel 0x7) 1));
    Some (color, Z.shiftr pixel 3)
  else if format =? 7 then (* direct color *)
    let vramaddr := u32 (vramaddr + s32 (Z.shiftl (s32 (s32 (t * width) + s)) 1)) in
    color ← ReadVRAM_Texture_u16 vram vramaddr;
    Some (color, if nonzero (Z.land color 0x8000) then 31 else 0)
  else Some out.

(** 5-bit to 6-bit channel expansion, written three times in RenderPixel
    as [c = (color << k) & 0x3E; if (c) c++]. *)
Definition expand5 (field : Z) : Z :=
  let c := u8 (Z.land field 0x3E) in
  if nonzero c then u8 (c + 1) else c.

(** ** Polygons

    Modelled from the spec: [Vertex] and [Polygon] are declared in GPU3D.h,
    which is not among the sources; the fields are those the spec's
    section 3 lists and this file reads.  The arrays [FinalPosition],
    [FinalColor] and [TexCoords] of a vertex are tuples. *)

Record Vertex : Type := {
  FinalPosition : Z * Z;
  FinalColor : Z * Z * Z;
  TexCoords : Z * Z
}.

Record Polygon : Type := {
  Vertices : list Vertex;
  NumVertices : Z;
  FinalZ : list Z;
  FinalW : list Z;
  WBuffer : bool;
  Attr : Z;
  TexParam : Z;
  TexPalette : Z;
  FacingView : bool;
  IsShadowMask : bool;
  IsShadow : bool;
  VTop : Z; VBottom : Z;
  YTop : Z; YBottom : Z
}.

(** ** Pixel pipeline *)

Definition toon_lookup (regs : Registers) (vr : Z) : option (Z * Z * Z) :=
  tooncolor ← load regs.(RenderToonTable) (Z.shiftr vr 1);
  Some (expand5 (Z.shiftl tooncolor 1),
        expand5 (Z.shiftr tooncolor 4),
        expand5 (Z.shiftr tooncolor 9)).

Definition RenderPixel (regs : Registers) (vram : VRAM) (polygon : Polygon)
    (vr vg vb s t : Z) : option Z :=
  let blendmode := Z.land (Z.shiftr polygon.(Attr) 4) 0x3 in
  let polyalpha := Z.land (Z.shiftr polygon.(Attr) 16) 0x1F in
  let wireframe := polyalpha =? 0 in
  '(vr, vg, vb) ←
    (if blendmode =? 2 then
       if bit regs.(RenderDispCnt) 1 then Some (vr, vr, vr)
       else toon_lookup regs vr
     else Some (vr, vg, vb));
  '(r, g, b, a) ←
    (if bit regs.(RenderDispCnt) 0
        && negb (Z.land (Z.shiftr polygon.(TexParam) 26) 0x7 =? 0) then
       '(tcolor, talpha) ←
         TextureLookup vram polygon.(TexParam) polygon.(TexPalette) s t (0, 0);
       let tr := expand5 (Z.shiftl tcolor 1) in
       let tg := expand5 (Z.shiftr tcolor 4) in
       let tb := expand5 (Z.shiftr tcolor 9) in
       if nonzero (Z.land blendmode 0x1) then
         if talpha =? 0 then Some (vr, vg, vb, polyalpha)
         else if talpha =? 31 then Some (tr, tg, tb, polyalpha)
         else
           Some (u8 (Z.shiftr (tr * talpha + vr * (31 - talpha)) 5),
                 u8 (Z.shiftr (tg * talpha + vg * (31 - talpha)) 5),
                 u8 (Z.shiftr (tb * talpha + vb * (31 - talpha)) 5),
                 polyalpha)
       else
         Some (u8 (Z.shiftr ((tr + 1) * (vr + 1) - 1) 6),
               u8 (Z.shiftr ((tg + 1) * (vg + 1) - 1) 6),
               u8 (Z.shiftr ((tb + 1) * (vb + 1) - 1) 6),
               u8 (Z.shiftr ((talpha + 1) * (polyalpha + 1) - 1) 5))
     else Some (vr, vg, vb, polyalpha));
  '(r, g, b) ←
    (if (blendmode =? 2) && bit regs.(RenderDispCnt) 1 then
       '(tr, tg, tb) ← toon_lookup regs vr;
       let r := u8 (r + tr) in
       let g := u8 (g + tg) in
       let b := u8 (b + tb) in
       Some (if r >? 63 then 63 else r,
             if g >? 63 then 63 else g,
             if b >? 63 then 63 else b)
     else Some (r, g, b));
  let a := if wireframe then 31 else a in
  Some (u32 (Z.lor (Z.lor (Z.lor r (Z.shiftl g 8)) (Z.shiftl b 16)) (Z.shiftl a 24))).

(** ** Frame buffers and the translucent plot *)

Record Buffers : Type := {
  ColorBuffer : list Z;
  DepthBuffer : list Z;
  AttrBuffer : list Z;
  StencilBuffer : list Z;
  PrevIsShadowMask : bool
}.

Definition PlotTranslucentPixel (regs : Registers) (bufs : Buffers)
    (pixeladdr color z polyattr shadow : Z) : option Buffers :=
  dstattr ← load bufs.(AttrBuffer) pixeladdr;
  let attr :=
    Z.lor (Z.lor (Z.lor (Z.land polyattr 0xE0F0)
                        (Z.land (Z.shiftr polyattr 8) 0xFF0000))
                 (Z.shiftl 1 22))
          (Z.land dstattr 0xFF001F0F) in
  let skip :=
    if nonzero shadow then
      if bit dstattr 22 then Z.land dstattr 0x007F0000 =? Z.land attr 0x007F0000
      else Z.land dstattr 0x3F000000 =? Z.land polyattr 0x3F000000
    else Z.land dstattr 0x007F0000 =? Z.land attr 0x007F0000 in
  if skip then Some bufs
  else
    let attr := if negb (bit dstattr 15) then Z.land attr (u32 (Z.lnot (Z.shiftl 1 15))) else attr in
    dstcolor ← load bufs.(ColorBuffer) pixeladdr;
    let color := AlphaBlend regs color dstcolor (Z.shiftr color 24) in
    depth ← (if negb (z =? u32 (-1)) then store bufs.(DepthBuffer) pixeladdr z
             else Some bufs.(DepthBuffer));
    colors ← store bufs.(ColorBuffer) pixeladdr color;
    attrs ← store bufs.(AttrBuffer) pixeladdr attr;
    Some {| ColorBuffer := colors; DepthBuffer := depth; AttrBuffer := attrs;
            StencilBuffer := bufs.(StencilBuffer);
            PrevIsShadowMask := bufs.(PrevIsShadowMask) |}.

(** ** Polygon setup *)

Record RendererPolygon : Type := {
  PolyData : Polygon;
  SlopeL : Slope.t;
  SlopeR : Slope.t;
  XL : Z; XR : Z;
  CurVL : Z; CurVR : Z;
  NextVL : Z; NextVR : Z
}.

(** The two ways round the vertex fan, on [u32] indices:
    [n = cur + 1; if (n >= NumVertices) n = 0] and
    [n = cur - 1; if ((s32)n < 0) n = NumVertices - 1]. *)
Definition vertex_after (polygon : Polygon) (cur : Z) : Z :=
  let n := u32 (cur + 1) in
  if n >=? polygon.(NumVertices) then 0 else n.

Definition vertex_before (polygon : Polygon) (cur : Z) : Z :=
  let n := u32 (cur - 1) in
  if s32 n <? 0 then u32 (polygon.(NumVertices) - 1) else n.

(** The loop of SetupPolygonLeftEdge / SetupPolygonRightEdge.  [forward]
    says whether this edge walks the fan with [vertex_after].  Every round
    moves [cur] to the next vertex, so a loop that leaves at all does so
    within [NumVertices] rounds; a loop that never leaves is [None]. *)
Fixpoint walk_edge (fuel : nat) (polygon : Polygon) (forward : bool) (y cur next : Z)
  : option (Z * Z) :=
  match fuel with
  | O => None
  | S fuel' =>
      v ← load polygon.(Vertices) next;
      if (y >=? snd v.(FinalPosition)) && negb (cur =? polygon.(VBottom)) then
        let cur := next in
        let next := if forward then vertex_after polygon cur else vertex_before polygon cur in
        walk_edge fuel' polygon forward y cur next
      else Some (cur, next)
  end.

Definition walk_fuel (polygon : Polygon) : nat := S (Z.to_nat polygon.(NumVertices)).

Definition setup_slope (side : bool) (polygon : Polygon) (slope : Slope.t) (cur next y : Z)
  : option (Slope.t * Z) :=
  vc ← load polygon.(Vertices) cur;
  vn ← load polygon.(Vertices) next;
  wc ← load polygon.(FinalW) cur;
  wn ← load polygon.(FinalW) next;
  Some (Slope.Setup side slope
          (fst vc.(FinalPosition)) (fst vn.(FinalPosition))
          (snd vc.(FinalPosition)) (snd vn.(FinalPosition)) wc wn y).

Definition SetupPolygonLeftEdge (rp : RendererPolygon) (y : Z) : option RendererPolygon :=
  let polygon := rp.(PolyData) in
  '(cur, next) ← walk_edge (walk_fuel polygon) polygon polygon.(FacingView) y
                           rp.(CurVL) rp.(NextVL);
  '(slope, x) ← setup_slope false polygon rp.(SlopeL) cur next y;
  Some {| PolyData := polygon; SlopeL := slope; SlopeR := rp.(SlopeR);
          XL := x; XR := rp.(XR);
          CurVL := cur; CurVR := rp.(CurVR); NextVL := next; NextVR := rp.(NextVR) |}.

Definition SetupPolygonRightEdge (rp : RendererPolygon) (y : Z) : option RendererPolygon :=
  let polygon := rp.(PolyData) in
  '(cur, next) ← walk_edge (walk_fuel polygon) polygon (negb polygon.(FacingView)) y
                           rp.(CurVR) rp.(NextVR);
  '(slope, x) ← setup_slope true polygon rp.(SlopeR) cur next y;
  Some {| PolyData := polygon; SlopeL := rp.(SlopeL); SlopeR := slope;
          XL := rp.(XL); XR := x;
          CurVL := rp.(CurVL); CurVR := cur; NextVL := rp.(NextVL); NextVR := next |}.

Definition SetupPolygon (rp : RendererPolygon) (polygon : Polygon) : option RendererPolygon :=
  let nverts := polygon.(NumVertices) in
  let vtop := polygon.(VTop) in
  let ytop := polygon.(YTop) in
  let ybot := polygon.(YBottom) in
  let '(nextL, nextR) :=
    if polygon.(FacingView) then (vertex_after polygon vtop, vertex_before polygon vtop)
    else (vertex_before polygon vtop, vertex_after polygon vtop) in
  if ybot =? ytop then
    let xof (i : Z) : option Z := v ← load polygon.(Vertices) i; Some (fst v.(FinalPosition)) in
    let pick (i : Z) (tb : Z * Z) : option (Z * Z) :=
      let '(vtop, vbot) := tb in
      xi ← xof i; xt ← xof vtop;
      let vtop := if xi <? xt then i else vtop in
      xb ← xof vbot;
      let vbot := if xi >? xb then i else vbot in
      Some (vtop, vbot) in
    tb ← pick 1 (0, 0);
    '(vtop, vbot) ← pick (s32 (u32 (nverts - 1))) tb;
    xl ← xof vtop;
    xr ← xof vbot;
    let '(sl, XL) := Slope.SetupDummy false rp.(SlopeL) xl in
    let '(sr, XR) := Slope.SetupDummy true rp.(SlopeR) xr in
    Some {| PolyData := polygon; SlopeL := sl; SlopeR := sr; XL := XL; XR := XR;
            CurVL := vtop; CurVR := vbot; NextVL := vtop; NextVR := vbot |}
  else
    rp ← SetupPolygonLeftEdge
           {| PolyData := polygon; SlopeL := rp.(SlopeL); SlopeR := rp.(SlopeR);
              XL := rp.(XL); XR := rp.(XR);
              CurVL := vtop; CurVR := vtop; NextVL := nextL; NextVR := nextR |} ytop;
    SetupPolygonRightEdge rp ytop.

(** ** Shadow-mask scanline *)

Definition DepthTest : Type := Z -> Z -> Z -> bool.

(** The choice of [fnDepthTest], the same in RenderShadowMaskScanline and
    RenderPolygonScanline. *)
Definition fnDepthTest (polygon : Polygon) : DepthTest :=
  if bit polygon.(Attr) 14 then
    if polygon.(WBuffer) then DepthTest_Equal_W else DepthTest_Equal_Z
  else if polygon.(FacingView) then DepthTest_LessThan_FrontFacing
  else DepthTest_LessThan.

(** [for (; x < xlimit; x++) body], with the loop state threaded through;
    a [continue] is a body that returns its state as it is. *)
Fixpoint for_x {S : Type} (n : nat) (x : Z) (body : Z -> S -> option S) (s : S) : option S :=
  match n with
  | O => Some s
  | S n' => s' ← body x s; for_x n' (x + 1) body s'
  end.

Definition for_upto {S : Type} (x xlimit : Z) (body : Z -> S -> option S) (s : S)
  : option (Z * S) :=
  s' ← for_x (Z.to_nat (xlimit - x)) x body s;
  Some (Z.max x xlimit, s').

(** [memset(&StencilBuffer[start], 0, 256)] *)
Definition clear_stencil_row (stencil : list Z) (start : Z) : list Z :=
  take (Z.to_nat start) stencil ++ replicate 256 0
    ++ drop (Z.to_nat start + 256) stencil.

(** [StencilBuffer[i] |= v] *)
Definition stencil_or (stencil : list Z) (i v : Z) : option (list Z) :=
  old ← load stencil i; store stencil i (u8 (Z.lor old v)).

Definition pixel_address (y x : Z) : Z :=
  u32 (s32 (FirstPixelOffset + s32 (y * ScanlineWidth)) + x).

(** The test against the pixel underneath, the same at the end of the three
    loop bodies. *)
Definition mask_lower_pixel (fn : DepthTest) (bufs : Buffers) (y x z dstattr pixeladdr : Z)
    (stencil : list Z) : option (list Z) :=
  if nonzero (Z.land dstattr 0x3) then
    let pixeladdr := u32 (pixeladdr + BufferSize) in
    dstz ← load bufs.(DepthBuffer) pixeladdr;
    dstattr ← load bufs.(AttrBuffer) pixeladdr;
    if negb (fn (s32 dstz) z dstattr) then
      stencil_or stencil (256 * Z.land y 0x1 + x) 0x2
    else Some stencil
  else Some stencil.

Definition mask_state : Type := Interpolator.t * list Z.

(** Body of the left-edge loop: the top-pixel failure is OR-ed in. *)
Definition mask_left_pixel (fn : DepthTest) (bufs : Buffers) (wbuffer filledge : bool)
    (y zl zr : Z) (x : Z) (st : mask_state) : option mask_state :=
  let '(interpX, stencil) := st in
  let pixeladdr := pixel_address y x in
  let interpX := Interpolator.SetX interpX x in
  let z := Interpolator.InterpolateZ false interpX zl zr wbuffer in
  dstattr ← load bufs.(AttrBuffer) pixeladdr;
  if negb filledge then Some (interpX, stencil)
  else
    dstz ← load bufs.(DepthBuffer) pixeladdr;
    stencil ← (if negb (fn (s32 dstz) z dstattr) then
                 stencil_or stencil (256 * Z.land y 0x1 + x) 0x1
               else Some stencil);
    stencil ← mask_lower_pixel fn bufs y x z dstattr pixeladdr stencil;
    Some (interpX, stencil).

(** Body of the interior loop and, with [filledge] for [r_filledge], of
    the right-edge loop: the top-pixel failure is assigned,
    [StencilBuffer[...] = 1]. *)
Definition mask_inner_pixel (fn : DepthTest) (bufs : Buffers) (wbuffer filledge : bool)
    (y zl zr : Z) (x : Z) (st : mask_state) : option mask_state :=
  let '(interpX, stencil) := st in
  let pixeladdr := pixel_address y x in
  let interpX := Interpolator.SetX interpX x in
  let z := Interpolator.InterpolateZ false interpX zl zr wbuffer in
  dstattr ← load bufs.(AttrBuffer) pixeladdr;
  if negb filledge then Some (interpX, stencil)
  else
    dstz ← load bufs.(DepthBuffer) pixeladdr;
    stencil ← (if negb (fn (s32 dstz) z dstattr) then
                 store stencil (256 * Z.land y 0x1 + x) 1
               else Some stencil);
    stencil ← mask_lower_pixel fn bufs y x z dstattr pixeladdr stencil;
    Some (interpX, stencil).

(** [uninit] stands for the indeterminate members of the automatic object
    [interpX] before its constructor runs [Setup].  The locals [polyattr],
    [vlcur..vrnext], [interp_start], [interp_end], [l_edgecov],
    [r_edgecov] and [edge] of parts 1 and 3 are written and never read in
    this function and are left out. *)
Definition RenderShadowMaskScanline (regs : Registers) (uninit : Interpolator.t)
    (bufs : Buffers) (rp : RendererPolygon) (y : Z)
  : option (Buffers * RendererPolygon) :=
  let polygon := rp.(PolyData) in
  let polyalpha := Z.land (Z.shiftr polygon.(Attr) 16) 0x1F in
  let wireframe := polyalpha =? 0 in
  let fn := fnDepthTest polygon in
  let stencil :=
    if negb bufs.(PrevIsShadowMask) then
      clear_stencil_row bufs.(StencilBuffer) (256 * Z.land y 0x1)
    else bufs.(StencilBuffer) in
  let bufs :=
    {| ColorBuffer := bufs.(ColorBuffer); DepthBuffer := bufs.(DepthBuffer);
       AttrBuffer := bufs.(AttrBuffer); StencilBuffer := stencil;
       PrevIsShadowMask := true |} in
  rp ← (if negb (polygon.(YTop) =? polygon.(YBottom)) then
          vl ← load polygon.(Vertices) rp.(NextVL);
          rp ← (if (y >=? snd vl.(FinalPosition)) && negb (rp.(CurVL) =? polygon.(VBottom))
                then SetupPolygonLeftEdge rp y else Some rp);
          vr ← load polygon.(Vertices) rp.(NextVR);
          if (y >=? snd vr.(FinalPosition)) && negb (rp.(CurVR) =? polygon.(VBottom))
          then SetupPolygonRightEdge rp y else Some rp
        else Some rp);
  let xstart := rp.(XL) in
  let xend := rp.(XR) in
  let '(l_filledge, r_filledge) :=
    if (polyalpha <? 31) || nonzero (Z.land regs.(RenderDispCnt) (Z.shiftl 3 4)) then (true, true)
    else (rp.(SlopeL).(Slope.Negative) || negb rp.(SlopeL).(Slope.XMajor),
          (negb rp.(SlopeR).(Slope.Negative) && rp.(SlopeR).(Slope.XMajor))
          || (rp.(SlopeR).(Slope.Increment) =? 0)) in
  wlc ← load polygon.(FinalW) rp.(CurVL); wln ← load polygon.(FinalW) rp.(NextVL);
  wrc ← load polygon.(FinalW) rp.(CurVR); wrn ← load polygon.(FinalW) rp.(NextVR);
  zlc ← load polygon.(FinalZ) rp.(CurVL); zln ← load polygon.(FinalZ) rp.(NextVL);
  zrc ← load polygon.(FinalZ) rp.(CurVR); zrn ← load polygon.(FinalZ) rp.(NextVR);
  let wl := Interpolator.Interpolate rp.(SlopeL).(Slope.Interp) wlc wln in
  let wr := Interpolator.Interpolate rp.(SlopeR).(Slope.Interp) wrc wrn in
  let zl := Interpolator.InterpolateZ true rp.(SlopeL).(Slope.Interp) zlc zln polygon.(WBuffer) in
  let zr := Interpolator.InterpolateZ true rp.(SlopeR).(Slope.Interp) zrc zrn polygon.(WBuffer) in
  let '(xstart, xend, wl, wr, zl, zr, l_filledge, r_filledge, l_edgelen, r_edgelen) :=
    if xstart >? xend then
      (xend, xstart, wr, wl, zr, zl, r_filledge, l_filledge,
       fst (Slope.EdgeParams_YMajor true rp.(SlopeR)),
       fst (Slope.EdgeParams_YMajor false rp.(SlopeL)))
    else
      (xstart, xend, wl, wr, zl, zr, l_filledge, r_filledge,
       fst (Slope.EdgeParams false rp.(SlopeL)),
       fst (Slope.EdgeParams true rp.(SlopeR))) in
  let polyalpha := if wireframe then 31 else polyalpha in
  if polyalpha <=? regs.(RenderAlphaRef) then Some (bufs, rp)
  else
    let yedge :=
      if y =? polygon.(YTop) then 0x4
      else if y =? s32 (polygon.(YBottom) - 1) then 0x8 else 0 in
    let x := xstart in
    let interpX := Interpolator.Setup false uninit xstart (s32 (xend + 1)) wl wr in
    let x := if x <? 0 then 0 else x in
    let clamp_limit (xlimit : Z) : Z :=
      let xlimit := if xlimit >? s32 (xend + 1) then s32 (xend + 1) else xlimit in
      if xlimit >? 256 then 256 else xlimit in
    (* part 1: left edge *)
    let xlimit := clamp_limit (s32 (xstart + l_edgelen)) in
    '(x, st) ← for_upto x xlimit
                 (mask_left_pixel fn bufs polygon.(WBuffer) l_filledge y zl zr)
                 (interpX, stencil);
    (* part 2: polygon inside *)
    let edge := yedge in
    let xlimit := clamp_limit (s32 (s32 (xend - r_edgelen) + 1)) in
    '(x, st) ← (if wireframe && negb (nonzero edge) then Some (xlimit, st)
                else for_upto x xlimit
                       (mask_inner_pixel fn bufs polygon.(WBuffer) true y zl zr) st);
    (* part 3: right edge *)
    let xlimit := s32 (xend + 1) in
    let xlimit := if xlimit >? 256 then 256 else xlimit in
    '(x, st) ← for_upto x xlimit
                 (mask_inner_pixel fn bufs polygon.(WBuffer) r_filledge y zl zr) st;
    let '(sl, XL) := Slope.Step rp.(SlopeL) in
    let '(sr, XR) := Slope.Step rp.(SlopeR) in
    Some ({| ColorBuffer := bufs.(ColorBuffer); DepthBuffer := bufs.(DepthBuffer);
             AttrBuffer := bufs.(AttrBuffer); StencilBuffer := snd st;
             PrevIsShadowMask := true |},
          {| PolyData := polygon; SlopeL := sl; SlopeR := sr; XL := XL; XR := XR;
             CurVL := rp.(CurVL); CurVR := rp.(CurVR);
             NextVL := rp.(NextVL); NextVR := rp.(NextVR) |}).

(** ** Rear-plane image

    The two reads of the loop body of ClearBuffers' image branch, at the
    current offsets [xoff] and [yoff] (both [u8]). *)

Definition rear_image_reads (vram : VRAM) (xoff yoff : Z) : option (Z * Z) :=
  val2 ← ReadVRAM_Texture_u16 vram
           (u32 (s32 (s32 (0x40000 + s32 (Z.shiftl yoff 9)) + s32 (Z.shiftl xoff 1))));
  val3 ← ReadVRAM_Texture_u16 vram
           (u32 (s32 (s32 (0x60000 + s32 (Z.shiftl yoff 9)) + s32 (Z.shiftl xoff 1))));
  Some (val2, val3).

(** ** Fog density *)

(** The density index and fraction of a depth value [z]. *)
Definition fog_index (regs : Registers) (z : Z) : Z * Z :=
  if z <? regs.(RenderFogOffset) then (0, 0)
  else
    let z := u32 (z - regs.(RenderFogOffset)) in
    let z := u32 (Z.shiftl (Z.shiftr z 2) regs.(RenderFogShift)) in
    let densityid := Z.shiftr z 17 in
    if densityid >=? 32 then (32, 0)
    else (densityid, Z.land z 0x1FFFF).

Definition CalculateFogDensity (regs : Registers) (bufs : Buffers) (pixeladdr : Z)
  : option Z :=
  z ← load bufs.(DepthBuffer) pixeladdr;
  let '(densityid, densityfrac) := fog_index regs z in
  t0 ← load regs.(RenderFogDensityTable) densityid;
  t1 ← load regs.(RenderFogDensityTable) (u32 (densityid + 1));
  let density :=
    Z.shiftr (u32 (u32 (t0 * u32 (0x20000 - densityfrac)) + u32 (t1 * densityfrac))) 17 in
  Some (if density >=? 127 then 128 else density).

(** ** Line read-out

    The returned pointer is the index into [ColorBuffer] it points to.  The
    wait on [Sema_ScanlineCount] is recorded as an effect; what it blocks
    on is outside this model. *)

Inductive sync : Type := NoWait | WaitScanline.

Definition GetLine (RenderThreadRunning : bool) (line : Z) : sync * Z :=
  (if RenderThreadRunning && (line <? 192) then WaitScanline else NoWait,
   s32 (s32 (line * ScanlineWidth) + FirstPixelOffset)).

(** * Statements of the specification *)

(** [x] lies between the end points, whichever way round they are. *)
Definition between (x0 x x1 : Z) : Prop :=
  x0 <= x <= x1 \/ x1 <= x <= x0.

(** The value of a linear interpolator after [SetX x]. *)
Definition linear_value (dir : bool) (this : Interpolator.t) (x0 x1 w x a b : Z) : Z :=
  Interpolator.Interpolate
    (Interpolator.SetX (Interpolator.Setup dir this x0 x1 w w) x) a b.

(** A slope set up on its first scanline ([y = y0]). *)
Definition slope_at_top (side : bool) (this : Slope.t) (x0 x1 y0 y1 w0 w1 : Z) : Slope.t :=
  fst (Slope.Setup side this x0 x1 y0 y1 w0 w1 y0).

(** [v] clamped to [lo, hi], as XVal clamps. *)
Definition clamp (lo hi v : Z) : Z :=
  if v <? lo then lo else if v >? hi then hi else v.

(** The interpolated table value before the final clamp, as the
    specification writes it. *)
Definition fog_interpolated (t0 t1 frac : Z) : Z :=
  Z.shiftr (t0 * (0x20000 - frac) + t1 * frac) 17.

(** The 6-bit blend of the specification's alpha-blend formula. *)
Definition blend_channel (src dst alpha : Z) : Z :=
  Z.shiftr (src * (alpha + 1) + dst * (32 - (alpha + 1))) 5.

(** Translucent polygon id of an attribute word (bits 16-21) and the
    polygon id carried by the incoming [polyattr] (bits 24-29). *)
Definition translucent_id (attr : Z) : Z := Z.land (Z.shiftr attr 16) 0x3F.
Definition incoming_id (polyattr : Z) : Z := Z.land (Z.shiftr polyattr 24) 0x3F.

(** XVal reads five members of the slope; this is its body as a function
    of them. *)
Definition xval (neg : bool) (x0 lo hi dx : Z) : Z :=
  clamp lo hi (if neg then s32 (x0 - Z.shiftr dx 18) else s32 (x0 + Z.shiftr dx 18)).

(** What Setup leaves in [xlen], [Increment] and [dx] on the first scanline
    of an edge whose coordinates are on screen. *)
Definition top_xlen (x0 x1 : Z) : Z := if x1 =? x0 then 1 else Z.abs (x1 - x0).
Definition top_increment (x0 x1 ylen : Z) : Z :=
  if ylen =? top_xlen x0 x1 then 0x40000 else Z.abs (x1 - x0) * (2 ^ 18 / ylen).
Definition top_dx (side : bool) (x0 x1 ylen : Z) : Z :=
  let inc := top_increment x0 x1 ylen in
  let neg := x1 <? x0 in
  if inc >? 0x40000 then
    if side then (if neg then 0x60000 else inc - 0x20000)
    else (if neg then inc + 0x20000 else 0x20000)
  else if inc =? 0 then (if side then -0x40000 else 0)
  else if neg then 0x40000 else 0.

(** The rounded quotient of the linear path: [(d * m * R + (3<<24)) >> 30]. *)
Definition linear_step (d m R : Z) : Z := (d * m * R + 3 * 2 ^ 24) / 2 ^ 30.

(** Flat views of the right sizes, filled with zero bytes. *)
Definition blank_vram : VRAM :=
  {| VRAMFlat_Texture := replicate (Z.to_nat 0x80000) Byte.x00;
     VRAMFlat_TexPal := replicate (Z.to_nat 0x20000) Byte.x00 |}.

(** ** A scene for the shadow-mask pass *)

Definition scene_registers : Registers :=
  {| RenderDispCnt := 0; RenderAlphaRef := 0; RenderFogOffset := 0; RenderFogShift := 0;
     RenderFogDensityTable := []; RenderToonTable := [] |}.

(** A front-facing shadow-mask rectangle over columns 10..29 of lines 0..9,
    at constant depth [z]: polygon id 0, shadow mode, alpha 16. *)
Definition scene_mask (z : Z) : Polygon :=
  let v (x y : Z) :=
    {| FinalPosition := (x, y); FinalColor := (0, 0, 0); TexCoords := (0, 0) |} in
  {| Vertices := [v 10 0; v 10 10; v 30 10; v 30 0];
     NumVertices := 4;
     FinalZ := [z; z; z; z];
     FinalW := [0x1000; 0x1000; 0x1000; 0x1000];
     WBuffer := false;
     Attr := 0x00100030;
     TexParam := 0; TexPalette := 0;
     FacingView := true; IsShadowMask := true; IsShadow := false;
     VTop := 0; VBottom := 2; YTop := 0; YBottom := 10 |}.

Definition blank_polygon : RendererPolygon :=
  {| PolyData := scene_mask 0; SlopeL := Slope.blank; SlopeR := Slope.blank;
     XL := 0; XR := 0; CurVL := 0; CurVR := 0; NextVL := 0; NextVR := 0 |}.

(** Line 0 after a clear to the far plane, except that columns 10 and 15
    each hold an edge pixel of depth 100 over a second-layer pixel of depth
    200.  Column 10 is on the left edge of [scene_mask], column 15 inside. *)
Definition scene_buffers : Buffers :=
  let cells := Z.to_nat (2 * BufferSize) in
  let put (x v : Z) (lower : bool) (buf : list Z) : list Z :=
    <[Z.to_nat (pixel_address 0 x + if lower then BufferSize else 0) := v]> buf in
  {| ColorBuffer := replicate cells 0;
     DepthBuffer := put 10 100 false (put 10 200 true
                      (put 15 100 false (put 15 200 true (replicate cells 0xFFFFFF))));
     AttrBuffer := put 10 0x1 false (put 15 0x1 false (replicate cells 0));
     StencilBuffer := replicate 512 0;
     PrevIsShadowMask := false |}.

(** Two shadow masks of depths [z1] and [z2] rendered one after the other
    on line 0; the stencil row after each. *)
Definition two_masks (z1 z2 : Z) : option (list Z * list Z) :=
  rp1 ← SetupPolygon blank_polygon (scene_mask z1);
  rp2 ← SetupPolygon blank_polygon (scene_mask z2);
  '(bufs1, _) ← RenderShadowMaskScanline scene_registers Interpolator.blank
                                         scene_buffers rp1 0;
  '(bufs2, _) ← RenderShadowMaskScanline scene_registers Interpolator.blank bufs1 rp2 0;
  Some (take 256 bufs1.(StencilBuffer), take 256 bufs2.(StencilBuffer)).

(** Every bit set in an entry of [old] is still set in [new]. *)
Definition bits_kept (old new : list Z) : Prop :=
  length new = length old /\
  forall j v, old !! j = Some v -> exists v', new !! j = Some v' /\ Z.land v v' = v.

(** * Predicates and sample data for the further facts *)

(** [new] differs from [old] at index [i] at most. *)
Definition same_but_at {A : Type} (i : Z) (old new : list A) : Prop :=
  length new = length old /\ forall j : nat, j <> Z.to_nat i -> new !! j = old !! j.

(** [new] is [old] outside the 256 entries from [start]. *)
Definition same_outside_row (start : Z) (old new : list Z) : Prop :=
  length new = length old /\
  forall j : nat, ~ (start <= Z.of_nat j < start + 256) -> new !! j = old !! j.

(** A polygon whose vertex arrays hold [NumVertices] entries and whose top
    and bottom vertices are among them. *)
Definition polygon_ok (p : Polygon) : Prop :=
  2 <= p.(NumVertices) < 2 ^ 31 /\
  Z.of_nat (length p.(Vertices)) = p.(NumVertices) /\
  Z.of_nat (length p.(FinalW)) = p.(NumVertices) /\
  0 <= p.(VTop) < p.(NumVertices) /\
  0 <= p.(VBottom) < p.(NumVertices).

(** The next vertex of an edge walk. *)
Definition next_vertex (p : Polygon) (forward : bool) (cur : Z) : Z :=
  if forward then vertex_after p cur else vertex_before p cur.

(** The condition under which the edge loops go on. *)
Definition edge_passed (p : Polygon) (y cur next : Z) : option bool :=
  v ← load p.(Vertices) next;
  Some ((y >=? snd v.(FinalPosition)) && negb (cur =? p.(VBottom))).

(** A triangle with its top vertex at (40, 0) and its base on line 40,
    front-facing, with the given attribute word. *)
Definition sample_vertex (x y : Z) : Vertex :=
  {| FinalPosition := (x, y); FinalColor := (0x1F8, 0x100, 0x080); TexCoords := (0, 0) |}.

Definition sample_triangle (attr : Z) (mask shadow : bool) : Polygon :=
  {| Vertices := [sample_vertex 40 0; sample_vertex 10 40; sample_vertex 90 40];
     NumVertices := 3;
     FinalZ := [0x1000; 0x3000; 0x2000]; FinalW := [0x1000; 0x1000; 0x1000];
     WBuffer := false; Attr := attr; TexParam := 0; TexPalette := 0;
     FacingView := true; IsShadowMask := mask; IsShadow := shadow;
     VTop := 0; VBottom := 2; YTop := 0; YBottom := 40 |}.

Definition sample_setup (p : Polygon) : option RendererPolygon :=
  SetupPolygon {| PolyData := p; SlopeL := Slope.blank; SlopeR := Slope.blank;
                  XL := 0; XR := 0; CurVL := 0; CurVR := 0; NextVL := 0; NextVR := 0 |} p.

Definition sample_registers (dispcnt : Z) : Registers :=
  {| RenderDispCnt := dispcnt; RenderAlphaRef := 0; RenderFogOffset := 0;
     RenderFogShift := 0; RenderFogDensityTable := replicate 34 0;
     RenderToonTable := replicate 32 0 |}.

(** The first four buffer rows of a cleared frame, with every stencil
    entry set to [stencil]. *)
Definition sample_buffers (stencil : Z) : Buffers :=
  {| ColorBuffer := replicate 1032 0; DepthBuffer := replicate 1032 0xFFFFFF;
     AttrBuffer := replicate 1032 0; StencilBuffer := replicate 512 stencil;
     PrevIsShadowMask := false |}.

(** * The polygon scanline *)

(** The loop state of RenderPolygonScanline: the automatic [interpX], the
    frame buffers and [xcov]. *)
Definition scan_state : Type := Interpolator.t * Buffers * Z.

(** [if (edgecov & (1<<31)) { xcov = (edgecov >> 12) & 0x3FF;
     if (xcov == 0x3FF) xcov = 0; }] *)
Definition start_xcov (edgecov xcov : Z) : Z :=
  if nonzero (Z.land edgecov (s32 (Z.shiftl 1 31))) then
    let xcov := Z.land (Z.shiftr edgecov 12) 0x3FF in
    if xcov =? 0x3FF then 0 else xcov
  else xcov.

(** The coverage of an opaque edge pixel and the [xcov] after it;
    [right_edge = false] is the code of the left-edge loop, [true] the
    code of the right-edge loop. *)
Definition edge_coverage (right_edge : bool) (edgecov xcov : Z) : Z * Z :=
  if nonzero (Z.land edgecov (s32 (Z.shiftl 1 31))) then
    let cov :=
      if right_edge then
        let cov := s32 (0x1F - Z.shiftr xcov 5) in
        if cov <? 0 then 0 else cov
      else
        let cov := Z.shiftr xcov 5 in
        if cov >? 31 then 31 else cov in
    (cov, s32 (xcov + Z.land edgecov 0x3FF))
  else (edgecov, xcov).

(** [ColorBuffer[pixeladdr+BufferSize] = ColorBuffer[pixeladdr]], and the
    same for the depth and attribute buffers. *)
Definition push_down (bufs : Buffers) (pixeladdr : Z) : option Buffers :=
  c ← load bufs.(ColorBuffer) pixeladdr;
  colors ← store bufs.(ColorBuffer) (u32 (pixeladdr + BufferSize)) c;
  d ← load bufs.(DepthBuffer) pixeladdr;
  depths ← store bufs.(DepthBuffer) (u32 (pixeladdr + BufferSize)) d;
  a ← load bufs.(AttrBuffer) pixeladdr;
  attrs ← store bufs.(AttrBuffer) (u32 (pixeladdr + BufferSize)) a;
  Some {| ColorBuffer := colors; DepthBuffer := depths; AttrBuffer := attrs;
          StencilBuffer := bufs.(StencilBuffer);
          PrevIsShadowMask := bufs.(PrevIsShadowMask) |}.

(** The stencil check of a shadow polygon: [None] is the [continue] on an
    empty stencil, otherwise the pixel address and destination attributes
    to go on with. *)
Definition shadow_target (polygon : Polygon) (bufs : Buffers) (y x pixeladdr dstattr : Z)
  : option (option (Z * Z)) :=
  if polygon.(IsShadow) then
    stencil ← load bufs.(StencilBuffer) (256 * Z.land y 0x1 + x);
    if stencil =? 0 then Some None
    else
      Some (Some (if negb (nonzero (Z.land stencil 0x1)) then u32 (pixeladdr + BufferSize)
                  else pixeladdr,
                  if negb (nonzero (Z.land stencil 0x2)) then Z.land dstattr (u32 (Z.lnot 0x3))
                  else dstattr))
  else Some (Some (pixeladdr, dstattr)).

(** The depth test against the topmost pixel and, if that fails on an
    edge pixel, against the pixel underneath; [None] is a [continue]. *)
Definition depth_target (fn : DepthTest) (bufs : Buffers) (z pixeladdr dstattr : Z)
  : option (option (Z * Z)) :=
  dstz ← load bufs.(DepthBuffer) pixeladdr;
  if negb (fn (s32 dstz) z dstattr) then
    if negb (nonzero (Z.land dstattr 0x3)) then Some None
    else
      let pixeladdr := u32 (pixeladdr + BufferSize) in
      dstattr ← load bufs.(AttrBuffer) pixeladdr;
      dstz ← load bufs.(DepthBuffer) pixeladdr;
      if negb (fn (s32 dstz) z dstattr) then Some None
      else Some (Some (pixeladdr, dstattr))
  else Some (Some (pixeladdr, dstattr)).

(** The colours and texture coordinates at the two ends of a span. *)
Record SpanEnds : Type := {
  rl : Z; rr : Z; gl : Z; gr : Z; bl : Z; br : Z;
  sl : Z; sr : Z; tl : Z; tr : Z
}.

(** Body of the three pixel loops.  [cover] is [None] in the interior
    loop, which has no coverage code, and says which edge it is in the
    other two; [edgecov] is that edge's coverage. *)
Definition span_pixel (regs : Registers) (vram : VRAM) (polygon : Polygon) (fn : DepthTest)
    (polyattr edge : Z) (cover : option bool) (edgecov : Z)
    (y zl zr : Z) (ends : SpanEnds) (x : Z) (st : scan_state) : option scan_state :=
  let '(interpX, bufs, xcov) := st in
  let pixeladdr := pixel_address y x in
  dstattr ← load bufs.(AttrBuffer) pixeladdr;
  target ← shadow_target polygon bufs y x pixeladdr dstattr;
  match target with
  | None => Some st
  | Some (pixeladdr, dstattr) =>
      let interpX := Interpolator.SetX interpX x in
      let z := Interpolator.InterpolateZ false interpX zl zr polygon.(WBuffer) in
      target ← depth_target fn bufs z pixeladdr dstattr;
      match target with
      | None => Some (interpX, bufs, xcov)
      | Some (pixeladdr, dstattr) =>
          let vr := u32 (Interpolator.Interpolate interpX ends.(rl) ends.(rr)) in
          let vg := u32 (Interpolator.Interpolate interpX ends.(gl) ends.(gr)) in
          let vb := u32 (Interpolator.Interpolate interpX ends.(bl) ends.(br)) in
          let s := s16 (Interpolator.Interpolate interpX ends.(sl) ends.(sr)) in
          let t := s16 (Interpolator.Interpolate interpX ends.(tl) ends.(tr)) in
          color ← RenderPixel regs vram polygon
                    (u8 (Z.shiftr vr 3)) (u8 (Z.shiftr vg 3)) (u8 (Z.shiftr vb 3)) s t;
          let alpha := u8 (Z.shiftr color 24) in
          if alpha <=? regs.(RenderAlphaRef) then Some (interpX, bufs, xcov)
          else if alpha =? 31 then
            let attr := Z.lor polyattr edge in
            '(attr, bufs, xcov) ←
              match cover with
              | Some right_edge =>
                  if bit regs.(RenderDispCnt) 4 then
                    let '(cov, xcov) := edge_coverage right_edge edgecov xcov in
                    let attr := Z.lor attr (u32 (Z.shiftl cov 8)) in
                    bufs ← (if pixeladdr <? BufferSize then push_down bufs pixeladdr
                            else Some bufs);
                    Some (attr, bufs, xcov)
                  else Some (attr, bufs, xcov)
              | None => Some (attr, bufs, xcov)
              end;
            depths ← store bufs.(DepthBuffer) pixeladdr (u32 z);
            colors ← store bufs.(ColorBuffer) pixeladdr color;
            attrs ← store bufs.(AttrBuffer) pixeladdr attr;
            Some (interpX,
                  {| ColorBuffer := colors; DepthBuffer := depths; AttrBuffer := attrs;
                     StencilBuffer := bufs.(StencilBuffer);
                     PrevIsShadowMask := bufs.(PrevIsShadowMask) |},
                  xcov)
          else
            let z := if negb (bit polygon.(Attr) 11) then u32 (-1) else u32 z in
            let shadow := if polygon.(IsShadow) then 1 else 0 in
            bufs ← PlotTranslucentPixel regs bufs pixeladdr color z polyattr shadow;
            bufs ← (if nonzero (Z.land dstattr 0x3) && (pixeladdr <? BufferSize) then
                      PlotTranslucentPixel regs bufs (u32 (pixeladdr + BufferSize))
                                           color z polyattr shadow
                    else Some bufs);
            Some (interpX, bufs, xcov)
      end
  end.

(** [uninit] stands for the indeterminate members of the automatic object
    [interpX] before its constructor runs [Setup]. *)
Definition RenderPolygonScanline (regs : Registers) (vram : VRAM) (uninit : Interpolator.t)
    (bufs : Buffers) (rp : RendererPolygon) (y : Z)
  : option (Buffers * RendererPolygon) :=
  let polygon := rp.(PolyData) in
  let polyattr := Z.land polygon.(Attr) 0x3F008000 in
  let polyattr := if negb polygon.(FacingView) then Z.lor polyattr (Z.shiftl 1 4)
                  else polyattr in
  let polyalpha := Z.land (Z.shiftr polygon.(Attr) 16) 0x1F in
  let wireframe := polyalpha =? 0 in
  let fn := fnDepthTest polygon in
  let bufs :=
    {| ColorBuffer := bufs.(ColorBuffer); DepthBuffer := bufs.(DepthBuffer);
       AttrBuffer := bufs.(AttrBuffer); StencilBuffer := bufs.(StencilBuffer);
       PrevIsShadowMask := false |} in
  rp ← (if negb (polygon.(YTop) =? polygon.(YBottom)) then
          vl ← load polygon.(Vertices) rp.(NextVL);
          rp ← (if (y >=? snd vl.(FinalPosition)) && negb (rp.(CurVL) =? polygon.(VBottom))
                then SetupPolygonLeftEdge rp y else Some rp);
          vr ← load polygon.(Vertices) rp.(NextVR);
          if (y >=? snd vr.(FinalPosition)) && negb (rp.(CurVR) =? polygon.(VBottom))
          then SetupPolygonRightEdge rp y else Some rp
        else Some rp);
  let xstart := rp.(XL) in
  let xend := rp.(XR) in
  let '(l_filledge, r_filledge) :=
    if wireframe
       || nonzero (Z.land regs.(RenderDispCnt) (Z.lor (Z.shiftl 1 4) (Z.shiftl 1 5)))
    then (true, true)
    else (rp.(SlopeL).(Slope.Negative) || negb rp.(SlopeL).(Slope.XMajor),
          (negb rp.(SlopeR).(Slope.Negative) && rp.(SlopeR).(Slope.XMajor))
          || (rp.(SlopeR).(Slope.Increment) =? 0)) in
  wlc ← load polygon.(FinalW) rp.(CurVL); wln ← load polygon.(FinalW) rp.(NextVL);
  wrc ← load polygon.(FinalW) rp.(CurVR); wrn ← load polygon.(FinalW) rp.(NextVR);
  zlc ← load polygon.(FinalZ) rp.(CurVL); zln ← load polygon.(FinalZ) rp.(NextVL);
  zrc ← load polygon.(FinalZ) rp.(CurVR); zrn ← load polygon.(FinalZ) rp.(NextVR);
  let wl := Interpolator.Interpolate rp.(SlopeL).(Slope.Interp) wlc wln in
  let wr := Interpolator.Interpolate rp.(SlopeR).(Slope.Interp) wrc wrn in
  let zl := Interpolator.InterpolateZ true rp.(SlopeL).(Slope.Interp) zlc zln polygon.(WBuffer) in
  let zr := Interpolator.InterpolateZ true rp.(SlopeR).(Slope.Interp) zrc zrn polygon.(WBuffer) in
  vCL ← load polygon.(Vertices) rp.(CurVL); vNL ← load polygon.(Vertices) rp.(NextVL);
  vCR ← load polygon.(Vertices) rp.(CurVR); vNR ← load polygon.(Vertices) rp.(NextVR);
  let '(vlcur, vlnext, vrcur, vrnext, interp_start, interp_end,
        l_edge, r_edge, xstart, xend, wl, wr, zl, zr, l_filledge, r_filledge) :=
    if xstart >? xend then
      (vCR, vNR, vCL, vNL, rp.(SlopeR).(Slope.Interp), rp.(SlopeL).(Slope.Interp),
       Slope.EdgeParams_YMajor true rp.(SlopeR), Slope.EdgeParams_YMajor false rp.(SlopeL),
       xend, xstart, wr, wl, zr, zl, r_filledge, l_filledge)
    else
      (vCL, vNL, vCR, vNR, rp.(SlopeL).(Slope.Interp), rp.(SlopeR).(Slope.Interp),
       Slope.EdgeParams false rp.(SlopeL), Slope.EdgeParams true rp.(SlopeR),
       xstart, xend, wl, wr, zl, zr, l_filledge, r_filledge) in
  let '(l_edgelen, l_edgecov) := l_edge in
  let '(r_edgelen, r_edgecov) := r_edge in
  let along (i : Interpolator.t) (a b : Z) : Z := Interpolator.Interpolate i a b in
  let ends :=
    {| rl := along interp_start (fst (fst vlcur.(FinalColor))) (fst (fst vlnext.(FinalColor)));
       gl := along interp_start (snd (fst vlcur.(FinalColor))) (snd (fst vlnext.(FinalColor)));
       bl := along interp_start (snd vlcur.(FinalColor)) (snd vlnext.(FinalColor));
       sl := along interp_start (fst vlcur.(TexCoords)) (fst vlnext.(TexCoords));
       tl := along interp_start (snd vlcur.(TexCoords)) (snd vlnext.(TexCoords));
       rr := along interp_end (fst (fst vrcur.(FinalColor))) (fst (fst vrnext.(FinalColor)));
       gr := along interp_end (snd (fst vrcur.(FinalColor))) (snd (fst vrnext.(FinalColor)));
       br := along interp_end (snd vrcur.(FinalColor)) (snd vrnext.(FinalColor));
       sr := along interp_end (fst vrcur.(TexCoords)) (fst vrnext.(TexCoords));
       tr := along interp_end (snd vrcur.(TexCoords)) (snd vrnext.(TexCoords)) |} in
  let yedge :=
    if y =? polygon.(YTop) then 0x4
    else if y =? s32 (polygon.(YBottom) - 1) then 0x8 else 0 in
  let x := xstart in
  let interpX := Interpolator.Setup false uninit xstart (s32 (xend + 1)) wl wr in
  let x := if x <? 0 then 0 else x in
  let xcov := 0 in
  let clamp_limit (xlimit : Z) : Z :=
    let xlimit := if xlimit >? s32 (xend + 1) then s32 (xend + 1) else xlimit in
    if xlimit >? 256 then 256 else xlimit in
  let pixel := span_pixel regs vram polygon fn polyattr in
  (* part 1: left edge *)
  let edge := Z.lor yedge 0x1 in
  let xlimit := clamp_limit (s32 (xstart + l_edgelen)) in
  let xcov := start_xcov l_edgecov xcov in
  '(x, st) ← (if negb l_filledge then
                Some (Z.min xlimit (s32 (s32 (xend - r_edgelen) + 1)), (interpX, bufs, xcov))
              else for_upto x xlimit (pixel edge (Some false) l_edgecov y zl zr ends)
                            (interpX, bufs, xcov));
  (* part 2: polygon inside *)
  let edge := yedge in
  let xlimit := clamp_limit (s32 (s32 (xend - r_edgelen) + 1)) in
  '(x, st) ← (if wireframe && negb (nonzero edge) then Some (xlimit, st)
              else for_upto x xlimit (pixel edge None 0 y zl zr ends) st);
  (* part 3: right edge *)
  let edge := Z.lor yedge 0x2 in
  let xlimit := s32 (xend + 1) in
  let xlimit := if xlimit >? 256 then 256 else xlimit in
  let st := (fst (fst st), snd (fst st), start_xcov r_edgecov (snd st)) in
  '(x, st) ← (if r_filledge then
                for_upto x xlimit (pixel edge (Some true) r_edgecov y zl zr ends) st
              else Some (x, st));
  let '(sl, XL) := Slope.Step rp.(SlopeL) in
  let '(sr, XR) := Slope.Step rp.(SlopeR) in
  Some (snd (fst st),
        {| PolyData := polygon; SlopeL := sl; SlopeR := sr; XL := XL; XR := XR;
           CurVL := rp.(CurVL); CurVR := rp.(CurVR);
           NextVL := rp.(NextVL); NextVR := rp.(NextVR) |}).

(** ** RenderScanline

    [PolygonList] is the list of the polygons set up for the frame;
    [uninit i] stands for the indeterminate [interpX] of the call for
    polygon [i]. *)
Definition on_scanline (polygon : Polygon) (y : Z) : bool :=
  (y >=? polygon.(YTop))
  && ((y <? polygon.(YBottom))
      || ((y =? polygon.(YTop)) && (polygon.(YBottom) =? polygon.(YTop)))).

Fixpoint RenderScanline_from (regs : Registers) (vram : VRAM) (uninit : nat -> Interpolator.t)
    (y : Z) (i : nat) (PolygonList : list RendererPolygon) (bufs : Buffers)
  : option (Buffers * list RendererPolygon) :=
  match PolygonList with
  | [] => Some (bufs, [])
  | rp :: rest =>
      '(bufs, rp) ←
        (if on_scanline rp.(PolyData) y then
           if rp.(PolyData).(IsShadowMask)
           then RenderShadowMaskScanline regs (uninit i) bufs rp y
           else RenderPolygonScanline regs vram (uninit i) bufs rp y
         else Some (bufs, rp));
      '(bufs, rest) ← RenderScanline_from regs vram uninit y (S i) rest bufs;
      Some (bufs, rp :: rest)
  end.

Definition RenderScanline (regs : Registers) (vram : VRAM) (uninit : nat -> Interpolator.t)
    (y : Z) (PolygonList : list RendererPolygon) (bufs : Buffers)
  : option (Buffers * list RendererPolygon) :=
  RenderScanline_from regs vram uninit y 0 PolygonList bufs.

(** * Final pass and clearing

    Modelled from the spec: the remaining configuration registers are
    globals of GPU3D.cpp as well ([RenderEdgeTable[8]] of [u16], the others
    [u32]; spec, section 6). *)

Record FrameRegisters : Type := {
  RenderEdgeTable : list Z;
  RenderFogColor : Z;
  RenderClearAttr1 : Z;
  RenderClearAttr2 : Z
}.

(** [c = field & 0x3E; if (c) c++] on [u32] variables. *)
Definition expand5_u32 (field : Z) : Z :=
  let c := Z.land (u32 field) 0x3E in
  if nonzero c then u32 (c + 1) else c.

(** [r | (g << 8) | (b << 16) | (a << 24)] on [u32] variables. *)
Definition pack_color (r g b a : Z) : Z :=
  Z.lor (Z.lor (Z.lor r (u32 (Z.shiftl g 8))) (u32 (Z.shiftl b 16))) (u32 (Z.shiftl a 24)).

(** [((f * w) + (s * (total - w))) >> sh] on [u32] variables. *)
Definition weighted (f s w total sh : Z) : Z :=
  Z.shiftr (u32 (u32 (f * w) + u32 (s * u32 (total - w)))) sh.

(** One disjunct of the edge-marking test. *)
Definition marks_edge (bufs : Buffers) (polyid z neighbour : Z) : option bool :=
  a ← load bufs.(AttrBuffer) neighbour;
  if negb (polyid =? Z.shiftr a 24) then
    d ← load bufs.(DepthBuffer) neighbour; Some (z <? d)
  else Some false.

Definition or_else (a : option bool) (b : option bool) : option bool :=
  a ≫= fun v : bool => if v then Some true else b.

Definition edge_mark_pixel (more : FrameRegisters) (y x : Z) (bufs : Buffers)
  : option Buffers :=
  let pixeladdr := pixel_address y x in
  attr ← load bufs.(AttrBuffer) pixeladdr;
  if negb (nonzero (Z.land attr 0xF)) then Some bufs
  else
    let polyid := Z.shiftr attr 24 in
    z ← load bufs.(DepthBuffer) pixeladdr;
    or_else (marks_edge bufs polyid z (u32 (pixeladdr - 1)))
        (or_else (marks_edge bufs polyid z (u32 (pixeladdr + 1)))
           (or_else (marks_edge bufs polyid z (u32 (pixeladdr - ScanlineWidth)))
                    (marks_edge bufs polyid z (u32 (pixeladdr + ScanlineWidth)))))
    ≫= fun marked : bool =>
    if marked then
      edgecolor ← load more.(RenderEdgeTable) (Z.shiftr polyid 3);
      let edgeR := expand5_u32 (Z.shiftl edgecolor 1) in
      let edgeG := expand5_u32 (Z.shiftr edgecolor 4) in
      let edgeB := expand5_u32 (Z.shiftr edgecolor 9) in
      old ← load bufs.(ColorBuffer) pixeladdr;
      colors ← store bufs.(ColorBuffer) pixeladdr
                 (Z.lor (Z.lor (Z.lor edgeR (u32 (Z.shiftl edgeG 8))) (u32 (Z.shiftl edgeB 16)))
                        (Z.land old 0xFF000000));
      attrs ← store bufs.(AttrBuffer) pixeladdr
                (Z.lor (Z.land attr 0xFFFFE0FF) 0x00001000);
      Some {| ColorBuffer := colors; DepthBuffer := bufs.(DepthBuffer); AttrBuffer := attrs;
              StencilBuffer := bufs.(StencilBuffer);
              PrevIsShadowMask := bufs.(PrevIsShadowMask) |}
    else Some bufs.

(** The fog blend of one pixel, the same code for the topmost pixel and
    the one underneath. *)
Definition fog_blend (regs : Registers) (more : FrameRegisters) (bufs : Buffers) (pixeladdr : Z)
  : option Buffers :=
  let fogcolor := negb (bit regs.(RenderDispCnt) 6) in
  let fogR := expand5_u32 (Z.shiftl more.(RenderFogColor) 1) in
  let fogG := expand5_u32 (Z.shiftr more.(RenderFogColor) 4) in
  let fogB := expand5_u32 (Z.shiftr more.(RenderFogColor) 9) in
  let fogA := Z.land (Z.shiftr more.(RenderFogColor) 16) 0x1F in
  density ← CalculateFogDensity regs bufs pixeladdr;
  srccolor ← load bufs.(ColorBuffer) pixeladdr;
  let srcR := Z.land srccolor 0x3F in
  let srcG := Z.land (Z.shiftr srccolor 8) 0x3F in
  let srcB := Z.land (Z.shiftr srccolor 16) 0x3F in
  let srcA := Z.land (Z.shiftr srccolor 24) 0x1F in
  let '(srcR, srcG, srcB) :=
    if fogcolor then
      (weighted fogR srcR density 128 7, weighted fogG srcG density 128 7,
       weighted fogB srcB density 128 7)
    else (srcR, srcG, srcB) in
  let srcA := weighted fogA srcA density 128 7 in
  colors ← store bufs.(ColorBuffer) pixeladdr (pack_color srcR srcG srcB srcA);
  Some {| ColorBuffer := colors; DepthBuffer := bufs.(DepthBuffer);
          AttrBuffer := bufs.(AttrBuffer); StencilBuffer := bufs.(StencilBuffer);
          PrevIsShadowMask := bufs.(PrevIsShadowMask) |}.

Definition fog_pixel (regs : Registers) (more : FrameRegisters) (y x : Z) (bufs : Buffers)
  : option Buffers :=
  let pixeladdr := pixel_address y x in
  attr ← load bufs.(AttrBuffer) pixeladdr;
  if negb (bit attr 15) then Some bufs
  else
    bufs ← fog_blend regs more bufs pixeladdr;
    if negb (nonzero (Z.land attr 0x3)) then Some bufs
    else
      let pixeladdr := u32 (pixeladdr + BufferSize) in
      attr ← load bufs.(AttrBuffer) pixeladdr;
      if negb (bit attr 15) then Some bufs
      else fog_blend regs more bufs pixeladdr.

Definition antialias_pixel (y x : Z) (bufs : Buffers) : option Buffers :=
  let pixeladdr := pixel_address y x in
  let put (c : Z) : option Buffers :=
    colors ← store bufs.(ColorBuffer) pixeladdr c;
    Some {| ColorBuffer := colors; DepthBuffer := bufs.(DepthBuffer);
            AttrBuffer := bufs.(AttrBuffer); StencilBuffer := bufs.(StencilBuffer);
            PrevIsShadowMask := bufs.(PrevIsShadowMask) |} in
  attr ← load bufs.(AttrBuffer) pixeladdr;
  if negb (nonzero (Z.land attr 0x3)) then Some bufs
  else
    let coverage := Z.land (Z.shiftr attr 8) 0x1F in
    if coverage =? 0x1F then Some bufs
    else if coverage =? 0 then
      c ← load bufs.(ColorBuffer) (u32 (pixeladdr + BufferSize)); put c
    else
      topcolor ← load bufs.(ColorBuffer) pixeladdr;
      let topR := Z.land topcolor 0x3F in
      let topG := Z.land (Z.shiftr topcolor 8) 0x3F in
      let topB := Z.land (Z.shiftr topcolor 16) 0x3F in
      let topA := Z.land (Z.shiftr topcolor 24) 0x1F in
      botcolor ← load bufs.(ColorBuffer) (u32 (pixeladdr + BufferSize));
      let botR := Z.land botcolor 0x3F in
      let botG := Z.land (Z.shiftr botcolor 8) 0x3F in
      let botB := Z.land (Z.shiftr botcolor 16) 0x3F in
      let botA := Z.land (Z.shiftr botcolor 24) 0x1F in
      let coverage := u32 (coverage + 1) in
      let '(topR, topG, topB) :=
        if botA >? 0 then
          (weighted topR botR coverage 32 5, weighted topG botG coverage 32 5,
           weighted topB botB coverage 32 5)
        else (topR, topG, topB) in
      let topA := weighted topA botA coverage 32 5 in
      put (pack_color topR topG topB topA).

Definition ScanlineFinalPass (regs : Registers) (more : FrameRegisters) (y : Z) (bufs : Buffers)
  : option Buffers :=
  bufs ← (if bit regs.(RenderDispCnt) 5 then for_x 256 0 (edge_mark_pixel more y) bufs
          else Some bufs);
  bufs ← (if bit regs.(RenderDispCnt) 7 then for_x 256 0 (fog_pixel regs more y) bufs
          else Some bufs);
  if bit regs.(RenderDispCnt) 4 then for_x 256 0 (antialias_pixel y) bufs
  else Some bufs.

(** ** ClearBuffers *)

(** [for (x = start; x < limit; x += step) body] *)
Fixpoint for_step {S : Type} (n : nat) (x step : Z) (body : Z -> S -> option S) (s : S)
  : option S :=
  match n with
  | O => Some s
  | S n' => s' ← body x s; for_step n' (x + step) step body s'
  end.

Definition for_upto_step {S : Type} (x xlimit step : Z) (body : Z -> S -> option S) (s : S)
  : option S :=
  for_step (Z.to_nat ((xlimit - x + step - 1) / step)) x step body s.

(** One cell of the three frame buffers. *)
Definition put_cell (color depth attr : Z) (i : Z) (bufs : Buffers) : option Buffers :=
  colors ← store bufs.(ColorBuffer) i color;
  depths ← store bufs.(DepthBuffer) i depth;
  attrs ← store bufs.(AttrBuffer) i attr;
  Some {| ColorBuffer := colors; DepthBuffer := depths; AttrBuffer := attrs;
          StencilBuffer := bufs.(StencilBuffer);
          PrevIsShadowMask := bufs.(PrevIsShadowMask) |}.

Definition clear_depth (attr2 : Z) : Z :=
  u32 (u32 (Z.land attr2 0x7FFF * 0x200) + 0x1FF).

(** State of the rear-image loops: the buffers, [xoff] and [yoff]. *)
Definition image_state : Type := Buffers * Z * Z.

Definition image_pixel (vram : VRAM) (polyid y x : Z) (st : image_state)
  : option image_state :=
  let '(bufs, xoff, yoff) := st in
  '(val2, val3) ← rear_image_reads vram xoff yoff;
  let r := expand5_u32 (Z.shiftl val2 1) in
  let g := expand5_u32 (Z.shiftr val2 4) in
  let b := expand5_u32 (Z.shiftr val2 9) in
  let a := if nonzero (Z.land val2 0x8000) then 0x1F000000 else 0 in
  let color := Z.lor (Z.lor (Z.lor r (u32 (Z.shiftl g 8))) (u32 (Z.shiftl b 16))) a in
  let z := clear_depth val3 in
  let pixeladdr := u32 (s32 (FirstPixelOffset + y) + x) in
  bufs ← put_cell color z (Z.lor polyid (Z.land val3 0x8000)) pixeladdr bufs;
  Some (bufs, u8 (xoff + 1), yoff).

Definition image_row (vram : VRAM) (polyid y : Z) (st : image_state) : option image_state :=
  '(bufs, xoff, yoff) ← for_x 256 0 (image_pixel vram polyid y) st;
  Some (bufs, xoff, u8 (yoff + 1)).

Definition ClearBuffers (regs : Registers) (more : FrameRegisters) (vram : VRAM)
    (bufs : Buffers) : option Buffers :=
  let clearz := clear_depth more.(RenderClearAttr2) in
  let polyid := Z.land more.(RenderClearAttr1) 0x3F000000 in
  let border := put_cell 0 clearz polyid in
  bufs ← for_upto_step 0 ScanlineWidth 1 border bufs;
  bufs ← for_upto_step ScanlineWidth (ScanlineWidth * 193) ScanlineWidth
           (fun x bufs => bufs ← border x bufs; border (x + 257) bufs) bufs;
  bufs ← for_upto_step (ScanlineWidth * 193) (ScanlineWidth * 194) 1 border bufs;
  if bit regs.(RenderDispCnt) 14 then
    let xoff := u8 (Z.land (Z.shiftr more.(RenderClearAttr2) 16) 0xFF) in
    let yoff := u8 (Z.land (Z.shiftr more.(RenderClearAttr2) 24) 0xFF) in
    '(bufs, _, _) ← for_upto_step 0 (ScanlineWidth * 192) ScanlineWidth
                      (image_row vram polyid) (bufs, xoff, yoff);
    Some bufs
  else
    let r := expand5_u32 (Z.shiftl more.(RenderClearAttr1) 1) in
    let g := expand5_u32 (Z.shiftr more.(RenderClearAttr1) 4) in
    let b := expand5_u32 (Z.shiftr more.(RenderClearAttr1) 9) in
    let a := Z.land (Z.shiftr more.(RenderClearAttr1) 16) 0x1F in
    let color := pack_color r g b a in
    let polyid := Z.lor polyid (Z.land more.(RenderClearAttr1) 0x8000) in
    for_upto_step 0 (ScanlineWidth * 192) ScanlineWidth
      (fun y bufs =>
         for_x 256 0 (fun x bufs => put_cell color clearz polyid
                                      (u32 (s32 (FirstPixelOffset + y) + x)) bufs) bufs)
      bufs.

(** * Frames *)

(** [new] is [old] at every index outside [touched]. *)
Definition same_outside {A : Type} (touched : Z -> Prop) (old new : list A) : Prop :=
  length new = length old /\
  forall j : nat, ~ touched (Z.of_nat j) -> new !! j = old !! j.

(** The frame buffers [new] are [old] outside the cells [touched]; the
    stencil buffer and the shadow-mask flag are the same. *)
Definition frame_kept (touched : Z -> Prop) (old new : Buffers) : Prop :=
  same_outside touched old.(ColorBuffer) new.(ColorBuffer) /\
  same_outside touched old.(DepthBuffer) new.(DepthBuffer) /\
  same_outside touched old.(AttrBuffer) new.(AttrBuffer) /\
  new.(StencilBuffer) = old.(StencilBuffer) /\
  new.(PrevIsShadowMask) = old.(PrevIsShadowMask).

(** The cells a pixel of the span can write: its own and the ones
    [BufferSize] further on. *)
Definition pixel_layers (a : Z) (i : Z) : Prop :=
  i = a \/ i = u32 (a + BufferSize) \/
  i = u32 (u32 (a + BufferSize) + BufferSize) \/
  i = u32 (u32 (u32 (a + BufferSize) + BufferSize) + BufferSize).

(** Whether the edges are filled whatever their slopes, and the interior
    is drawn: not wireframe, with anti-aliasing or edge marking on. *)
Definition fill_forced (regs : Registers) (polygon : Polygon) : bool :=
  negb (Z.land (Z.shiftr polygon.(Attr) 16) 0x1F =? 0)
  && nonzero (Z.land regs.(RenderDispCnt) (Z.lor (Z.shiftl 1 4) (Z.shiftl 1 5))).

(** The cells of screen line [y], in the topmost layer and the layers
    [BufferSize] further on. *)
Definition line_cells (y : Z) (i : Z) : Prop :=
  exists k m, 0 <= k < 256 /\ 0 <= m <= 3 /\
              i = FirstPixelOffset + y * ScanlineWidth + k + m * BufferSize.

(** The buffers [new] are [old] outside the cells [touched], and the
    depth buffer is the same. *)
Definition colours_kept (touched : Z -> Prop) (old new : Buffers) : Prop :=
  frame_kept touched old new /\ new.(DepthBuffer) = old.(DepthBuffer).

(** The cell of pixel [x] of line [y] and the one underneath. *)
Definition two_layers (a : Z) (i : Z) : Prop := i = a \/ i = u32 (a + BufferSize).

(** * Cells of the cleared frame *)

(** The colour, depth and attributes held at index [i]. *)
Definition cell (b : Buffers) (i : Z) : option (Z * Z * Z) :=
  c ← load b.(ColorBuffer) i; d ← load b.(DepthBuffer) i; a ← load b.(AttrBuffer) i;
  Some (c, d, a).

(** The three frame buffers hold two layers each. *)
Definition two_layer_buffers (b : Buffers) : Prop :=
  Z.of_nat (length b.(ColorBuffer)) = 2 * BufferSize /\
  Z.of_nat (length b.(DepthBuffer)) = 2 * BufferSize /\
  Z.of_nat (length b.(AttrBuffer)) = 2 * BufferSize.

(** [b] is [b0] with the cells of the first layer chosen by [W] (by row
    and column) set to what [V] says. *)
Definition filled (W : Z -> Z -> bool) (V : Z -> Z -> Z * Z * Z) (b0 b : Buffers) : Prop :=
  two_layer_buffers b /\
  b.(StencilBuffer) = b0.(StencilBuffer) /\
  b.(PrevIsShadowMask) = b0.(PrevIsShadowMask) /\
  (forall j, BufferSize <= j -> cell b j = cell b0 j) /\
  (forall r c, 0 <= r < NumScanlines -> 0 <= c < ScanlineWidth ->
     cell b (ScanlineWidth * r + c) =
       if W r c then Some (V r c) else cell b0 (ScanlineWidth * r + c)).

(** The cells of the visible screen, by buffer row and column. *)
Definition on_screen (r c : Z) : bool :=
  (1 <=? r) && (r <=? 192) && (1 <=? c) && (c <=? 256).

(** The cells of the border: rows 0 and 193 and columns 0 and 257. *)
Definition on_border (r c : Z) : bool :=
  (r =? 0) || (r =? 193) || (c =? 0) || (c =? 257).

(** The colour, depth and attributes ClearBuffers gives the screen when
    there is no rear image. *)
Definition clear_pixel (more : FrameRegisters) : Z * Z * Z :=
  let r := expand5_u32 (Z.shiftl more.(RenderClearAttr1) 1) in
  let g := expand5_u32 (Z.shiftr more.(RenderClearAttr1) 4) in
  let b := expand5_u32 (Z.shiftr more.(RenderClearAttr1) 9) in
  let a := Z.land (Z.shiftr more.(RenderClearAttr1) 16) 0x1F in
  (pack_color r g b a, clear_depth more.(RenderClearAttr2),
   Z.lor (Z.land more.(RenderClearAttr1) 0x3F000000) (Z.land more.(RenderClearAttr1) 0x8000)).

(** The value of the border cells. *)
Definition border_cell (more : FrameRegisters) : Z * Z * Z :=
  (0, clear_depth more.(RenderClearAttr2), Z.land more.(RenderClearAttr1) 0x3F000000).

(** The colour, depth and attributes of the rear image at the offsets
    [xoff] and [yoff]. *)
Definition image_cell (vram : VRAM) (polyid xoff yoff : Z) : option (Z * Z * Z) :=
  '(val2, val3) ← rear_image_reads vram xoff yoff;
  let r := expand5_u32 (Z.shiftl val2 1) in
  let g := expand5_u32 (Z.shiftr val2 4) in
  let b := expand5_u32 (Z.shiftr val2 9) in
  let a := if nonzero (Z.land val2 0x8000) then 0x1F000000 else 0 in
  let color := Z.lor (Z.lor (Z.lor r (u32 (Z.shiftl g 8))) (u32 (Z.shiftl b 16))) a in
  Some (color, clear_depth val3, Z.lor polyid (Z.land val3 0x8000)).

(** The rear plane: the rear image scrolled by the offsets of
    RenderClearAttr2 on the screen, the border value around it. *)
Definition rear_plane (more : FrameRegisters) (vram : VRAM) (r c : Z) : Z * Z * Z :=
  if on_screen r c then
    default (0, 0, 0)
      (image_cell vram (Z.land more.(RenderClearAttr1) 0x3F000000)
         (u8 (u8 (Z.land (Z.shiftr more.(RenderClearAttr2) 16) 0xFF) + (c - 1)))
         (u8 (u8 (Z.land (Z.shiftr more.(RenderClearAttr2) 24) 0xFF) + (r - 1))))
  else border_cell more.

(** Frame buffers of two layers, all zero. *)
Definition blank_frame : Buffers :=
  {| ColorBuffer := replicate (Z.to_nat (2 * BufferSize)) 0;
     DepthBuffer := replicate (Z.to_nat (2 * BufferSize)) 0;
     AttrBuffer := replicate (Z.to_nat (2 * BufferSize)) 0;
     StencilBuffer := replicate 512 0;
     PrevIsShadowMask := false |}.

(** Frame registers with the clear attributes [attr1] and [attr2]. *)
Definition sample_frame_registers (attr1 attr2 : Z) : FrameRegisters :=
  {| RenderEdgeTable := replicate 8 0; RenderFogColor := 0;
     RenderClearAttr1 := attr1; RenderClearAttr2 := attr2 |}.

(** The shadow-mask flag after the polygons of the list have been drawn on
    line [y]: the kind of the last polygon on the line, [flag] if there is
    none. *)
Definition last_kind_on_line (y : Z) (PolygonList : list RendererPolygon) (flag : bool)
  : bool :=
  fold_left (fun f rp => if on_scanline rp.(PolyData) y
                         then rp.(PolyData).(IsShadowMask) else f) PolygonList flag.

(** A slot whose polygon is well formed and whose four vertex indices are
    in range. *)
Definition slot_ok (rp : RendererPolygon) : Prop :=
  polygon_ok rp.(PolyData) /\
  Z.of_nat (length rp.(PolyData).(FinalZ)) = rp.(PolyData).(NumVertices) /\
  0 <= rp.(CurVL) < rp.(PolyData).(NumVertices) /\
  0 <= rp.(NextVL) < rp.(PolyData).(NumVertices) /\
  0 <= rp.(CurVR) < rp.(PolyData).(NumVertices) /\
  0 <= rp.(NextVR) < rp.(PolyData).(NumVertices).

(** * Facts about the casts and the bit tests *)

Section Casts.

Lemma wrap_signed_id w v : 0 < w -> - 2 ^ (w - 1) <= v < 2 ^ (w - 1) -> wrap_signed w v = v.
Proof.
  intros Hw Hv. unfold wrap_signed.
  assert (2 ^ w = 2 * 2 ^ (w - 1)) as Hp.
  { replace w with (1 + (w - 1)) at 1 by lia. rewrite Z.pow_add_r by lia. reflexivity. }
  rewrite Z.mod_small by lia. lia.
Qed.

Lemma wrap_unsigned_id w v : 0 <= v < 2 ^ w -> wrap_unsigned w v = v.
Proof. intros Hv. unfold wrap_unsigned. apply Z.mod_small. exact Hv. Qed.

Lemma wrap_unsigned_range w v : 0 <= w -> 0 <= wrap_unsigned w v < 2 ^ w.
Proof. intros Hw. unfold wrap_unsigned. apply Z.mod_pos_bound. apply Z.pow_pos_nonneg; lia. Qed.

Lemma wrap_signed_range w v : 0 < w -> - 2 ^ (w - 1) <= wrap_signed w v < 2 ^ (w - 1).
Proof.
  intros Hw. unfold wrap_signed.
  assert (2 ^ w = 2 * 2 ^ (w - 1)) as Hp.
  { replace w with (1 + (w - 1)) at 1 by lia. rewrite Z.pow_add_r by lia. reflexivity. }
  pose proof (Z.mod_pos_bound (v + 2 ^ (w - 1)) (2 ^ w)) as Hb.
  assert (0 < 2 ^ w) by (apply Z.pow_pos_nonneg; lia). lia.
Qed.

Lemma s32_id v : in_s32 v -> s32 v = v.
Proof. intros H. apply wrap_signed_id; [lia | exact H]. Qed.

Lemma s64_id v : - 2 ^ 63 <= v < 2 ^ 63 -> s64 v = v.
Proof. intros H. apply wrap_signed_id; [lia | exact H]. Qed.

Lemma s16_id v : in_s16 v -> s16 v = v.
Proof. intros H. apply wrap_signed_id; [lia | exact H]. Qed.

Lemma u32_id v : in_u32 v -> u32 v = v.
Proof. apply wrap_unsigned_id. Qed.

Lemma u16_id v : in_u16 v -> u16 v = v.
Proof. apply wrap_unsigned_id. Qed.

Lemma u8_id v : in_u8 v -> u8 v = v.
Proof. apply wrap_unsigned_id. Qed.

Lemma u32_range v : in_u32 (u32 v).
Proof. apply wrap_unsigned_range. lia. Qed.

Lemma u8_range v : in_u8 (u8 v).
Proof. apply wrap_unsigned_range. lia. Qed.

Lemma u16_range v : in_u16 (u16 v).
Proof. apply wrap_unsigned_range. lia. Qed.

Lemma s32_range v : in_s32 (s32 v).
Proof. apply (wrap_signed_range 32). lia. Qed.

End Casts.

Section Bits.

Lemma land_pow2 a k : 0 <= k -> Z.land a (2 ^ k) = if Z.testbit a k then 2 ^ k else 0.
Proof.
  intros Hk. apply Z.bits_inj'. intros n Hn.
  rewrite Z.land_spec, Z.pow2_bits_eqb by lia.
  destruct (Z.eqb_spec k n) as [->|Hne].
  - destruct (Z.testbit a n); simpl.
    + rewrite Z.pow2_bits_true by lia. reflexivity.
    + rewrite Z.bits_0. reflexivity.
  - rewrite andb_false_r. destruct (Z.testbit a k).
    + rewrite Z.pow2_bits_false by lia. reflexivity.
    + rewrite Z.bits_0. reflexivity.
Qed.

Lemma bit_testbit v n : 0 <= n -> bit v n = Z.testbit v n.
Proof.
  intros Hn. unfold bit, nonzero. rewrite Z.shiftl_1_l, land_pow2 by lia.
  assert (0 < 2 ^ n) by (apply Z.pow_pos_nonneg; lia).
  destruct (Z.testbit v n); simpl.
  - destruct (Z.eqb_spec (2 ^ n) 0); [lia | reflexivity].
  - reflexivity.
Qed.

End Bits.

Section MoreBits.

Lemma testbit_above v k n : 0 <= v < 2 ^ k -> k <= n -> Z.testbit v n = false.
Proof.
  intros Hv Hn. destruct (Z_lt_le_dec k 0) as [Hk|Hk].
  - rewrite Z.pow_neg_r in Hv by lia. lia.
  - rewrite <- (Z.mod_small v (2 ^ k)) by exact Hv.
    apply Z.mod_pow2_bits_high. lia.
Qed.

Lemma lor_shiftl_add lo hi k :
  0 <= k -> 0 <= lo < 2 ^ k -> Z.lor lo (Z.shiftl hi k) = lo + hi * 2 ^ k.
Proof.
  intros Hk Hlo.
  assert (Z.land lo (Z.shiftl hi k) = 0) as Hdisj.
  { apply Z.bits_inj'. intros n Hn. rewrite Z.land_spec, Z.bits_0.
    destruct (Z_lt_le_dec n k).
    - rewrite Z.shiftl_spec_low by lia. apply andb_false_r.
    - rewrite (testbit_above lo k n) by lia. reflexivity. }
  rewrite <- Z.lxor_lor by exact Hdisj.
  rewrite <- Z.add_nocarry_lxor by exact Hdisj.
  rewrite Z.shiftl_mul_pow2 by lia. reflexivity.
Qed.

Lemma land_shifted_mask v m s :
  0 <= s -> Z.land v (Z.shiftl m s) = Z.shiftl (Z.land (Z.shiftr v s) m) s.
Proof.
  intros Hs. apply Z.bits_inj'. intros n Hn.
  rewrite Z.land_spec. destruct (Z_lt_le_dec n s).
  - rewrite !Z.shiftl_spec_low by lia. apply andb_false_r.
  - rewrite !Z.shiftl_spec by lia. rewrite Z.land_spec, Z.shiftr_spec by lia.
    replace (n - s + s) with n by lia. reflexivity.
Qed.

Lemma land_mask_range v k : 0 <= k -> 0 <= Z.land v (2 ^ k - 1) < 2 ^ k.
Proof.
  intros Hk. replace (2 ^ k - 1) with (Z.ones k) by (rewrite Z.ones_equiv; lia).
  rewrite Z.land_ones by lia. apply Z.mod_pos_bound. apply Z.pow_pos_nonneg; lia.
Qed.

End MoreBits.

(** A packed colour word gives back its fields. *)
Lemma pack_channels r g b a :
  0 <= r < 64 -> 0 <= g < 64 -> 0 <= b < 64 -> 0 <= a < 256 ->
  let c := Z.lor (Z.lor (Z.lor r (Z.shiftl g 8)) (Z.shiftl b 16)) (Z.shiftl a 24) in
  c = r + g * 2 ^ 8 + b * 2 ^ 16 + a * 2 ^ 24 /\
  chanR c = r /\ chanG c = g /\ chanB c = b /\ chanA c = a.
Proof.
  intros Hr Hg Hb Ha c.
  assert (c = r + g * 2 ^ 8 + b * 2 ^ 16 + a * 2 ^ 24) as Hc.
  { subst c. rewrite (lor_shiftl_add r g 8) by lia.
    rewrite (lor_shiftl_add (r + g * 2 ^ 8) b 16) by lia.
    rewrite (lor_shiftl_add (r + g * 2 ^ 8 + b * 2 ^ 16) a 24) by lia. reflexivity. }
  split; [exact Hc |]. clearbody c. subst c.
  unfold chanR, chanG, chanB, chanA.
  change 0x3F with (Z.ones 6). rewrite !Z.land_ones, !Z.shiftr_div_pow2 by lia.
  repeat split.
  - symmetry. apply (Z.mod_unique _ _ (4 * g + 1024 * b + 262144 * a)); lia.
  - assert ((r + g * 2 ^ 8 + b * 2 ^ 16 + a * 2 ^ 24) / 2 ^ 8 = g + b * 2 ^ 8 + a * 2 ^ 16) as ->.
    { symmetry. apply (Z.div_unique _ _ _ r); lia. }
    symmetry. apply (Z.mod_unique _ _ (4 * b + 1024 * a)); lia.
  - assert ((r + g * 2 ^ 8 + b * 2 ^ 16 + a * 2 ^ 24) / 2 ^ 16 = b + a * 2 ^ 8) as ->.
    { symmetry. apply (Z.div_unique _ _ _ (r + g * 2 ^ 8)); lia. }
    symmetry. apply (Z.mod_unique _ _ (4 * a)); lia.
  - symmetry. apply (Z.div_unique _ _ _ (r + g * 2 ^ 8 + b * 2 ^ 16)); lia.
Qed.

(** * Depth tests *)

Lemma opaque_backfacing_bits dstattr :
  (Z.land dstattr 0x00400010 =? 0x00000010)
  = negb (Z.testbit dstattr 22) && Z.testbit dstattr 4.
Proof.
  change 0x00400010 with (Z.lor (2 ^ 22) (2 ^ 4)).
  rewrite Z.land_lor_distr_r, !land_pow2 by lia.
  destruct (Z.testbit dstattr 22), (Z.testbit dstattr 4); reflexivity.
Qed.

Lemma equal_window diff k :
  in_s32 diff -> 0 <= k <= 0x200 ->
  (u32 (diff + k) <=? 2 * k) = (Z.abs diff <=? k).
Proof.
  intros Hd Hk. unfold in_s32 in Hd. unfold u32, wrap_unsigned.
  destruct (Z_lt_le_dec (diff + k) 0) as [Hneg|Hpos].
  - replace ((diff + k) mod 2 ^ 32) with (diff + k + 2 ^ 32).
    + destruct (Z.leb_spec (diff + k + 2 ^ 32) (2 * k)), (Z.leb_spec (Z.abs diff) k); lia.
    + symmetry. rewrite <- (Z.mod_small (diff + k + 2 ^ 32) (2 ^ 32)) by lia.
      rewrite <- (Z_mod_plus_full (diff + k) 1 (2 ^ 32)). f_equal; lia.
  - destruct (Z_lt_le_dec (diff + k) (2 ^ 32)) as [Hlt|Hge].
    + rewrite Z.mod_small by lia.
      destruct (Z.leb_spec (diff + k) (2 * k)), (Z.leb_spec (Z.abs diff) k); lia.
    + lia.
Qed.

(** C3: the depth predicate of a polygon.  With bit 14 of the polygon
    attributes set it accepts exactly the depth differences within 0x200
    (Z-buffering) or 0xFF (W-buffering); otherwise it is [z < dstz], and for
    a front-facing polygon also [z = dstz] exactly when the destination
    pixel is opaque (bit 22 clear) and back-facing (bit 4 set).  The only
    assumption is that the [s32] subtraction [dstz - z] does not overflow. *)
Theorem depth_predicate_selection (polygon : Polygon) (dstz z dstattr : Z) :
  in_s32 (dstz - z) ->
  fnDepthTest polygon dstz z dstattr =
    if bit polygon.(Attr) 14 then
      if polygon.(WBuffer) then Z.abs (dstz - z) <=? 0xFF
      else Z.abs (dstz - z) <=? 0x200
    else
      (z <? dstz)
      || (polygon.(FacingView) && (z =? dstz)
          && negb (Z.testbit dstattr 22) && Z.testbit dstattr 4).
Proof.
  intros Hdiff. unfold fnDepthTest.
  destruct (bit (Attr polygon) 14).
  - destruct (WBuffer polygon).
    + unfold DepthTest_Equal_W. rewrite s32_id by exact Hdiff.
      apply (equal_window (dstz - z) 0xFF); [exact Hdiff | lia].
    + unfold DepthTest_Equal_Z. rewrite s32_id by exact Hdiff.
      apply (equal_window (dstz - z) 0x200); [exact Hdiff | lia].
  - destruct (FacingView polygon); cbn [andb].
    + unfold DepthTest_LessThan_FrontFacing. rewrite opaque_backfacing_bits.
      destruct (Z.leb_spec z dstz), (Z.ltb_spec z dstz), (Z.eqb_spec z dstz);
        destruct (Z.testbit dstattr 22), (Z.testbit dstattr 4);
        try reflexivity; lia.
    + unfold DepthTest_LessThan. rewrite orb_false_r. reflexivity.
Qed.

Lemma depth_predicate_selection_witness :
  in_s32 (0x1000 - 0x1100) /\
  fnDepthTest
    {| Vertices := []; NumVertices := 0; FinalZ := []; FinalW := [];
       WBuffer := false; Attr := 0x4000; TexParam := 0; TexPalette := 0;
       FacingView := true; IsShadowMask := false; IsShadow := false;
       VTop := 0; VBottom := 0; YTop := 0; YBottom := 0 |} 0x1000 0x1100 0
  = true.
Proof.
  split.
  - unfold in_s32. lia.
  - rewrite depth_predicate_selection by (unfold in_s32; lia). reflexivity.
Defined.

(** * Edge slopes *)

Lemma XVal_xval s :
  Slope.XVal s = xval (Slope.Negative s) (Slope.x0 s) (Slope.xmin s) (Slope.xmax s) (Slope.dx s).
Proof. unfold Slope.XVal, xval, clamp. destruct (Slope.Negative s); reflexivity. Qed.

Lemma Step_fields s :
  let s' := fst (Slope.Step s) in
  Slope.Increment s' = Slope.Increment s /\ Slope.Negative s' = Slope.Negative s /\
  Slope.x0 s' = Slope.x0 s /\ Slope.xmin s' = Slope.xmin s /\ Slope.xmax s' = Slope.xmax s /\
  Slope.dx s' = s32 (Slope.dx s + Slope.Increment s).
Proof. simpl. repeat split. Qed.

Lemma Steps_fields n : forall s,
  - 2 ^ 31 <= Slope.dx s -> 0 <= Slope.Increment s ->
  Slope.dx s + Z.of_nat n * Slope.Increment s < 2 ^ 31 ->
  let s' := Slope.Steps n s in
  Slope.Increment s' = Slope.Increment s /\ Slope.Negative s' = Slope.Negative s /\
  Slope.x0 s' = Slope.x0 s /\ Slope.xmin s' = Slope.xmin s /\ Slope.xmax s' = Slope.xmax s /\
  Slope.dx s' = Slope.dx s + Z.of_nat n * Slope.Increment s.
Proof.
  induction n as [|n IH]; intros s Hlo Hinc Hhi.
  - simpl. repeat split. lia.
  - cbn [Slope.Steps].
    destruct (Step_fields s) as (HI & HN & H0 & Hmin & Hmax & Hdx).
    assert (Slope.dx (fst (Slope.Step s)) = Slope.dx s + Slope.Increment s) as Hdx'.
    { rewrite Hdx. apply s32_id. unfold in_s32. nia. }
    destruct (IH (fst (Slope.Step s))) as (HI' & HN' & H0' & Hmin' & Hmax' & Hdx'').
    + lia.
    + lia.
    + rewrite Hdx', HI. nia.
    + cbv zeta. rewrite HI', HN', H0', Hmin', Hmax', Hdx'', Hdx', HI, HN, H0, Hmin, Hmax.
      repeat split. nia.
Qed.

Lemma s32_small v : - 2 ^ 31 <= v < 2 ^ 31 -> s32 v = v.
Proof. apply s32_id. Qed.

Ltac drop_s32 :=
  repeat match goal with
  | |- context [s32 ?v] => rewrite (s32_small v) by lia
  end.

Ltac finish_fields inc :=
  clearbody inc; pose proof (Zgt_cases inc 262144);
  match goal with Hinc : inc = top_increment _ _ _ |- _ =>
    destruct (inc >? 262144) eqn:HXM;
    cbn [fst Slope.Increment Slope.Negative Slope.XMajor Slope.x0 Slope.xmin
         Slope.xmax Slope.dx];
    unfold top_dx; rewrite <- Hinc, HXM
  end;
  match goal with |- context [?a <? ?b] =>
    destruct (Z.ltb_spec a b), (Z.eqb_spec a b)
  end;
  match goal with |- context [if ?s then _ else _] => is_var s; destruct s end;
  destruct (Z.eqb_spec inc 0);
  try lia; cbn [negb]; drop_s32; repeat split; lia.

Lemma Setup_top_fields side this x0 x1 y0 y1 w0 w1 :
  0 <= x0 <= 512 -> 0 <= x1 <= 512 -> 0 <= y0 -> y0 < y1 -> y1 <= 256 ->
  let s := slope_at_top side this x0 x1 y0 y1 w0 w1 in
  Slope.Increment s = top_increment x0 x1 (y1 - y0) /\
  Slope.Negative s = (x1 <? x0) /\
  Slope.XMajor s = (top_increment x0 x1 (y1 - y0) >? 0x40000) /\
  Slope.x0 s = x0 /\
  Slope.xmin s = (if x1 =? x0 then (if side then x0 - 1 else x0) else Z.min x0 x1) /\
  Slope.xmax s = (if x1 =? x0 then (if side then x0 - 1 else x0) else Z.max x0 x1 - 1) /\
  Slope.dx s = top_dx side x0 x1 (y1 - y0).
Proof.
  intros Hx0 Hx1 Hy0 Hy Hy1.
  assert (0 < 2 ^ 18 / (y1 - y0) <= 2 ^ 18) as Hq.
  { split.
    - apply Z.div_str_pos. lia.
    - apply Z.div_le_upper_bound; lia. }
  set (q := 2 ^ 18 / (y1 - y0)) in *.
  assert (- 2 ^ 27 <= (x1 - x0) * q <= 2 ^ 27) as Hprod by nia.
  assert (Z.quot (Z.shiftl 1 18) (y1 - y0) = q) as Hquot.
  { change (Z.shiftl 1 18) with (2 ^ 18). apply Z.quot_div_nonneg; lia. }
  unfold slope_at_top, Slope.Setup.
  destruct (Z.gtb_spec x1 x0) as [Hgt|Hle]; [| destruct (Z.ltb_spec x1 x0) as [Hlt|Hge]];
    cbv zeta;
    rewrite (s32_small (y1 - y0)) by lia; rewrite Hquot;
    rewrite (s32_small q) by lia;
    rewrite (s32_small (x1 - x0)) by lia;
    rewrite (s32_small ((x1 - x0) * q)) by lia;
    rewrite (s32_small (- ((x1 - x0) * q))) by lia;
    rewrite ?(s32_small (x1 - 1)), ?(s32_small (x0 - 1)) by lia;
    rewrite Z.sub_diag; change (s32 0) with 0; rewrite Z.mul_0_l; change (s32 0) with 0;
    rewrite ?(s32_small (x1 - 1 + 1)), ?(s32_small (x1 - 1 + 1 - x0)) by lia;
    rewrite ?(s32_small (x0 - 1 + 1)), ?(s32_small (x0 - 1 + 1 - x1)) by lia;
    match goal with |- context [if ?c >? 262144 then (?a, _) else (?b, _)] => set (inc := c) end.
  - assert (inc = top_increment x0 x1 (y1 - y0) /\ 0 <= inc <= 2 ^ 27) as [Hinc Hrange].
    { subst inc. unfold top_increment, top_xlen.
      destruct (Z.eqb_spec (y1 - y0) 0); [lia |].
      destruct (Z.eqb_spec x1 x0); [lia |].
      replace (Z.abs (x1 - x0)) with (x1 - x0) by lia.
      replace (x1 - 1 + 1 - x0) with (x1 - x0) by lia.
      destruct (Z.eqb_spec (y1 - y0) (x1 - x0)); [lia |].
      destruct (Z.ltb_spec ((x1 - x0) * q) 0); [nia | lia]. }
    finish_fields inc.
  - assert (inc = top_increment x0 x1 (y1 - y0) /\ 0 <= inc <= 2 ^ 27) as [Hinc Hrange].
    { subst inc. unfold top_increment, top_xlen.
      destruct (Z.eqb_spec (y1 - y0) 0); [lia |].
      destruct (Z.eqb_spec x1 x0); [lia |].
      replace (Z.abs (x1 - x0)) with (x0 - x1) by lia.
      replace (x0 - 1 + 1 - x1) with (x0 - x1) by lia.
      destruct (Z.eqb_spec (y1 - y0) (x0 - x1)); [lia |].
      destruct (Z.ltb_spec ((x1 - x0) * q) 0); [split; [unfold q; ring | nia] | nia]. }
    finish_fields inc.
  - assert (inc = top_increment x0 x1 (y1 - y0) /\ 0 <= inc <= 2 ^ 27) as [Hinc Hrange].
    { subst inc. unfold top_increment, top_xlen.
      destruct (Z.eqb_spec (y1 - y0) 0); [lia |].
      destruct (Z.eqb_spec x1 x0); [| lia].
      assert (s32 (s32 ((if side then x0 - 1 else x0) + 1) - (if side then x0 - 1 else x0)) = 1)
        as -> by (destruct side; drop_s32; lia).
      replace (Z.abs (x1 - x0)) with 0 by lia.
      replace ((x1 - x0) * q) with 0 by nia.
      destruct (Z.eqb_spec (y1 - y0) 1); simpl; lia. }
    finish_fields inc.
Qed.

Lemma top_increment_total x0 x1 ylen :
  0 <= x0 <= 512 -> 0 <= x1 <= 512 -> 0 < ylen <= 256 -> x1 <> x0 ->
  Z.abs (x1 - x0) * 2 ^ 18 - 2 ^ 17 <= ylen * top_increment x0 x1 ylen
    <= Z.abs (x1 - x0) * 2 ^ 18
  /\ 0 < top_increment x0 x1 ylen <= 2 ^ 27.
Proof.
  intros Hx0 Hx1 Hy Hne. unfold top_increment, top_xlen.
  destruct (Z.eqb_spec x1 x0) as [|_]; [lia |].
  destruct (Z.eqb_spec ylen (Z.abs (x1 - x0))) as [->|Hxy].
  - lia.
  - pose proof (Z.div_mod (2 ^ 18) ylen ltac:(lia)) as Hdm.
    pose proof (Z.mod_pos_bound (2 ^ 18) ylen ltac:(lia)) as Hmod.
    assert (0 < 2 ^ 18 / ylen <= 2 ^ 18) as Hq.
    { split; [apply Z.div_str_pos; lia | apply Z.div_le_upper_bound; lia]. }
    set (q := 2 ^ 18 / ylen) in *. set (r := 2 ^ 18 mod ylen) in *.
    set (X := Z.abs (x1 - x0)) in *.
    assert (0 < X <= 512) by (subst X; lia).
    assert (ylen * (X * q) = X * 2 ^ 18 - X * r) as -> by nia.
    nia.
Qed.

Lemma shiftr18_lower d k : k * 2 ^ 18 <= d -> k <= Z.shiftr d 18.
Proof.
  intros H. rewrite Z.shiftr_div_pow2 by lia. apply Z.div_le_lower_bound; lia.
Qed.

Lemma shiftr18_small d : 0 <= d < 2 ^ 18 -> Z.shiftr d 18 = 0.
Proof. intros H. rewrite Z.shiftr_div_pow2 by lia. apply Z.div_small. exact H. Qed.

Lemma shiftr18_one d : 2 ^ 18 <= d < 2 ^ 19 -> Z.shiftr d 18 = 1.
Proof.
  intros H. rewrite Z.shiftr_div_pow2 by lia.
  symmetry. apply (Z.div_unique d (2 ^ 18) 1 (d - 2 ^ 18)); lia.
Qed.

Lemma shiftr18_upper d : d <= 2 ^ 29 -> Z.shiftr d 18 <= 2 ^ 11.
Proof.
  intros H. rewrite Z.shiftr_div_pow2 by lia. apply Z.div_le_upper_bound; lia.
Qed.

Lemma slope_XVal_ends (side : bool) (this : Slope.t) (x0 x1 y0 y1 w0 w1 : Z) :
  0 <= x0 <= 512 -> 0 <= x1 <= 512 -> 0 <= y0 -> y0 < y1 -> y1 <= 256 ->
  let s := slope_at_top side this x0 x1 y0 y1 w0 w1 in
  let lo := Slope.xmin s in
  let hi := Slope.xmax s in
  (if x1 =? x0 then lo = (if side then x0 - 1 else x0) /\ hi = lo
   else lo = Z.min x0 x1 /\ hi = Z.max x0 x1 - 1) /\
  (Slope.XMajor s = false \/ side = Slope.Negative s -> Slope.XVal s = clamp lo hi x0) /\
  Slope.XVal (Slope.Steps (Z.to_nat (y1 - y0)) s) = clamp lo hi x1.
Proof.
  intros Hx0 Hx1 Hy0 Hy Hy1 s lo hi.
  destruct (Setup_top_fields side this x0 x1 y0 y1 w0 w1 Hx0 Hx1 Hy0 Hy Hy1)
    as (HI & HN & HXM & H0 & Hmin & Hmax & Hdx).
  fold s in HI, HN, HXM, H0, Hmin, Hmax, Hdx. fold lo in Hmin. fold hi in Hmax.
  destruct (Z.eqb_spec x1 x0) as [Heq|Hne].
  - (* vertical edge: the clamp interval is a single column *)
    assert (hi = lo) as Hhl by lia.
    split; [split; [exact Hmin | exact Hhl] |].
    assert (forall v, clamp lo hi v = lo) as Hcl.
    { intros v. unfold clamp. rewrite Hhl.
      destruct (Z.ltb_spec v lo); [reflexivity |].
      destruct (Z.gtb_spec v lo); lia. }
    assert (forall t, Slope.xmin t = lo -> Slope.xmax t = hi -> Slope.XVal t = lo) as Hx.
    { intros t Ht1 Ht2. rewrite XVal_xval. unfold xval. rewrite Ht1, Ht2. apply Hcl. }
    split.
    + intros _. rewrite Hcl. apply Hx; reflexivity.
    + rewrite Hcl.
      assert (forall n t, Slope.xmin t = lo -> Slope.xmax t = hi ->
                          Slope.xmin (Slope.Steps n t) = lo /\ Slope.xmax (Slope.Steps n t) = hi)
        as Hsteps.
      { induction n as [|n IH]; intros t Ht1 Ht2; [split; assumption |].
        cbn [Slope.Steps]. apply IH; assumption. }
      destruct (Hsteps (Z.to_nat (y1 - y0)) s eq_refl eq_refl). apply Hx; assumption.
  - destruct (top_increment_total x0 x1 (y1 - y0) Hx0 Hx1 ltac:(lia) Hne) as [Htot Hpos].
    set (inc := top_increment x0 x1 (y1 - y0)) in *.
    assert (- 2 ^ 18 <= Slope.dx s <= 2 ^ 28) as Hdxr.
    { rewrite Hdx. unfold top_dx. fold inc.
      destruct (inc >? 262144), side, (x1 <? x0), (Z.eqb_spec inc 0); lia. }
    split; [split; [exact Hmin | exact Hmax] |].
    split.
    + (* first scanline *)
      intros Hcase. rewrite XVal_xval, HN, H0. fold lo hi. rewrite Hdx.
      rewrite HXM in Hcase. rewrite HN in Hcase. fold inc in Hcase.
      unfold xval, top_dx. fold inc.
      pose proof (Zgt_cases inc 262144) as Hgt.
      destruct (Z.eqb_spec inc 0) as [|_]; [lia |].
      destruct (Z.ltb_spec x1 x0) as [Hneg|Hpos'].
      * assert (Z.shiftr (if inc >? 262144
                          then if side then 393216 else inc + 131072
                          else 262144) 18 = 1) as ->.
        { destruct (inc >? 262144).
          - destruct Hcase as [Hc|Hc]; [discriminate |]. subst side.
            apply shiftr18_one. lia.
          - apply shiftr18_one. lia. }
        rewrite s32_id by (unfold in_s32; lia).
        unfold clamp.
        destruct (Z.ltb_spec (x0 - 1) lo), (Z.gtb_spec (x0 - 1) hi),
                 (Z.ltb_spec x0 lo), (Z.gtb_spec x0 hi); lia.
      * assert (Z.shiftr (if inc >? 262144
                          then if side then inc - 131072 else 131072
                          else 0) 18 = 0) as ->.
        { destruct (inc >? 262144).
          - destruct Hcase as [Hc|Hc]; [discriminate |]. subst side.
            apply shiftr18_small. lia.
          - reflexivity. }
        rewrite s32_id by (unfold in_s32; lia).
        rewrite Z.add_0_r. reflexivity.
    + (* after ylen steps *)
      destruct (Steps_fields (Z.to_nat (y1 - y0)) s) as (HI' & HN' & H0' & Hmin' & Hmax' & Hdx').
      * lia.
      * rewrite HI. lia.
      * rewrite HI, Z2Nat.id by lia. lia.
      * cbv zeta in HI', HN', H0', Hmin', Hmax', Hdx'.
        rewrite XVal_xval, HN', H0', Hmin', Hmax', Hdx', HN, H0, HI, Z2Nat.id by lia.
        fold lo hi inc.
        set (d := Slope.dx s + (y1 - y0) * inc).
        assert (Z.shiftr d 18 <= 2 ^ 11) as Hup by (apply shiftr18_upper; subst d; lia).
        assert (0 <= Slope.dx s \/ x1 < x0 -> Z.abs (x1 - x0) - 1 <= Z.shiftr d 18) as Hlow.
        { intros _. apply shiftr18_lower. subst d.
          assert (0 <= Slope.dx s).
          { rewrite Hdx. unfold top_dx. fold inc.
            destruct (Z.gtb_spec inc 262144), side, (x1 <? x0), (Z.eqb_spec inc 0); lia. }
          lia. }
        assert (x1 < x0 -> Z.abs (x1 - x0) <= Z.shiftr d 18) as Hlow'.
        { intros Hneg. apply shiftr18_lower. subst d.
          assert (2 ^ 18 <= Slope.dx s).
          { rewrite Hdx. unfold top_dx. fold inc.
            destruct (Z.gtb_spec inc 262144), side, (Z.ltb_spec x1 x0), (Z.eqb_spec inc 0); lia. }
          lia. }
        unfold xval, clamp.
        destruct (Z.ltb_spec x1 x0) as [Hneg|Hpos'].
        -- specialize (Hlow' Hneg). specialize (Hlow (or_intror Hneg)).
           rewrite s32_id by (unfold in_s32; lia).
           destruct (Z.ltb_spec (x0 - Z.shiftr d 18) lo), (Z.gtb_spec (x0 - Z.shiftr d 18) hi),
                    (Z.ltb_spec x1 lo), (Z.gtb_spec x1 hi); lia.
        -- assert (0 <= Slope.dx s) as Hnn.
           { rewrite Hdx. unfold top_dx. fold inc.
             destruct (Z.gtb_spec inc 262144), side, (Z.ltb_spec x1 x0), (Z.eqb_spec inc 0); lia. }
           specialize (Hlow (or_introl Hnn)).
           rewrite s32_id by (unfold in_s32; lia).
           destruct (Z.ltb_spec (x0 + Z.shiftr d 18) lo), (Z.gtb_spec (x0 + Z.shiftr d 18) hi),
                    (Z.ltb_spec x1 lo), (Z.gtb_spec x1 hi); lia.
Qed.

(** C1, amended: a slope set up on its first scanline ([y = y0]) with
    on-screen coordinates.  [xmin, xmax] is [min x0 x1, max x0 x1 - 1] (one
    column for a vertical edge).  The first XVal is [x0] clamped to that
    interval whenever the edge is Y-major, or is a left edge going right or
    a right edge going left; on the other X-major edges it is displaced by
    the first span, [(Increment - 0x20000) >> 18] to the right on a right
    edge and [(Increment + 0x20000) >> 18] to the left on a left edge.
    After [ylen] Steps XVal is [x1] clamped to the interval. *)
Theorem slope_XVal_top_and_bottom (side : bool) (this : Slope.t) (x0 x1 y0 y1 w0 w1 : Z) :
  0 <= x0 <= 512 -> 0 <= x1 <= 512 -> 0 <= y0 -> y0 < y1 -> y1 <= 256 ->
  let s := slope_at_top side this x0 x1 y0 y1 w0 w1 in
  let lo := Slope.xmin s in
  let hi := Slope.xmax s in
  (if x1 =? x0 then lo = (if side then x0 - 1 else x0) /\ hi = lo
   else lo = Z.min x0 x1 /\ hi = Z.max x0 x1 - 1) /\
  (Slope.XMajor s = false \/ side = Slope.Negative s -> Slope.XVal s = clamp lo hi x0) /\
  (Slope.XMajor s = true -> side <> Slope.Negative s ->
   Slope.XVal s
   = clamp lo hi (if side then x0 + Z.shiftr (Slope.Increment s - 0x20000) 18
                  else x0 - Z.shiftr (Slope.Increment s + 0x20000) 18)) /\
  Slope.XVal (Slope.Steps (Z.to_nat (y1 - y0)) s) = clamp lo hi x1.
Proof.
  intros Hx0 Hx1 Hy0 Hy Hy1 s lo hi.
  destruct (slope_XVal_ends side this x0 x1 y0 y1 w0 w1 Hx0 Hx1 Hy0 Hy Hy1)
    as (Hint & Hfirst & Hlast).
  fold s lo hi in Hint, Hfirst, Hlast.
  split; [exact Hint |]. split; [exact Hfirst |]. split; [| exact Hlast].
  intros HXM Hside.
  destruct (Setup_top_fields side this x0 x1 y0 y1 w0 w1 Hx0 Hx1 Hy0 Hy Hy1)
    as (HI & HN & HXM' & H0 & _ & _ & Hdx).
  fold s in HI, HN, HXM', H0, Hdx.
  rewrite XVal_xval, H0, Hdx. fold lo hi. unfold xval, top_dx. cbv zeta.
  rewrite <- HXM', HXM, <- HI, <- HN.
  assert (262144 < Slope.Increment s <= 2 ^ 27) as Hinc.
  { rewrite HXM' in HXM. apply Z.gtb_lt in HXM. rewrite HI. split; [exact HXM |].
    unfold top_increment. destruct (y1 - y0 =? top_xlen x0 x1); [lia |].
    assert (0 < 2 ^ 18 / (y1 - y0) <= 2 ^ 18) as Hq.
    { split; [apply Z.div_str_pos; lia | apply Z.div_le_upper_bound; lia]. }
    nia. }
  destruct side, (Slope.Negative s); try congruence.
  - assert (0 <= Z.shiftr (Slope.Increment s - 131072) 18 <= 2 ^ 11) as Hsh.
    { split; [apply Z.shiftr_nonneg; lia | apply shiftr18_upper; lia]. }
    rewrite s32_id by (unfold in_s32; lia). reflexivity.
  - assert (0 <= Z.shiftr (Slope.Increment s + 131072) 18 <= 2 ^ 11) as Hsh.
    { split; [apply Z.shiftr_nonneg; lia | apply shiftr18_upper; lia]. }
    rewrite s32_id by (unfold in_s32; lia). reflexivity.
Qed.

Lemma slope_XVal_top_and_bottom_witness :
  let s := slope_at_top false Slope.blank 5 10 0 10 0x1000 0x1000 in
  let lo := Slope.xmin s in
  let hi := Slope.xmax s in
  (if 10 =? 5 then lo = 5 /\ hi = lo else lo = Z.min 5 10 /\ hi = Z.max 5 10 - 1) /\
  (Slope.XMajor s = false \/ false = Slope.Negative s -> Slope.XVal s = clamp lo hi 5) /\
  (Slope.XMajor s = true -> false <> Slope.Negative s ->
   Slope.XVal s
   = clamp lo hi (if false then 5 + Z.shiftr (Slope.Increment s - 0x20000) 18
                  else 5 - Z.shiftr (Slope.Increment s + 0x20000) 18)) /\
  Slope.XVal (Slope.Steps (Z.to_nat (10 - 0)) s) = clamp lo hi 10.
Proof. apply slope_XVal_top_and_bottom; lia. Defined.

(** C1 as stated fails on a right-hand X-major edge from (0,0) to (20,10):
    [x0 = 0] lies inside [xmin, xmax] = [0, 19], nothing is clamped, and
    the first XVal is 1. *)
Lemma slope_right_xmajor_starts_off_x0 :
  let s := slope_at_top true Slope.blank 0 20 0 10 0x1000 0x1000 in
  Slope.xmin s = 0 /\ Slope.xmax s = 19 /\ Slope.XVal s = 1 /\ Slope.XVal s <> 0.
Proof. vm_compute. repeat split; discriminate. Qed.

(** * Linear interpolation *)

Section LinearStep.
Variables (D d : Z).
Hypothesis HD : 0 < D.
Hypothesis Hd : 0 <= d.
Let R := 2 ^ 30 / D.

Lemma recip_bounds : 0 <= R /\ D * R <= 2 ^ 30 /\ D * R = 2 ^ 30 - 2 ^ 30 mod D.
Proof.
  subst R. pose proof (Z.div_mod (2 ^ 30) D ltac:(lia)) as Hdm.
  pose proof (Z.mod_pos_bound (2 ^ 30) D HD) as Hm.
  assert (0 <= 2 ^ 30 / D) by (apply Z.div_pos; lia).
  lia.
Qed.

Lemma linear_step_0 : linear_step d 0 R = 0.
Proof. unfold linear_step. rewrite Z.mul_0_r, Z.mul_0_l. reflexivity. Qed.

Lemma linear_step_range m : 0 <= m <= D -> 0 <= linear_step d m R <= d.
Proof.
  intros Hm. destruct recip_bounds as (HR & HDR & _). unfold linear_step.
  assert (0 <= m * R <= 2 ^ 30) as Hmr by nia.
  split.
  - apply Z.div_pos; nia.
  - apply Z.lt_succ_r. apply Z.div_lt_upper_bound; nia.
Qed.

Lemma linear_step_mono m m' :
  0 <= m <= m' -> linear_step d m R <= linear_step d m' R.
Proof.
  intros Hm. destruct recip_bounds as (HR & _). unfold linear_step.
  assert (d * m <= d * m') by nia.
  apply Z.div_le_mono; [lia | nia].
Qed.

Lemma linear_step_full :
  d * (2 ^ 30 mod D) <= 3 * 2 ^ 24 -> linear_step d D R = d.
Proof.
  intros Hr. destruct recip_bounds as (HR & _ & HDR). unfold linear_step.
  replace (d * D * R) with (d * (D * R)) by ring. rewrite HDR.
  pose proof (Z.mod_pos_bound (2 ^ 30) D HD) as Hm.
  set (r := 2 ^ 30 mod D) in *.
  assert (0 <= d * r) by nia.
  symmetry. apply (Z.div_unique _ (2 ^ 30) d (3 * 2 ^ 24 - d * r)); [lia | ring].
Qed.
End LinearStep.

Lemma linear_fields (dir : bool) (this : Interpolator.t) (x0 x1 w x : Z) :
  Z.land (u32 w) (if dir then 0x7E else 0x7F) = 0 ->
  let i := Interpolator.SetX (Interpolator.Setup dir this x0 x1 w w) x in
  Interpolator.xdiff i = s32 (x1 - x0) /\
  Interpolator.linear i = true /\
  Interpolator.x i = s32 (x - x0) /\
  Interpolator.xrecip i =
    (if negb (s32 (x1 - x0) =? 0) then s32 (Z.quot (Z.shiftl 1 30) (s32 (x1 - x0))) else 0).
Proof.
  intros Hmask. unfold Interpolator.Setup. rewrite Z.eqb_refl.
  destruct dir; rewrite Hmask; cbn [nonzero Z.eqb negb andb].
  - destruct (nonzero (Z.land w 1) && negb (nonzero (Z.land w 1)));
      cbn; repeat split; reflexivity.
  - cbn; repeat split; reflexivity.
Qed.

Lemma shiftr30 v : Z.shiftr v 30 = v / 2 ^ 30.
Proof. apply Z.shiftr_div_pow2. lia. Qed.

Lemma linear_value_closed (dir : bool) (this : Interpolator.t) (x0 x1 w x a b : Z) :
  in_s32 (x1 - x0) -> x0 <> x1 ->
  Z.land (u32 w) (if dir then 0x7E else 0x7F) = 0 ->
  in_s32 a -> in_s32 b -> Z.abs (b - a) < 2 ^ 31 ->
  between x0 x x1 ->
  linear_value dir this x0 x1 w x a b =
    if a =? b then a
    else if a <? b then
      a + linear_step (b - a) (Z.abs (x - x0)) (2 ^ 30 / Z.abs (x1 - x0))
    else
      b + linear_step (a - b) (Z.abs (x1 - x0) - Z.abs (x - x0))
                      (2 ^ 30 / Z.abs (x1 - x0)).
Proof.
  intros Hxd Hne Hmask Ha Hb Hab Hx.
  destruct (linear_fields dir this x0 x1 w x Hmask) as (Hf1 & Hf2 & Hf3 & Hf4).
  unfold linear_value, Interpolator.Interpolate.
  cbv zeta in Hf1, Hf2, Hf3, Hf4. rewrite Hf1, Hf2, Hf3, Hf4.
  unfold in_s32 in *.
  rewrite (s32_id (x1 - x0)) by exact Hxd.
  destruct (Z.eqb_spec (x1 - x0) 0) as [|_]; [lia |].
  cbn [negb orb].
  destruct (Z.eqb_spec a b) as [|Hab']; [reflexivity |].
  set (D := Z.abs (x1 - x0)). set (k := Z.abs (x - x0)).
  assert (0 < D <= 2 ^ 31) as HD by (subst D; lia).
  assert (0 <= k <= D) as Hk by (subst k D; unfold between in Hx; lia).
  destruct (recip_bounds D ltac:(lia)) as (HR & HDR & _).
  set (R := 2 ^ 30 / D) in *.
  assert (0 <= k * R <= 2 ^ 30) as HkR by nia.
  assert (0 <= (D - k) * R <= 2 ^ 30) as HkR' by nia.
  assert (R <= 2 ^ 30) as HRu.
  { subst R. apply Z.div_le_upper_bound; lia. }
  rewrite (s32_id (x - x0)) by (unfold in_s32, between in *; lia).
  assert (s32 (Z.quot (Z.shiftl 1 30) (x1 - x0)) * (x - x0) = k * R
          /\ s32 (Z.quot (Z.shiftl 1 30) (x1 - x0)) * (x1 - x0 - (x - x0)) = (D - k) * R
          /\ - 2 ^ 30 <= s32 (Z.quot (Z.shiftl 1 30) (x1 - x0)) <= 2 ^ 30
          /\ - 2 ^ 31 <= x - x0 <= 2 ^ 31 /\ Z.abs (x - x0) = k
          /\ Z.abs (x1 - x0 - (x - x0)) = D - k)
    as (Hp1 & Hp2 & Hrr & Hxr & Hka & Hka').
  { change (Z.shiftl 1 30) with (2 ^ 30).
    destruct (Z_lt_le_dec x0 x1) as [Hlt|Hge].
    - rewrite Z.quot_div_nonneg by lia.
      replace (x1 - x0) with D by (subst D; lia). fold R.
      rewrite s32_id by (unfold in_s32; lia).
      unfold between in Hx. subst k. repeat split; lia.

    - replace (x1 - x0) with (- D) by (subst D; lia).
      rewrite Z.quot_opp_r by lia. rewrite Z.quot_div_nonneg by lia. fold R.
      rewrite s32_id by (unfold in_s32; lia).
      unfold between in Hx. subst k. repeat split; lia. }
  set (xr := s32 (Z.quot (Z.shiftl 1 30) (x1 - x0))) in *.
  rewrite (s32_id (x1 - x0 - (x - x0))) by (unfold in_s32; lia).
  change (Z.shiftl 3 24) with (3 * 2 ^ 24).
  destruct (Z.ltb_spec a b) as [Hlt|Hge].
  - rewrite (s32_id (b - a)) by (unfold in_s32; lia).
    pose proof (linear_step_range D (b - a) ltac:(lia) ltac:(lia) k Hk) as Hrange.
    fold R in Hrange. unfold linear_step in *.
    assert ((b - a) * (x - x0) * xr = (b - a) * k * R) as Hprod.
    { rewrite <- Z.mul_assoc, (Z.mul_comm (x - x0) xr), Hp1. ring. }
    assert (Z.abs ((b - a) * (x - x0)) <= 2 ^ 62) as Hb1.
    { rewrite Z.abs_mul, Hka. nia. }
    rewrite (s64_id ((b - a) * (x - x0))) by lia.
    assert (0 <= (b - a) * k * R <= 2 ^ 61) as Hb2 by nia.
    rewrite Hprod.
    rewrite (s64_id ((b - a) * k * R)) by lia.
    rewrite (s64_id ((b - a) * k * R + 3 * 2 ^ 24)) by lia.
    rewrite shiftr30.
    rewrite s64_id by lia. rewrite s32_id by (unfold in_s32; lia). reflexivity.
  - rewrite (s32_id (a - b)) by (unfold in_s32; lia).
    pose proof (linear_step_range D (a - b) ltac:(lia) ltac:(lia) (D - k) ltac:(lia)) as Hrange.
    fold R in Hrange. unfold linear_step in *.
    assert ((a - b) * (x1 - x0 - (x - x0)) * xr = (a - b) * (D - k) * R) as Hprod.
    { rewrite <- Z.mul_assoc, (Z.mul_comm (x1 - x0 - (x - x0)) xr), Hp2. ring. }
    assert (Z.abs ((a - b) * (x1 - x0 - (x - x0))) <= 2 ^ 62) as Hb1.
    { rewrite Z.abs_mul, Hka'. nia. }
    rewrite (s64_id ((a - b) * (x1 - x0 - (x - x0)))) by lia.
    assert (0 <= (a - b) * (D - k) * R <= 2 ^ 61) as Hb2 by nia.
    rewrite Hprod.
    rewrite (s64_id ((a - b) * (D - k) * R)) by lia.
    rewrite (s64_id ((a - b) * (D - k) * R + 3 * 2 ^ 24)) by lia.
    rewrite shiftr30.
    rewrite s64_id by lia. rewrite s32_id by (unfold in_s32; lia). reflexivity.
Qed.

Lemma linear_equal_ends (dir : bool) (this : Interpolator.t) (x0 w x a b : Z) :
  linear_value dir this x0 x0 w x a b = a.
Proof.
  unfold linear_value, Interpolator.Interpolate, Interpolator.SetX.
  cbn [Interpolator.xdiff].
  replace (Interpolator.xdiff (Interpolator.Setup dir this x0 x0 w w)) with 0;
    [reflexivity |].
  unfold Interpolator.Setup. rewrite Z.sub_diag. cbv zeta.
  destruct dir; [destruct (nonzero (Z.land w 1) && negb (nonzero (Z.land w 1))) |];
    reflexivity.
Qed.

(** The truncated reciprocal is exact for a power of two, and its error is
    covered by the rounding bias for 16-bit differences over spans of at
    most 256. *)
Lemma bias_covers (d D : Z) :
  0 <= d -> 0 < D ->
  (exists k, 0 <= k <= 30 /\ D = 2 ^ k) \/ (d < 2 ^ 16 /\ D <= 256) ->
  d * (2 ^ 30 mod D) <= 3 * 2 ^ 24.
Proof.
  intros Hd HD [(k & Hk & ->) | (Hd16 & HD256)].
  - replace (2 ^ 30) with (2 ^ (30 - k) * 2 ^ k)
      by (rewrite <- Z.pow_add_r by lia; f_equal; lia).
    rewrite Z.mod_mul by lia. lia.
  - pose proof (Z.mod_pos_bound (2 ^ 30) D HD) as Hm.
    assert (d * (2 ^ 30 mod D) <= 2 ^ 16 * 256)
      by (apply Z.mul_le_mono_nonneg; lia).
    lia.
Qed.

(** C2, amended: an interpolator in linear mode (equal weights with the
    masked low bits clear), on values whose difference fits an [s32].
    Interpolate stays within [min a b, max a b] and is monotone from [x0]
    to [x1].  Between two different positions it returns [a] at [x0] and
    [b] at [x1] when [|b - a| * (2^30 mod |x1 - x0|) <= 3 * 2^24], the room
    the rounding bias leaves for the truncated reciprocal; that is always so
    when [|x1 - x0|] is a power of two up to 2^30, and when [|b - a| < 2^16]
    and [|x1 - x0| <= 256].  With [x0 = x1] it returns [a] at every
    position. *)
Theorem linear_interpolation (dir : bool) (this : Interpolator.t) (x0 x1 w a b : Z) :
  in_s32 (x1 - x0) ->
  Z.land (u32 w) (if dir then 0x7E else 0x7F) = 0 ->
  in_s32 a -> in_s32 b -> Z.abs (b - a) < 2 ^ 31 ->
  let I := fun x => linear_value dir this x0 x1 w x a b in
  (x0 = x1 -> forall x, I x = a) /\
  (x0 <> x1 -> Z.abs (b - a) * (2 ^ 30 mod Z.abs (x1 - x0)) <= 3 * 2 ^ 24 ->
   I x0 = a /\ I x1 = b) /\
  (x0 <> x1 ->
   (exists k, 0 <= k <= 30 /\ Z.abs (x1 - x0) = 2 ^ k)
   \/ (Z.abs (b - a) < 2 ^ 16 /\ Z.abs (x1 - x0) <= 256) ->
   Z.abs (b - a) * (2 ^ 30 mod Z.abs (x1 - x0)) <= 3 * 2 ^ 24 /\ I x0 = a /\ I x1 = b) /\
  (forall x, between x0 x x1 -> Z.min a b <= I x <= Z.max a b) /\
  (forall x x', between x0 x x' -> between x0 x' x1 ->
     if a <=? b then I x <= I x' else I x' <= I x).
Proof.
  intros Hxd Hmask Ha Hb Hab I.
  destruct (Z.eq_dec x0 x1) as [Heq | Hne].
  { subst x1.
    assert (forall x, I x = a) as Hconst by (intros x; apply linear_equal_ends).
    split; [intros _; exact Hconst |].
    split; [intros Hne; contradiction |]. split; [intros Hne; contradiction |]. split.
    - intros x _. rewrite Hconst. lia.
    - intros x x' _ _. rewrite !Hconst. destruct (a <=? b); lia. }
  set (D := Z.abs (x1 - x0)).
  assert (0 < D) as HD by (subst D; lia).
  assert (forall x, between x0 x x1 ->
            I x = if a =? b then a
                  else if a <? b then a + linear_step (b - a) (Z.abs (x - x0)) (2 ^ 30 / D)
                  else b + linear_step (a - b) (D - Z.abs (x - x0)) (2 ^ 30 / D)) as Hform.
  { intros x Hx. apply linear_value_closed; assumption. }
  assert (forall x, between x0 x x1 -> 0 <= Z.abs (x - x0) <= D) as Hk.
  { intros x Hx. subst D. unfold between in Hx. lia. }
  assert (Z.abs (b - a) * (2 ^ 30 mod D) <= 3 * 2 ^ 24 -> I x0 = a /\ I x1 = b) as Hends.
  { intros Hr.
    rewrite (Hform x0), (Hform x1) by (unfold between; lia).
    rewrite Z.sub_diag. change (Z.abs 0) with 0. rewrite Z.sub_0_r. fold D. rewrite Z.sub_diag.
    destruct (Z.eqb_spec a b) as [|Hab']; [split; congruence |].
    destruct (Z.ltb_spec a b) as [Hlt|Hge].
    + replace (Z.abs (b - a)) with (b - a) in Hr by lia.
      rewrite linear_step_0, (linear_step_full D (b - a) HD ltac:(lia) Hr). lia.
    + replace (Z.abs (b - a)) with (a - b) in Hr by lia.
      rewrite linear_step_0, (linear_step_full D (a - b) HD ltac:(lia) Hr). lia. }
  split; [intros Heq; contradiction |].
  split; [intros _; exact Hends |]. split; [| split].
  - intros _ Hcase.
    pose proof (bias_covers (Z.abs (b - a)) D ltac:(lia) HD Hcase) as Hr.
    split; [exact Hr | exact (Hends Hr)].
  - intros x Hx. rewrite (Hform x Hx). specialize (Hk x Hx).
    destruct (Z.eqb_spec a b) as [|Hab']; [lia |].
    destruct (Z.ltb_spec a b) as [Hlt|Hge].
    + pose proof (linear_step_range D (b - a) HD ltac:(lia) (Z.abs (x - x0)) ltac:(lia)). lia.
    + pose proof (linear_step_range D (a - b) HD ltac:(lia) (D - Z.abs (x - x0)) ltac:(lia)). lia.
  - intros x x' Hx Hx'.
    assert (between x0 x x1) as Hxb by (unfold between in *; lia).
    rewrite (Hform x Hxb), (Hform x' Hx').
    pose proof (Hk x Hxb). pose proof (Hk x' Hx').
    assert (Z.abs (x - x0) <= Z.abs (x' - x0)) as Hle by (unfold between in *; lia).
    destruct (Z.eqb_spec a b) as [|Hab'].
    + destruct (a <=? b); lia.
    + destruct (Z.ltb_spec a b) as [Hlt|Hge], (Z.leb_spec a b) as [Hle'|Hgt]; try lia.
      * pose proof (linear_step_mono D (b - a) HD ltac:(lia)
                      (Z.abs (x - x0)) (Z.abs (x' - x0)) ltac:(lia)). lia.
      * pose proof (linear_step_mono D (a - b) HD ltac:(lia)
                      (D - Z.abs (x' - x0)) (D - Z.abs (x - x0)) ltac:(lia)). lia.
Qed.

Lemma linear_interpolation_witness :
  let I := fun x => linear_value false Interpolator.blank 0 7 0x1000 x 10 100 in
  let J := fun x => linear_value true Interpolator.blank 5 5 0x1000 x 10 100 in
  (I 0 = 10 /\ I 7 = 100) /\
  (forall x, between 0 x 7 -> Z.min 10 100 <= I x <= Z.max 10 100) /\
  (forall x x', between 0 x x' -> between 0 x' 7 -> I x <= I x') /\
  (forall x, J x = 10).
Proof.
  intros I J.
  destruct (linear_interpolation false Interpolator.blank 0 7 0x1000 10 100
              ltac:(unfold in_s32; lia) eq_refl ltac:(unfold in_s32; lia)
              ltac:(unfold in_s32; lia) ltac:(lia))
    as (_ & _ & Hends & Hrange & Hmono).
  destruct (linear_interpolation true Interpolator.blank 5 5 0x1000 10 100
              ltac:(unfold in_s32; lia) eq_refl ltac:(unfold in_s32; lia)
              ltac:(unfold in_s32; lia) ltac:(lia))
    as (Hconst & _).
  split; [apply Hends; [lia | right; lia] |].
  split; [exact Hrange |]. split; [| exact (Hconst eq_refl)].
  intros x x' Hx Hx'. exact (Hmono x x' Hx Hx').
Defined.

(** C2 as stated fails in two ways.  With [x1 - x0 = 3] the reciprocal is
    one short of 2^30 / 3 exact, and over a difference of 60000000 the
    result at [x1] is one below [b].  With [x0 = x1] the value at [x1] is
    [a], whatever [b] is. *)
Lemma linear_misses_far_endpoint :
  linear_value false Interpolator.blank 0 3 0x1000 3 0 60000000 = 59999999
  /\ linear_value false Interpolator.blank 0 3 0x1000 3 0 60000000 <> 60000000
  /\ linear_value false Interpolator.blank 0 0 0x1000 0 0 1 <> 1.
Proof. vm_compute. repeat split; discriminate. Qed.

(** * Alpha blending and the translucent plot *)

Lemma chan_range c : 0 <= chanR c < 64 /\ 0 <= chanG c < 64 /\ 0 <= chanB c < 64.
Proof.
  unfold chanR, chanG, chanB. repeat split; apply (land_mask_range _ 6); lia.
Qed.

Lemma blend_channel_range s d alpha :
  0 <= s < 64 -> 0 <= d < 64 -> 0 <= alpha <= 31 -> 0 <= blend_channel s d alpha < 64.
Proof.
  intros Hs Hd Ha. unfold blend_channel. rewrite Z.shiftr_div_pow2 by lia. split.
  - apply Z.div_pos; nia.
  - apply Z.div_lt_upper_bound; nia.
Qed.

(** C5, amended: AlphaBlend on a 5-bit alpha.  A destination whose alpha
    field is zero is not blended at all: the source colour word is returned
    as it is.  Otherwise each RGB channel is
    [(src*(alpha+1) + dst*(32-(alpha+1))) >> 5] when display-control bit 3
    is set and the source channel when it is clear, and the alpha field of
    the result is the larger of [alpha] and the destination alpha. *)
Theorem AlphaBlend_channels (regs : Registers) (src dst alpha : Z) :
  in_u32 dst -> 0 <= alpha <= 31 ->
  let out := AlphaBlend regs src dst alpha in
  if chanA dst =? 0 then out = src
  else
    (if bit regs.(RenderDispCnt) 3 then
       chanR out = blend_channel (chanR src) (chanR dst) alpha /\
       chanG out = blend_channel (chanG src) (chanG dst) alpha /\
       chanB out = blend_channel (chanB src) (chanB dst) alpha
     else chanR out = chanR src /\ chanG out = chanG src /\ chanB out = chanB src) /\
    chanA out = Z.max alpha (chanA dst).
Proof.
  intros Hdst Halpha out. subst out. unfold AlphaBlend. fold (chanA dst).
  destruct (Z.eqb_spec (chanA dst) 0) as [|Hnz]; [reflexivity |].
  fold (chanR src) (chanG src) (chanB src) (chanR dst) (chanG dst) (chanB dst).
  destruct (chan_range src) as (HsR & HsG & HsB).
  destruct (chan_range dst) as (HdR & HdG & HdB).
  assert (0 <= chanA dst < 256) as HdA.
  { unfold chanA, in_u32 in *. rewrite Z.shiftr_div_pow2 by lia. split.
    - apply Z.div_pos; lia.
    - apply Z.div_lt_upper_bound; lia. }
  set (A := if alpha >? chanA dst then alpha else chanA dst).
  assert (A = Z.max alpha (chanA dst) /\ 0 <= A < 256) as [HA HAr].
  { subst A. destruct (Z.gtb_spec alpha (chanA dst)); lia. }
  clearbody A.
  assert (forall r g b, 0 <= r < 64 -> 0 <= g < 64 -> 0 <= b < 64 ->
            let c := Z.lor (Z.lor (Z.lor r (u32 (Z.shiftl g 8))) (u32 (Z.shiftl b 16)))
                           (u32 (Z.shiftl A 24)) in
            chanR c = r /\ chanG c = g /\ chanB c = b /\ chanA c = A) as Hpack.
  { intros r g b Hr Hg Hb.
    rewrite !u32_id by (unfold in_u32; rewrite Z.shiftl_mul_pow2 by lia; lia).
    apply (pack_channels r g b A); assumption. }
  destruct (bit (RenderDispCnt regs) 3).
  - rewrite (u32_id (alpha + 1)) by (unfold in_u32; lia).
    rewrite (u32_id (32 - (alpha + 1))) by (unfold in_u32; lia).
    assert (forall s d, 0 <= s < 64 -> 0 <= d < 64 ->
              Z.shiftr (u32 (u32 (s * (alpha + 1)) + u32 (d * (32 - (alpha + 1))))) 5
              = blend_channel s d alpha) as Hblend.
    { intros s d Hs Hd. unfold blend_channel.
      assert (0 <= s * (alpha + 1) <= 63 * 32)
        by (split; [apply Z.mul_nonneg_nonneg | apply Z.mul_le_mono_nonneg]; lia).
      assert (0 <= d * (32 - (alpha + 1)) <= 63 * 32)
        by (split; [apply Z.mul_nonneg_nonneg | apply Z.mul_le_mono_nonneg]; lia).
      rewrite (u32_id (s * (alpha + 1))), (u32_id (d * (32 - (alpha + 1))))
        by (unfold in_u32; lia).
      rewrite u32_id by (unfold in_u32; lia). reflexivity. }
    rewrite !Hblend by assumption.
    destruct (Hpack (blend_channel (chanR src) (chanR dst) alpha)
                    (blend_channel (chanG src) (chanG dst) alpha)
                    (blend_channel (chanB src) (chanB dst) alpha))
      as (H1 & H2 & H3 & H4); try (apply blend_channel_range; assumption).
    cbv zeta in H1, H2, H3, H4. rewrite H1, H2, H3, H4, HA. repeat split; reflexivity.
  - destruct (Hpack (chanR src) (chanG src) (chanB src)) as (H1 & H2 & H3 & H4);
      try assumption.
    cbv zeta in H1, H2, H3, H4. rewrite H1, H2, H3, H4, HA. repeat split; reflexivity.
Qed.

Lemma AlphaBlend_channels_witness :
  let regs := {| RenderDispCnt := 8; RenderAlphaRef := 0; RenderFogOffset := 0;
                 RenderFogShift := 0; RenderFogDensityTable := [];
                 RenderToonTable := [] |} in
  let out := AlphaBlend regs 0x0F00003F 0x1F3F0000 15 in
  if chanA 0x1F3F0000 =? 0 then out = 0x0F00003F
  else
    (if bit regs.(RenderDispCnt) 3 then
       chanR out = blend_channel (chanR 0x0F00003F) (chanR 0x1F3F0000) 15 /\
       chanG out = blend_channel (chanG 0x0F00003F) (chanG 0x1F3F0000) 15 /\
       chanB out = blend_channel (chanB 0x0F00003F) (chanB 0x1F3F0000) 15
     else chanR out = chanR 0x0F00003F /\ chanG out = chanG 0x0F00003F
          /\ chanB out = chanB 0x0F00003F) /\
    chanA out = Z.max 15 (chanA 0x1F3F0000).
Proof. apply AlphaBlend_channels; unfold in_u32; lia. Defined.

(** C5 as stated fails over a destination with alpha 0: with bit 3 set, a
    red source of alpha 15 over an empty pixel comes out with red 63, where
    the blend formula gives 31. *)
Lemma AlphaBlend_empty_destination_keeps_source :
  let regs := {| RenderDispCnt := 8; RenderAlphaRef := 0; RenderFogOffset := 0;
                 RenderFogShift := 0; RenderFogDensityTable := [];
                 RenderToonTable := [] |} in
  bit regs.(RenderDispCnt) 3 = true /\
  AlphaBlend regs 0x0F00003F 0 15 = 0x0F00003F /\
  blend_channel (chanR 0x0F00003F) (chanR 0) 15 = 31 /\
  chanR (AlphaBlend regs 0x0F00003F 0 15) <> blend_channel (chanR 0x0F00003F) (chanR 0) 15.
Proof. vm_compute. repeat split; discriminate. Qed.

(** ** PlotTranslucentPixel *)

Lemma same_translucent_id_masks dstattr polyattr :
  Z.testbit dstattr 22 = true ->
  translucent_id dstattr = incoming_id polyattr ->
  let attr :=
    Z.lor (Z.lor (Z.lor (Z.land polyattr 0xE0F0)
                        (Z.land (Z.shiftr polyattr 8) 0xFF0000))
                 (Z.shiftl 1 22))
          (Z.land dstattr 0xFF001F0F) in
  Z.land dstattr 0x007F0000 = Z.land attr 0x007F0000.
Proof.
  intros Hbit Hid attr. subst attr. unfold translucent_id, incoming_id in Hid.
  rewrite !Z.land_lor_distr_l, <- !Z.land_assoc.
  change (Z.land 0xE0F0 0x007F0000) with 0.
  change (Z.land 0xFF0000 0x007F0000) with 0x007F0000.
  change (Z.land 0xFF001F0F 0x007F0000) with 0.
  change (Z.land (Z.shiftl 1 22) 0x007F0000) with (2 ^ 22).
  rewrite !Z.land_0_r, Z.lor_0_l, Z.lor_0_r.
  change 0x007F0000 with (Z.lor (Z.shiftl 0x3F 16) (2 ^ 22)).
  rewrite !Z.land_lor_distr_r, !land_shifted_mask by lia.
  rewrite Z.shiftr_shiftr by lia. change (8 + 16) with 24. rewrite <- Hid.
  rewrite !land_pow2 by lia. rewrite Hbit.
  destruct (Z.testbit (Z.shiftr polyattr 8) 22).
  - rewrite <- Z.lor_assoc. reflexivity.
  - rewrite Z.lor_0_r. reflexivity.
Qed.

(** C4: a translucent plot onto a pixel that is already translucent (bit
    22 of its attributes) with the translucent polygon id of the incoming
    polygon returns before any store: the buffers are the same afterwards,
    for shadow and ordinary polygons alike. *)
Theorem translucent_plot_same_id_writes_nothing
    (regs : Registers) (bufs : Buffers) (pixeladdr color z polyattr shadow dstattr : Z) :
  load bufs.(AttrBuffer) pixeladdr = Some dstattr ->
  Z.testbit dstattr 22 = true ->
  translucent_id dstattr = incoming_id polyattr ->
  PlotTranslucentPixel regs bufs pixeladdr color z polyattr shadow = Some bufs.
Proof.
  intros Hload Hbit Hid. unfold PlotTranslucentPixel. rewrite Hload. cbn [mbind option_bind].
  rewrite (bit_testbit dstattr 22) by lia. rewrite Hbit.
  rewrite <- (same_translucent_id_masks dstattr polyattr Hbit Hid).
  rewrite Z.eqb_refl. destruct (nonzero shadow); reflexivity.
Qed.

Lemma translucent_plot_same_id_writes_nothing_witness :
  let regs := {| RenderDispCnt := 8; RenderAlphaRef := 0; RenderFogOffset := 0;
                 RenderFogShift := 0; RenderFogDensityTable := [];
                 RenderToonTable := [] |} in
  let bufs := {| ColorBuffer := [0x1F3F3F3F]; DepthBuffer := [0x1000];
                 AttrBuffer := [0x00450000]; StencilBuffer := [];
                 PrevIsShadowMask := false |} in
  PlotTranslucentPixel regs bufs 0 0x1000003F 0x800 0x05000000 0 = Some bufs.
Proof.
  intros regs bufs.
  apply (translucent_plot_same_id_writes_nothing regs bufs 0 _ _ _ _ 0x00450000);
    reflexivity.
Defined.

(** * Fog density and line read-out *)

Lemma load_Some {A : Type} (buf : list A) (i : Z) :
  0 <= i < Z.of_nat (length buf) -> exists v, load buf i = Some v /\ buf !! Z.to_nat i = Some v.
Proof.
  intros Hi. unfold load. destruct (Z.leb_spec 0 i); [| lia].
  destruct (lookup_lt_is_Some_2 buf (Z.to_nat i)) as [v Hv]; [lia |].
  exists v. split; exact Hv.
Qed.

Lemma fog_index_range (regs : Registers) (z : Z) :
  0 <= regs.(RenderFogShift) ->
  let '(id, frac) := fog_index regs z in
  0 <= id <= 32 /\ 0 <= frac < 0x20000.
Proof.
  intros Hshift. unfold fog_index.
  destruct (z <? RenderFogOffset regs); [lia |].
  set (z' := u32 (Z.shiftl (Z.shiftr (u32 (z - RenderFogOffset regs)) 2) (RenderFogShift regs))).
  pose proof (u32_range z') as Hz. unfold in_u32 in Hz.
  assert (u32 z' = z') as Hzz by (subst z'; unfold u32, wrap_unsigned; apply Z.mod_mod; lia).
  rewrite Hzz in Hz.
  destruct (Z.geb_spec (Z.shiftr z' 17) 32) as [Hge|Hlt]; [lia |].
  split.
  - rewrite Z.shiftr_div_pow2 in * by lia. split; [apply Z.div_pos; lia | lia].
  - apply (land_mask_range z' 17). lia.
Qed.

(** C6, amended: the fog density of a pixel.  The table index and fraction
    are [(0, 0)] below the fog offset, [(32, 0)] when [z' >> 17] reaches 32,
    and [(z' >> 17, z' & 0x1FFFF)] otherwise, with
    [z' = ((z - offset) >> 2) << shift] on 32 bits.  The result is the
    interpolated value [(T[id]*(0x20000-frac) + T[id+1]*frac) >> 17] when
    that is below 127, and 128 when it is 127 or more. *)
Theorem fog_density_value (regs : Registers) (bufs : Buffers) (pixeladdr z : Z) :
  length regs.(RenderFogDensityTable) = 34%nat ->
  Forall in_u8 regs.(RenderFogDensityTable) ->
  0 <= regs.(RenderFogShift) ->
  load bufs.(DepthBuffer) pixeladdr = Some z ->
  let z' := u32 (Z.shiftl (Z.shiftr (u32 (z - regs.(RenderFogOffset))) 2)
                          regs.(RenderFogShift)) in
  let '(id, frac) :=
    if z <? regs.(RenderFogOffset) then (0, 0)
    else if Z.shiftr z' 17 >=? 32 then (32, 0)
    else (Z.shiftr z' 17, Z.land z' 0x1FFFF) in
  exists t0 t1,
    load regs.(RenderFogDensityTable) id = Some t0 /\
    load regs.(RenderFogDensityTable) (id + 1) = Some t1 /\
    CalculateFogDensity regs bufs pixeladdr
    = Some (if fog_interpolated t0 t1 frac >=? 127 then 128
            else fog_interpolated t0 t1 frac).
Proof.
  intros Hlen Hu8 Hshift Hz z'.
  pose proof (fog_index_range regs z Hshift) as Hrange.
  unfold CalculateFogDensity. rewrite Hz. cbn [mbind option_bind].
  unfold fog_index in *. fold z' in Hrange |- *.
  destruct (if z <? RenderFogOffset regs then (0, 0)
            else if Z.shiftr z' 17 >=? 32 then (32, 0)
                 else (Z.shiftr z' 17, Z.land z' 131071)) as [id frac].
  destruct Hrange as [Hid Hfrac].
  destruct (load_Some (RenderFogDensityTable regs) id) as (t0 & Ht0 & Hl0); [rewrite Hlen; lia |].
  destruct (load_Some (RenderFogDensityTable regs) (id + 1)) as (t1 & Ht1 & Hl1);
    [rewrite Hlen; lia |].
  exists t0, t1. split; [exact Ht0 |]. split; [exact Ht1 |].
  rewrite (u32_id (id + 1)) by (unfold in_u32; lia).
  rewrite Ht0, Ht1. cbn [mbind option_bind]. f_equal.
  rewrite Forall_lookup in Hu8.
  pose proof (Hu8 _ _ Hl0) as Hb0. pose proof (Hu8 _ _ Hl1) as Hb1. unfold in_u8 in Hb0, Hb1.
  rewrite (u32_id (131072 - frac)) by (unfold in_u32; lia).
  assert (0 <= t0 * (131072 - frac) <= 255 * 131072)
    by (split; [apply Z.mul_nonneg_nonneg | apply Z.mul_le_mono_nonneg]; lia).
  assert (0 <= t1 * frac <= 255 * 131072)
    by (split; [apply Z.mul_nonneg_nonneg | apply Z.mul_le_mono_nonneg]; lia).
  rewrite (u32_id (t0 * (131072 - frac))), (u32_id (t1 * frac)) by (unfold in_u32; lia).
  rewrite u32_id by (unfold in_u32; lia).
  reflexivity.
Qed.

Lemma fog_density_value_witness :
  let regs := {| RenderDispCnt := 0x80; RenderAlphaRef := 0; RenderFogOffset := 0x1000;
                 RenderFogShift := 10;
                 RenderFogDensityTable := map Z.of_nat (seq 0 34);
                 RenderToonTable := [] |} in
  let bufs := {| ColorBuffer := [0]; DepthBuffer := [0x3000]; AttrBuffer := [0x8000];
                 StencilBuffer := []; PrevIsShadowMask := false |} in
  exists t0 t1,
    load regs.(RenderFogDensityTable) 16 = Some t0 /\
    load regs.(RenderFogDensityTable) (16 + 1) = Some t1 /\
    CalculateFogDensity regs bufs 0
    = Some (if fog_interpolated t0 t1 0 >=? 127 then 128 else fog_interpolated t0 t1 0).
Proof.
  intros regs bufs.
  apply (fog_density_value regs bufs 0 0x3000).
  - reflexivity.
  - subst regs. cbn [RenderFogDensityTable]. apply Forall_forall. intros v Hv.
    apply list_elem_of_In, in_map_iff in Hv. destruct Hv as (n & <- & Hn).
    apply in_seq in Hn. unfold in_u8. lia.
  - cbn. lia.
  - reflexivity.
Defined.

(** C6 as stated fails when the interpolated value is exactly 127: the
    code answers 128, the minimum with 128 is 127. *)
Lemma fog_density_127_becomes_128 :
  let regs := {| RenderDispCnt := 0x80; RenderAlphaRef := 0; RenderFogOffset := 0;
                 RenderFogShift := 0;
                 RenderFogDensityTable := replicate 34 127;
                 RenderToonTable := [] |} in
  let bufs := {| ColorBuffer := [0]; DepthBuffer := [0]; AttrBuffer := [0x8000];
                 StencilBuffer := []; PrevIsShadowMask := false |} in
  fog_index regs 0 = (0, 0) /\
  fog_interpolated 127 127 0 = 127 /\
  CalculateFogDensity regs bufs 0 = Some 128 /\
  CalculateFogDensity regs bufs 0 <> Some (Z.min (fog_interpolated 127 127 0) 128).
Proof. vm_compute. repeat split; discriminate. Qed.

(** ** GetLine *)

(** C9, amended: for a visible line, GetLine returns the index
    [258 * (y + 1) + 1] of the colour buffer, that is offset 1 of the
    258-wide buffer row [y + 1]; this is the address of the line's first
    usable pixel itself, and pixel [x] is at offset [x] from it. *)
Theorem GetLine_points_at_first_pixel (running : bool) (y : Z) :
  0 <= y < 192 ->
  snd (GetLine running y) = ScanlineWidth * (y + 1) + 1 /\
  forall x, 0 <= x < 256 -> snd (GetLine running y) + x = pixel_address y x.
Proof.
  intros Hy. unfold GetLine, pixel_address, FirstPixelOffset, ScanlineWidth. cbn [snd].
  rewrite (s32_id (y * 258)) by (unfold in_s32; lia).
  rewrite (s32_id (y * 258 + (258 + 1))) by (unfold in_s32; lia).
  split; [lia |]. intros x Hx.
  rewrite (s32_id (258 + 1 + y * 258)) by (unfold in_s32; lia).
  rewrite u32_id by (unfold in_u32; lia). lia.
Qed.

Lemma GetLine_points_at_first_pixel_witness :
  snd (GetLine true 100) = ScanlineWidth * (100 + 1) + 1 /\
  forall x, 0 <= x < 256 -> snd (GetLine true 100) + x = pixel_address 100 x.
Proof. apply GetLine_points_at_first_pixel. lia. Defined.

(** C9 as stated fails: the first usable pixel of line 0 is at offset 0
    from the returned pointer, not at offset 1. *)
Lemma GetLine_first_pixel_not_at_offset_1 :
  pixel_address 0 0 = snd (GetLine false 0) /\
  snd (GetLine false 0) + 1 <> pixel_address 0 0.
Proof. vm_compute. split; [reflexivity | discriminate]. Qed.

(** * Texture reads and the pixel pipeline *)

(** ** Parity of the addresses of 16-bit reads *)

Lemma even_u32 v : Z.even (u32 v) = Z.even v.
Proof.
  unfold u32, wrap_unsigned. rewrite <- !Z.negb_odd, <- !Z.bit0_odd.
  rewrite Z.mod_pow2_bits_low by lia. reflexivity.
Qed.

Lemma even_s32 v : Z.even (s32 v) = Z.even v.
Proof.
  unfold s32, wrap_signed. fold (wrap_unsigned 32 (v + 2 ^ (32 - 1))). fold (u32 (v + 2 ^ (32 - 1))).
  rewrite Z.even_sub, even_u32, Z.even_add.
  change (Z.even (2 ^ (32 - 1))) with true. destruct (Z.even v); reflexivity.
Qed.

Lemma even_shiftl v k : 0 < k -> Z.even (Z.shiftl v k) = true.
Proof.
  intros Hk. rewrite <- Z.negb_odd, <- Z.bit0_odd, Z.shiftl_spec_low by lia. reflexivity.
Qed.

Lemma even_land v m : Z.even (Z.land v m) = Z.even v || Z.even m.
Proof.
  rewrite <- !Z.negb_odd, <- !Z.bit0_odd, Z.land_spec.
  destruct (Z.testbit v 0), (Z.testbit m 0); reflexivity.
Qed.

Lemma even_add_even a b : Z.even a = true -> Z.even b = true -> Z.even (a + b) = true.
Proof. intros Ha Hb. rewrite Z.even_add, Ha, Hb. reflexivity. Qed.

Lemma even_slot1_offset v : Z.even (Z.shiftr (Z.land v 0x1FFFC) 1) = true.
Proof.
  rewrite <- Z.negb_odd, <- Z.bit0_odd, Z.shiftr_spec, Z.land_spec by lia.
  change (Z.testbit 0x1FFFC (0 + 1)) with false. rewrite andb_false_r. reflexivity.
Qed.

Create HintDb even_addr.
#[local] Hint Resolve even_add_even even_slot1_offset : even_addr.
#[local] Hint Extern 1 (Z.even (u32 _) = true) => rewrite even_u32 : even_addr.
#[local] Hint Extern 1 (Z.even (s32 _) = true) => rewrite even_s32 : even_addr.
#[local] Hint Extern 1 (Z.even (Z.shiftl _ _) = true) => apply even_shiftl; lia : even_addr.
#[local] Hint Extern 1 (Z.even (if _ then _ else _) = true) =>
  match goal with |- context [if ?c then _ else _] => destruct c end : even_addr.
#[local] Hint Extern 2 (Z.even _ = true) => reflexivity : even_addr.

(** ** Reads inside the flat views *)

Section Reads.
Variable vram : VRAM.
Hypothesis Htex : Z.of_nat (length vram.(VRAMFlat_Texture)) = 0x80000.
Hypothesis Hpal : Z.of_nat (length vram.(VRAMFlat_TexPal)) = 0x20000.

Lemma byte_val_range b : 0 <= byte_val b < 256.
Proof.
  unfold byte_val. pose proof (Byte.to_N_bounded b). lia.
Qed.

Lemma read_u8_ok (mem : list byte) (i : Z) :
  0 <= i < Z.of_nat (length mem) ->
  exists v, read_u8 mem i = Some v /\ 0 <= v < 256.
Proof.
  intros Hi. unfold read_u8, load. destruct (Z.leb_spec 0 i); [| lia].
  destruct (lookup_lt_is_Some_2 mem (Z.to_nat i)) as [b Hb]; [lia |].
  rewrite Hb. exists (byte_val b). split; [reflexivity | apply byte_val_range].
Qed.

Lemma read_u16_ok (mem : list byte) (i : Z) :
  0 <= i -> i + 1 < Z.of_nat (length mem) ->
  exists v, read_u16 mem i = Some v /\ 0 <= v < 2 ^ 16.
Proof.
  intros Hi Hi1. unfold read_u16, load.
  destruct (Z.leb_spec 0 i); [| lia]. destruct (Z.leb_spec 0 (i + 1)); [| lia].
  destruct (lookup_lt_is_Some_2 mem (Z.to_nat i)) as [lo Hlo]; [lia |].
  destruct (lookup_lt_is_Some_2 mem (Z.to_nat (i + 1))) as [hi Hhi]; [lia |].
  rewrite Hlo. cbn [mbind option_bind]. rewrite Hhi. cbn [mbind option_bind].
  eexists. split; [reflexivity |].
  pose proof (byte_val_range lo). pose proof (byte_val_range hi).
  rewrite lor_shiftl_add by lia. lia.
Qed.

Lemma masked_index v k : 0 <= k -> 0 <= Z.land v (2 ^ k - 1) < 2 ^ k.
Proof. apply land_mask_range. Qed.

Lemma masked_even_index v k :
  0 < k -> Z.even v = true -> Z.land v (2 ^ k - 1) + 1 < 2 ^ k.
Proof.
  intros Hk Hev. pose proof (land_mask_range v k ltac:(lia)) as Hr.
  assert (Z.even (Z.land v (2 ^ k - 1)) = true) as He by (rewrite even_land, Hev; reflexivity).
  assert (Z.even (2 ^ k - 1) = false) as Ho.
  { rewrite Z.even_sub, Z.even_pow by lia. reflexivity. }
  destruct (Z.eq_dec (Z.land v (2 ^ k - 1)) (2 ^ k - 1)) as [Heq|Hne]; [| lia].
  rewrite Heq in He. congruence.
Qed.

Lemma ReadVRAM_Texture_u8_ok addr :
  exists v, ReadVRAM_Texture_u8 vram addr = Some v /\ 0 <= v < 256.
Proof.
  unfold ReadVRAM_Texture_u8. apply read_u8_ok. rewrite Htex.
  apply (masked_index addr 19). lia.
Qed.

Lemma ReadVRAM_Texture_u16_ok addr :
  Z.even addr = true ->
  exists v, ReadVRAM_Texture_u16 vram addr = Some v /\ 0 <= v < 2 ^ 16.
Proof.
  intros Hev. unfold ReadVRAM_Texture_u16. apply read_u16_ok.
  - apply (masked_index addr 19). lia.
  - rewrite Htex. apply (masked_even_index addr 19); [lia | exact Hev].
Qed.

Lemma ReadVRAM_TexPal_u16_ok addr :
  Z.even addr = true ->
  exists v, ReadVRAM_TexPal_u16 vram addr = Some v /\ 0 <= v < 2 ^ 16.
Proof.
  intros Hev. unfold ReadVRAM_TexPal_u16. apply read_u16_ok.
  - apply (masked_index addr 17). lia.
  - rewrite Hpal. apply (masked_even_index addr 17); [lia | exact Hev].
Qed.

End Reads.

(** ** The texture sampler *)

Ltac read_next Htex Hpal :=
  match goal with
  | |- context [ReadVRAM_Texture_u8 ?v ?a] =>
      let x := fresh "pixel" in let Hx := fresh "Hpixel" in
      destruct (ReadVRAM_Texture_u8_ok v Htex a) as (x & -> & Hx);
      cbn [mbind option_bind]
  | |- context [ReadVRAM_Texture_u16 ?v ?a] =>
      let x := fresh "word" in let Hx := fresh "Hword" in
      destruct (ReadVRAM_Texture_u16_ok v Htex a) as (x & -> & Hx);
      [auto 10 with even_addr | cbn [mbind option_bind]]
  | |- context [ReadVRAM_TexPal_u16 ?v ?a] =>
      let x := fresh "color" in let Hx := fresh "Hcolor" in
      destruct (ReadVRAM_TexPal_u16_ok v Hpal a) as (x & -> & Hx);
      [auto 10 with even_addr | cbn [mbind option_bind]]
  end.

Lemma a3i5_alpha_range pixel :
  0 <= pixel < 256 -> 0 <= u8 (Z.land (Z.shiftr pixel 3) 0x1C + Z.shiftr pixel 6) <= 31.
Proof.
  intros Hp. change 0x1C with (Z.shiftl 7 2).
  rewrite land_shifted_mask, Z.shiftr_shiftr, Z.shiftl_mul_pow2 by lia.
  pose proof (land_mask_range (Z.shiftr pixel (3 + 2)) 3 ltac:(lia)) as Hm.
  change (2 ^ 3 - 1) with 7 in Hm.
  assert (0 <= Z.shiftr pixel 6 <= 3) as H6.
  { rewrite Z.shiftr_div_pow2 by lia. split; [apply Z.div_pos; lia |].
    apply Z.lt_succ_r. apply Z.div_lt_upper_bound; lia. }
  rewrite u8_id by (unfold in_u8; lia). lia.
Qed.

Lemma a5i3_alpha_range pixel : 0 <= pixel < 256 -> 0 <= Z.shiftr pixel 3 <= 31.
Proof.
  intros Hp. rewrite Z.shiftr_div_pow2 by lia. split; [apply Z.div_pos; lia |].
  apply Z.lt_succ_r. apply Z.div_lt_upper_bound; lia.
Qed.

Lemma TextureLookup_ok (vram : VRAM) (texparam texpal s t : Z) (out : Z * Z) :
  Z.of_nat (length vram.(VRAMFlat_Texture)) = 0x80000 ->
  Z.of_nat (length vram.(VRAMFlat_TexPal)) = 0x20000 ->
  0 <= snd out <= 31 ->
  exists color alpha,
    TextureLookup vram texparam texpal s t out = Some (color, alpha) /\ 0 <= alpha <= 31.
Proof.
  intros Htex Hpal Hout. unfold TextureLookup. cbv zeta.
  set (width := s32 (Z.shiftl 8 (Z.land (Z.shiftr texparam 20) 7))).
  set (s' := wrap_coord (bit texparam 16) (bit texparam 18) (s16 (Z.shiftr s 4)) width).
  set (t' := wrap_coord (bit texparam 17) (bit texparam 19) (s16 (Z.shiftr t 4)) _).
  set (base := u32 (Z.shiftl (Z.land texparam 0xFFFF) 3)).
  assert (Z.even base = true) as Hbase by (subst base; auto with even_addr).
  clearbody width s' t' base.
  set (alpha0 := if bit texparam 29 then 0 else 31).
  assert (0 <= alpha0 <= 31) as Halpha0 by (subst alpha0; destruct (bit texparam 29); lia).
  clearbody alpha0.
  assert (forall p : Z, 0 <= (if p =? 0 then alpha0 else 31) <= 31) as Hsel.
  { intros p. destruct (p =? 0); lia. }
  destruct (Z.land (Z.shiftr texparam 26) 7 =? 1).
  { repeat read_next Htex Hpal. do 2 eexists. split; [reflexivity |].
    apply a3i5_alpha_range. assumption. }
  destruct (Z.land (Z.shiftr texparam 26) 7 =? 2).
  { repeat read_next Htex Hpal. do 2 eexists. split; [reflexivity | apply Hsel]. }
  destruct (Z.land (Z.shiftr texparam 26) 7 =? 3).
  { repeat read_next Htex Hpal. do 2 eexists. split; [reflexivity | apply Hsel]. }
  destruct (Z.land (Z.shiftr texparam 26) 7 =? 4).
  { repeat read_next Htex Hpal. do 2 eexists. split; [reflexivity | apply Hsel]. }
  destruct (Z.land (Z.shiftr texparam 26) 7 =? 5).
  { read_next Htex Hpal. read_next Htex Hpal.
    repeat match goal with
           | |- context [if ?c =? ?k then _ else _] => destruct (c =? k)
           end;
      repeat read_next Htex Hpal; do 2 eexists; (split; [reflexivity | lia]). }
  destruct (Z.land (Z.shiftr texparam 26) 7 =? 6).
  { repeat read_next Htex Hpal. do 2 eexists. split; [reflexivity |].
    apply a5i3_alpha_range. assumption. }
  destruct (Z.land (Z.shiftr texparam 26) 7 =? 7).
  { repeat read_next Htex Hpal. do 2 eexists. split; [reflexivity |].
    destruct (nonzero _); lia. }
  destruct out as [c a]. exists c, a. split; [reflexivity | exact Hout].
Qed.

(** C8: with flat views of 0x80000 and 0x20000 bytes, every index the read
    helpers compute lies inside its view, whatever the address; a byte read
    always succeeds, a 16-bit read at an even address stays inside with
    both bytes, and TextureLookup performs only such reads: it succeeds for
    every texparam, texpal, s and t, the compressed format's slot-1 reads
    included.  So do the two reads of the rear-plane image. *)
Theorem texture_reads_in_bounds (vram : VRAM) :
  Z.of_nat (length vram.(VRAMFlat_Texture)) = 0x80000 ->
  Z.of_nat (length vram.(VRAMFlat_TexPal)) = 0x20000 ->
  (forall addr, 0 <= Z.land addr 0x7FFFF < 0x80000
                /\ is_Some (ReadVRAM_Texture_u8 vram addr)) /\
  (forall addr, 0 <= Z.land addr 0x1FFFF < 0x20000) /\
  (forall addr, Z.even addr = true ->
                is_Some (ReadVRAM_Texture_u16 vram addr)
                /\ is_Some (ReadVRAM_TexPal_u16 vram addr)) /\
  (forall texparam texpal s t out,
     is_Some (TextureLookup vram texparam texpal s t out)) /\
  (forall xoff yoff, is_Some (rear_image_reads vram xoff yoff)).
Proof.
  intros Htex Hpal. split; [| split; [| split; [| split]]].
  - intros addr. split.
    + apply (masked_index addr 19). lia.
    + destruct (ReadVRAM_Texture_u8_ok vram Htex addr) as (v & Hv & _). rewrite Hv. eauto.
  - intros addr. apply (masked_index addr 17). lia.
  - intros addr Heven. split.
    + destruct (ReadVRAM_Texture_u16_ok vram Htex addr Heven) as (v & Hv & _).
      rewrite Hv. eauto.
    + destruct (ReadVRAM_TexPal_u16_ok vram Hpal addr Heven) as (v & Hv & _).
      rewrite Hv. eauto.
  - intros texparam texpal s t [c a].
    unfold TextureLookup. cbv zeta.
    set (width := s32 (Z.shiftl 8 (Z.land (Z.shiftr texparam 20) 7))).
    set (s' := wrap_coord (bit texparam 16) (bit texparam 18) (s16 (Z.shiftr s 4)) width).
    set (t' := wrap_coord (bit texparam 17) (bit texparam 19) (s16 (Z.shiftr t 4)) _).
    set (base := u32 (Z.shiftl (Z.land texparam 0xFFFF) 3)).
    assert (Z.even base = true) as Hbase by (subst base; auto with even_addr).
    clearbody width s' t' base.
    repeat match goal with
           | |- context [if ?c =? ?k then _ else _] => destruct (c =? k)
           | _ => read_next Htex Hpal
           end; eauto.
  - intros xoff yoff. unfold rear_image_reads. repeat read_next Htex Hpal. eauto.
Qed.

Lemma blank_vram_sizes :
  Z.of_nat (length blank_vram.(VRAMFlat_Texture)) = 0x80000
  /\ Z.of_nat (length blank_vram.(VRAMFlat_TexPal)) = 0x20000.
Proof.
  unfold blank_vram. cbn [VRAMFlat_Texture VRAMFlat_TexPal].
  rewrite !length_replicate, !Z2Nat.id by lia. split; reflexivity.
Defined.

Lemma texture_reads_in_bounds_witness :
  (forall addr, 0 <= Z.land addr 0x7FFFF < 0x80000
                /\ is_Some (ReadVRAM_Texture_u8 blank_vram addr)) /\
  (forall addr, 0 <= Z.land addr 0x1FFFF < 0x20000) /\
  (forall addr, Z.even addr = true ->
                is_Some (ReadVRAM_Texture_u16 blank_vram addr)
                /\ is_Some (ReadVRAM_TexPal_u16 blank_vram addr)) /\
  (forall texparam texpal s t out,
     is_Some (TextureLookup blank_vram texparam texpal s t out)) /\
  (forall xoff yoff, is_Some (rear_image_reads blank_vram xoff yoff)).
Proof.
  apply texture_reads_in_bounds; apply blank_vram_sizes.
Defined.

(** ** RenderPixel *)

Lemma expand5_range field : 0 <= expand5 field <= 63.
Proof.
  unfold expand5.
  assert (0 <= Z.land field 0x3E <= 62) as Hm.
  { change (Z.land field 0x3E) with (Z.land field (Z.shiftl 31 1)).
    rewrite land_shifted_mask, Z.shiftl_mul_pow2 by lia.
    pose proof (land_mask_range (Z.shiftr field 1) 5 ltac:(lia)) as H5.
    change (2 ^ 5 - 1) with 31 in H5. lia. }
  rewrite (u8_id (Z.land field 0x3E)) by (unfold in_u8; lia).
  destruct (nonzero (Z.land field 0x3E)).
  - rewrite u8_id by (unfold in_u8; lia). lia.
  - lia.
Qed.

Lemma toon_lookup_ok (regs : Registers) (vr : Z) :
  Z.of_nat (length regs.(RenderToonTable)) = 32 -> 0 <= vr <= 63 ->
  exists r g b, toon_lookup regs vr = Some (r, g, b)
                /\ 0 <= r <= 63 /\ 0 <= g <= 63 /\ 0 <= b <= 63.
Proof.
  intros Hlen Hvr. unfold toon_lookup.
  assert (0 <= Z.shiftr vr 1 < 32) as Hidx.
  { rewrite Z.shiftr_div_pow2 by lia. split; [apply Z.div_pos; lia |].
    apply Z.div_lt_upper_bound; lia. }
  destruct (load_Some (RenderToonTable regs) (Z.shiftr vr 1)) as (c & -> & _); [lia |].
  cbn [mbind option_bind]. do 3 eexists. split; [reflexivity |].
  repeat split; apply expand5_range.
Qed.

Lemma shiftr_bounds v k lo hi :
  0 <= k -> lo * 2 ^ k <= v -> v < (hi + 1) * 2 ^ k -> lo <= Z.shiftr v k <= hi.
Proof.
  intros Hk Hlo Hhi. rewrite Z.shiftr_div_pow2 by lia.
  assert (0 < 2 ^ k) by (apply Z.pow_pos_nonneg; lia). split.
  - apply Z.div_le_lower_bound; lia.
  - apply Z.lt_succ_r. apply Z.div_lt_upper_bound; lia.
Qed.

Lemma decal_range tc ta vc :
  0 <= tc <= 63 -> 0 <= ta <= 31 -> 0 <= vc <= 63 ->
  0 <= u8 (Z.shiftr (tc * ta + vc * (31 - ta)) 5) <= 63.
Proof.
  intros Ht Ha Hv.
  assert (0 <= tc * ta + vc * (31 - ta) <= 63 * 31) as Hsum by nia.
  pose proof (shiftr_bounds (tc * ta + vc * (31 - ta)) 5 0 63 ltac:(lia) ltac:(lia) ltac:(lia)).
  rewrite u8_id by (unfold in_u8; lia). lia.
Qed.

Lemma modulate_range tc vc k hi :
  0 <= k -> 0 < hi -> 2 ^ k = hi + 1 ->
  0 <= tc <= hi -> 0 <= vc <= hi -> hi <= 63 ->
  0 <= u8 (Z.shiftr ((tc + 1) * (vc + 1) - 1) k) <= hi.
Proof.
  intros Hk Hhi Hp Ht Hv H63.
  assert (0 <= (tc + 1) * (vc + 1) - 1 < (hi + 1) * (hi + 1)) as Hprod by nia.
  pose proof (shiftr_bounds ((tc + 1) * (vc + 1) - 1) k 0 hi ltac:(lia) ltac:(lia)
                ltac:(rewrite Hp; lia)).
  rewrite u8_id by (unfold in_u8; lia). lia.
Qed.

Lemma saturate_range r t :
  0 <= r <= 63 -> 0 <= t <= 63 ->
  0 <= (if u8 (r + t) >? 63 then 63 else u8 (r + t)) <= 63.
Proof.
  intros Hr Ht. rewrite u8_id by (unfold in_u8; lia).
  destruct (Z.gtb_spec (r + t) 63); lia.
Qed.

(** C10: with vertex colour channels of at most 63, RenderPixel returns a
    word that is exactly [r + g*2^8 + b*2^16 + a*2^24] with [r], [g], [b]
    at most 63 and [a] at most 31, for every polygon, register and texture
    content: no field reaches into the bits of the next. *)
Theorem RenderPixel_fields_bounded
    (regs : Registers) (vram : VRAM) (polygon : Polygon) (vr vg vb s t : Z) :
  Z.of_nat (length vram.(VRAMFlat_Texture)) = 0x80000 ->
  Z.of_nat (length vram.(VRAMFlat_TexPal)) = 0x20000 ->
  Z.of_nat (length regs.(RenderToonTable)) = 32 ->
  0 <= vr <= 63 -> 0 <= vg <= 63 -> 0 <= vb <= 63 ->
  exists c r g b a,
    RenderPixel regs vram polygon vr vg vb s t = Some c /\
    c = r + g * 2 ^ 8 + b * 2 ^ 16 + a * 2 ^ 24 /\
    0 <= r <= 63 /\ 0 <= g <= 63 /\ 0 <= b <= 63 /\ 0 <= a <= 31 /\
    chanR c = r /\ chanG c = g /\ chanB c = b /\ chanA c = a.
Proof.
  intros Htex Hpal Htoon Hvr Hvg Hvb. unfold RenderPixel. cbv zeta.
  set (blendmode := Z.land (Z.shiftr (Attr polygon) 4) 3).
  set (polyalpha := Z.land (Z.shiftr (Attr polygon) 16) 31).
  assert (0 <= polyalpha <= 31) as Hpa.
  { pose proof (land_mask_range (Z.shiftr (Attr polygon) 16) 5 ltac:(lia)) as H5.
    change (2 ^ 5 - 1) with 31 in H5. subst polyalpha. lia. }
  clearbody blendmode polyalpha.
  (* vertex colour, possibly replaced by the toon colour *)
  assert (exists vr' vg' vb',
            (if blendmode =? 2
             then if bit (RenderDispCnt regs) 1 then Some (vr, vr, vr)
                  else toon_lookup regs vr
             else Some (vr, vg, vb)) = Some (vr', vg', vb')
            /\ 0 <= vr' <= 63 /\ 0 <= vg' <= 63 /\ 0 <= vb' <= 63)
    as (vr' & vg' & vb' & -> & Hvr' & Hvg' & Hvb').
  { destruct (blendmode =? 2); [destruct (bit (RenderDispCnt regs) 1) |].
    - exists vr, vr, vr. repeat split; lia.
    - apply toon_lookup_ok; assumption.
    - exists vr, vg, vb. repeat split; lia. }
  cbn [mbind option_bind].
  (* texture combination *)
  match goal with
  | |- context [mbind _ ?stage] =>
      assert (exists r g b a, stage = Some (r, g, b, a)
                /\ 0 <= r <= 63 /\ 0 <= g <= 63 /\ 0 <= b <= 63 /\ 0 <= a <= 31)
        as (r & g & b & a & -> & Hr & Hg & Hb & Ha)
  end.
  { destruct (bit (RenderDispCnt regs) 0
              && negb (Z.land (Z.shiftr (TexParam polygon) 26) 7 =? 0)).
    - destruct (TextureLookup_ok vram (TexParam polygon) (TexPalette polygon) s t (0, 0)
                  Htex Hpal ltac:(cbn; lia)) as (tcolor & talpha & -> & Hta).
      cbn [mbind option_bind].
      pose proof (expand5_range (Z.shiftl tcolor 1)).
      pose proof (expand5_range (Z.shiftr tcolor 4)).
      pose proof (expand5_range (Z.shiftr tcolor 9)).
      destruct (nonzero (Z.land blendmode 1)).
      + destruct (talpha =? 0); [| destruct (talpha =? 31)];
          do 4 eexists; (split; [reflexivity |]); repeat split;
          try lia; try (apply decal_range; lia).
      + do 4 eexists. split; [reflexivity |].
        repeat split; try (apply (modulate_range _ _ 6 63); lia);
          apply (modulate_range _ _ 5 31); lia.
    - do 4 eexists. split; [reflexivity |]. repeat split; lia. }
  cbn [mbind option_bind].
  (* highlight *)
  match goal with
  | |- context [mbind _ ?stage] =>
      assert (exists r' g' b', stage = Some (r', g', b')
                /\ 0 <= r' <= 63 /\ 0 <= g' <= 63 /\ 0 <= b' <= 63)
        as (r' & g' & b' & -> & Hr' & Hg' & Hb')
  end.
  { destruct ((blendmode =? 2) && bit (RenderDispCnt regs) 1).
    - destruct (toon_lookup_ok regs vr' Htoon Hvr') as (tr & tg & tb & -> & Htr & Htg & Htb).
      cbn [mbind option_bind]. do 3 eexists. split; [reflexivity |].
      repeat split; apply saturate_range; assumption.
    - do 3 eexists. split; [reflexivity |]. repeat split; lia. }
  cbn [mbind option_bind].
  set (a' := if polyalpha =? 0 then 31 else a).
  assert (0 <= a' <= 31) as Ha' by (subst a'; destruct (polyalpha =? 0); lia).
  clearbody a'.
  destruct (pack_channels r' g' b' a' ltac:(lia) ltac:(lia) ltac:(lia) ltac:(lia))
    as (Hc & HR & HG & HB & HA).
  cbv zeta in Hc, HR, HG, HB, HA.
  exists (r' + g' * 2 ^ 8 + b' * 2 ^ 16 + a' * 2 ^ 24), r', g', b', a'.
  rewrite <- Hc. rewrite u32_id by (unfold in_u32; rewrite Hc; lia).
  repeat split; try lia; assumption.
Qed.

Lemma RenderPixel_fields_bounded_witness :
  let regs := {| RenderDispCnt := 3; RenderAlphaRef := 0; RenderFogOffset := 0;
                 RenderFogShift := 0; RenderFogDensityTable := [];
                 RenderToonTable := replicate 32 0x7FFF |} in
  let polygon :=
    {| Vertices := []; NumVertices := 0; FinalZ := []; FinalW := [];
       WBuffer := false; Attr := 0x00100010; TexParam := 0x1C000000; TexPalette := 0;
       FacingView := true; IsShadowMask := false; IsShadow := false;
       VTop := 0; VBottom := 0; YTop := 0; YBottom := 0 |} in
  exists c r g b a,
    RenderPixel regs blank_vram polygon 63 32 0 0x100 0x100 = Some c /\
    c = r + g * 2 ^ 8 + b * 2 ^ 16 + a * 2 ^ 24 /\
    0 <= r <= 63 /\ 0 <= g <= 63 /\ 0 <= b <= 63 /\ 0 <= a <= 31 /\
    chanR c = r /\ chanG c = g /\ chanB c = b /\ chanA c = a.
Proof.
  intros regs polygon.
  apply RenderPixel_fields_bounded; try apply blank_vram_sizes; try lia; reflexivity.
Defined.

(** * Shadow-mask stencil *)

Lemma shadow_mask_clears_row_first
    (regs : Registers) (uninit : Interpolator.t) (bufs : Buffers)
    (rp : RendererPolygon) (y : Z) :
  bufs.(PrevIsShadowMask) = false ->
  RenderShadowMaskScanline regs uninit bufs rp y
  = RenderShadowMaskScanline regs uninit
      {| ColorBuffer := bufs.(ColorBuffer); DepthBuffer := bufs.(DepthBuffer);
         AttrBuffer := bufs.(AttrBuffer);
         StencilBuffer := clear_stencil_row bufs.(StencilBuffer) (256 * Z.land y 0x1);
         PrevIsShadowMask := true |} rp y.
Proof.
  intros Hprev. unfold RenderShadowMaskScanline. rewrite Hprev. reflexivity.
Qed.

Lemma clear_stencil_row_zero (stencil : list Z) (y x : Z) :
  length stencil = 512%nat -> 0 <= x < 256 ->
  clear_stencil_row stencil (256 * Z.land y 0x1) !! Z.to_nat (256 * Z.land y 0x1 + x) = Some 0.
Proof.
  intros Hlen Hx. unfold clear_stencil_row.
  pose proof (land_mask_range y 1 ltac:(lia)) as Hy. change (2 ^ 1 - 1) with 1 in Hy.
  set (start := Z.to_nat (256 * Z.land y 1)).
  assert (start <= 256)%nat by (subst start; lia).
  replace (Z.to_nat (256 * Z.land y 1 + x)) with (start + Z.to_nat x)%nat by (subst start; lia).
  rewrite lookup_app_r by (rewrite length_take; lia).
  rewrite length_take, Hlen.
  replace (start + Z.to_nat x - start `min` 512)%nat with (Z.to_nat x) by lia.
  rewrite lookup_app_l by (rewrite length_replicate; lia).
  apply lookup_replicate_2. lia.
Qed.

Lemma land_lor_absorb a b : Z.land a (Z.lor a b) = a.
Proof.
  apply Z.bits_inj'. intros n Hn. rewrite Z.land_spec, Z.lor_spec.
  destruct (Z.testbit a n), (Z.testbit b n); reflexivity.
Qed.

Lemma lor_u8 a b : 0 <= a < 2 ^ 8 -> 0 <= b < 2 ^ 8 -> 0 <= Z.lor a b < 2 ^ 8.
Proof.
  intros Ha Hb.
  assert (Z.lor a b = Z.land (Z.lor a b) (2 ^ 8 - 1)) as ->.
  { rewrite Z.land_lor_distr_l. change (2 ^ 8 - 1) with (Z.ones 8).
    rewrite !Z.land_ones, !Z.mod_small by lia. reflexivity. }
  apply land_mask_range. lia.
Qed.

Lemma bits_kept_refl (st : list Z) : bits_kept st st.
Proof.
  split; [reflexivity |]. intros j v Hv. exists v. split; [exact Hv | apply Z.land_diag].
Qed.

Lemma bits_kept_trans (a b c : list Z) : bits_kept a b -> bits_kept b c -> bits_kept a c.
Proof.
  intros [Hl1 H1] [Hl2 H2]. split; [congruence |].
  intros j v Hv. destruct (H1 j v Hv) as (v' & Hv' & Hk).
  destruct (H2 j v' Hv') as (v'' & Hv'' & Hk').
  exists v''. split; [exact Hv'' |].
  rewrite <- Hk at 2. rewrite <- Hk', Z.land_assoc, Hk. reflexivity.
Qed.

Lemma stencil_or_keeps (st st' : list Z) (i k : Z) :
  Forall in_u8 st -> 0 <= k < 256 ->
  stencil_or st i k = Some st' -> bits_kept st st' /\ Forall in_u8 st'.
Proof.
  intros Hu8 Hk. unfold stencil_or, load, store.
  destruct (Z.leb_spec 0 i) as [Hi|]; [| discriminate].
  destruct (st !! Z.to_nat i) as [old|] eqn:Hold; [| discriminate].
  cbn [mbind option_bind]. cbn [andb].
  destruct (Z.ltb_spec i (Z.of_nat (length st))) as [Hlt|]; [| discriminate].
  intros [= <-].
  assert (in_u8 old) as Ho by (rewrite Forall_lookup in Hu8; exact (Hu8 _ _ Hold)).
  assert (0 <= Z.lor old k < 2 ^ 8) as Hlor by (apply lor_u8; [exact Ho | exact Hk]).
  rewrite u8_id by exact Hlor. split.
  - split; [apply length_insert |].
    intros j v Hv. destruct (decide (j = Z.to_nat i)) as [->|Hne].
    + rewrite list_lookup_insert_eq by lia. rewrite Hold in Hv. injection Hv as <-.
      eexists. split; [reflexivity | apply land_lor_absorb].
    + rewrite list_lookup_insert_ne by congruence.
      exists v. split; [exact Hv | apply Z.land_diag].
  - apply Forall_insert; assumption.
Qed.

Lemma mask_lower_pixel_keeps (fn : DepthTest) (bufs : Buffers)
    (y x z dstattr pixeladdr : Z) (st st' : list Z) :
  Forall in_u8 st ->
  mask_lower_pixel fn bufs y x z dstattr pixeladdr st = Some st' ->
  bits_kept st st' /\ Forall in_u8 st'.
Proof.
  intros Hu8. unfold mask_lower_pixel.
  destruct (nonzero (Z.land dstattr 3)).
  - destruct (load (DepthBuffer bufs) _) as [dstz|]; [| discriminate].
    destruct (load (AttrBuffer bufs) _) as [dstattr'|]; [| discriminate].
    cbn [mbind option_bind].
    destruct (negb (fn (s32 dstz) z dstattr')).
    + apply stencil_or_keeps; [exact Hu8 | lia].
    + intros [= <-]. split; [apply bits_kept_refl | exact Hu8].
  - intros [= <-]. split; [apply bits_kept_refl | exact Hu8].
Qed.

(** The left-edge body only ever adds stencil bits. *)
Lemma mask_left_pixel_keeps (fn : DepthTest) (bufs : Buffers) (wbuffer filledge : bool)
    (y zl zr x : Z) (interpX interpX' : Interpolator.t) (st st' : list Z) :
  Forall in_u8 st ->
  mask_left_pixel fn bufs wbuffer filledge y zl zr x (interpX, st) = Some (interpX', st') ->
  bits_kept st st' /\ Forall in_u8 st'.
Proof.
  intros Hu8. unfold mask_left_pixel.
  destruct (load (AttrBuffer bufs) _) as [dstattr|]; [| discriminate].
  cbn [mbind option_bind].
  destruct (negb filledge).
  - intros [= _ <-]. split; [apply bits_kept_refl | exact Hu8].
  - destruct (load (DepthBuffer bufs) _) as [dstz|]; [| discriminate].
    cbn [mbind option_bind].
    destruct (negb (fn (s32 dstz) _ dstattr)).
    + destruct (stencil_or st _ 1) as [st1|] eqn:Hor; [| discriminate].
      cbn [mbind option_bind].
      destruct (stencil_or_keeps st st1 _ 1 Hu8 ltac:(lia) Hor) as [Hk1 Hu1].
      destruct (mask_lower_pixel fn bufs y x _ dstattr _ st1) as [st2|] eqn:Hlow;
        [| discriminate].
      cbn [mbind option_bind]. intros [= _ <-].
      destruct (mask_lower_pixel_keeps _ _ _ _ _ _ _ _ _ Hu1 Hlow) as [Hk2 Hu2].
      split; [exact (bits_kept_trans _ _ _ Hk1 Hk2) | exact Hu2].
    + cbn [mbind option_bind].
      destruct (mask_lower_pixel fn bufs y x _ dstattr _ st) as [st2|] eqn:Hlow;
        [| discriminate].
      cbn [mbind option_bind]. intros [= _ <-].
      exact (mask_lower_pixel_keeps _ _ _ _ _ _ _ _ _ Hu8 Hlow).
Qed.

(** C7 on the code: two shadow masks in a row on line 0 of the scene, the
    first behind both layers of columns 10 and 15 (depth 300), the second
    between them (depth 150).  After the first mask both columns hold 3.
    After the second, column 10 (left edge, [|= 1]) still holds 3, but
    column 15 (interior, [= 1]) holds 1: bit 1, set by the first mask, is
    gone. *)
Theorem shadow_mask_interior_overwrites_stencil :
  exists row1 row2,
    two_masks 300 150 = Some (row1, row2) /\
    row1 !! 10%nat = Some 3 /\ row2 !! 10%nat = Some 3 /\
    row1 !! 15%nat = Some 3 /\ row2 !! 15%nat = Some 1 /\
    row1 !! 20%nat = Some 0 /\ row2 !! 20%nat = Some 0.
Proof.
  assert (exists rows, two_masks 300 150 = Some rows
                       /\ (fst rows !! 10%nat, snd rows !! 10%nat,
                           fst rows !! 15%nat, snd rows !! 15%nat,
                           fst rows !! 20%nat, snd rows !! 20%nat)
                          = (Some 3, Some 3, Some 3, Some 1, Some 0, Some 0))
    as ([row1 row2] & Hrun & Hcols).
  { vm_compute. eexists. split; reflexivity. }
  exists row1, row2. cbn [fst snd] in Hcols.
  injection Hcols as H1 H2 H3 H4 H5 H6. repeat split; assumption.
Qed.

(** * Further facts about the edge slopes *)

Lemma XVal_within (s : Slope.t) :
  Slope.xmin s <= Slope.xmax s -> Slope.xmin s <= Slope.XVal s <= Slope.xmax s.
Proof.
  intros Hle. unfold Slope.XVal.
  destruct (Z.ltb_spec (if Slope.Negative s
                        then s32 (Slope.x0 s - Z.shiftr (Slope.dx s) 18)
                        else s32 (Slope.x0 s + Z.shiftr (Slope.dx s) 18)) (Slope.xmin s));
    [lia |].
  destruct (Z.gtb_spec (if Slope.Negative s
                        then s32 (Slope.x0 s - Z.shiftr (Slope.dx s) 18)
                        else s32 (Slope.x0 s + Z.shiftr (Slope.dx s) 18)) (Slope.xmax s));
    lia.
Qed.

Lemma Steps_interval (n : nat) : forall s : Slope.t,
  Slope.xmin (Slope.Steps n s) = Slope.xmin s /\ Slope.xmax (Slope.Steps n s) = Slope.xmax s.
Proof.
  induction n as [|n IH]; intros s; [split; reflexivity |].
  cbn [Slope.Steps]. destruct (IH (fst (Slope.Step s))) as [-> ->]. split; reflexivity.
Qed.

Lemma Setup_interval (side : bool) (this : Slope.t) (x0 x1 y0 y1 w0 w1 y : Z) :
  in_s32 x0 -> in_s32 x1 ->
  let s := fst (Slope.Setup side this x0 x1 y0 y1 w0 w1 y) in
  Slope.xmin s <= Slope.xmax s /\
  Slope.xmin s = (if x1 >? x0 then x0 else if x1 <? x0 then x1
                  else if side then s32 (x0 - 1) else x0) /\
  snd (Slope.Setup side this x0 x1 y0 y1 w0 w1 y) = Slope.XVal s.
Proof.
  intros Hx0 Hx1. unfold in_s32 in *. unfold Slope.Setup.
  destruct (Z.gtb_spec x1 x0) as [Hgt|Hle]; [| destruct (Z.ltb_spec x1 x0) as [Hlt|Hge]];
    cbv zeta;
    match goal with
    | |- context [if ?c then (_, _) else (_, _)] => destruct c
    end; cbn [fst snd Slope.xmin Slope.xmax];
    rewrite ?(s32_id (x1 - 1)), ?(s32_id (x0 - 1)) by (unfold in_s32; lia);
    (split; [lia | split; [reflexivity |]]);
    unfold Slope.XVal; cbn [Slope.Negative Slope.x0 Slope.dx Slope.xmin Slope.xmax];
    rewrite ?(s32_id (x1 - 1)), ?(s32_id (x0 - 1)) by (unfold in_s32; lia);
    reflexivity.
Qed.

(** X1: an edge slope never leaves the columns of its edge.  The column
    returned by Setup, the current column after any number of steps and
    the column returned by the next Step all lie between the smaller end
    column and the larger end column minus one (for a vertical edge: on
    the single column [x0], or [x0 - 1] for a right edge). *)
Theorem Slope_stays_on_its_edge
    (side : bool) (this : Slope.t) (x0 x1 y0 y1 w0 w1 y : Z) (n : nat) :
  in_s32 x0 -> in_s32 x1 ->
  let s := fst (Slope.Setup side this x0 x1 y0 y1 w0 w1 y) in
  let lo := if x1 >? x0 then x0 else if x1 <? x0 then x1
            else if side then s32 (x0 - 1) else x0 in
  let hi := if x1 >? x0 then x1 - 1 else if x1 <? x0 then x0 - 1 else lo in
  lo <= snd (Slope.Setup side this x0 x1 y0 y1 w0 w1 y) <= hi /\
  lo <= Slope.XVal (Slope.Steps n s) <= hi /\
  lo <= snd (Slope.Step (Slope.Steps n s)) <= hi.
Proof.
  intros Hx0 Hx1 s lo hi.
  assert (Slope.xmin s = lo /\ Slope.xmax s = hi) as [Hlo Hhi].
  { subst s lo hi. unfold in_s32 in *. unfold Slope.Setup.
    destruct (Z.gtb_spec x1 x0) as [Hgt|Hle]; [| destruct (Z.ltb_spec x1 x0) as [Hlt|Hge]];
      cbv zeta;
      match goal with
      | |- context [if ?c then (_, _) else (_, _)] => destruct c
      end; cbn [fst Slope.xmin Slope.xmax];
      rewrite ?(s32_id (x1 - 1)), ?(s32_id (x0 - 1)) by (unfold in_s32; lia);
      split; reflexivity. }
  destruct (Setup_interval side this x0 x1 y0 y1 w0 w1 y Hx0 Hx1) as (Hle & _ & Hret).
  fold s in Hle, Hret. rewrite Hret.
  assert (forall t, Slope.xmin t = lo -> Slope.xmax t = hi -> lo <= Slope.XVal t <= hi) as Hin.
  { intros t Ht1 Ht2. rewrite <- Ht1, <- Ht2. apply XVal_within. lia. }
  destruct (Steps_interval n s) as [Hn1 Hn2].
  split; [apply Hin; assumption |]. split; [apply Hin; congruence |].
  change (snd (Slope.Step (Slope.Steps n s)))
    with (Slope.XVal (fst (Slope.Step (Slope.Steps n s)))).
  apply Hin; cbn [Slope.Step fst Slope.xmin Slope.xmax]; congruence.
Qed.

Lemma Slope_stays_on_its_edge_witness :
  let s := fst (Slope.Setup true Slope.blank 300 40 7 90 0x2000 0x1000 7) in
  let lo := if 40 >? 300 then 300 else if 40 <? 300 then 40
            else if true then s32 (300 - 1) else 300 in
  let hi := if 40 >? 300 then 40 - 1 else if 40 <? 300 then 300 - 1 else lo in
  lo <= snd (Slope.Setup true Slope.blank 300 40 7 90 0x2000 0x1000 7) <= hi /\
  lo <= Slope.XVal (Slope.Steps 50 s) <= hi /\
  lo <= snd (Slope.Step (Slope.Steps 50 s)) <= hi.
Proof. apply Slope_stays_on_its_edge; unfold in_s32; lia. Defined.

Lemma Steps_keep_flat (col : Z) (m : nat) : forall t : Slope.t,
  Slope.xmin t = col -> Slope.xmax t = col ->
  Slope.Increment t = 0 -> Slope.XMajor t = false ->
  Slope.xmin (Slope.Steps m t) = col /\ Slope.xmax (Slope.Steps m t) = col /\
  Slope.Increment (Slope.Steps m t) = 0 /\ Slope.XMajor (Slope.Steps m t) = false.
Proof.
  induction m as [|m IH]; intros t H1 H2 H3 H4; [auto |].
  cbn [Slope.Steps]. apply IH; cbn; assumption.
Qed.

(** X2: the dummy slope of a flat polygon stays where it was put: the
    returned column is [x0] (left) or [x0 - 1] (right), every later step
    gives it back, and its edge is one pixel long with full coverage. *)
Theorem SetupDummy_stays_put (side : bool) (this : Slope.t) (x0 : Z) (n : nat) :
  let s := fst (Slope.SetupDummy side this x0) in
  snd (Slope.SetupDummy side this x0) = (if side then s32 (x0 - 1) else x0) /\
  Slope.XVal (Slope.Steps n s) = snd (Slope.SetupDummy side this x0) /\
  Slope.EdgeParams side (Slope.Steps n s) = (1, 31).
Proof.
  intros s. set (col := if side then s32 (x0 - 1) else x0).
  assert (snd (Slope.SetupDummy side this x0) = col) as Hret by reflexivity.
  destruct (Steps_keep_flat col n s) as (H1 & H2 & H3 & H4); try reflexivity.
  split; [exact Hret |]. split.
  - rewrite Hret. pose proof (XVal_within (Slope.Steps n s)) as Hw.
    rewrite H1, H2 in Hw. lia.
  - unfold Slope.EdgeParams, Slope.EdgeParams_YMajor. rewrite H4, H3. reflexivity.
Qed.

Lemma coverage_5bit (v : Z) : 0 <= Z.land v 0x1F <= 31.
Proof.
  pose proof (land_mask_range v 5 ltac:(lia)) as H. change (2 ^ 5 - 1) with 31 in H. lia.
Qed.

Lemma EdgeParams_YMajor_range (side : bool) (this : Slope.t) :
  fst (Slope.EdgeParams_YMajor side this) = 1 /\
  0 <= snd (Slope.EdgeParams_YMajor side this) <= 31.
Proof.
  unfold Slope.EdgeParams_YMajor.
  destruct (Slope.Increment this =? 0); cbn [fst snd].
  - split; [reflexivity | lia].
  - set (cov := Z.land _ 31). pose proof (coverage_5bit
      (if negb (Z.shiftr (Z.shiftr (s32 (Z.shiftr (Slope.dx this) 9
                                          + Z.shiftr (Slope.Increment this) 10)) 4) 5
                =? Z.shiftr (Slope.dx this) 18)
       then 31
       else Z.shiftr (s32 (Z.shiftr (Slope.dx this) 9
                           + Z.shiftr (Slope.Increment this) 10)) 4)) as Hcov.
    fold cov in Hcov.
    split; [reflexivity |].
    destruct (negb (xorb side (Slope.Negative this))); [| exact Hcov].
    rewrite s32_id by (unfold in_s32; lia). lia.
Qed.

(** X3: a Y-major edge is one pixel long, and its coverage is a plain
    5-bit value: bit 31, which marks an X-major coverage token, is clear. *)
Theorem EdgeParams_YMajor_coverage (side : bool) (this : Slope.t) :
  fst (Slope.EdgeParams_YMajor side this) = 1 /\
  0 <= snd (Slope.EdgeParams_YMajor side this) <= 31 /\
  Z.testbit (snd (Slope.EdgeParams_YMajor side this)) 31 = false.
Proof.
  destruct (EdgeParams_YMajor_range side this) as (Hlen & Hcov).
  split; [exact Hlen |]. split; [exact Hcov |].
  apply (testbit_above _ 5 31); lia.
Qed.

Lemma token_parts (sc xi : Z) :
  let token := Z.lor (Z.lor (s32 (Z.shiftl 1 31)) (s32 (Z.shiftl (Z.land sc 0x3FF) 12)))
                     (Z.land xi 0x3FF) in
  token = - 2 ^ 31 + Z.land sc 0x3FF * 2 ^ 12 + Z.land xi 0x3FF.
Proof.
  intros token. subst token.
  pose proof (land_mask_range sc 10 ltac:(lia)) as Hsc.
  pose proof (land_mask_range xi 10 ltac:(lia)) as Hxi.
  change (2 ^ 10 - 1) with 0x3FF in Hsc, Hxi.
  change (s32 (Z.shiftl 1 31)) with (Z.shiftl (-1) 31).
  rewrite (s32_id (Z.shiftl _ 12)) by (unfold in_s32; rewrite Z.shiftl_mul_pow2 by lia; lia).
  rewrite <- Z.lor_assoc, (Z.lor_comm (Z.shiftl _ 12)), (lor_shiftl_add _ _ 12) by lia.
  rewrite Z.lor_comm, (lor_shiftl_add _ (-1) 31) by lia. lia.
Qed.

Lemma EdgeParams_XMajor_fields (side : bool) (this : Slope.t) :
  let token := snd (Slope.EdgeParams_XMajor side this) in
  exists startcov,
    0 <= startcov < 2 ^ 10 /\
    token = - 2 ^ 31 + startcov * 2 ^ 12 + Z.land (Slope.xcov_incr this) 0x3FF /\
    Z.testbit token 31 = true /\
    Z.land (Z.shiftr token 12) 0x3FF = startcov /\
    Z.land token 0x3FF = Z.land (Slope.xcov_incr this) 0x3FF.
Proof.
  unfold Slope.EdgeParams_XMajor. cbv zeta. cbn [snd].
  match goal with
  | |- context [Z.lor (Z.lor _ (s32 (Z.shiftl (Z.land ?sc 0x3FF) 12))) _] =>
      set (startcov := sc)
  end.
  rewrite (token_parts startcov (Slope.xcov_incr this)).
  pose proof (land_mask_range startcov 10 ltac:(lia)) as Hsc.
  pose proof (land_mask_range (Slope.xcov_incr this) 10 ltac:(lia)) as Hxi.
  change (2 ^ 10 - 1) with 0x3FF in Hsc, Hxi.
  set (m := Z.land startcov 0x3FF) in *. set (c := Z.land (Slope.xcov_incr this) 0x3FF) in *.
  exists m. split; [exact Hsc |]. split; [reflexivity |].
  change 0x3FF with (Z.ones 10). split; [| split].
  - apply Z.testbit_true; [lia |].
    replace ((- 2 ^ 31 + m * 2 ^ 12 + c) / 2 ^ 31) with (-1); [reflexivity |].
    apply (Z.div_unique _ _ _ (2 ^ 31 - 2 ^ 31 + m * 2 ^ 12 + c)); lia.
  - rewrite Z.land_ones, Z.shiftr_div_pow2 by lia.
    replace ((- 2 ^ 31 + m * 2 ^ 12 + c) / 2 ^ 12) with (m - 2 ^ 19).
    + symmetry. apply (Z.mod_unique _ _ (- 2 ^ 9)); lia.
    + apply (Z.div_unique _ _ _ c); lia.
  - rewrite Z.land_ones by lia. symmetry.
    apply (Z.mod_unique _ _ (- 2 ^ 21 + m * 4)); lia.
Qed.

(** X4: the coverage of an X-major edge is a token with bit 31 set that
    packs two 10-bit fields: the start coverage in bits 12-21 and the
    per-pixel increment [xcov_incr] in bits 0-9.  The two fields are read
    back by [(token >> 12) & 0x3FF] and [token & 0x3FF]. *)
Theorem EdgeParams_XMajor_token (side : bool) (this : Slope.t) :
  let token := snd (Slope.EdgeParams_XMajor side this) in
  exists startcov,
    0 <= startcov < 2 ^ 10 /\
    token = - 2 ^ 31 + startcov * 2 ^ 12 + Z.land (Slope.xcov_incr this) 0x3FF /\
    Z.testbit token 31 = true /\
    Z.land (Z.shiftr token 12) 0x3FF = startcov /\
    Z.land token 0x3FF = Z.land (Slope.xcov_incr this) 0x3FF.
Proof. exact (EdgeParams_XMajor_fields side this). Qed.

(** X5: bit 31 of the coverage returned by EdgeParams tells the two kinds
    of edge apart: it is set exactly for an X-major slope. *)
Theorem EdgeParams_tags_x_major (side : bool) (this : Slope.t) :
  Z.testbit (snd (Slope.EdgeParams side this)) 31 = Slope.XMajor this.
Proof.
  unfold Slope.EdgeParams. destruct (Slope.XMajor this).
  - destruct (EdgeParams_XMajor_fields side this) as (sc & _ & _ & Hbit & _). exact Hbit.
  - destruct (EdgeParams_YMajor_range side this) as (_ & Hcov).
    apply (testbit_above _ 5 31); lia.
Qed.

(** * Perspective-correct interpolation *)

Lemma s32_u32 v : s32 (u32 v) = s32 v.
Proof.
  unfold s32, u32, wrap_signed, wrap_unsigned. f_equal.
  rewrite Zplus_mod_idemp_l. reflexivity.
Qed.

(** What Setup stores for 16-bit weights. *)
Lemma Setup_weights (dir : bool) (this : Interpolator.t) (x0 x1 w0 w1 : Z) :
  0 <= w0 < 2 ^ 16 -> 0 <= w1 < 2 ^ 16 ->
  let i := Interpolator.Setup dir this x0 x1 w0 w1 in
  Interpolator.x0 i = x0 /\
  Interpolator.xdiff i = s32 (x1 - x0) /\
  Interpolator.shift i = (if dir then 9 else 8) /\
  0 <= Interpolator.w0n i <= Interpolator.w0d i /\ Interpolator.w0d i <= 2 ^ 16 /\
  0 <= Interpolator.w1d i <= 2 ^ 16 /\
  (0 < w0 -> dir = false \/ (1 < w0 /\ (Z.odd w0 = false \/ Z.odd w1 = true)) ->
   Interpolator.w0n i = Interpolator.w0d i /\ 0 < Interpolator.w0d i) /\
  (dir = true -> Z.odd w0 = true -> Z.odd w1 = false ->
   Interpolator.w0n i < Interpolator.w0d i).
Proof.
  intros Hw0 Hw1.
  assert (forall w, 0 <= w < 2 ^ 16 -> 0 <= Z.land w 0xFFFE <= w
                    /\ (Z.odd w = false -> Z.land w 0xFFFE = w)
                    /\ (1 < w -> 0 < Z.land w 0xFFFE)) as Hmask.
  { intros w Hw. change 0xFFFE with (Z.shiftl 0x7FFF 1).
    rewrite land_shifted_mask, Z.shiftl_mul_pow2 by lia.
    change 0x7FFF with (Z.ones 15). rewrite Z.land_ones, Z.shiftr_div_pow2 by lia.
    change (2 ^ 1) with 2.
    assert (w / 2 < 2 ^ 15) by (apply Z.div_lt_upper_bound; lia).
    assert (0 <= w / 2) by (apply Z.div_pos; lia).
    rewrite Z.mod_small by lia.
    pose proof (Z.div_mod w 2 ltac:(lia)) as Hdm.
    pose proof (Z.mod_pos_bound w 2 ltac:(lia)) as Hmod.
    split; [lia |]. split.
    - intros Hodd. rewrite Zodd_mod in Hodd.
      destruct (Z.eqb_spec (w mod 2) 1); [discriminate | lia].
    - intros Hbig. assert (1 <= w / 2) by (apply Z.div_le_lower_bound; lia). lia. }
  assert (forall w, nonzero (Z.land w 1) = Z.odd w) as Hodd.
  { intros w. unfold nonzero. change 1 with (2 ^ 0) at 1. rewrite land_pow2 by lia.
    rewrite Z.bit0_odd. destruct (Z.odd w); reflexivity. }
  unfold Interpolator.Setup. cbv zeta. rewrite !Hodd.
  destruct (Hmask w0 Hw0) as (Hm0 & Hm0e & Hm0p). destruct (Hmask w1 Hw1) as (Hm1 & _ & _).
  destruct dir; [destruct (Z.odd w0) eqn:Ho0, (Z.odd w1) eqn:Ho1 |];
    cbn [andb negb Interpolator.x0 Interpolator.xdiff Interpolator.shift Interpolator.w0n
         Interpolator.w0d Interpolator.w1d];
    rewrite ?(s32_id (w0 - 1)), ?(s32_id (w0 + 1)) by (unfold in_s32; lia).
  all: assert (Z.odd w0 = true -> 1 <= w0) as Hge1
         by (intros Ho; destruct (Z.eq_dec w0 0) as [->|]; [discriminate | lia]).
  all: try (pose proof (Hge1 Ho0)).
  all: repeat split; try reflexivity; try lia.
  all: try (intros Hpos [Hd | (Hbig & [Hc|Hc])]; try discriminate; split; lia).
  all: try (intros Hpos Hcase; split; lia).
  all: try (intros; discriminate).
  all: intros; lia.
Qed.

(** The factor that SetX computes lies between 0 and 1 << shift. *)
Lemma quot_same_sign (num den p : Z) :
  0 <= p ->
  (0 <= num /\ 0 <= den /\ num <= p * den) \/ (num <= 0 /\ den <= 0 /\ - num <= p * - den) ->
  0 <= Z.quot num den <= p.
Proof.
  intros Hp H.
  destruct (Z.eq_dec den 0) as [-> | Hden]; [rewrite Z.quot_0_r_ext by reflexivity; lia |].
  assert (forall a b, 0 <= a -> 0 < b -> a <= p * b -> 0 <= a / b <= p) as Hdiv.
  { intros a b Ha Hb Hab. split; [apply Z.div_pos; lia |].
    apply Z.div_le_upper_bound; lia. }
  destruct H as [(Hn & Hd & Hle) | (Hn & Hd & Hle)].
  - rewrite Z.quot_div_nonneg by lia. apply Hdiv; lia.
  - rewrite <- (Z.quot_opp_opp num den) by lia.
    rewrite Z.quot_div_nonneg by lia. apply Hdiv; lia.
Qed.

Lemma factor_signs (k D n d w p : Z) :
  between 0 k D -> 0 <= n <= d -> 0 <= w -> 0 <= p ->
  let num := k * n * p in
  let den := k * d + (D - k) * w in
  (0 <= num /\ 0 <= den /\ num <= p * den) \/ (num <= 0 /\ den <= 0 /\ - num <= p * - den).
Proof.
  intros Hb Hn Hw Hp num den.
  replace (p * den) with (k * d * p + p * ((D - k) * w)) by (unfold den; ring).
  replace (p * - den) with (- k * d * p + p * (- (D - k) * w)) by (unfold den; ring).
  replace (- num) with (- k * n * p) by (unfold num; ring).
  destruct Hb as [Hb | Hb]; [left | right].
  - assert (0 <= k * n) by (apply Z.mul_nonneg_nonneg; lia).
    assert (0 <= k * d) by (apply Z.mul_nonneg_nonneg; lia).
    assert (k * n <= k * d) by (apply Z.mul_le_mono_nonneg_l; lia).
    assert (0 <= (D - k) * w) by (apply Z.mul_nonneg_nonneg; lia).
    assert (0 <= k * n * p) by (apply Z.mul_nonneg_nonneg; lia).
    assert (k * n * p <= k * d * p) by (apply Z.mul_le_mono_nonneg_r; lia).
    assert (0 <= p * ((D - k) * w)) by (apply Z.mul_nonneg_nonneg; lia).
    unfold num, den. lia.
  - assert (0 <= - k * n) as H1 by (apply Z.mul_nonneg_nonneg; lia).
    assert (0 <= - k * d) as H2 by (apply Z.mul_nonneg_nonneg; lia).
    assert (- k * n <= - k * d) as H3 by (apply Z.mul_le_mono_nonneg_l; lia).
    assert (0 <= - (D - k) * w) as H4 by (apply Z.mul_nonneg_nonneg; lia).
    assert (0 <= - k * n * p) as H5 by (apply Z.mul_nonneg_nonneg; lia).
    assert (- k * n * p <= - k * d * p) as H6 by (apply Z.mul_le_mono_nonneg_r; lia).
    assert (0 <= p * (- (D - k) * w)) as H7 by (apply Z.mul_nonneg_nonneg; lia).
    replace num with (- (- k * n * p)) by (unfold num; ring).
    replace den with (- (- k * d + - (D - k) * w)) by (unfold den; ring).
    clear Hb Hn Hw Hp. lia.
Qed.

Lemma SetX_yfactor (i : Interpolator.t) (X : Z) :
  Interpolator.linear i = false ->
  Interpolator.xdiff i <> 0 ->
  Z.abs (Interpolator.xdiff i) <= 2 ^ 14 ->
  between 0 (X - Interpolator.x0 i) (Interpolator.xdiff i) ->
  Interpolator.shift i = 8 \/ Interpolator.shift i = 9 ->
  0 <= Interpolator.w0n i <= Interpolator.w0d i -> Interpolator.w0d i <= 2 ^ 16 ->
  0 <= Interpolator.w1d i <= 2 ^ 16 ->
  let j := Interpolator.SetX i X in
  0 <= Interpolator.yfactor j <= 2 ^ Interpolator.shift i /\
  (X - Interpolator.x0 i = 0 -> Interpolator.yfactor j = 0) /\
  (X - Interpolator.x0 i = Interpolator.xdiff i ->
   Interpolator.w0n i = Interpolator.w0d i -> 0 < Interpolator.w0d i ->
   Interpolator.yfactor j = 2 ^ Interpolator.shift i) /\
  (X - Interpolator.x0 i = Interpolator.xdiff i ->
   Interpolator.w0n i < Interpolator.w0d i ->
   Interpolator.yfactor j < 2 ^ Interpolator.shift i).
Proof.
  intros Hlin Hnz HD Hbtw Hsh Hn Hd Hw1. cbv zeta.
  unfold Interpolator.SetX. cbn [Interpolator.yfactor]. rewrite Hlin.
  destruct (Z.eqb_spec (Interpolator.xdiff i) 0) as [|_]; [contradiction |].
  cbn [negb andb].
  set (D := Interpolator.xdiff i) in *. set (sh := Interpolator.shift i) in *.
  set (n := Interpolator.w0n i) in *. set (d := Interpolator.w0d i) in *.
  set (w := Interpolator.w1d i) in *.
  set (k := X - Interpolator.x0 i) in *.
  clearbody D sh n d w k.
  assert (0 < 2 ^ sh <= 2 ^ 9) as Hp by (destruct Hsh as [-> | ->]; lia).
  set (p := 2 ^ sh) in *.
  assert (Z.abs k + Z.abs (D - k) = Z.abs D) as Hsplit by (unfold between in Hbtw; lia).
  assert (forall a b, Z.abs a <= 2 ^ 14 -> 0 <= b <= 2 ^ 16 ->
                      Z.abs (a * b) = Z.abs a * b /\ Z.abs a * b <= Z.abs a * 2 ^ 16) as Hprod.
  { intros a b Ha Hb. rewrite Z.abs_mul, (Z.abs_eq b) by lia.
    split; [reflexivity | apply Z.mul_le_mono_nonneg_l; lia]. }
  destruct (Hprod k n ltac:(lia) ltac:(lia)) as (Hkn & Hkn').
  destruct (Hprod k d ltac:(lia) ltac:(lia)) as (Hkd & Hkd').
  destruct (Hprod (D - k) w ltac:(lia) ltac:(lia)) as (Hdw & Hdw').
  assert (Z.abs k * n <= Z.abs k * d) as Hnd by (apply Z.mul_le_mono_nonneg_l; lia).
  rewrite (s32_id k) by (unfold in_s32; lia).
  rewrite (s32_id (D - k)) by (unfold in_s32; lia).
  rewrite (s32_id (k * d)), (s32_id ((D - k) * w)) by (unfold in_s32; lia).
  rewrite (s32_id (k * d + (D - k) * w)) by (unfold in_s32; lia).
  rewrite (s64_id (k * n)) by lia.
  rewrite Z.shiftl_mul_pow2 by lia. fold p.
  assert (Z.abs (k * n * p) = Z.abs k * n * p) as Hnum
    by (rewrite Z.abs_mul, (Z.abs_eq p), Hkn; lia).
  assert (Z.abs k * n * p <= Z.abs k * d * p) as Hnum'
    by (apply Z.mul_le_mono_nonneg_r; lia).
  assert (Z.abs k * d * p <= 2 ^ 30 * 2 ^ 9) as Hnum''
    by (apply Z.mul_le_mono_nonneg; lia).
  rewrite (s64_id (k * n * p)) by lia.
  set (num := k * n * p) in *. set (den := k * d + (D - k) * w) in *.
  assert (0 <= Z.abs (D - k) * w) as Hdw0 by (apply Z.mul_nonneg_nonneg; lia).
  assert (0 <= Z.quot num den <= p) as Hq.
  { apply quot_same_sign; [lia |]. apply factor_signs; [exact Hbtw | lia ..]. }
  clear Hsplit Hprod Hkn Hkn' Hkd Hkd' Hdw Hdw' Hnd Hnum Hnum' Hnum'' Hdw0 HD Hbtw.
  split; [| split; [| split]].
  - destruct (den =? 0); [lia |].
    rewrite s32_id by (unfold in_s32; lia). rewrite u32_id by (unfold in_u32; lia). lia.
  - intros ->. unfold num. rewrite !Z.mul_0_l.
    destruct (Z.eqb_spec den 0); [reflexivity |].
    rewrite Z.quot_0_l by assumption. reflexivity.
  - intros -> Hnd' Hdp. unfold num, den. rewrite Hnd', Z.sub_diag, Z.mul_0_l, Z.add_0_r.
    assert (D * d <> 0) as Hne by (apply Z.neq_mul_0; lia).
    destruct (Z.eqb_spec (D * d) 0); [contradiction |].
    replace (D * d * p) with (p * (D * d)) by ring.
    rewrite Z.quot_mul by assumption.
    rewrite s32_id by (unfold in_s32; lia). apply u32_id. unfold in_u32. lia.
  - intros -> Hlt. unfold num, den. rewrite Z.sub_diag, Z.mul_0_l, Z.add_0_r.
    assert (D * d <> 0) as Hne by (apply Z.neq_mul_0; lia).
    destruct (Z.eqb_spec (D * d) 0); [contradiction |].
    replace (D * n * p) with (D * (n * p)) by ring.
    rewrite Z.quot_mul_cancel_l by lia.
    assert (0 <= n * p) by (apply Z.mul_nonneg_nonneg; lia).
    assert (n * p < d * p) by (apply Z.mul_lt_mono_pos_r; lia).
    rewrite Z.quot_div_nonneg by lia.
    assert (0 <= n * p / d) by (apply Z.div_pos; lia).
    assert (n * p / d < p) by (apply Z.div_lt_upper_bound; lia).
    rewrite s32_id by (unfold in_s32; lia). rewrite u32_id by (unfold in_u32; lia). lia.
Qed.

(** A scaled difference, shifted back, stays below the difference. *)
Lemma scaled_back (diff f sh : Z) :
  0 <= diff < 2 ^ 22 -> 0 <= sh <= 9 -> 0 <= f <= 2 ^ sh ->
  let t := Z.shiftr (u32 (s32 diff * f)) sh in
  0 <= t <= diff /\ (f = 0 -> t = 0) /\ (f = 2 ^ sh -> t = diff).
Proof.
  intros Hd Hsh Hf. cbv zeta.
  assert (0 < 2 ^ sh <= 2 ^ 9) as Hp
    by (split; [apply Z.pow_pos_nonneg; lia | apply Z.pow_le_mono_r; lia]).
  rewrite (s32_id diff) by (unfold in_s32; lia).
  assert (0 <= diff * f) by (apply Z.mul_nonneg_nonneg; lia).
  assert (diff * f <= diff * 2 ^ sh) by (apply Z.mul_le_mono_nonneg_l; lia).
  assert (diff * 2 ^ sh <= 2 ^ 22 * 2 ^ 9) by (apply Z.mul_le_mono_nonneg; lia).
  rewrite u32_id by (unfold in_u32; lia).
  rewrite Z.shiftr_div_pow2 by lia.
  split; [| split].
  - split; [apply Z.div_pos; lia |]. apply Z.div_le_upper_bound; lia.
  - intros ->. rewrite Z.mul_0_r. apply Z.div_0_l. lia.
  - intros ->. apply Z.div_mul. lia.
Qed.

Lemma Interpolate_perspective (i : Interpolator.t) (a b : Z) :
  Interpolator.linear i = false ->
  Interpolator.xdiff i <> 0 ->
  Interpolator.shift i = 8 \/ Interpolator.shift i = 9 ->
  0 <= Interpolator.yfactor i <= 2 ^ Interpolator.shift i ->
  in_s32 a -> in_s32 b -> Z.abs (b - a) < 2 ^ 22 ->
  Z.min a b <= Interpolator.Interpolate i a b <= Z.max a b /\
  (Interpolator.yfactor i = 0 -> Interpolator.Interpolate i a b = a) /\
  (Interpolator.yfactor i = 2 ^ Interpolator.shift i -> Interpolator.Interpolate i a b = b).
Proof.
  intros Hlin Hnz Hsh Hf Ha Hb Hab.
  unfold Interpolator.Interpolate. rewrite Hlin. cbn [negb].
  destruct (Z.eqb_spec (Interpolator.xdiff i) 0) as [|_]; [contradiction |].
  cbn [orb].
  set (sh := Interpolator.shift i) in *. set (f := Interpolator.yfactor i) in *.
  clearbody sh f.
  assert (0 <= sh <= 9) as Hsh' by lia.
  destruct (Z.eqb_spec a b) as [-> | Hne]; [lia |].
  destruct (Z.ltb_spec a b) as [Hlt | Hge].
  - destruct (scaled_back (b - a) f sh ltac:(lia) Hsh' Hf) as (Ht & Ht0 & Ht1).
    set (t := Z.shiftr _ sh) in *. clearbody t.
    rewrite s32_u32, s32_id by (unfold in_s32 in *; lia).
    split; [lia |]. split; intros E; [rewrite (Ht0 E) | rewrite (Ht1 E)]; lia.
  - assert (0 < 2 ^ sh) as Hp by (apply Z.pow_pos_nonneg; lia).
    rewrite Z.shiftl_1_l.
    rewrite (u32_id (2 ^ sh - f))
      by (unfold in_u32; assert (2 ^ sh <= 2 ^ 9) by (apply Z.pow_le_mono_r; lia); lia).
    destruct (scaled_back (a - b) (2 ^ sh - f) sh ltac:(lia) Hsh' ltac:(lia)) as (Ht & Ht0 & Ht1).
    set (t := Z.shiftr _ sh) in *. clearbody t.
    rewrite s32_u32, s32_id by (unfold in_s32 in *; lia).
    split; [lia |].
    split; intros E; [rewrite (Ht1 ltac:(lia)) | rewrite (Ht0 ltac:(lia))]; lia.
Qed.

Lemma Setup_linear (dir : bool) (this : Interpolator.t) (x0 x1 w0 w1 : Z) :
  Interpolator.linear (Interpolator.Setup dir this x0 x1 w0 w1) =
    (w0 =? w1) && negb (nonzero (Z.land (u32 w0) (if dir then 0x7E else 0x7F)))
               && negb (nonzero (Z.land (u32 w1) (if dir then 0x7E else 0x7F))).
Proof.
  unfold Interpolator.Setup. cbv zeta.
  destruct dir; [destruct (_ && _) |]; reflexivity.
Qed.

Lemma SetX_keeps (i : Interpolator.t) (X : Z) :
  Interpolator.linear (Interpolator.SetX i X) = Interpolator.linear i /\
  Interpolator.xdiff (Interpolator.SetX i X) = Interpolator.xdiff i /\
  Interpolator.shift (Interpolator.SetX i X) = Interpolator.shift i.
Proof. repeat split. Qed.

(** X6: the interpolated attribute never leaves the interval of its two end
    values, in the linear and in the perspective-correct mode alike. *)
Theorem Interpolate_within_ends (dir : bool) (this : Interpolator.t)
    (x0 x1 w0 w1 x a b : Z) :
  between x0 x x1 -> Z.abs (x1 - x0) <= 2 ^ 14 ->
  0 <= w0 < 2 ^ 16 -> 0 <= w1 < 2 ^ 16 ->
  in_s32 a -> in_s32 b -> Z.abs (b - a) < 2 ^ 22 ->
  Z.min a b
    <= Interpolator.Interpolate
         (Interpolator.SetX (Interpolator.Setup dir this x0 x1 w0 w1) x) a b
    <= Z.max a b.
Proof.
  intros Hx HD Hw0 Hw1 Ha Hb Hab.
  destruct (Z.eq_dec x0 x1) as [Heq | Hne].
  { unfold Interpolator.Interpolate.
    destruct (SetX_keeps (Interpolator.Setup dir this x0 x1 w0 w1) x) as (_ & -> & _).
    destruct (Setup_weights dir this x0 x1 w0 w1 Hw0 Hw1) as (_ & -> & _).
    rewrite Heq, Z.sub_diag. change (s32 0 =? 0) with true. cbn [orb]. lia. }
  destruct (Interpolator.linear (Interpolator.Setup dir this x0 x1 w0 w1)) eqn:Hlin.
  - rewrite Setup_linear in Hlin.
    apply andb_prop in Hlin as (Hlin & _). apply andb_prop in Hlin as (Hw & Hmask).
    apply Z.eqb_eq in Hw. subst w1.
    assert (Z.land (u32 w0) (if dir then 0x7E else 0x7F) = 0) as Hm.
    { unfold nonzero in Hmask. destruct (Z.eqb_spec (Z.land (u32 w0) (if dir then 126 else 127)) 0);
        [assumption | discriminate]. }
    pose proof (linear_value_closed dir this x0 x1 w0 x a b
                  ltac:(unfold in_s32; lia) Hne Hm Ha Hb ltac:(lia) Hx) as Hval.
    unfold linear_value in Hval. rewrite Hval.
    destruct (Z.eqb_spec a b); [lia |].
    assert (0 < Z.abs (x1 - x0)) as HDpos by lia.
    assert (0 <= Z.abs (x - x0) <= Z.abs (x1 - x0)) as Hk by (unfold between in Hx; lia).
    destruct (Z.ltb_spec a b).
    + pose proof (linear_step_range (Z.abs (x1 - x0)) (b - a) HDpos ltac:(lia)
                    (Z.abs (x - x0)) Hk). lia.
    + pose proof (linear_step_range (Z.abs (x1 - x0)) (a - b) HDpos ltac:(lia)
                    (Z.abs (x1 - x0) - Z.abs (x - x0)) ltac:(lia)). lia.
  - destruct (Setup_weights dir this x0 x1 w0 w1 Hw0 Hw1)
      as (Hx0 & Hxd & Hsh & Hn & Hd & Hw & _ & _).
    cbv zeta in *. set (i := Interpolator.Setup dir this x0 x1 w0 w1) in *.
    rewrite s32_id in Hxd by (unfold in_s32; lia).
    assert (Interpolator.shift i = 8 \/ Interpolator.shift i = 9) as Hsh'
      by (rewrite Hsh; destruct dir; auto).
    destruct (SetX_yfactor i x Hlin ltac:(lia) ltac:(lia)
                ltac:(rewrite Hx0, Hxd; unfold between in *; lia) Hsh' Hn Hd Hw) as (Hf & _).
    cbv zeta in Hf.
    apply Interpolate_perspective; try assumption.
    cbn [Interpolator.xdiff Interpolator.SetX]. lia.
Qed.

Lemma Interpolate_within_ends_witness :
  Z.min 100 (-3000)
    <= Interpolator.Interpolate
         (Interpolator.SetX (Interpolator.Setup true Interpolator.blank 20 150 0x1001 0x0400) 77)
         100 (-3000)
    <= Z.max 100 (-3000).
Proof.
  apply Interpolate_within_ends; unfold between, in_s32; lia.
Defined.

(** X7: for two different end positions at most 2^14 apart, weights
    [0 <= w0, w1 < 2^16] and [s32] end values less than 2^22 apart, an
    interpolator in the perspective-correct mode reproduces the first end
    value exactly at [x0], and the second one exactly at [x1] when
    [w0 > 0] and it runs along X, or along Y with [w0 > 1] and not (w0 odd
    and w1 even): the weights are then not halved unevenly and w0 survives
    the halving. *)
Theorem perspective_ends_exact (dir : bool) (this : Interpolator.t)
    (x0 x1 w0 w1 a b : Z) :
  x0 <> x1 -> Z.abs (x1 - x0) <= 2 ^ 14 ->
  0 <= w0 < 2 ^ 16 -> 0 <= w1 < 2 ^ 16 ->
  in_s32 a -> in_s32 b -> Z.abs (b - a) < 2 ^ 22 ->
  let i := Interpolator.Setup dir this x0 x1 w0 w1 in
  Interpolator.linear i = false ->
  Interpolator.Interpolate (Interpolator.SetX i x0) a b = a /\
  (0 < w0 -> dir = false \/ (1 < w0 /\ (Z.odd w0 = false \/ Z.odd w1 = true)) ->
   Interpolator.Interpolate (Interpolator.SetX i x1) a b = b).
Proof.
  intros Hne HD Hw0 Hw1 Ha Hb Hab i Hlin.
  destruct (Setup_weights dir this x0 x1 w0 w1 Hw0 Hw1)
    as (Hx0 & Hxd & Hsh & Hn & Hd & Hw & Hfull & _).
  cbv zeta in *. fold i in Hx0, Hxd, Hsh, Hn, Hd, Hw, Hfull.
  rewrite s32_id in Hxd by (unfold in_s32; lia).
  assert (Interpolator.shift i = 8 \/ Interpolator.shift i = 9) as Hsh'
    by (rewrite Hsh; destruct dir; auto).
  split.
  - destruct (SetX_yfactor i x0 Hlin ltac:(lia) ltac:(lia)
                ltac:(rewrite Hx0, Hxd; unfold between; lia) Hsh' Hn Hd Hw) as (Hf & Hf0 & _ & _).
    cbv zeta in Hf, Hf0.
    apply Interpolate_perspective; try assumption.
    + cbn [Interpolator.xdiff Interpolator.SetX]. lia.
    + apply Hf0. rewrite Hx0. lia.
  - intros Hpos Hcase. destruct (Hfull Hpos Hcase) as (Hnd & Hdp).
    destruct (SetX_yfactor i x1 Hlin ltac:(lia) ltac:(lia)
                ltac:(rewrite Hx0, Hxd; unfold between; lia) Hsh' Hn Hd Hw) as (Hf & _ & Hf1 & _).
    cbv zeta in Hf, Hf1.
    apply Interpolate_perspective; try assumption.
    + cbn [Interpolator.xdiff Interpolator.SetX]. lia.
    + apply Hf1; [rewrite Hx0, Hxd; reflexivity | assumption | assumption].
Qed.

Lemma perspective_ends_exact_witness :
  Interpolator.Interpolate
    (Interpolator.SetX (Interpolator.Setup false Interpolator.blank 20 150 0x1001 0x0400) 20)
    100 (-3000) = 100 /\
  Interpolator.Interpolate
    (Interpolator.SetX (Interpolator.Setup false Interpolator.blank 20 150 0x1001 0x0400) 150)
    100 (-3000) = -3000.
Proof.
  destruct (perspective_ends_exact false Interpolator.blank 20 150 0x1001 0x0400 100 (-3000)
              ltac:(lia) ltac:(lia) ltac:(lia) ltac:(lia)
              ltac:(unfold in_s32; lia) ltac:(unfold in_s32; lia) ltac:(lia) eq_refl)
    as (H0 & H1).
  split; [exact H0 | apply H1; [lia | left; reflexivity]].
Defined.

(** X8: along Y, for two different end positions at most 2^14 apart and
    weights [0 <= w0, w1 < 2^16] with w0 odd and w1 even, the weights are
    halved unevenly (w0 - 1 over w0 + 1): the factor that SetX computes at
    [x1] stays below 1 << 9, and for [s32] end values
    [a < b < a + 2^22] the value interpolated at [x1] is at least [a] and
    strictly below [b]. *)
Theorem uneven_halving_misses_far_end (this : Interpolator.t) (x0 x1 w0 w1 a b : Z) :
  x0 <> x1 -> Z.abs (x1 - x0) <= 2 ^ 14 ->
  0 <= w0 < 2 ^ 16 -> 0 <= w1 < 2 ^ 16 ->
  Z.odd w0 = true -> Z.odd w1 = false ->
  in_s32 a -> in_s32 b -> a < b < a + 2 ^ 22 ->
  let i := Interpolator.SetX (Interpolator.Setup true this x0 x1 w0 w1) x1 in
  0 <= Interpolator.yfactor i < Z.shiftl 1 9 /\
  a <= Interpolator.Interpolate i a b < b.
Proof.
  intros Hne HD Hw0 Hw1 Ho0 Ho1 Ha Hb Hab.
  destruct (Setup_weights true this x0 x1 w0 w1 Hw0 Hw1)
    as (Hx0 & Hxd & Hsh & Hn & Hd & Hw & _ & Hless).
  specialize (Hless eq_refl Ho0 Ho1).
  cbv zeta in *. set (i := Interpolator.Setup true this x0 x1 w0 w1) in *.
  rewrite s32_id in Hxd by (unfold in_s32; lia).
  assert (Interpolator.linear i = false) as Hlin.
  { unfold i. rewrite Setup_linear.
    destruct (Z.eqb_spec w0 w1) as [E |]; [| reflexivity].
    rewrite E, Ho1 in Ho0. discriminate. }
  destruct (SetX_yfactor i x1 Hlin ltac:(lia) ltac:(lia)
              ltac:(rewrite Hx0, Hxd; unfold between; lia) ltac:(right; exact Hsh) Hn Hd Hw)
    as (Hf & _ & _ & Hf1).
  cbv zeta in Hf, Hf1. specialize (Hf1 ltac:(rewrite Hx0, Hxd; reflexivity) Hless).
  rewrite Hsh in Hf, Hf1. change (Z.shiftl 1 9) with (2 ^ 9).
  split; [lia |].
  unfold Interpolator.Interpolate.
  destruct (SetX_keeps i x1) as (-> & -> & ->). rewrite Hlin, Hxd, Hsh in *.
  set (f := Interpolator.yfactor (Interpolator.SetX i x1)) in *. clearbody f.
  destruct (Z.eqb_spec (x1 - x0) 0); [lia |].
  destruct (Z.eqb_spec a b); [lia |]. destruct (Z.ltb_spec a b); [| lia].
  cbn [orb negb].
  rewrite (s32_id (b - a)) by (unfold in_s32; lia).
  assert (0 <= (b - a) * f) by (apply Z.mul_nonneg_nonneg; lia).
  assert ((b - a) * f < (b - a) * 2 ^ 9) by (apply Z.mul_lt_mono_pos_l; lia).
  assert ((b - a) * 2 ^ 9 <= 2 ^ 22 * 2 ^ 9) by (apply Z.mul_le_mono_nonneg_r; lia).
  rewrite (u32_id ((b - a) * f)) by (unfold in_u32; lia).
  rewrite Z.shiftr_div_pow2 by lia.
  assert (0 <= (b - a) * f / 2 ^ 9) by (apply Z.div_pos; lia).
  assert ((b - a) * f / 2 ^ 9 < b - a) by (apply Z.div_lt_upper_bound; lia).
  rewrite s32_u32, s32_id by (unfold in_s32 in *; lia). lia.
Qed.

Lemma uneven_halving_misses_far_end_witness :
  let i := Interpolator.SetX
             (Interpolator.Setup true Interpolator.blank 20 150 0x1001 0x0400) 150 in
  0 <= Interpolator.yfactor i < Z.shiftl 1 9 /\
  100 <= Interpolator.Interpolate i 100 3000 < 3000.
Proof.
  apply uneven_halving_misses_far_end; try reflexivity; unfold in_s32; lia.
Defined.

(** * Depth interpolation *)

Lemma Setup_SetX_position (dir : bool) (this : Interpolator.t) (x0 x1 w0 w1 x : Z) :
  let i := Interpolator.SetX (Interpolator.Setup dir this x0 x1 w0 w1) x in
  Interpolator.xdiff i = s32 (x1 - x0) /\
  Interpolator.x i = s32 (x - x0) /\
  Interpolator.xrecip_z i =
    Z.shiftr (if negb (s32 (x1 - x0) =? 0)
              then s32 (Z.quot (Z.shiftl 1 30) (s32 (x1 - x0))) else 0) 8.
Proof.
  unfold Interpolator.Setup. cbv zeta.
  destruct dir; [destruct (_ && _) |]; repeat split; reflexivity.
Qed.

(** The Z-buffer reciprocal times the span never exceeds 1 << 22. *)
Lemma xrecip_z_bounds (D : Z) :
  0 < D < 2 ^ 31 ->
  let r := Z.shiftr (s32 (Z.quot (Z.shiftl 1 30) D)) 8 in
  0 <= r /\ D * r <= 2 ^ 22.
Proof.
  intros HD. cbv zeta. change (Z.shiftl 1 30) with (2 ^ 30).
  rewrite Z.quot_div_nonneg by lia.
  assert (0 <= 2 ^ 30 / D <= 2 ^ 30) as Hq.
  { split; [apply Z.div_pos; lia |]. apply Z.div_le_upper_bound; [lia |].
    replace (2 ^ 30) with (1 * 2 ^ 30) at 1 by lia. apply Z.mul_le_mono_nonneg_r; lia. }
  rewrite s32_id by (unfold in_s32; lia).
  rewrite Z.shiftr_div_pow2 by lia. rewrite Z.div_div by lia.
  assert (0 <= 2 ^ 30 / (D * 2 ^ 8)) as H0 by (apply Z.div_pos; lia).
  split; [exact H0 |].
  pose proof (Z.mul_div_le (2 ^ 30) (D * 2 ^ 8) ltac:(lia)) as Hle.
  set (q := 2 ^ 30 / (D * 2 ^ 8)) in *. clearbody q.
  replace (D * 2 ^ 8 * q) with (2 ^ 8 * (D * q)) in Hle by ring. lia.
Qed.

(** The normalisation loop halves [disp] until it fits in ten bits; the
    fuel of 32 rounds is never exhausted on a 31-bit value. *)
Lemma normalize_disp_spec (fuel : nat) :
  forall disp shift,
    0 <= disp < 2 ^ (10 + Z.of_nat fuel) ->
    exists n, 0 <= n <= Z.of_nat fuel /\
              Interpolator.normalize_disp fuel disp shift = (disp / 2 ^ n, shift + n) /\
              0 <= disp / 2 ^ n <= 0x3FF.
Proof.
  induction fuel as [| fuel IH]; intros disp shift Hd.
  - exists 0. cbn [Interpolator.normalize_disp]. rewrite Z.div_1_r, Z.add_0_r.
    change (2 ^ (10 + Z.of_nat 0)) with 1024 in Hd. repeat split; lia.
  - cbn [Interpolator.normalize_disp].
    destruct (Z.gtb_spec disp 0x3FF) as [Hbig | Hsmall].
    + rewrite Z.shiftr_div_pow2 by lia. change (2 ^ 1) with 2.
      assert (0 <= disp / 2 < 2 ^ (10 + Z.of_nat fuel)) as Hhalf.
      { split; [apply Z.div_pos; lia |]. apply Z.div_lt_upper_bound; [lia |].
        replace (10 + Z.of_nat (S fuel)) with (Z.succ (10 + Z.of_nat fuel)) in Hd by lia.
        rewrite Z.pow_succ_r in Hd by lia. lia. }
      destruct (IH (disp / 2) (shift + 1) Hhalf) as (n & Hn & Heq & Hr).
      exists (n + 1). rewrite Heq.
      replace (2 ^ (n + 1)) with (2 * 2 ^ n) by (rewrite Z.pow_add_r by lia; lia).
      rewrite <- Z.div_div by lia.
      repeat split; try lia. f_equal. lia.
    + exists 0. rewrite Z.div_1_r, Z.add_0_r. repeat split; lia.
Qed.

(** A product scaled by the reciprocal and shifted back stays below the
    displacement it came from. *)
Lemma zbuffer_term (disp factor r D s : Z) :
  0 <= disp < 2 ^ 31 -> 0 <= factor <= D -> 0 < D < 2 ^ 31 -> 0 <= r -> D * r <= 2 ^ 22 ->
  0 <= s <= 22 ->
  let t := Z.shiftr (s64 (s64 (disp * factor) * r)) s in
  0 <= t <= disp * 2 ^ (22 - s).
Proof.
  intros Hd Hf HD Hr HDr Hs. cbv zeta.
  assert (0 <= disp * factor) by (apply Z.mul_nonneg_nonneg; lia).
  assert (disp * factor <= 2 ^ 31 * 2 ^ 31) by (apply Z.mul_le_mono_nonneg; lia).
  rewrite (s64_id (disp * factor)) by lia.
  assert (0 <= factor * r) by (apply Z.mul_nonneg_nonneg; lia).
  assert (factor * r <= D * r) by (apply Z.mul_le_mono_nonneg_r; lia).
  assert (0 <= disp * (factor * r)) by (apply Z.mul_nonneg_nonneg; lia).
  assert (disp * (factor * r) <= disp * 2 ^ 22) by (apply Z.mul_le_mono_nonneg_l; lia).
  replace (disp * factor * r) with (disp * (factor * r)) by ring.
  rewrite s64_id by lia.
  rewrite Z.shiftr_div_pow2 by lia.
  assert (0 < 2 ^ s) by (apply Z.pow_pos_nonneg; lia).
  split; [apply Z.div_pos; lia |].
  apply Z.div_le_upper_bound; [lia |].
  replace (2 ^ s * (disp * 2 ^ (22 - s))) with (disp * (2 ^ s * 2 ^ (22 - s))) by ring.
  rewrite <- Z.pow_add_r by lia. replace (s + (22 - s)) with 22 by lia. lia.
Qed.

(** X9: with Z-buffering, the depth interpolated along a left-to-right span
    stays between the two end depths, along X and along Y alike. *)
Theorem InterpolateZ_zbuffer_within_ends (dir : bool) (this : Interpolator.t)
    (x0 x1 w0 w1 x z0 z1 : Z) :
  x0 < x1 < x0 + 2 ^ 31 -> x0 <= x <= x1 ->
  0 <= z0 < 2 ^ 24 -> 0 <= z1 < 2 ^ 24 ->
  Z.min z0 z1
    <= Interpolator.InterpolateZ dir
         (Interpolator.SetX (Interpolator.Setup dir this x0 x1 w0 w1) x) z0 z1 false
    <= Z.max z0 z1.
Proof.
  intros HD Hx Hz0 Hz1.
  destruct (Setup_SetX_position dir this x0 x1 w0 w1 x) as (Hxd & Hxx & Hr).
  cbv zeta in Hxd, Hxx, Hr. unfold Interpolator.InterpolateZ.
  rewrite Hxd, Hxx, Hr.
  rewrite (s32_id (x1 - x0)), (s32_id (x - x0)) by (unfold in_s32; lia).
  destruct (Z.eqb_spec (x1 - x0) 0) as [|_]; [lia |]. cbn [orb negb].
  destruct (Z.eqb_spec z0 z1) as [|Hne]; [lia |].
  destruct (xrecip_z_bounds (x1 - x0) ltac:(lia)) as (Hr0 & HDr). cbv zeta in Hr0, HDr.
  set (r := Z.shiftr (s32 (Z.quot (Z.shiftl 1 30) (x1 - x0))) 8) in *. clearbody r.
  assert (exists base disp factor,
            (if z0 <? z1 then (z0, s32 (z1 - z0), x - x0)
             else (z1, s32 (z0 - z1), s32 (x1 - x0 - (x - x0)))) = (base, disp, factor)
            /\ base = Z.min z0 z1 /\ base + disp = Z.max z0 z1
            /\ 0 <= factor <= x1 - x0) as (base & disp & factor & -> & Hb & Hbd & Hf).
  { destruct (Z.ltb_spec z0 z1).
    - exists z0, (z1 - z0), (x - x0). rewrite s32_id by (unfold in_s32; lia).
      repeat split; lia.
    - exists z1, (z0 - z1), (x1 - x0 - (x - x0)).
      rewrite !s32_id by (unfold in_s32; lia). repeat split; lia. }
  assert (0 <= disp < 2 ^ 24) as Hd by lia.
  destruct dir.
  - destruct (normalize_disp_spec 32 disp 0 ltac:(change (2 ^ (10 + Z.of_nat 32)) with (2 ^ 42); lia))
      as (n & Hn & -> & Hsmall).
    rewrite Z.add_0_l.
    assert (0 < 2 ^ n) as Hp by (apply Z.pow_pos_nonneg; lia).
    pose proof (Z.mul_div_le disp (2 ^ n) Hp) as Hback.
    set (d := disp / 2 ^ n) in *. clearbody d.
    destruct (zbuffer_term d factor r (x1 - x0) 22 ltac:(lia) Hf ltac:(lia) Hr0 HDr ltac:(lia))
      as (Ht0 & Ht1).
    set (t := Z.shiftr _ 22) in *. clearbody t.
    change (2 ^ (22 - 22)) with 1 in Ht1.
    rewrite Z.shiftl_mul_pow2 by lia.
    assert (0 <= t * 2 ^ n) by (apply Z.mul_nonneg_nonneg; lia).
    assert (t * 2 ^ n <= d * 2 ^ n) by (apply Z.mul_le_mono_nonneg_r; lia).
    rewrite (s64_id (t * 2 ^ n)) by lia.
    rewrite s64_id by lia. rewrite s32_id by (unfold in_s32; lia). lia.
  - cbv zeta. rewrite (Z.shiftr_div_pow2 disp 9) by lia.
    pose proof (Z.mul_div_le disp (2 ^ 9) ltac:(lia)) as Hback.
    assert (0 <= disp / 2 ^ 9) by (apply Z.div_pos; lia).
    set (d := disp / 2 ^ 9) in *. clearbody d.
    destruct (zbuffer_term d factor r (x1 - x0) 13 ltac:(lia) Hf ltac:(lia) Hr0 HDr ltac:(lia))
      as (Ht0 & Ht1).
    set (t := Z.shiftr _ 13) in *. clearbody t.
    change (2 ^ (22 - 13)) with (2 ^ 9) in Ht1.
    rewrite s64_id by lia. rewrite s32_id by (unfold in_s32; lia). lia.
Qed.

Lemma InterpolateZ_zbuffer_within_ends_witness :
  Z.min 0xC00000 0x010000
    <= Interpolator.InterpolateZ true
         (Interpolator.SetX (Interpolator.Setup true Interpolator.blank 10 190 0x1000 0x2000) 77)
         0xC00000 0x010000 false
    <= Z.max 0xC00000 0x010000.
Proof.
  apply InterpolateZ_zbuffer_within_ends; lia.
Defined.

(** X10: with W-buffering and equal, mask-free weights (the linear mode), SetX
    leaves yfactor as it was, so the interpolated depth is the same at
    every position of the span. *)
Theorem InterpolateZ_wbuffer_linear_ignores_x (dir : bool) (this : Interpolator.t)
    (x0 x1 w x x' z0 z1 : Z) :
  Z.land (u32 w) (if dir then 0x7E else 0x7F) = 0 ->
  Interpolator.InterpolateZ dir
    (Interpolator.SetX (Interpolator.Setup dir this x0 x1 w w) x) z0 z1 true =
  Interpolator.InterpolateZ dir
    (Interpolator.SetX (Interpolator.Setup dir this x0 x1 w w) x') z0 z1 true.
Proof.
  intros Hmask.
  assert (forall X,
            let i := Interpolator.SetX (Interpolator.Setup dir this x0 x1 w w) X in
            Interpolator.xdiff i = s32 (x1 - x0) /\
            Interpolator.yfactor i = Interpolator.yfactor this /\
            Interpolator.shift i = (if dir then 9 else 8)) as Hfields.
  { intros X. unfold Interpolator.SetX, Interpolator.Setup. cbv zeta.
    rewrite Z.eqb_refl, Hmask. cbn [nonzero Z.eqb negb andb].
    destruct dir; [destruct (_ && _) |];
      cbn [Interpolator.xdiff Interpolator.yfactor Interpolator.shift Interpolator.linear
           negb andb];
      rewrite andb_false_r; repeat split; reflexivity. }
  unfold Interpolator.InterpolateZ.
  destruct (Hfields x) as (-> & -> & ->). destruct (Hfields x') as (-> & -> & ->).
  reflexivity.
Qed.

Lemma InterpolateZ_wbuffer_linear_ignores_x_witness :
  Interpolator.InterpolateZ false
    (Interpolator.SetX (Interpolator.Setup false Interpolator.blank 10 190 0x1000 0x1000) 10)
    0x100000 0x7FF000 true =
  Interpolator.InterpolateZ false
    (Interpolator.SetX (Interpolator.Setup false Interpolator.blank 10 190 0x1000 0x1000) 190)
    0x100000 0x7FF000 true.
Proof.
  apply InterpolateZ_wbuffer_linear_ignores_x. reflexivity.
Defined.

(** * Texture coordinates *)

(** X11: wrapping a texel coordinate: repeating takes it modulo the size,
    mirroring flips every second period, and without either it is clamped;
    in all three modes the result addresses a texel of the texture. *)
Theorem wrap_coord_closed_form (rep mir : bool) (s k : Z) :
  0 <= k <= 7 -> in_s16 s ->
  let size := Z.shiftl 8 k in
  wrap_coord rep mir s size =
    (if rep then
       if mir && Z.odd (s / size) then size - 1 - s mod size else s mod size
     else clamp 0 (size - 1) s) /\
  0 <= wrap_coord rep mir s size < size.
Proof.
  intros Hk Hs. cbv zeta.
  assert (Z.shiftl 8 k = 2 ^ (k + 3)) as ->.
  { rewrite Z.shiftl_mul_pow2, Z.pow_add_r by lia. lia. }
  assert (2 ^ 3 <= 2 ^ (k + 3) <= 2 ^ 10) as Hsize
    by (split; apply Z.pow_le_mono_r; lia).
  set (size := 2 ^ (k + 3)) in *.
  pose proof (Z.mod_pos_bound s size ltac:(lia)) as Hmod.
  assert (Z.land s (s32 (size - 1)) = s mod size) as Hland.
  { rewrite s32_id by (unfold in_s32; lia).
    replace (size - 1) with (Z.ones (k + 3)) by (rewrite Z.ones_equiv; unfold size; lia).
    apply Z.land_ones. lia. }
  assert (nonzero (Z.land s size) = Z.odd (s / size)) as Hbit.
  { unfold nonzero, size. rewrite land_pow2 by lia.
    rewrite Z.testbit_odd, Z.shiftr_div_pow2 by lia. fold size.
    destruct (Z.odd (s / size)); [| reflexivity].
    destruct (Z.eqb_spec size 0); [lia | reflexivity]. }
  unfold wrap_coord, clamp. rewrite Hland, Hbit.
  rewrite (s32_id (size - 1)) by (unfold in_s32; lia).
  rewrite (s16_id (s mod size)) by (unfold in_s16; lia).
  rewrite (s16_id (size - 1 - s mod size)) by (unfold in_s16; lia).
  rewrite (s16_id (size - 1)) by (unfold in_s16; lia).
  destruct rep; [destruct mir; [destruct (Z.odd (s / size)) |] |]; cbn [andb].
  1-3: split; [reflexivity | lia].
  destruct (Z.ltb_spec s 0); [split; [reflexivity | lia] |].
  unfold Z.geb. destruct (Z.compare_spec s size), (Z.gtb_spec s (size - 1));
    split; try reflexivity; lia.
Qed.

Lemma wrap_coord_closed_form_witness :
  wrap_coord true true (-5) (Z.shiftl 8 2) = 4 /\ 0 <= wrap_coord true true (-5) (Z.shiftl 8 2) < 32.
Proof.
  destruct (wrap_coord_closed_form true true (-5) 2 ltac:(lia) ltac:(unfold in_s16; lia))
    as (H & Hr).
  split; [rewrite H; reflexivity | exact Hr].
Defined.

(** * Stores into the frame buffers *)

Lemma store_Some {A : Type} (buf buf' : list A) (i : Z) (v : A) :
  store buf i v = Some buf' ->
  0 <= i < Z.of_nat (length buf) /\
  length buf' = length buf /\
  buf' !! Z.to_nat i = Some v /\
  (forall j : nat, j <> Z.to_nat i -> buf' !! j = buf !! j).
Proof.
  unfold store.
  destruct (Z.leb_spec 0 i), (Z.ltb_spec i (Z.of_nat (length buf)));
    cbn [andb]; intros Heq; inversion Heq; subst; clear Heq.
  split; [lia |]. split; [apply length_insert |]. split.
  - apply list_lookup_insert_eq. lia.
  - intros j Hj. apply list_lookup_insert_ne. congruence.
Qed.

Lemma load_store_same {A : Type} (buf buf' : list A) (i : Z) (v : A) :
  store buf i v = Some buf' -> load buf' i = Some v.
Proof.
  intros H. destruct (store_Some _ _ _ _ H) as (Hi & _ & Hv & _).
  unfold load. destruct (Z.leb_spec 0 i); [exact Hv | lia].
Qed.

(** ** PlotTranslucentPixel *)

Lemma PlotTranslucentPixel_frame
    (regs : Registers) (bufs bufs' : Buffers) (pixeladdr color z polyattr shadow : Z) :
  PlotTranslucentPixel regs bufs pixeladdr color z polyattr shadow = Some bufs' ->
  same_but_at pixeladdr bufs.(ColorBuffer) bufs'.(ColorBuffer) /\
  same_but_at pixeladdr bufs.(DepthBuffer) bufs'.(DepthBuffer) /\
  same_but_at pixeladdr bufs.(AttrBuffer) bufs'.(AttrBuffer) /\
  bufs'.(StencilBuffer) = bufs.(StencilBuffer) /\
  bufs'.(PrevIsShadowMask) = bufs.(PrevIsShadowMask) /\
  (z = u32 (-1) -> bufs'.(DepthBuffer) = bufs.(DepthBuffer)).
Proof.
  assert (forall (A : Type) (l : list A), same_but_at pixeladdr l l) as Hrefl
    by (intros A l; split; [reflexivity | intros; reflexivity]).
  unfold PlotTranslucentPixel.
  destruct (load (AttrBuffer bufs) pixeladdr) as [dstattr|]; [| discriminate].
  cbn [mbind option_bind].
  match goal with |- context [if ?c then Some bufs else _] => destruct c end.
  { intros H. inversion H; subst. repeat split; auto; apply Hrefl. }
  destruct (load (ColorBuffer bufs) pixeladdr) as [dstcolor|]; [| discriminate].
  cbn [mbind option_bind].
  destruct (Z.eqb_spec z (u32 (-1))) as [Hz|Hz]; cbn [negb].
  - cbn [mbind option_bind].
    destruct (store (ColorBuffer bufs) _ _) as [colors|] eqn:Hc; [| discriminate].
    cbn [mbind option_bind].
    destruct (store (AttrBuffer bufs) _ _) as [attrs|] eqn:Ha; [| discriminate].
    cbn [mbind option_bind]. intros H. inversion H; subst bufs'; clear H.
    cbn [ColorBuffer DepthBuffer AttrBuffer StencilBuffer PrevIsShadowMask].
    destruct (store_Some _ _ _ _ Hc) as (_ & ? & _ & ?).
    destruct (store_Some _ _ _ _ Ha) as (_ & ? & _ & ?).
    repeat split; auto.
  - destruct (store (DepthBuffer bufs) _ _) as [depth|] eqn:Hd; [| discriminate].
    cbn [mbind option_bind].
    destruct (store (ColorBuffer bufs) _ _) as [colors|] eqn:Hc; [| discriminate].
    cbn [mbind option_bind].
    destruct (store (AttrBuffer bufs) _ _) as [attrs|] eqn:Ha; [| discriminate].
    cbn [mbind option_bind]. intros H. inversion H; subst bufs'; clear H.
    cbn [ColorBuffer DepthBuffer AttrBuffer StencilBuffer PrevIsShadowMask].
    destruct (store_Some _ _ _ _ Hd) as (_ & ? & _ & ?).
    destruct (store_Some _ _ _ _ Hc) as (_ & ? & _ & ?).
    destruct (store_Some _ _ _ _ Ha) as (_ & ? & _ & ?).
    repeat split; auto. intros; contradiction.
Qed.

(** X12: a translucent plot touches one pixel.  When it returns, the colour,
    depth and attribute buffers are as before except at [pixeladdr], the
    stencil buffer and the shadow-mask flag are as before, and a depth of
    [-1] (depth update disabled) leaves the whole depth buffer as it was. *)
Theorem PlotTranslucentPixel_touches_one_pixel
    (regs : Registers) (bufs bufs' : Buffers) (pixeladdr color z polyattr shadow : Z) :
  PlotTranslucentPixel regs bufs pixeladdr color z polyattr shadow = Some bufs' ->
  same_but_at pixeladdr bufs.(ColorBuffer) bufs'.(ColorBuffer) /\
  same_but_at pixeladdr bufs.(DepthBuffer) bufs'.(DepthBuffer) /\
  same_but_at pixeladdr bufs.(AttrBuffer) bufs'.(AttrBuffer) /\
  bufs'.(StencilBuffer) = bufs.(StencilBuffer) /\
  bufs'.(PrevIsShadowMask) = bufs.(PrevIsShadowMask) /\
  (z = u32 (-1) -> bufs'.(DepthBuffer) = bufs.(DepthBuffer)).
Proof. apply PlotTranslucentPixel_frame. Qed.

Lemma PlotTranslucentPixel_touches_one_pixel_witness :
  let regs := {| RenderDispCnt := 8; RenderAlphaRef := 0; RenderFogOffset := 0;
                 RenderFogShift := 0; RenderFogDensityTable := [];
                 RenderToonTable := [] |} in
  let bufs := {| ColorBuffer := [0; 0x1F3F3F3F]; DepthBuffer := [0; 0x1000];
                 AttrBuffer := [0; 0x00450000]; StencilBuffer := [];
                 PrevIsShadowMask := false |} in
  exists bufs',
    PlotTranslucentPixel regs bufs 1 0x1000003F 0x800 0x06000000 0 = Some bufs' /\
    same_but_at 1 bufs.(ColorBuffer) bufs'.(ColorBuffer) /\
    same_but_at 1 bufs.(DepthBuffer) bufs'.(DepthBuffer) /\
    same_but_at 1 bufs.(AttrBuffer) bufs'.(AttrBuffer) /\
    bufs'.(StencilBuffer) = bufs.(StencilBuffer) /\
    bufs'.(PrevIsShadowMask) = bufs.(PrevIsShadowMask) /\
    (0x800 = u32 (-1) -> bufs'.(DepthBuffer) = bufs.(DepthBuffer)).
Proof.
  intros regs bufs. eexists. split; [vm_compute; reflexivity |].
  apply (PlotTranslucentPixel_touches_one_pixel regs bufs _ 1 0x1000003F 0x800 0x06000000 0).
  vm_compute. reflexivity.
Defined.

(** The attribute word a translucent plot stores carries the translucent
    flag and the incoming polygon id. *)
Lemma plotted_attr_id (polyattr dstattr : Z) (keep_fog : bool) :
  let attr :=
    Z.lor (Z.lor (Z.lor (Z.land polyattr 0xE0F0)
                        (Z.land (Z.shiftr polyattr 8) 0xFF0000))
                 (Z.shiftl 1 22))
          (Z.land dstattr 0xFF001F0F) in
  let attr := if keep_fog then attr else Z.land attr (u32 (Z.lnot (Z.shiftl 1 15))) in
  Z.testbit attr 22 = true /\ translucent_id attr = incoming_id polyattr.
Proof.
  cbv zeta. change (u32 (Z.lnot (Z.shiftl 1 15))) with 0xFFFF7FFF.
  change (Z.shiftl 1 22) with 0x400000.
  split.
  - destruct keep_fog; rewrite ?Z.land_spec, !Z.lor_spec, !Z.land_spec;
      change (Z.testbit 0x400000 22) with true;
      rewrite ?andb_true_r, orb_true_r; reflexivity.
  - unfold translucent_id, incoming_id. apply Z.bits_inj'. intros n Hn.
    rewrite !Z.land_spec, !Z.shiftr_spec by lia.
    destruct (Z_lt_le_dec n 6) as [Hlt | Hge].
    + assert (n = 0 \/ n = 1 \/ n = 2 \/ n = 3 \/ n = 4 \/ n = 5) as Hcase by lia.
      destruct keep_fog;
        rewrite ?Z.land_spec, !Z.lor_spec, !Z.land_spec, !Z.shiftr_spec by lia;
        destruct Hcase as [-> | [-> | [-> | [-> | [-> | ->]]]]];
        repeat match goal with
               | |- context [Z.testbit _ (?x + ?y)] =>
                   let k := eval vm_compute in (x + y) in change (x + y) with k
               end;
        repeat match goal with
               | |- context [Z.testbit polyattr ?k] => destruct (Z.testbit polyattr k)
               | |- context [Z.testbit dstattr ?k] => destruct (Z.testbit dstattr k)
               end; reflexivity.
    + rewrite (testbit_above 0x3F 6 n) by lia. rewrite !andb_false_r. reflexivity.
Qed.

(** X13: a translucent plot is idempotent.  After a plot has returned,
    plotting the same polygon again on the same pixel, with any colour and
    depth, changes nothing: the pixel then carries the polygon's
    translucent id, and the second plot returns before any store. *)
Theorem PlotTranslucentPixel_twice
    (regs : Registers) (bufs bufs' : Buffers)
    (pixeladdr color z color' z' polyattr shadow : Z) :
  PlotTranslucentPixel regs bufs pixeladdr color z polyattr shadow = Some bufs' ->
  PlotTranslucentPixel regs bufs' pixeladdr color' z' polyattr shadow = Some bufs'.
Proof.
  unfold PlotTranslucentPixel at 1.
  destruct (load (AttrBuffer bufs) pixeladdr) as [dstattr|] eqn:Hload; [| discriminate].
  cbn [mbind option_bind].
  match goal with |- context [if ?c then Some bufs else _] => destruct c eqn:Hskip end.
  { intros H. inversion H; subst bufs'. unfold PlotTranslucentPixel.
    rewrite Hload. cbn [mbind option_bind]. rewrite Hskip. reflexivity. }
  destruct (load (ColorBuffer bufs) pixeladdr) as [dstcolor|]; [| discriminate].
  cbn [mbind option_bind].
  destruct (if negb (z =? u32 (-1)) then store (DepthBuffer bufs) pixeladdr z
            else Some (DepthBuffer bufs)) as [depth|]; [| discriminate].
  cbn [mbind option_bind].
  destruct (store (ColorBuffer bufs) _ _) as [colors|]; [| discriminate].
  cbn [mbind option_bind].
  destruct (store (AttrBuffer bufs) _ _) as [attrs|] eqn:Ha; [| discriminate].
  cbn [mbind option_bind]. intros H. inversion H; subst bufs'; clear H.
  apply load_store_same in Ha.
  destruct (plotted_attr_id polyattr dstattr (negb (negb (bit dstattr 15)))) as (Hbit & Hid).
  cbv zeta in Hbit, Hid.
  rewrite negb_involutive in Hbit, Hid.
  assert (forall (b : bool) (X Y : Z), (if negb b then X else Y) = if b then Y else X) as Hflip
    by (intros []; reflexivity).
  rewrite Hflip in Ha.
  set (attr := if bit dstattr 15 then _ else _) in *. clearbody attr.
  unfold PlotTranslucentPixel. cbn [AttrBuffer]. rewrite Ha. cbn [mbind option_bind].
  rewrite (bit_testbit attr 22) by lia. rewrite Hbit.
  rewrite <- (same_translucent_id_masks attr polyattr Hbit Hid).
  rewrite Z.eqb_refl. destruct (nonzero shadow); reflexivity.
Qed.

Lemma PlotTranslucentPixel_twice_witness :
  let regs := {| RenderDispCnt := 8; RenderAlphaRef := 0; RenderFogOffset := 0;
                 RenderFogShift := 0; RenderFogDensityTable := [];
                 RenderToonTable := [] |} in
  let bufs := {| ColorBuffer := [0; 0x1F3F3F3F]; DepthBuffer := [0; 0x1000];
                 AttrBuffer := [0; 0x00450000]; StencilBuffer := [];
                 PrevIsShadowMask := false |} in
  exists bufs',
    PlotTranslucentPixel regs bufs 1 0x1000003F 0x800 0x06000000 0 = Some bufs' /\
    bufs' <> bufs /\
    PlotTranslucentPixel regs bufs' 1 0x0800003F 0x700 0x06000000 0 = Some bufs'.
Proof.
  intros regs bufs. eexists. split; [vm_compute; reflexivity |]. split.
  - intros H. apply (f_equal DepthBuffer) in H. vm_compute in H. discriminate.
  - apply (PlotTranslucentPixel_twice regs bufs _ 1 0x1000003F 0x800).
    vm_compute. reflexivity.
Defined.

(** * Polygon setup *)

Section EdgeWalk.
Variable p : Polygon.
Hypothesis Hok : polygon_ok p.
Let n := p.(NumVertices).

Lemma next_vertex_value (forward : bool) (cur : Z) :
  0 <= cur < n ->
  next_vertex p forward cur =
    if forward then (if cur + 1 <? n then cur + 1 else 0)
    else (if cur =? 0 then n - 1 else cur - 1).
Proof.
  destruct Hok as (Hn & _). fold n in Hn. intros Hc.
  unfold next_vertex, vertex_after, vertex_before. fold n. destruct forward.
  - rewrite u32_id by (unfold in_u32; lia). unfold Z.geb.
    destruct (Z.compare_spec (cur + 1) n), (Z.ltb_spec (cur + 1) n); try reflexivity; lia.
  - destruct (Z.eqb_spec cur 0) as [-> | Hnz].
    + change (s32 (u32 (0 - 1)) <? 0) with true. cbn [negb]. apply u32_id. unfold in_u32. lia.
    + rewrite (u32_id (cur - 1)) by (unfold in_u32; lia).
      rewrite s32_id by (unfold in_s32; lia).
      destruct (Z.ltb_spec (cur - 1) 0); [lia | reflexivity].
Qed.

Lemma next_vertex_range (forward : bool) (cur : Z) :
  0 <= cur < n -> 0 <= next_vertex p forward cur < n.
Proof.
  intros Hc. rewrite next_vertex_value by exact Hc.
  destruct Hok as (Hn & _). fold n in Hn.
  destruct forward; [destruct (Z.ltb_spec (cur + 1) n) | destruct (Z.eqb_spec cur 0)]; lia.
Qed.

(** How many vertices lie between [cur] and the bottom vertex, in the
    direction of the walk. *)
Let dist (forward : bool) (cur : Z) : Z :=
  if forward then
    (if cur <=? p.(VBottom) then p.(VBottom) - cur else n - cur + p.(VBottom))
  else
    (if p.(VBottom) <=? cur then cur - p.(VBottom) else cur + n - p.(VBottom)).

Lemma walk_edge_from_fan (forward : bool) (y : Z) (fuel : nat) :
  forall cur,
    0 <= cur < n -> dist forward cur < Z.of_nat fuel ->
    exists cur',
      walk_edge fuel p forward y cur (next_vertex p forward cur)
        = Some (cur', next_vertex p forward cur') /\
      0 <= cur' < n /\
      edge_passed p y cur' (next_vertex p forward cur') = Some false.
Proof.
  destruct Hok as (Hn & Hlen & _ & _ & Hvb). fold n in Hn, Hlen, Hvb.
  induction fuel as [| fuel IH]; intros cur Hc Hd.
  - exfalso. unfold dist in Hd.
    destruct forward; [destruct (Z.leb_spec cur (VBottom p)) | destruct (Z.leb_spec (VBottom p) cur)];
      lia.
  - pose proof (next_vertex_range forward cur Hc) as Hnext.
    destruct (load_Some (Vertices p) (next_vertex p forward cur) ltac:(lia)) as (v & Hv & _).
    cbn [walk_edge]. rewrite Hv. cbn [mbind option_bind].
    destruct ((y >=? snd (FinalPosition v)) && negb (cur =? VBottom p)) eqn:Hcond.
    + fold (next_vertex p forward (next_vertex p forward cur)).
      apply IH; [exact Hnext |].
      apply andb_prop in Hcond as (_ & Hnb).
      destruct (Z.eqb_spec cur (VBottom p)) as [| Hne]; [discriminate |].
      rewrite (next_vertex_value forward cur Hc). unfold dist in *.
      destruct forward.
      * destruct (Z.ltb_spec (cur + 1) n);
          destruct (Z.leb_spec cur (VBottom p));
          match goal with |- context [?a <=? ?b] => destruct (Z.leb_spec a b) end; lia.
      * destruct (Z.eqb_spec cur 0);
          destruct (Z.leb_spec (VBottom p) cur);
          match goal with |- context [?a <=? ?b] => destruct (Z.leb_spec a b) end; lia.
    + exists cur. split; [reflexivity |]. split; [exact Hc |].
      unfold edge_passed. rewrite Hv. cbn [mbind option_bind]. rewrite Hcond. reflexivity.
Qed.

(** The loop of the edge setup leaves within its fuel from any state whose
    next vertex exists, on an edge that the scanline has not passed. *)
Lemma walk_edge_leaves (forward : bool) (y cur next : Z) :
  0 <= next < n ->
  exists cur' next',
    walk_edge (walk_fuel p) p forward y cur next = Some (cur', next') /\
    0 <= next' < n /\
    (cur' = cur \/ 0 <= cur' < n) /\
    edge_passed p y cur' next' = Some false.
Proof.
  destruct Hok as (Hn & Hlen & _ & _ & Hvb). fold n in Hn, Hlen, Hvb. intros Hnext.
  destruct (load_Some (Vertices p) next ltac:(lia)) as (v & Hv & _).
  unfold walk_fuel. cbn [walk_edge]. rewrite Hv. cbn [mbind option_bind].
  destruct ((y >=? snd (FinalPosition v)) && negb (cur =? VBottom p)) eqn:Hcond.
  - fold (next_vertex p forward next).
    destruct (walk_edge_from_fan forward y (Z.to_nat (NumVertices p)) next Hnext)
      as (cur' & Heq & Hc' & Hexit).
    { fold n. unfold dist.
      destruct forward; [destruct (Z.leb_spec next (VBottom p)) | destruct (Z.leb_spec (VBottom p) next)];
        lia. }
    exists cur', (next_vertex p forward cur'). split; [exact Heq |].
    split; [apply next_vertex_range; exact Hc' |]. split; [right; exact Hc' | exact Hexit].
  - exists cur, next. split; [reflexivity |]. split; [exact Hnext |]. split; [left; reflexivity |].
    unfold edge_passed. rewrite Hv. cbn [mbind option_bind]. rewrite Hcond. reflexivity.
Qed.

End EdgeWalk.

Lemma setup_slope_Some (side : bool) (p : Polygon) (slope : Slope.t) (cur next y : Z) :
  polygon_ok p -> 0 <= cur < p.(NumVertices) -> 0 <= next < p.(NumVertices) ->
  exists r, setup_slope side p slope cur next y = Some r.
Proof.
  intros (Hn & Hlen & Hw & _) Hc Hx. unfold setup_slope.
  destruct (load_Some (Vertices p) cur ltac:(lia)) as (vc & -> & _).
  destruct (load_Some (Vertices p) next ltac:(lia)) as (vn & -> & _).
  destruct (load_Some (FinalW p) cur ltac:(lia)) as (wc & -> & _).
  destruct (load_Some (FinalW p) next ltac:(lia)) as (wn & -> & _).
  cbn [mbind option_bind]. eexists. reflexivity.
Qed.

Lemma SetupPolygonLeftEdge_ok (rp : RendererPolygon) (y : Z) :
  let p := rp.(PolyData) in
  polygon_ok p ->
  0 <= rp.(CurVL) < p.(NumVertices) -> 0 <= rp.(NextVL) < p.(NumVertices) ->
  exists rp',
    SetupPolygonLeftEdge rp y = Some rp' /\
    rp'.(PolyData) = p /\
    0 <= rp'.(CurVL) < p.(NumVertices) /\ 0 <= rp'.(NextVL) < p.(NumVertices) /\
    edge_passed p y rp'.(CurVL) rp'.(NextVL) = Some false /\
    rp'.(SlopeR) = rp.(SlopeR) /\ rp'.(XR) = rp.(XR) /\
    rp'.(CurVR) = rp.(CurVR) /\ rp'.(NextVR) = rp.(NextVR).
Proof.
  intros p Hok Hc Hx. unfold SetupPolygonLeftEdge. fold p.
  destruct (walk_edge_leaves p Hok (FacingView p) y (CurVL rp) (NextVL rp) Hx)
    as (cur' & next' & -> & Hn' & Hc' & Hexit).
  cbn [mbind option_bind].
  assert (0 <= cur' < NumVertices p) as Hcur by (destruct Hc' as [-> |]; assumption).
  destruct (setup_slope_Some false p (SlopeL rp) cur' next' y Hok Hcur Hn') as ([sl x] & ->).
  cbn [mbind option_bind]. eexists. split; [reflexivity |].
  cbn [PolyData CurVL NextVL SlopeR XR CurVR NextVR]. repeat split; try assumption; lia.
Qed.

Lemma SetupPolygonRightEdge_ok (rp : RendererPolygon) (y : Z) :
  let p := rp.(PolyData) in
  polygon_ok p ->
  0 <= rp.(CurVR) < p.(NumVertices) -> 0 <= rp.(NextVR) < p.(NumVertices) ->
  exists rp',
    SetupPolygonRightEdge rp y = Some rp' /\
    rp'.(PolyData) = p /\
    0 <= rp'.(CurVR) < p.(NumVertices) /\ 0 <= rp'.(NextVR) < p.(NumVertices) /\
    edge_passed p y rp'.(CurVR) rp'.(NextVR) = Some false /\
    rp'.(SlopeL) = rp.(SlopeL) /\ rp'.(XL) = rp.(XL) /\
    rp'.(CurVL) = rp.(CurVL) /\ rp'.(NextVL) = rp.(NextVL).
Proof.
  intros p Hok Hc Hx. unfold SetupPolygonRightEdge. fold p.
  destruct (walk_edge_leaves p Hok (negb (FacingView p)) y (CurVR rp) (NextVR rp) Hx)
    as (cur' & next' & -> & Hn' & Hc' & Hexit).
  cbn [mbind option_bind].
  assert (0 <= cur' < NumVertices p) as Hcur by (destruct Hc' as [-> |]; assumption).
  destruct (setup_slope_Some true p (SlopeR rp) cur' next' y Hok Hcur Hn') as ([sl x] & ->).
  cbn [mbind option_bind]. eexists. split; [reflexivity |].
  cbn [PolyData CurVL NextVL SlopeL XL CurVR NextVR]. repeat split; try assumption; lia.
Qed.

(** X14: the per-scanline edge setup returns for every well-formed polygon:
    the vertex walk leaves its loop within [NumVertices] rounds, on an
    edge that scanline [y] has not passed (or at the bottom vertex), all
    array reads are in bounds, and the other edge is left as it was. *)
Theorem edge_setup_leaves (rp : RendererPolygon) (y : Z) :
  let p := rp.(PolyData) in
  polygon_ok p ->
  0 <= rp.(CurVL) < p.(NumVertices) -> 0 <= rp.(NextVL) < p.(NumVertices) ->
  0 <= rp.(CurVR) < p.(NumVertices) -> 0 <= rp.(NextVR) < p.(NumVertices) ->
  (exists rp',
     SetupPolygonLeftEdge rp y = Some rp' /\
     rp'.(PolyData) = p /\
     0 <= rp'.(CurVL) < p.(NumVertices) /\ 0 <= rp'.(NextVL) < p.(NumVertices) /\
     edge_passed p y rp'.(CurVL) rp'.(NextVL) = Some false /\
     rp'.(SlopeR) = rp.(SlopeR) /\ rp'.(XR) = rp.(XR) /\
     rp'.(CurVR) = rp.(CurVR) /\ rp'.(NextVR) = rp.(NextVR)) /\
  (exists rp',
     SetupPolygonRightEdge rp y = Some rp' /\
     rp'.(PolyData) = p /\
     0 <= rp'.(CurVR) < p.(NumVertices) /\ 0 <= rp'.(NextVR) < p.(NumVertices) /\
     edge_passed p y rp'.(CurVR) rp'.(NextVR) = Some false /\
     rp'.(SlopeL) = rp.(SlopeL) /\ rp'.(XL) = rp.(XL) /\
     rp'.(CurVL) = rp.(CurVL) /\ rp'.(NextVL) = rp.(NextVL)).
Proof.
  intros p Hok HcL HnL HcR HnR. split.
  - apply SetupPolygonLeftEdge_ok; assumption.
  - apply SetupPolygonRightEdge_ok; assumption.
Qed.

(** X15: SetupPolygon returns for every well-formed polygon, with all four
    vertex indices inside the vertex array; for a polygon that is not flat
    both edges are ones the top scanline has not passed. *)
Theorem SetupPolygon_returns (rp : RendererPolygon) (p : Polygon) :
  polygon_ok p ->
  exists rp',
    SetupPolygon rp p = Some rp' /\
    rp'.(PolyData) = p /\
    0 <= rp'.(CurVL) < p.(NumVertices) /\ 0 <= rp'.(NextVL) < p.(NumVertices) /\
    0 <= rp'.(CurVR) < p.(NumVertices) /\ 0 <= rp'.(NextVR) < p.(NumVertices) /\
    (p.(YBottom) <> p.(YTop) ->
     edge_passed p p.(YTop) rp'.(CurVL) rp'.(NextVL) = Some false /\
     edge_passed p p.(YTop) rp'.(CurVR) rp'.(NextVR) = Some false).
Proof.
  intros Hok. pose proof Hok as (Hn & Hlen & Hw & Hvt & Hvb).
  unfold SetupPolygon. cbv beta iota zeta.
  assert (exists nl nr,
            (if FacingView p then (vertex_after p (VTop p), vertex_before p (VTop p))
             else (vertex_before p (VTop p), vertex_after p (VTop p))) = (nl, nr)
            /\ 0 <= nl < NumVertices p /\ 0 <= nr < NumVertices p)
    as (nl & nr & -> & Hnl & Hnr).
  { pose proof (next_vertex_range p Hok true (VTop p) Hvt) as Ha.
    pose proof (next_vertex_range p Hok false (VTop p) Hvt) as Hb.
    unfold next_vertex in Ha, Hb.
    destruct (FacingView p); do 2 eexists; (split; [reflexivity | split; assumption]). }
  cbv beta iota zeta.
  destruct (Z.eqb_spec (YBottom p) (YTop p)) as [Hflat | Hne].
  - destruct (load_Some (Vertices p) 0 ltac:(lia)) as (v0 & Hv0 & _).
    destruct (load_Some (Vertices p) 1 ltac:(lia)) as (v1 & Hv1 & _).
    rewrite (u32_id (NumVertices p - 1)) by (unfold in_u32; lia).
    rewrite (s32_id (NumVertices p - 1)) by (unfold in_s32; lia).
    destruct (load_Some (Vertices p) (NumVertices p - 1) ltac:(lia)) as (vl & Hvl & _).
    rewrite Hv1, Hv0. cbn [mbind option_bind].
    set (top1 := if fst (FinalPosition v1) <? fst (FinalPosition v0) then 1 else 0).
    set (bot1 := if fst (FinalPosition v1) >? fst (FinalPosition v0) then 1 else 0).
    assert (0 <= top1 < NumVertices p) as Ht1 by (subst top1; destruct (_ <? _); lia).
    assert (0 <= bot1 < NumVertices p) as Hb1 by (subst bot1; destruct (_ >? _); lia).
    clearbody top1 bot1.
    destruct (load_Some (Vertices p) top1 ltac:(lia)) as (vt1 & Hvt1 & _).
    destruct (load_Some (Vertices p) bot1 ltac:(lia)) as (vb1 & Hvb1 & _).
    rewrite Hvl. cbn [mbind option_bind]. rewrite Hvt1. cbn [mbind option_bind].
    rewrite Hvb1. cbn [mbind option_bind].
    set (top2 := if fst (FinalPosition vl) <? fst (FinalPosition vt1)
                 then NumVertices p - 1 else top1).
    set (bot2 := if fst (FinalPosition vl) >? fst (FinalPosition vb1)
                 then NumVertices p - 1 else bot1).
    assert (0 <= top2 < NumVertices p) as Ht2 by (subst top2; destruct (_ <? _); lia).
    assert (0 <= bot2 < NumVertices p) as Hb2 by (subst bot2; destruct (_ >? _); lia).
    clearbody top2 bot2.
    destruct (load_Some (Vertices p) top2 ltac:(lia)) as (vt2 & -> & _).
    destruct (load_Some (Vertices p) bot2 ltac:(lia)) as (vb2 & -> & _).
    cbn [mbind option_bind]. eexists. split; [reflexivity |].
    cbn [PolyData CurVL NextVL CurVR NextVR].
    repeat split; try lia.
  - set (rp0 := {| PolyData := p; SlopeL := SlopeL rp; SlopeR := SlopeR rp;
                   XL := XL rp; XR := XR rp; CurVL := VTop p; CurVR := VTop p;
                   NextVL := nl; NextVR := nr |}).
    destruct (SetupPolygonLeftEdge_ok rp0 (YTop p) Hok Hvt Hnl)
      as (rp1 & -> & Hp1 & Hc1 & Hn1 & He1 & _ & _ & Hcr1 & Hnr1).
    cbn [mbind option_bind PolyData CurVR NextVR rp0] in *.
    destruct (SetupPolygonRightEdge_ok rp1 (YTop p)) as
      (rp2 & -> & Hp2 & Hc2 & Hn2 & He2 & _ & _ & Hcl2 & Hnl2);
      rewrite ?Hp1, ?Hcr1, ?Hnr1; try assumption.
    rewrite Hp1 in *.
    eexists. split; [reflexivity |].
    rewrite Hcl2, Hnl2. repeat split; try assumption; lia.
Qed.

Lemma edge_setup_leaves_witness :
  let v (x y : Z) := {| FinalPosition := (x, y); FinalColor := (0, 0, 0); TexCoords := (0, 0) |} in
  let p := {| Vertices := [v 100 10; v 180 90; v 20 60]; NumVertices := 3;
              FinalZ := [0; 0; 0]; FinalW := [0x1000; 0x1000; 0x1000];
              WBuffer := false; Attr := 0x001F0080; TexParam := 0; TexPalette := 0;
              FacingView := true; IsShadowMask := false; IsShadow := false;
              VTop := 0; VBottom := 1; YTop := 10; YBottom := 90 |} in
  let rp := {| PolyData := p; SlopeL := Slope.blank; SlopeR := Slope.blank;
               XL := 0; XR := 0; CurVL := 0; CurVR := 0; NextVL := 1; NextVR := 2 |} in
  (exists rp', SetupPolygonLeftEdge rp 60 = Some rp' /\ rp'.(CurVL) = 0 /\ rp'.(NextVL) = 1) /\
  (exists rp', SetupPolygonRightEdge rp 60 = Some rp' /\ rp'.(CurVR) = 2 /\ rp'.(NextVR) = 1).
Proof.
  intros v p rp.
  destruct (edge_setup_leaves rp 60) as [(rl & Hl & _) (rr & Hr & _)];
    try (cbn; lia); [unfold polygon_ok; cbn; lia |].
  split; [exists rl | exists rr]; (split; [assumption |]).
  - vm_compute in Hl. inversion Hl. split; reflexivity.
  - vm_compute in Hr. inversion Hr. split; reflexivity.
Defined.

Lemma SetupPolygon_returns_witness :
  let v (x y : Z) := {| FinalPosition := (x, y); FinalColor := (0, 0, 0); TexCoords := (0, 0) |} in
  let p := {| Vertices := [v 100 10; v 180 90; v 20 60]; NumVertices := 3;
              FinalZ := [0; 0; 0]; FinalW := [0x1000; 0x1000; 0x1000];
              WBuffer := false; Attr := 0x001F0080; TexParam := 0; TexPalette := 0;
              FacingView := true; IsShadowMask := false; IsShadow := false;
              VTop := 0; VBottom := 1; YTop := 10; YBottom := 90 |} in
  let rp := {| PolyData := p; SlopeL := Slope.blank; SlopeR := Slope.blank;
               XL := 0; XR := 0; CurVL := 0; CurVR := 0; NextVL := 0; NextVR := 0 |} in
  exists rp',
    SetupPolygon rp p = Some rp' /\
    rp'.(PolyData) = p /\
    0 <= rp'.(CurVL) < p.(NumVertices) /\ 0 <= rp'.(NextVL) < p.(NumVertices) /\
    0 <= rp'.(CurVR) < p.(NumVertices) /\ 0 <= rp'.(NextVR) < p.(NumVertices) /\
    (p.(YBottom) <> p.(YTop) ->
     edge_passed p p.(YTop) rp'.(CurVL) rp'.(NextVL) = Some false /\
     edge_passed p p.(YTop) rp'.(CurVR) rp'.(NextVR) = Some false).
Proof.
  intros v p rp. apply SetupPolygon_returns.
  unfold polygon_ok. cbn. lia.
Defined.

(** X16: a flat polygon (top and bottom on the same scanline) spans from
    the least to the greatest X among its vertices 0, 1 and the last one:
    the left column is that least X, the right column that greatest X
    minus one, and each edge is a dummy slope standing on one vertex. *)
Theorem SetupPolygon_flat_span (rp : RendererPolygon) (p : Polygon) (v0 v1 vl : Vertex) :
  p.(YBottom) = p.(YTop) ->
  2 <= p.(NumVertices) < 2 ^ 31 ->
  load p.(Vertices) 0 = Some v0 ->
  load p.(Vertices) 1 = Some v1 ->
  load p.(Vertices) (p.(NumVertices) - 1) = Some vl ->
  let x0 := fst v0.(FinalPosition) in
  let x1 := fst v1.(FinalPosition) in
  let xl := fst vl.(FinalPosition) in
  exists rp',
    SetupPolygon rp p = Some rp' /\
    rp'.(XL) = Z.min (Z.min x0 x1) xl /\
    rp'.(XR) = s32 (Z.max (Z.max x0 x1) xl - 1) /\
    rp'.(NextVL) = rp'.(CurVL) /\ rp'.(NextVR) = rp'.(CurVR) /\
    Slope.Increment rp'.(SlopeL) = 0 /\ Slope.Increment rp'.(SlopeR) = 0.
Proof.
  intros Hflat Hn Hv0 Hv1 Hvl x0 x1 xl.
  unfold SetupPolygon. cbv beta iota zeta.
  destruct (if FacingView p then _ else _) as [nl nr].
  rewrite Hflat, Z.eqb_refl.
  rewrite (u32_id (NumVertices p - 1)) by (unfold in_u32; lia).
  rewrite (s32_id (NumVertices p - 1)) by (unfold in_s32; lia).
  rewrite Hv1, Hv0. cbn [mbind option_bind]. fold x0 x1.
  rewrite Hvl. cbn [mbind option_bind]. fold xl.
  destruct (Z.ltb_spec x1 x0), (Z.gtb_spec x1 x0);
    rewrite ?Hv0, ?Hv1; cbn [mbind option_bind]; fold x0 x1;
    match goal with |- context [xl <? ?a] => destruct (Z.ltb_spec xl a) end;
    match goal with |- context [xl >? ?a] => destruct (Z.gtb_spec xl a) end;
    rewrite ?Hv0, ?Hv1, ?Hvl; cbn [mbind option_bind]; fold x0 x1 xl;
    (eexists; split; [reflexivity |]);
    cbn [XL XR NextVL CurVL NextVR CurVR SlopeL SlopeR Slope.Increment];
    (split; [lia |]); (split; [f_equal; lia |]); repeat split.
Qed.

Lemma SetupPolygon_flat_span_witness :
  let v (x y : Z) := {| FinalPosition := (x, y); FinalColor := (0, 0, 0); TexCoords := (0, 0) |} in
  let p := {| Vertices := [v 100 10; v 180 10; v 140 10; v 20 10]; NumVertices := 4;
              FinalZ := [0; 0; 0; 0]; FinalW := [0x1000; 0x1000; 0x1000; 0x1000];
              WBuffer := false; Attr := 0x001F0080; TexParam := 0; TexPalette := 0;
              FacingView := true; IsShadowMask := false; IsShadow := false;
              VTop := 0; VBottom := 0; YTop := 10; YBottom := 10 |} in
  let rp := {| PolyData := p; SlopeL := Slope.blank; SlopeR := Slope.blank;
               XL := 0; XR := 0; CurVL := 0; CurVR := 0; NextVL := 0; NextVR := 0 |} in
  exists rp', SetupPolygon rp p = Some rp' /\ rp'.(XL) = 20 /\ rp'.(XR) = 179.
Proof.
  intros v p rp.
  destruct (SetupPolygon_flat_span rp p (v 100 10) (v 180 10) (v 20 10))
    as (rp' & Heq & Hl & Hr & _); try reflexivity; [cbn; lia |].
  exists rp'. split; [exact Heq |]. split; [exact Hl | exact Hr].
Defined.

(** * Loops over a span *)

Lemma for_x_invariant {S : Type} (P : S -> Prop) (body : Z -> S -> option S) (lo hi : Z) :
  (forall k s s', lo <= k < hi -> P s -> body k s = Some s' -> P s') ->
  forall (n : nat) (x : Z) (s s' : S),
    lo <= x -> n = O \/ x + Z.of_nat n <= hi -> P s -> for_x n x body s = Some s' -> P s'.
Proof.
  intros Hbody. induction n as [| n IH]; intros x s s' Hlo Hhi Hs.
  - cbn [for_x]. intros [= <-]. exact Hs.
  - destruct Hhi as [| Hhi]; [discriminate |].
    cbn [for_x]. destruct (body x s) as [s1|] eqn:Hb; [| discriminate].
    cbn [mbind option_bind]. apply IH; [lia | right; lia |].
    apply (Hbody x s s1); [lia | exact Hs | exact Hb].
Qed.

Lemma for_upto_invariant {S : Type} (P : S -> Prop) (body : Z -> S -> option S) (lo hi : Z) :
  (forall k s s', lo <= k < hi -> P s -> body k s = Some s' -> P s') ->
  forall (x xlimit x' : Z) (s s' : S),
    lo <= x -> xlimit <= hi -> P s ->
    for_upto x xlimit body s = Some (x', s') -> P s' /\ x' = Z.max x xlimit.
Proof.
  intros Hbody x xlimit x' s s' Hlo Hhi Hs. unfold for_upto.
  destruct (for_x _ x body s) as [s1|] eqn:Hf; [| discriminate].
  cbn [mbind option_bind]. intros [= <- <-]. split; [| reflexivity].
  apply (for_x_invariant P body lo hi Hbody (Z.to_nat (xlimit - x)) x s s1);
    try assumption.
  destruct (Z_le_gt_dec xlimit x); [left | right]; lia.
Qed.

(** * Shadow masks *)

Lemma same_outside_row_refl (start : Z) (st : list Z) : same_outside_row start st st.
Proof. split; [reflexivity | intros; reflexivity]. Qed.

Lemma same_outside_row_trans (start : Z) (a b c : list Z) :
  same_outside_row start a b -> same_outside_row start b c -> same_outside_row start a c.
Proof.
  intros [Hl1 H1] [Hl2 H2]. split; [congruence |].
  intros j Hj. rewrite (H2 j Hj). apply H1. exact Hj.
Qed.

Lemma store_in_row (start x : Z) (st st' : list Z) (v : Z) :
  0 <= x < 256 -> store st (start + x) v = Some st' -> same_outside_row start st st'.
Proof.
  intros Hx Hst. destruct (store_Some _ _ _ _ Hst) as (Hi & Hlen & _ & Hother).
  split; [exact Hlen |]. intros j Hj. apply Hother. lia.
Qed.

Lemma stencil_or_in_row (start x : Z) (st st' : list Z) (v : Z) :
  0 <= x < 256 -> stencil_or st (start + x) v = Some st' -> same_outside_row start st st'.
Proof.
  intros Hx. unfold stencil_or.
  destruct (load st (start + x)) as [old|]; [| discriminate].
  cbn [mbind option_bind]. apply store_in_row. exact Hx.
Qed.

Lemma mask_lower_pixel_in_row (fn : DepthTest) (bufs : Buffers)
    (y x z dstattr pixeladdr : Z) (st st' : list Z) :
  0 <= x < 256 ->
  mask_lower_pixel fn bufs y x z dstattr pixeladdr st = Some st' ->
  same_outside_row (256 * Z.land y 0x1) st st'.
Proof.
  intros Hx. unfold mask_lower_pixel.
  destruct (nonzero (Z.land dstattr 3)).
  - destruct (load (DepthBuffer bufs) _) as [dstz|]; [| discriminate].
    destruct (load (AttrBuffer bufs) _) as [dstattr'|]; [| discriminate].
    cbn [mbind option_bind].
    destruct (negb (fn (s32 dstz) z dstattr')).
    + apply stencil_or_in_row. exact Hx.
    + intros [= <-]. apply same_outside_row_refl.
  - intros [= <-]. apply same_outside_row_refl.
Qed.

Lemma mask_left_pixel_in_row (fn : DepthTest) (bufs : Buffers) (wbuffer filledge : bool)
    (y zl zr x : Z) (st st' : mask_state) :
  0 <= x < 256 ->
  mask_left_pixel fn bufs wbuffer filledge y zl zr x st = Some st' ->
  same_outside_row (256 * Z.land y 0x1) (snd st) (snd st').
Proof.
  intros Hx. destruct st as [interpX st]. unfold mask_left_pixel.
  destruct (load (AttrBuffer bufs) _) as [dstattr|]; [| discriminate].
  cbn [mbind option_bind].
  destruct (negb filledge).
  - intros [= <-]. apply same_outside_row_refl.
  - destruct (load (DepthBuffer bufs) _) as [dstz|]; [| discriminate].
    cbn [mbind option_bind].
    destruct (if negb (fn (s32 dstz) _ dstattr) then _ else _) as [st1|] eqn:H1;
      [| discriminate].
    cbn [mbind option_bind].
    destruct (mask_lower_pixel fn bufs y x _ dstattr _ st1) as [st2|] eqn:H2; [| discriminate].
    cbn [mbind option_bind]. intros [= <-]. cbn [snd].
    apply (same_outside_row_trans _ _ st1).
    + destruct (negb (fn (s32 dstz) _ dstattr)).
      * apply (stencil_or_in_row _ x _ _ 1 Hx H1).
      * injection H1 as <-. apply same_outside_row_refl.
    + apply (mask_lower_pixel_in_row _ _ _ _ _ _ _ _ _ Hx H2).
Qed.

Lemma mask_inner_pixel_in_row (fn : DepthTest) (bufs : Buffers) (wbuffer filledge : bool)
    (y zl zr x : Z) (st st' : mask_state) :
  0 <= x < 256 ->
  mask_inner_pixel fn bufs wbuffer filledge y zl zr x st = Some st' ->
  same_outside_row (256 * Z.land y 0x1) (snd st) (snd st').
Proof.
  intros Hx. destruct st as [interpX st]. unfold mask_inner_pixel.
  destruct (load (AttrBuffer bufs) _) as [dstattr|]; [| discriminate].
  cbn [mbind option_bind].
  destruct (negb filledge).
  - intros [= <-]. apply same_outside_row_refl.
  - destruct (load (DepthBuffer bufs) _) as [dstz|]; [| discriminate].
    cbn [mbind option_bind].
    destruct (if negb (fn (s32 dstz) _ dstattr) then _ else _) as [st1|] eqn:H1;
      [| discriminate].
    cbn [mbind option_bind].
    destruct (mask_lower_pixel fn bufs y x _ dstattr _ st1) as [st2|] eqn:H2; [| discriminate].
    cbn [mbind option_bind]. intros [= <-]. cbn [snd].
    apply (same_outside_row_trans _ _ st1).
    + destruct (negb (fn (s32 dstz) _ dstattr)).
      * apply (store_in_row _ x _ _ 1 Hx H1).
      * injection H1 as <-. apply same_outside_row_refl.
    + apply (mask_lower_pixel_in_row _ _ _ _ _ _ _ _ _ Hx H2).
Qed.

Lemma clear_stencil_row_outside (st : list Z) (row : Z) :
  length st = 512%nat -> row = 0 \/ row = 1 ->
  same_outside_row (256 * row) st (clear_stencil_row st (256 * row)).
Proof.
  intros Hlen Hrow. unfold clear_stencil_row, same_outside_row.
  assert (Z.to_nat (256 * row) <= 256)%nat as Hstart by lia.
  set (start := Z.to_nat (256 * row)) in *.
  split.
  - rewrite !length_app, length_take, length_replicate, length_drop. lia.
  - intros j Hj.
    destruct (Nat.lt_ge_cases j start) as [Hlt | Hge].
    + rewrite lookup_app_l by (rewrite length_take; lia).
      apply lookup_take_lt. exact Hlt.
    + assert (start + 256 <= j)%nat as Hj' by (subst start; lia).
      rewrite lookup_app_r by (rewrite length_take; lia).
      rewrite length_take, Nat.min_l by lia.
      rewrite lookup_app_r by (rewrite length_replicate; lia).
      rewrite length_replicate, lookup_drop. f_equal. lia.
Qed.

Ltac bind_next :=
  match goal with
  | |- (?e ≫= _) = Some _ -> _ =>
      let H := fresh "Hstep" in
      destruct e eqn:H; [cbn [mbind option_bind] | discriminate]
  end.

(** X17: a shadow mask of a polygon that is not wireframe draws nothing
    and stays in its stencil row.  When RenderShadowMaskScanline returns,
    the colour, depth and attribute buffers are as before, the
    shadow-mask flag is set, and the stencil buffer differs from the one
    before only inside the 256 entries of row [y & 1]. *)
Theorem shadow_mask_stays_in_its_row
    (regs : Registers) (uninit : Interpolator.t) (bufs bufs' : Buffers)
    (rp rp' : RendererPolygon) (y : Z) :
  length bufs.(StencilBuffer) = 512%nat ->
  Z.land (Z.shiftr rp.(PolyData).(Attr) 16) 0x1F <> 0 ->
  RenderShadowMaskScanline regs uninit bufs rp y = Some (bufs', rp') ->
  bufs'.(ColorBuffer) = bufs.(ColorBuffer) /\
  bufs'.(DepthBuffer) = bufs.(DepthBuffer) /\
  bufs'.(AttrBuffer) = bufs.(AttrBuffer) /\
  bufs'.(PrevIsShadowMask) = true /\
  same_outside_row (256 * Z.land y 0x1) bufs.(StencilBuffer) bufs'.(StencilBuffer).
Proof.
  intros Hlen Hsolid. unfold RenderShadowMaskScanline. cbv zeta.
  pose proof (land_mask_range y 1 ltac:(lia)) as Hrow. change (2 ^ 1 - 1) with 1 in Hrow.
  set (base := 256 * Z.land y 1).
  set (stencil0 := if negb (PrevIsShadowMask bufs) then _ else StencilBuffer bufs).
  assert (same_outside_row base (StencilBuffer bufs) stencil0) as H0.
  { subst stencil0. destruct (negb (PrevIsShadowMask bufs)).
    - apply clear_stencil_row_outside; [exact Hlen | lia].
    - apply same_outside_row_refl. }
  clearbody stencil0.
  destruct (Z.eqb_spec (Z.land (Z.shiftr (Attr (PolyData rp)) 16) 31) 0) as [| _];
    [contradiction |].
  bind_next.
  destruct (if (_ <? 31) || _ then (true, true) else _) as [lf rf].
  do 8 bind_next.
  destruct (if XL r >? XR r then _ else _) as [[[[[[[[[xs xe] wl] wr] zl] zr] lf'] rf'] le] re].
  destruct (_ <=? RenderAlphaRef regs).
  { intros [= <- <-]. cbn. repeat split; try reflexivity; apply H0. }
  cbn [andb].
  set (P := fun st : mask_state => same_outside_row base (StencilBuffer bufs) (snd st)).
  assert (forall fe k s s', 0 <= k < 256 -> P s ->
            mask_left_pixel (fnDepthTest (PolyData rp))
              {| ColorBuffer := ColorBuffer bufs; DepthBuffer := DepthBuffer bufs;
                 AttrBuffer := AttrBuffer bufs; StencilBuffer := stencil0;
                 PrevIsShadowMask := true |}
              (WBuffer (PolyData rp)) fe y zl zr k s = Some s' -> P s') as Hleft.
  { intros fe k s s' Hk Hs Hb. unfold P in *.
    apply (same_outside_row_trans _ _ (snd s)); [exact Hs |].
    apply (mask_left_pixel_in_row _ _ _ _ _ _ _ _ _ _ Hk Hb). }
  assert (forall fe k s s', 0 <= k < 256 -> P s ->
            mask_inner_pixel (fnDepthTest (PolyData rp))
              {| ColorBuffer := ColorBuffer bufs; DepthBuffer := DepthBuffer bufs;
                 AttrBuffer := AttrBuffer bufs; StencilBuffer := stencil0;
                 PrevIsShadowMask := true |}
              (WBuffer (PolyData rp)) fe y zl zr k s = Some s' -> P s') as Hinner.
  { intros fe k s s' Hk Hs Hb. unfold P in *.
    apply (same_outside_row_trans _ _ (snd s)); [exact Hs |].
    apply (mask_inner_pixel_in_row _ _ _ _ _ _ _ _ _ _ Hk Hb). }
  assert (forall v : Z, (if v >? 256 then 256 else v) <= 256) as Hclamp
    by (intros v; destruct (Z.gtb_spec v 256); lia).
  bind_next. destruct p as [x1 st1].
  apply (for_upto_invariant P _ 0 256 (Hleft lf')) in Hstep8 as [HP1 Hx1];
    [| destruct (Z.ltb_spec xs 0); lia | apply Hclamp | exact H0].
  bind_next. destruct p as [x2 st2].
  assert (0 <= x1) as Hpos1 by (rewrite Hx1; destruct (Z.ltb_spec xs 0); lia).
  apply (for_upto_invariant P _ 0 256 (Hinner true)) in Hstep8 as [HP2 Hx2];
    [| exact Hpos1 | apply Hclamp | exact HP1].
  bind_next. destruct p as [x3 st3].
  apply (for_upto_invariant P _ 0 256 (Hinner rf')) in Hstep8 as [HP3 Hx3];
    [| lia | apply Hclamp | exact HP2].
  destruct (Slope.Step (SlopeL r)) as [sl XL']. destruct (Slope.Step (SlopeR r)) as [sr XR'].
  intros [= <- <-]. cbn [ColorBuffer DepthBuffer AttrBuffer PrevIsShadowMask StencilBuffer].
  repeat split; try reflexivity; apply HP3.
Qed.

Lemma shadow_mask_stays_in_its_row_witness :
  exists rp bufs' rp',
    sample_setup (sample_triangle 0x001F0000 true false) = Some rp /\
    RenderShadowMaskScanline (sample_registers 0) Interpolator.blank
      (sample_buffers 3) rp 1 = Some (bufs', rp') /\
    bufs'.(StencilBuffer) <> (sample_buffers 3).(StencilBuffer) /\
    same_outside_row (256 * Z.land 1 0x1) (sample_buffers 3).(StencilBuffer)
                     bufs'.(StencilBuffer).
Proof.
  assert (exists rp, sample_setup (sample_triangle 0x001F0000 true false) = Some rp)
    as [rp Hrp] by (vm_compute; eexists; reflexivity).
  assert (exists out, RenderShadowMaskScanline (sample_registers 0) Interpolator.blank
                        (sample_buffers 3) rp 1 = Some out /\
                      (StencilBuffer (fst out)) !! 300%nat = Some 0)
    as ([bufs' rp'] & Hrun & Hcell).
  { vm_compute in Hrp. injection Hrp as <-. vm_compute. eexists. split; reflexivity. }
  exists rp, bufs', rp'. split; [exact Hrp |]. split; [exact Hrun |]. split.
  - intros Heq. cbn [fst] in Hcell. rewrite Heq in Hcell. vm_compute in Hcell. discriminate.
  - apply (shadow_mask_stays_in_its_row (sample_registers 0) Interpolator.blank
             (sample_buffers 3) bufs' rp rp' 1); [reflexivity | | exact Hrun].
    vm_compute in Hrp. injection Hrp as <-. vm_compute. discriminate.
Defined.

(** * The polygon scanline *)

(** * Frames of the buffer writes *)

Lemma same_outside_refl {A : Type} (touched : Z -> Prop) (l : list A) :
  same_outside touched l l.
Proof. split; [reflexivity | intros; reflexivity]. Qed.

Lemma same_outside_trans {A : Type} (touched : Z -> Prop) (a b c : list A) :
  same_outside touched a b -> same_outside touched b c -> same_outside touched a c.
Proof.
  intros [Hl1 H1] [Hl2 H2]. split; [congruence |].
  intros j Hj. rewrite (H2 j Hj). apply H1. exact Hj.
Qed.

Lemma same_outside_weaken {A : Type} (t1 t2 : Z -> Prop) (a b : list A) :
  (forall i, t1 i -> t2 i) -> same_outside t1 a b -> same_outside t2 a b.
Proof.
  intros Hsub [Hl H]. split; [exact Hl |]. intros j Hj. apply H. intros Ht. apply Hj, Hsub, Ht.
Qed.

Lemma store_same_outside {A : Type} (touched : Z -> Prop) (buf buf' : list A) (i : Z) (v : A) :
  touched i -> store buf i v = Some buf' -> same_outside touched buf buf'.
Proof.
  intros Ht Hst. destruct (store_Some _ _ _ _ Hst) as (Hi & Hlen & _ & Hother).
  split; [exact Hlen |]. intros j Hj. apply Hother. intros ->.
  apply Hj. rewrite Z2Nat.id by lia. exact Ht.
Qed.

Lemma frame_kept_refl (touched : Z -> Prop) (b : Buffers) : frame_kept touched b b.
Proof. repeat split; try apply same_outside_refl; intros; reflexivity. Qed.

Lemma frame_kept_trans (touched : Z -> Prop) (a b c : Buffers) :
  frame_kept touched a b -> frame_kept touched b c -> frame_kept touched a c.
Proof.
  intros (C1 & D1 & A1 & S1 & P1) (C2 & D2 & A2 & S2 & P2).
  split; [exact (same_outside_trans _ _ _ _ C1 C2) |].
  split; [exact (same_outside_trans _ _ _ _ D1 D2) |].
  split; [exact (same_outside_trans _ _ _ _ A1 A2) |].
  split; congruence.
Qed.

Lemma frame_kept_weaken (t1 t2 : Z -> Prop) (a b : Buffers) :
  (forall i, t1 i -> t2 i) -> frame_kept t1 a b -> frame_kept t2 a b.
Proof.
  intros Hsub (C & D & A & S & P).
  split; [exact (same_outside_weaken t1 t2 _ _ Hsub C) |].
  split; [exact (same_outside_weaken t1 t2 _ _ Hsub D) |].
  split; [exact (same_outside_weaken t1 t2 _ _ Hsub A) |].
  split; assumption.
Qed.

Lemma put_three_frame (touched : Z -> Prop) (bufs : Buffers) (i c d a : Z)
    (colors depths attrs : list Z) :
  touched i ->
  store bufs.(DepthBuffer) i d = Some depths ->
  store bufs.(ColorBuffer) i c = Some colors ->
  store bufs.(AttrBuffer) i a = Some attrs ->
  frame_kept touched bufs
    {| ColorBuffer := colors; DepthBuffer := depths; AttrBuffer := attrs;
       StencilBuffer := bufs.(StencilBuffer);
       PrevIsShadowMask := bufs.(PrevIsShadowMask) |}.
Proof.
  intros Ht Hd Hc Ha.
  split; [exact (store_same_outside touched _ _ _ _ Ht Hc) |].
  split; [exact (store_same_outside touched _ _ _ _ Ht Hd) |].
  split; [exact (store_same_outside touched _ _ _ _ Ht Ha) |].
  split; reflexivity.
Qed.

Lemma push_down_frame (touched : Z -> Prop) (bufs bufs' : Buffers) (pixeladdr : Z) :
  touched (u32 (pixeladdr + BufferSize)) ->
  push_down bufs pixeladdr = Some bufs' -> frame_kept touched bufs bufs'.
Proof.
  intros Ht. unfold push_down.
  destruct (load (ColorBuffer bufs) pixeladdr) as [c|]; [| discriminate].
  cbn [mbind option_bind].
  destruct (store (ColorBuffer bufs) _ c) as [colors|] eqn:Hc; [| discriminate].
  cbn [mbind option_bind].
  destruct (load (DepthBuffer bufs) pixeladdr) as [d|]; [| discriminate].
  cbn [mbind option_bind].
  destruct (store (DepthBuffer bufs) _ d) as [depths|] eqn:Hd; [| discriminate].
  cbn [mbind option_bind].
  destruct (load (AttrBuffer bufs) pixeladdr) as [a|]; [| discriminate].
  cbn [mbind option_bind].
  destruct (store (AttrBuffer bufs) _ a) as [attrs|] eqn:Ha; [| discriminate].
  cbn [mbind option_bind]. intros [= <-].
  apply (put_three_frame touched bufs (u32 (pixeladdr + BufferSize)) c d a); assumption.
Qed.

Lemma same_but_at_outside {A : Type} (touched : Z -> Prop) (i : Z) (old new : list A) :
  0 <= i -> touched i -> same_but_at i old new -> same_outside touched old new.
Proof.
  intros Hi Ht [Hlen H]. split; [exact Hlen |]. intros j Hj. apply H. intros ->.
  apply Hj. rewrite Z2Nat.id by lia. exact Ht.
Qed.

Lemma PlotTranslucentPixel_kept (touched : Z -> Prop) (regs : Registers) (bufs bufs' : Buffers)
    (pixeladdr color z polyattr shadow : Z) :
  touched pixeladdr ->
  PlotTranslucentPixel regs bufs pixeladdr color z polyattr shadow = Some bufs' ->
  frame_kept touched bufs bufs'.
Proof.
  intros Ht Hplot.
  assert (0 <= pixeladdr) as Hi.
  { unfold PlotTranslucentPixel, load in Hplot.
    destruct (Z.leb_spec 0 pixeladdr); [assumption | discriminate]. }
  destruct (PlotTranslucentPixel_frame _ _ _ _ _ _ _ _ Hplot) as (C & D & A & S & P & _).
  split; [exact (same_but_at_outside touched pixeladdr _ _ Hi Ht C) |].
  split; [exact (same_but_at_outside touched pixeladdr _ _ Hi Ht D) |].
  split; [exact (same_but_at_outside touched pixeladdr _ _ Hi Ht A) |].
  split; assumption.
Qed.

Lemma shadow_target_addr (polygon : Polygon) (bufs : Buffers) (y x pa da t da' : Z) :
  shadow_target polygon bufs y x pa da = Some (Some (t, da')) ->
  t = pa \/ t = u32 (pa + BufferSize).
Proof.
  unfold shadow_target. destruct (IsShadow polygon).
  - destruct (load (StencilBuffer bufs) _) as [s|]; [| discriminate].
    cbn [mbind option_bind]. destruct (s =? 0); [discriminate |].
    destruct (negb (nonzero (Z.land s 1))); intros [= <- _]; auto.
  - intros [= <- _]. auto.
Qed.

Lemma depth_target_addr (fn : DepthTest) (bufs : Buffers) (z t da t' da' : Z) :
  depth_target fn bufs z t da = Some (Some (t', da')) ->
  t' = t \/ t' = u32 (t + BufferSize).
Proof.
  unfold depth_target.
  destruct (load (DepthBuffer bufs) t) as [dstz|]; [| discriminate].
  cbn [mbind option_bind].
  destruct (negb (fn (s32 dstz) z da)).
  - destruct (negb (nonzero (Z.land da 3))); [discriminate |].
    destruct (load (AttrBuffer bufs) _) as [a|]; [| discriminate].
    cbn [mbind option_bind].
    destruct (load (DepthBuffer bufs) _) as [d|]; [| discriminate].
    cbn [mbind option_bind].
    destruct (negb (fn (s32 d) z a)); [discriminate |]. intros [= <- _]. auto.
  - intros [= <- _]. auto.
Qed.

Lemma span_pixel_frame (regs : Registers) (vram : VRAM) (polygon : Polygon) (fn : DepthTest)
    (polyattr edge : Z) (cover : option bool) (edgecov y zl zr : Z) (ends : SpanEnds)
    (x : Z) (st st' : scan_state) :
  span_pixel regs vram polygon fn polyattr edge cover edgecov y zl zr ends x st = Some st' ->
  frame_kept (pixel_layers (pixel_address y x)) (snd (fst st)) (snd (fst st')).
Proof.
  destruct st as [[interpX bufs] xcov]. unfold span_pixel. cbn [fst snd].
  set (pa := pixel_address y x).
  destruct (load (AttrBuffer bufs) pa) as [dstattr|]; [| discriminate].
  cbn [mbind option_bind].
  destruct (shadow_target polygon bufs y x pa dstattr) as [[[t1 da1]|]|] eqn:Hsh;
    [| | discriminate]; cbn [mbind option_bind].
  2: { intros [= <-]. apply frame_kept_refl. }
  apply shadow_target_addr in Hsh.
  destruct (depth_target fn bufs _ t1 da1) as [[[t da]|]|] eqn:Hdt;
    [| | discriminate]; cbn [mbind option_bind].
  2: { intros [= <-]. apply frame_kept_refl. }
  apply depth_target_addr in Hdt.
  assert (pixel_layers pa t) as Ht.
  { unfold pixel_layers. destruct Hsh as [-> | ->], Hdt as [-> | ->]; auto. }
  assert (pixel_layers pa (u32 (t + BufferSize))) as Ht'.
  { unfold pixel_layers. destruct Hsh as [-> | ->], Hdt as [-> | ->]; auto. }
  clear Hsh Hdt.
  destruct (RenderPixel regs vram polygon _ _ _ _ _) as [color|]; [| discriminate].
  cbn [mbind option_bind].
  destruct (u8 (Z.shiftr color 24) <=? RenderAlphaRef regs).
  { intros [= <-]. apply frame_kept_refl. }
  destruct (u8 (Z.shiftr color 24) =? 31).
  - match goal with
    | |- (?e ≫= _) = Some _ -> _ => destruct e as [[[attr bufs1] xcov1]|] eqn:Hcov
    end; [| discriminate].
    cbn [mbind option_bind].
    assert (frame_kept (pixel_layers pa) bufs bufs1) as Hk1.
    { destruct cover as [right_edge|].
      - destruct (bit (RenderDispCnt regs) 4).
        + destruct (edge_coverage right_edge edgecov xcov) as [cov xc].
          destruct (t <? BufferSize).
          * destruct (push_down bufs t) as [b1|] eqn:Hpd; [| discriminate].
            cbn [mbind option_bind] in Hcov. injection Hcov as _ <- _.
            apply (push_down_frame _ _ _ _ Ht' Hpd).
          * cbn [mbind option_bind] in Hcov. injection Hcov as _ <- _.
            apply frame_kept_refl.
        + injection Hcov as _ <- _. apply frame_kept_refl.
      - injection Hcov as _ <- _. apply frame_kept_refl. }
    destruct (store (DepthBuffer bufs1) t _) as [depths|] eqn:Hd; [| discriminate].
    cbn [mbind option_bind].
    destruct (store (ColorBuffer bufs1) t _) as [colors|] eqn:Hc; [| discriminate].
    cbn [mbind option_bind].
    destruct (store (AttrBuffer bufs1) t _) as [attrs|] eqn:Ha; [| discriminate].
    cbn [mbind option_bind]. intros [= <-]. cbn [fst snd].
    apply (frame_kept_trans _ _ bufs1); [exact Hk1 |].
    apply (put_three_frame _ bufs1 t _ _ _ _ _ _ Ht Hd Hc Ha).
  - destruct (PlotTranslucentPixel regs bufs t _ _ _ _) as [bufs1|] eqn:Hp1; [| discriminate].
    cbn [mbind option_bind].
    apply (PlotTranslucentPixel_kept _ _ _ _ _ _ _ _ _ Ht) in Hp1.
    destruct (nonzero (Z.land da 3) && (t <? BufferSize)).
    + destruct (PlotTranslucentPixel regs bufs1 _ _ _ _ _) as [bufs2|] eqn:Hp2; [| discriminate].
      cbn [mbind option_bind]. intros [= <-]. cbn [fst snd].
      apply (PlotTranslucentPixel_kept _ _ _ _ _ _ _ _ _ Ht') in Hp2.
      exact (frame_kept_trans _ _ _ _ Hp1 Hp2).
    + cbn [mbind option_bind]. intros [= <-]. exact Hp1.
Qed.

Lemma for_upto_frame (touched : Z -> Prop) (body : Z -> scan_state -> option scan_state)
    (y : Z) (cols : Z -> Prop) (bufs0 : Buffers) (x xlimit x' : Z) (st st' : scan_state) :
  (forall k s s', body k s = Some s' ->
                  frame_kept (pixel_layers (pixel_address y k)) (snd (fst s)) (snd (fst s'))) ->
  (forall k i, cols k -> pixel_layers (pixel_address y k) i -> touched i) ->
  (forall k, x <= k < xlimit -> cols k) ->
  frame_kept touched bufs0 (snd (fst st)) ->
  for_upto x xlimit body st = Some (x', st') ->
  frame_kept touched bufs0 (snd (fst st')) /\ x' = Z.max x xlimit.
Proof.
  intros Hbody Hcols Hrange Hst Hrun.
  apply (for_upto_invariant (fun s => frame_kept touched bufs0 (snd (fst s))) body x xlimit)
    with (x := x) (xlimit := xlimit) (s := st); try assumption; try lia.
  intros k s s' Hk Hs Hb.
  apply (frame_kept_trans _ _ (snd (fst s))); [exact Hs |].
  apply (frame_kept_weaken (pixel_layers (pixel_address y k))); [| apply Hbody; exact Hb].
  intros i Hi. apply (Hcols k); [apply Hrange; exact Hk | exact Hi].
Qed.

Lemma span_loop_frame (touched : Z -> Prop) (cols : Z -> Prop)
    (regs : Registers) (vram : VRAM) (polygon : Polygon) (fn : DepthTest)
    (polyattr edge : Z) (cover : option bool) (edgecov y zl zr : Z) (ends : SpanEnds)
    (bufs0 : Buffers) (x xlimit x' : Z) (st st' : scan_state) :
  (forall k i, cols k -> pixel_layers (pixel_address y k) i -> touched i) ->
  (forall k, x <= k < xlimit -> cols k) ->
  frame_kept touched bufs0 (snd (fst st)) ->
  for_upto x xlimit (span_pixel regs vram polygon fn polyattr edge cover edgecov y zl zr ends)
           st = Some (x', st') ->
  frame_kept touched bufs0 (snd (fst st')) /\ x' = Z.max x xlimit.
Proof.
  intros Hcols Hrange Hst Hrun.
  apply (for_upto_frame touched
           (span_pixel regs vram polygon fn polyattr edge cover edgecov y zl zr ends)
           y cols bufs0 x xlimit x' st st'); try assumption.
  intros k s s' Hb. apply (span_pixel_frame _ _ _ _ _ _ _ _ _ _ _ _ _ _ _ Hb).
Qed.

Lemma edge_setup_keeps_polygon (rp rp' : RendererPolygon) (y : Z) :
  (SetupPolygonLeftEdge rp y = Some rp' -> rp'.(PolyData) = rp.(PolyData)) /\
  (SetupPolygonRightEdge rp y = Some rp' -> rp'.(PolyData) = rp.(PolyData)).
Proof.
  split; unfold SetupPolygonLeftEdge, SetupPolygonRightEdge.
  - destruct (walk_edge _ _ _ _ _ _) as [[c n]|]; [| discriminate]. cbn [mbind option_bind].
    destruct (setup_slope _ _ _ _ _ _) as [[s x]|]; [| discriminate]. cbn [mbind option_bind].
    intros [= <-]. reflexivity.
  - destruct (walk_edge _ _ _ _ _ _) as [[c n]|]; [| discriminate]. cbn [mbind option_bind].
    destruct (setup_slope _ _ _ _ _ _) as [[s x]|]; [| discriminate]. cbn [mbind option_bind].
    intros [= <-]. reflexivity.
Qed.

Lemma RenderPolygonScanline_invariant (I : Buffers -> Prop)
    (regs : Registers) (vram : VRAM) (uninit : Interpolator.t)
    (bufs bufs' : Buffers) (rp rp' : RendererPolygon) (y : Z) :
  (forall polyattr edge cover edgecov zl zr ends k st st',
     0 <= k < 256 \/ fill_forced regs rp.(PolyData) = false ->
     I (snd (fst st)) ->
     span_pixel regs vram rp.(PolyData) (fnDepthTest rp.(PolyData)) polyattr edge cover
                edgecov y zl zr ends k st = Some st' ->
     I (snd (fst st'))) ->
  I {| ColorBuffer := bufs.(ColorBuffer); DepthBuffer := bufs.(DepthBuffer);
       AttrBuffer := bufs.(AttrBuffer); StencilBuffer := bufs.(StencilBuffer);
       PrevIsShadowMask := false |} ->
  RenderPolygonScanline regs vram uninit bufs rp y = Some (bufs', rp') ->
  I bufs' /\ rp'.(PolyData) = rp.(PolyData).
Proof.
  intros Hbody Hinit. unfold RenderPolygonScanline. cbv zeta.
  set (bufs0 := {| ColorBuffer := ColorBuffer bufs; DepthBuffer := DepthBuffer bufs;
                   AttrBuffer := AttrBuffer bufs; StencilBuffer := StencilBuffer bufs;
                   PrevIsShadowMask := false |}).
  set (polygon := PolyData rp) in *.
  bind_next.
  assert (PolyData r = polygon) as Hpoly.
  { destruct (negb (YTop polygon =? YBottom polygon));
      [| injection Hstep as <-; reflexivity].
    destruct (load (Vertices polygon) (NextVL rp)) as [vl|]; [| discriminate].
    cbn [mbind option_bind] in Hstep.
    destruct (if (y >=? snd (FinalPosition vl)) && negb (CurVL rp =? VBottom polygon)
              then SetupPolygonLeftEdge rp y else Some rp) as [rp1|] eqn:H1; [| discriminate].
    cbn [mbind option_bind] in Hstep.
    assert (PolyData rp1 = polygon) as Hp1.
    { destruct ((y >=? snd (FinalPosition vl)) && negb (CurVL rp =? VBottom polygon)).
      - apply (proj1 (edge_setup_keeps_polygon rp rp1 y)). exact H1.
      - injection H1 as <-. reflexivity. }
    destruct (load (Vertices polygon) (NextVR rp1)) as [vr|]; [| discriminate].
    cbn [mbind option_bind] in Hstep.
    destruct ((y >=? snd (FinalPosition vr)) && negb (CurVR rp1 =? VBottom polygon)).
    - rewrite <- Hp1. apply (proj2 (edge_setup_keeps_polygon rp1 r y)). exact Hstep.
    - injection Hstep as <-. exact Hp1. }
  clear Hstep.
  assert (fill_forced regs polygon = true ->
          (Z.land (Z.shiftr (Attr polygon) 16) 31 =? 0) = false /\
          nonzero (Z.land (RenderDispCnt regs) (Z.lor (Z.shiftl 1 4) (Z.shiftl 1 5))) = true)
    as Hforced.
  { unfold fill_forced. intros H. apply andb_prop in H as [H1 H2].
    split; [destruct (_ =? 0); [discriminate | reflexivity] | exact H2]. }
  destruct (if (_ =? 0) || _ then (true, true) else _) as [lf rf] eqn:Hfill.
  assert (fill_forced regs polygon = true -> lf = true /\ rf = true) as Hlr.
  { intros H. destruct (Hforced H) as [_ Hnz]. rewrite Hnz, orb_true_r in Hfill.
    injection Hfill as <- <-. split; reflexivity. }
  clear Hfill.
  do 12 bind_next.
  destruct (if XL r >? XR r then _ else _)
    as [[[[[[[[[[[[[[[vlcur vlnext] vrcur] vrnext] istart] iend] [le lc]] [re rc]]
                xs] xe] wl] wr] zl] zr] lf'] rf'] eqn:Hswap.
  assert (fill_forced regs polygon = true -> lf' = true /\ rf' = true) as Hlr'.
  { intros H. destruct (Hlr H) as [-> ->].
    destruct (XL r >? XR r); inversion Hswap; subst; split; reflexivity. }
  clear Hswap Hlr.
  assert (forall polyattr edge cover edgecov zl zr ends x xlimit x' st st',
            (fill_forced regs polygon = true -> 0 <= x) ->
            I (snd (fst st)) ->
            for_upto x (if xlimit >? 256 then 256 else xlimit)
              (span_pixel regs vram polygon (fnDepthTest polygon) polyattr edge cover
                          edgecov y zl zr ends) st = Some (x', st') ->
            I (snd (fst st'))
            /\ x' = Z.max x (if xlimit >? 256 then 256 else xlimit)) as Hloop.
  { intros polyattr edge cover edgecov zl0 zr0 ends x xlimit x' st st' Hx Hst Hrun.
    assert ((if xlimit >? 256 then 256 else xlimit) <= 256) as Hclamp
      by (destruct (Z.gtb_spec xlimit 256); lia).
    destruct (fill_forced regs polygon) eqn:Hff.
    - apply (for_upto_invariant (fun s => I (snd (fst s)))
               (span_pixel regs vram polygon (fnDepthTest polygon) polyattr edge cover
                           edgecov y zl0 zr0 ends) 0 256)
        with (x := x) (xlimit := if xlimit >? 256 then 256 else xlimit) (s := st);
        try assumption; [| apply Hx; reflexivity].
      intros k s s' Hk Hs Hb. apply (Hbody polyattr edge cover edgecov zl0 zr0 ends k s s');
        [left; exact Hk | exact Hs | exact Hb].
    - apply (for_upto_invariant (fun s => I (snd (fst s)))
               (span_pixel regs vram polygon (fnDepthTest polygon) polyattr edge cover
                           edgecov y zl0 zr0 ends)
               x (if xlimit >? 256 then 256 else xlimit))
        with (x := x) (xlimit := if xlimit >? 256 then 256 else xlimit) (s := st);
        try assumption; try lia.
      intros k s s' Hk Hs Hb.
      apply (Hbody polyattr edge cover edgecov zl0 zr0 ends k s s');
        [right; reflexivity | exact Hs | exact Hb]. }
  (* part 1 *)
  bind_next. destruct p as [x1 st1].
  assert (I (snd (fst st1)) /\ (fill_forced regs polygon = true -> 0 <= x1)) as [HP1 Hx1].
  { destruct lf'; cbn [negb] in Hstep11.
    - apply Hloop in Hstep11 as [HP Hx]; [| | exact Hinit].
      + split; [exact HP |]. intros _. rewrite Hx. destruct (Z.ltb_spec xs 0); lia.
      + intros _. destruct (Z.ltb_spec xs 0); lia.
    - injection Hstep11 as <- <-. split; [exact Hinit |].
      intros H. destruct (Hlr' H) as [Hl _]. discriminate. }
  clear Hstep11.
  (* part 2 *)
  bind_next. destruct p as [x2 st2].
  assert (I (snd (fst st2)) /\ (fill_forced regs polygon = true -> 0 <= x2)) as [HP2 Hx2].
  { destruct ((Z.land (Z.shiftr (Attr polygon) 16) 31 =? 0) && _) eqn:Hwire.
    - injection Hstep11 as <- <-. split; [exact HP1 |].
      intros H. destruct (Hforced H) as [Hw _]. rewrite Hw in Hwire. discriminate.
    - apply Hloop in Hstep11 as [HP Hx]; [| exact Hx1 | exact HP1].
      split; [exact HP |]. intros H. specialize (Hx1 H). lia. }
  clear Hstep11.
  (* part 3 *)
  bind_next. destruct p as [x3 st3].
  assert (I (snd (fst st3))) as HP3.
  { destruct rf'.
    - apply Hloop in Hstep11 as [HP Hx]; [exact HP | exact Hx2 | exact HP2].
    - injection Hstep11 as _ <-. exact HP2. }
  destruct (Slope.Step (SlopeL r)) as [sl' XL']. destruct (Slope.Step (SlopeR r)) as [sr' XR'].
  intros [= <- <-]. split; [exact HP3 | reflexivity].
Qed.

(** X18: a polygon scanline never touches the stencil buffer.  When
    RenderPolygonScanline returns, the stencil buffer is as before, the
    shadow-mask flag is clear, the three frame buffers have kept their
    lengths, and the polygon of the slot is the same. *)
Theorem RenderPolygonScanline_keeps_stencil
    (regs : Registers) (vram : VRAM) (uninit : Interpolator.t)
    (bufs bufs' : Buffers) (rp rp' : RendererPolygon) (y : Z) :
  RenderPolygonScanline regs vram uninit bufs rp y = Some (bufs', rp') ->
  bufs'.(StencilBuffer) = bufs.(StencilBuffer) /\
  bufs'.(PrevIsShadowMask) = false /\
  length bufs'.(ColorBuffer) = length bufs.(ColorBuffer) /\
  length bufs'.(DepthBuffer) = length bufs.(DepthBuffer) /\
  length bufs'.(AttrBuffer) = length bufs.(AttrBuffer) /\
  rp'.(PolyData) = rp.(PolyData).
Proof.
  intros Hrun.
  set (bufs0 := {| ColorBuffer := ColorBuffer bufs; DepthBuffer := DepthBuffer bufs;
                   AttrBuffer := AttrBuffer bufs; StencilBuffer := StencilBuffer bufs;
                   PrevIsShadowMask := false |}).
  destruct (RenderPolygonScanline_invariant (frame_kept (fun _ => True) bufs0)
              regs vram uninit bufs bufs' rp rp' y) as [(C & D & A & S & P) Hp];
    [| apply frame_kept_refl | exact Hrun |].
  - intros polyattr edge cover edgecov zl zr ends k st st' _ Hst Hb.
    apply (frame_kept_trans _ _ (snd (fst st))); [exact Hst |].
    apply (frame_kept_weaken (pixel_layers (pixel_address y k))); [auto |].
    apply (span_pixel_frame _ _ _ _ _ _ _ _ _ _ _ _ _ _ _ Hb).
  - destruct C as [HC _], D as [HD _], A as [HA _]. repeat split; assumption.
Qed.

Lemma RenderPolygonScanline_keeps_stencil_witness :
  exists rp bufs' rp',
    sample_setup (sample_triangle 0x001F0000 false false) = Some rp /\
    RenderPolygonScanline (sample_registers 0) blank_vram Interpolator.blank
      (sample_buffers 3) rp 0 = Some (bufs', rp') /\
    bufs'.(ColorBuffer) <> (sample_buffers 3).(ColorBuffer) /\
    bufs'.(StencilBuffer) = (sample_buffers 3).(StencilBuffer) /\
    bufs'.(PrevIsShadowMask) = false.
Proof.
  assert (exists rp, sample_setup (sample_triangle 0x001F0000 false false) = Some rp)
    as [rp Hrp] by (vm_compute; eexists; reflexivity).
  assert (exists out, RenderPolygonScanline (sample_registers 0) blank_vram Interpolator.blank
                        (sample_buffers 3) rp 0 = Some out /\
                      (ColorBuffer (fst out)) !! 298%nat = Some 0x1F10203F)
    as ([bufs' rp'] & Hrun & Hcell).
  { vm_compute in Hrp. injection Hrp as <-. vm_compute. eexists. split; reflexivity. }
  exists rp, bufs', rp'. split; [exact Hrp |]. split; [exact Hrun |].
  destruct (RenderPolygonScanline_keeps_stencil _ _ _ _ _ _ _ _ Hrun) as (HS & HP & _).
  split; [| split; assumption].
  intros Heq. cbn [fst] in Hcell. rewrite Heq in Hcell. vm_compute in Hcell. discriminate.
Defined.

Lemma pixel_layers_on_line (y k i : Z) :
  0 <= y < 192 -> 0 <= k < 256 -> pixel_layers (pixel_address y k) i -> line_cells y i.
Proof.
  intros Hy Hk. unfold pixel_layers, pixel_address, line_cells.
  unfold FirstPixelOffset, ScanlineWidth, BufferSize, NumScanlines, ScanlineWidth.
  rewrite (s32_id (y * 258)) by (unfold in_s32; lia).
  rewrite (s32_id (258 + 1 + y * 258)) by (unfold in_s32; lia).
  rewrite (u32_id (258 + 1 + y * 258 + k)) by (unfold in_u32; lia).
  rewrite (u32_id (258 + 1 + y * 258 + k + 258 * 194)) by (unfold in_u32; lia).
  rewrite (u32_id (258 + 1 + y * 258 + k + 258 * 194 + 258 * 194)) by (unfold in_u32; lia).
  rewrite (u32_id (258 + 1 + y * 258 + k + 258 * 194 + 258 * 194 + 258 * 194))
    by (unfold in_u32; lia).
  intros [-> | [-> | [-> | ->]]];
    [exists k, 0 | exists k, 1 | exists k, 2 | exists k, 3]; lia.
Qed.



Lemma for_x_idle {S : Type} (body : Z -> S -> option S) (st : S) (lo hi : Z) :
  (forall k, lo <= k < hi -> body k st = Some st) ->
  forall (n : nat) (x : Z), lo <= x -> n = O \/ x + Z.of_nat n <= hi ->
    for_x n x body st = Some st.
Proof.
  intros Hbody. induction n as [| n IH]; intros x Hlo Hhi; [reflexivity |].
  destruct Hhi as [| Hhi]; [discriminate |].
  cbn [for_x]. rewrite Hbody by lia. cbn [mbind option_bind].
  apply IH; [lia | right; lia].
Qed.

Lemma for_upto_idle {S : Type} (body : Z -> S -> option S) (st : S) (lo hi x xlimit : Z) :
  (forall k, lo <= k < hi -> body k st = Some st) ->
  lo <= x -> xlimit <= hi ->
  for_upto x xlimit body st = Some (Z.max x xlimit, st).
Proof.
  intros Hbody Hlo Hhi. unfold for_upto.
  rewrite (for_x_idle body st lo hi Hbody); [reflexivity | exact Hlo |].
  destruct (Z_le_gt_dec xlimit x); [left | right]; lia.
Qed.

(** Over an empty stencil a pixel of a shadow polygon takes the [continue]
    of the stencil check. *)
Lemma span_pixel_idle (regs : Registers) (vram : VRAM) (polygon : Polygon) (fn : DepthTest)
    (polyattr edge : Z) (cover : option bool) (edgecov y zl zr : Z) (ends : SpanEnds)
    (k : Z) (st : scan_state) :
  polygon.(IsShadow) = true ->
  (forall (i : nat) (v : Z), (snd (fst st)).(StencilBuffer) !! i = Some v -> v = 0) ->
  length (snd (fst st)).(StencilBuffer) = 512%nat ->
  BufferSize <= Z.of_nat (length (snd (fst st)).(AttrBuffer)) ->
  0 <= y < 192 -> 0 <= k < 256 ->
  span_pixel regs vram polygon fn polyattr edge cover edgecov y zl zr ends k st = Some st.
Proof.
  destruct st as [[interpX b] xcov]. cbn [fst snd].
  intros Hshadow Hzero Hlen Hattr Hy Hk. unfold span_pixel.
  assert (pixel_address y k = 259 + 258 * y + k) as Hpa.
  { unfold pixel_address, FirstPixelOffset, ScanlineWidth.
    rewrite (s32_id (y * 258)) by (unfold in_s32; lia).
    rewrite (s32_id (258 + 1 + y * 258)) by (unfold in_s32; lia).
    rewrite u32_id by (unfold in_u32; lia). lia. }
  rewrite Hpa.
  destruct (load_Some (AttrBuffer b) (259 + 258 * y + k)) as (dstattr & -> & _).
  { unfold BufferSize, ScanlineWidth, NumScanlines in Hattr. lia. }
  cbn [mbind option_bind]. unfold shadow_target. rewrite Hshadow.
  pose proof (land_mask_range y 1 ltac:(lia)) as Hrow. change (2 ^ 1 - 1) with 1 in Hrow.
  destruct (load_Some (StencilBuffer b) (256 * Z.land y 1 + k)) as (stencil & -> & Hst).
  { lia. }
  rewrite (Hzero _ _ Hst). reflexivity.
Qed.

Lemma clamped_limit (v w : Z) :
  (if (if v >? w then w else v) >? 256 then 256 else if v >? w then w else v) <= 256.
Proof. destruct (v >? w); [destruct (Z.gtb_spec w 256) | destruct (Z.gtb_spec v 256)]; lia. Qed.

(** The edge setups at the start of a scanline return and keep the slot
    well formed. *)
Lemma scanline_edges_ok (rp : RendererPolygon) (y : Z) :
  slot_ok rp ->
  let polygon := rp.(PolyData) in
  exists r,
    (if negb (polygon.(YTop) =? polygon.(YBottom)) then
       vl ← load polygon.(Vertices) rp.(NextVL);
       rp ← (if (y >=? snd vl.(FinalPosition)) && negb (rp.(CurVL) =? polygon.(VBottom))
             then SetupPolygonLeftEdge rp y else Some rp);
       vr ← load polygon.(Vertices) rp.(NextVR);
       if (y >=? snd vr.(FinalPosition)) && negb (rp.(CurVR) =? polygon.(VBottom))
       then SetupPolygonRightEdge rp y else Some rp
     else Some rp) = Some r /\
    r.(PolyData) = polygon /\ slot_ok r.
Proof.
  intros Hok polygon. pose proof Hok as (Hp & Hz & HcL & HnL & HcR & HnR).
  fold polygon in Hp, Hz, HcL, HnL, HcR, HnR.
  destruct (negb (YTop polygon =? YBottom polygon));
    [| exists rp; split; [reflexivity | split; [reflexivity | exact Hok]]].
  pose proof Hp as (Hn & Hlen & _).
  destruct (load_Some (Vertices polygon) (NextVL rp) ltac:(lia)) as (vl & -> & _).
  cbn [mbind option_bind].
  assert (exists rp1,
            (if (y >=? snd (FinalPosition vl)) && negb (CurVL rp =? VBottom polygon)
             then SetupPolygonLeftEdge rp y else Some rp) = Some rp1 /\
            PolyData rp1 = polygon /\ slot_ok rp1) as (rp1 & -> & Hp1 & Hok1).
  { destruct ((y >=? snd (FinalPosition vl)) && negb (CurVL rp =? VBottom polygon)).
    - destruct (SetupPolygonLeftEdge_ok rp y Hp HcL HnL)
        as (rp1 & Hrun & HP & Hc & Hx & _ & _ & _ & HcR' & HnR').
      fold polygon in HP, Hc, Hx.
      exists rp1. split; [exact Hrun |]. split; [exact HP |].
      unfold slot_ok. rewrite HP, HcR', HnR'.
      split; [exact Hp |]. split; [exact Hz |]. repeat split; lia.
    - exists rp. split; [reflexivity |]. split; [reflexivity | exact Hok]. }
  cbn [mbind option_bind].
  pose proof Hok1 as (Hp' & Hz' & HcL' & HnL' & HcR' & HnR'). rewrite Hp1 in *.
  destruct (load_Some (Vertices polygon) (NextVR rp1) ltac:(lia)) as (vr & -> & _).
  cbn [mbind option_bind].
  destruct ((y >=? snd (FinalPosition vr)) && negb (CurVR rp1 =? VBottom polygon)).
  - destruct (SetupPolygonRightEdge_ok rp1 y ltac:(rewrite Hp1; exact Hp)
                ltac:(rewrite Hp1; exact HcR') ltac:(rewrite Hp1; exact HnR'))
      as (r & Hrun & HP & Hc & Hx & _ & _ & _ & HcL'' & HnL'').
    rewrite Hp1 in HP, Hc, Hx.
    exists r. split; [exact Hrun |]. split; [exact HP |].
    unfold slot_ok. rewrite HP, HcL'', HnL''.
    split; [exact Hp |]. split; [exact Hz |]. repeat split; lia.
  - exists rp1. split; [reflexivity |]. split; [exact Hp1 |].
    unfold slot_ok. rewrite Hp1.
    split; [exact Hp |]. split; [exact Hz |]. repeat split; lia.
Qed.

Ltac start_nonneg :=
  match goal with
  | |- context [if ?v <? 0 then 0 else ?v] => destruct (Z.ltb_spec v 0); lia
  end.

Lemma shadow_scanline_returns (regs : Registers) (vram : VRAM) (uninit : Interpolator.t)
    (bufs : Buffers) (rp : RendererPolygon) (y : Z) :
  rp.(PolyData).(IsShadow) = true ->
  (forall (i : nat) (v : Z), bufs.(StencilBuffer) !! i = Some v -> v = 0) ->
  slot_ok rp -> fill_forced regs rp.(PolyData) = true -> 0 <= y < 192 ->
  length bufs.(StencilBuffer) = 512%nat ->
  BufferSize <= Z.of_nat (length bufs.(AttrBuffer)) ->
  exists rp',
    RenderPolygonScanline regs vram uninit bufs rp y
    = Some ({| ColorBuffer := bufs.(ColorBuffer); DepthBuffer := bufs.(DepthBuffer);
               AttrBuffer := bufs.(AttrBuffer); StencilBuffer := bufs.(StencilBuffer);
               PrevIsShadowMask := false |}, rp').
Proof.
  intros Hshadow Hzero Hok Hff Hy Hlen Hattr.
  unfold RenderPolygonScanline. cbv zeta.
  set (bufs0 := {| ColorBuffer := ColorBuffer bufs; DepthBuffer := DepthBuffer bufs;
                   AttrBuffer := AttrBuffer bufs; StencilBuffer := StencilBuffer bufs;
                   PrevIsShadowMask := false |}).
  destruct (scanline_edges_ok rp y Hok) as (r & -> & Hpoly & Hokr).
  cbn [mbind option_bind].
  set (polygon := PolyData rp) in *.
  destruct Hokr as (Hp & Hz & HcL & HnL & HcR & HnR). rewrite Hpoly in Hp, Hz, HcL, HnL, HcR, HnR.
  pose proof Hp as (Hn & Hvl & Hwl & _).
  unfold fill_forced in Hff. apply andb_prop in Hff as [Hsolid Hmode]. fold polygon in Hsolid.
  apply negb_true_iff in Hsolid. rewrite Hsolid, Hmode. cbn [orb andb].
  destruct (load_Some (FinalW polygon) (CurVL r) ltac:(lia)) as (wlc & -> & _).
  destruct (load_Some (FinalW polygon) (NextVL r) ltac:(lia)) as (wln & -> & _).
  destruct (load_Some (FinalW polygon) (CurVR r) ltac:(lia)) as (wrc & -> & _).
  destruct (load_Some (FinalW polygon) (NextVR r) ltac:(lia)) as (wrn & -> & _).
  destruct (load_Some (FinalZ polygon) (CurVL r) ltac:(lia)) as (zlc & -> & _).
  destruct (load_Some (FinalZ polygon) (NextVL r) ltac:(lia)) as (zln & -> & _).
  destruct (load_Some (FinalZ polygon) (CurVR r) ltac:(lia)) as (zrc & -> & _).
  destruct (load_Some (FinalZ polygon) (NextVR r) ltac:(lia)) as (zrn & -> & _).
  destruct (load_Some (Vertices polygon) (CurVL r) ltac:(lia)) as (vCL & -> & _).
  destruct (load_Some (Vertices polygon) (NextVL r) ltac:(lia)) as (vNL & -> & _).
  destruct (load_Some (Vertices polygon) (CurVR r) ltac:(lia)) as (vCR & -> & _).
  destruct (load_Some (Vertices polygon) (NextVR r) ltac:(lia)) as (vNR & -> & _).
  cbn [mbind option_bind].
  assert (forall polyattr edge cover edgecov zl zr ends x xlimit (st : scan_state),
            snd (fst st) = bufs0 -> 0 <= x -> xlimit <= 256 ->
            for_upto x xlimit
              (span_pixel regs vram polygon (fnDepthTest polygon) polyattr edge cover
                          edgecov y zl zr ends) st = Some (Z.max x xlimit, st)) as Hloop.
  { intros polyattr edge cover edgecov zl zr ends x xlimit st Hst Hx Hlim.
    apply (for_upto_idle _ st 0 256); [| exact Hx | exact Hlim].
    intros k Hk. apply span_pixel_idle; try assumption; rewrite Hst; assumption. }
  destruct (XL r >? XR r); cbv beta iota.
  all: destruct (Slope.EdgeParams_YMajor true (SlopeR r)) as [reY rcY].
  all: destruct (Slope.EdgeParams_YMajor false (SlopeL r)) as [leY lcY].
  all: destruct (Slope.EdgeParams false (SlopeL r)) as [le lc].
  all: destruct (Slope.EdgeParams true (SlopeR r)) as [re rc].
  all: cbn [negb].
  all: rewrite Hloop; [| reflexivity | start_nonneg | apply clamped_limit].
  all: cbn [mbind option_bind].
  all: rewrite Hloop; [| reflexivity | start_nonneg | apply clamped_limit].
  all: cbn [mbind option_bind fst snd].
  all: rewrite Hloop;
    [| reflexivity | start_nonneg
     | match goal with |- (if ?v >? 256 then 256 else ?v) <= 256 =>
                          destruct (Z.gtb_spec v 256); lia end].
  all: cbn [mbind option_bind fst snd].
  all: destruct (Slope.Step (SlopeL r)) as [sl' XL'];
    destruct (Slope.Step (SlopeR r)) as [sr' XR']; eexists; reflexivity.
Qed.

(** X20: without a shadow mask a shadow polygon draws nothing.  If every
    stencil entry is zero, then whenever RenderPolygonScanline of a shadow
    polygon returns, the colour, depth, attribute and stencil buffers are
    as they were.  And it does return on a visible line when the slot is
    well formed, the polygon is not wireframe with anti-aliasing or edge
    marking on (so that both edges are filled), the stencil buffer has its
    512 entries and the attribute buffer at least [BufferSize]. *)
Theorem shadow_without_mask_draws_nothing
    (regs : Registers) (vram : VRAM) (uninit : Interpolator.t)
    (bufs : Buffers) (rp : RendererPolygon) (y : Z) :
  rp.(PolyData).(IsShadow) = true ->
  (forall (i : nat) (v : Z), bufs.(StencilBuffer) !! i = Some v -> v = 0) ->
  (forall bufs' rp',
     RenderPolygonScanline regs vram uninit bufs rp y = Some (bufs', rp') ->
     bufs'.(ColorBuffer) = bufs.(ColorBuffer) /\
     bufs'.(DepthBuffer) = bufs.(DepthBuffer) /\
     bufs'.(AttrBuffer) = bufs.(AttrBuffer) /\
     bufs'.(StencilBuffer) = bufs.(StencilBuffer)) /\
  (slot_ok rp -> fill_forced regs rp.(PolyData) = true -> 0 <= y < 192 ->
   length bufs.(StencilBuffer) = 512%nat ->
   BufferSize <= Z.of_nat (length bufs.(AttrBuffer)) ->
   exists bufs' rp', RenderPolygonScanline regs vram uninit bufs rp y = Some (bufs', rp')).
Proof.
  intros Hshadow Hzero. split.
  - intros bufs' rp' Hrun.
    set (bufs0 := {| ColorBuffer := ColorBuffer bufs; DepthBuffer := DepthBuffer bufs;
                     AttrBuffer := AttrBuffer bufs; StencilBuffer := StencilBuffer bufs;
                     PrevIsShadowMask := false |}).
    destruct (RenderPolygonScanline_invariant (fun b => b = bufs0)
                regs vram uninit bufs bufs' rp rp' y) as [-> _];
      [| reflexivity | exact Hrun | repeat split].
    intros polyattr edge cover edgecov zl zr ends k [[interpX b] xcov] st' _ Hst.
    cbn [fst snd] in Hst. subst b. unfold span_pixel.
    destruct (load (AttrBuffer bufs0) _) as [dstattr|]; [| discriminate].
    cbn [mbind option_bind]. unfold shadow_target. rewrite Hshadow.
    destruct (load (StencilBuffer bufs0) _) as [stencil|] eqn:Hst; [| discriminate].
    cbn [mbind option_bind].
    assert (stencil = 0) as ->.
    { unfold load in Hst. destruct (0 <=? _); [| discriminate]. exact (Hzero _ _ Hst). }
    cbn [Z.eqb]. cbn [mbind option_bind]. intros [= <-]. reflexivity.
  - intros Hok Hff Hy Hlen Hattr.
    destruct (shadow_scanline_returns regs vram uninit bufs rp y Hshadow Hzero Hok Hff Hy
                Hlen Hattr) as (rp' & Hrun).
    eexists _, rp'. exact Hrun.
Qed.

Lemma shadow_without_mask_draws_nothing_witness :
  exists rp bufs' rp',
    sample_setup (sample_triangle 0x00100000 false true) = Some rp /\
    RenderPolygonScanline (sample_registers 0x10) blank_vram Interpolator.blank
      blank_frame rp 0 = Some (bufs', rp') /\
    bufs'.(ColorBuffer) = blank_frame.(ColorBuffer) /\
    bufs'.(DepthBuffer) = blank_frame.(DepthBuffer) /\
    bufs'.(AttrBuffer) = blank_frame.(AttrBuffer) /\
    bufs'.(StencilBuffer) = blank_frame.(StencilBuffer).
Proof.
  assert (exists rp, sample_setup (sample_triangle 0x00100000 false true) = Some rp)
    as [rp Hrp] by (vm_compute; eexists; reflexivity).
  exists rp.
  destruct (shadow_without_mask_draws_nothing (sample_registers 0x10) blank_vram
              Interpolator.blank blank_frame rp 0) as [Hkept Hreturns].
  - vm_compute in Hrp. injection Hrp as <-. reflexivity.
  - intros i v Hv. cbn [blank_frame StencilBuffer] in Hv.
    apply lookup_replicate in Hv. destruct Hv as [-> _]. reflexivity.
  - destruct Hreturns as (bufs' & rp' & Hrun).
    + vm_compute in Hrp. injection Hrp as <-.
      unfold slot_ok, polygon_ok. cbn. lia.
    + vm_compute in Hrp. injection Hrp as <-. reflexivity.
    + lia.
    + reflexivity.
    + vm_compute. discriminate.
    + exists bufs', rp'. split; [exact Hrp |]. split; [exact Hrun |].
      exact (Hkept bufs' rp' Hrun).
Defined.

(** * The final pass *)

Lemma colours_kept_refl (touched : Z -> Prop) (b : Buffers) : colours_kept touched b b.
Proof. split; [apply frame_kept_refl | reflexivity]. Qed.

Lemma colours_kept_trans (touched : Z -> Prop) (a b c : Buffers) :
  colours_kept touched a b -> colours_kept touched b c -> colours_kept touched a c.
Proof.
  intros [F1 D1] [F2 D2]. split; [exact (frame_kept_trans _ _ _ _ F1 F2) | congruence].
Qed.

Lemma colours_kept_weaken (t1 t2 : Z -> Prop) (a b : Buffers) :
  (forall i, t1 i -> t2 i) -> colours_kept t1 a b -> colours_kept t2 a b.
Proof. intros Hsub [F D]. split; [exact (frame_kept_weaken _ _ _ _ Hsub F) | exact D]. Qed.

Lemma put_colour_kept (touched : Z -> Prop) (bufs : Buffers) (i c : Z) (colors : list Z) :
  touched i -> store bufs.(ColorBuffer) i c = Some colors ->
  colours_kept touched bufs
    {| ColorBuffer := colors; DepthBuffer := bufs.(DepthBuffer);
       AttrBuffer := bufs.(AttrBuffer); StencilBuffer := bufs.(StencilBuffer);
       PrevIsShadowMask := bufs.(PrevIsShadowMask) |}.
Proof.
  intros Ht Hc. split; [| reflexivity].
  split; [exact (store_same_outside touched _ _ _ _ Ht Hc) |].
  split; [apply same_outside_refl |]. split; [apply same_outside_refl |].
  split; reflexivity.
Qed.

Lemma edge_mark_pixel_kept (more : FrameRegisters) (y x : Z) (bufs bufs' : Buffers) :
  edge_mark_pixel more y x bufs = Some bufs' ->
  colours_kept (eq (pixel_address y x)) bufs bufs'.
Proof.
  unfold edge_mark_pixel. set (pa := pixel_address y x).
  destruct (load (AttrBuffer bufs) pa) as [attr|]; [| discriminate].
  cbn [mbind option_bind].
  destruct (negb (nonzero (Z.land attr 15))).
  { intros [= <-]. apply colours_kept_refl. }
  destruct (load (DepthBuffer bufs) pa) as [z|]; [| discriminate].
  cbn [mbind option_bind].
  destruct (or_else _ _) as [[|]|]; [| | discriminate]; cbn [mbind option_bind].
  2: { intros [= <-]. apply colours_kept_refl. }
  destruct (load (RenderEdgeTable more) _) as [edgecolor|]; [| discriminate].
  cbn [mbind option_bind].
  destruct (load (ColorBuffer bufs) pa) as [old|]; [| discriminate].
  cbn [mbind option_bind].
  destruct (store (ColorBuffer bufs) pa _) as [colors|] eqn:Hc; [| discriminate].
  cbn [mbind option_bind].
  destruct (store (AttrBuffer bufs) pa _) as [attrs|] eqn:Ha; [| discriminate].
  cbn [mbind option_bind]. intros [= <-].
  split; [| reflexivity].
  split; [exact (store_same_outside (eq pa) _ _ _ _ eq_refl Hc) |].
  split; [apply same_outside_refl |].
  split; [exact (store_same_outside (eq pa) _ _ _ _ eq_refl Ha) |].
  split; reflexivity.
Qed.

Lemma fog_blend_kept (regs : Registers) (more : FrameRegisters) (bufs bufs' : Buffers)
    (pixeladdr : Z) :
  fog_blend regs more bufs pixeladdr = Some bufs' ->
  colours_kept (eq pixeladdr) bufs bufs'.
Proof.
  unfold fog_blend. cbv zeta.
  destruct (CalculateFogDensity regs bufs pixeladdr) as [density|]; [| discriminate].
  cbn [mbind option_bind].
  destruct (load (ColorBuffer bufs) pixeladdr) as [src|]; [| discriminate].
  cbn [mbind option_bind].
  destruct (negb (bit (RenderDispCnt regs) 6));
    (destruct (store (ColorBuffer bufs) pixeladdr _) as [colors|] eqn:Hc; [| discriminate];
     cbn [mbind option_bind]; intros [= <-];
     exact (put_colour_kept (eq pixeladdr) bufs pixeladdr _ colors eq_refl Hc)).
Qed.

Lemma fog_pixel_kept (regs : Registers) (more : FrameRegisters) (y x : Z)
    (bufs bufs' : Buffers) :
  fog_pixel regs more y x bufs = Some bufs' ->
  colours_kept (two_layers (pixel_address y x)) bufs bufs'.
Proof.
  unfold fog_pixel. set (pa := pixel_address y x).
  destruct (load (AttrBuffer bufs) pa) as [attr|]; [| discriminate].
  cbn [mbind option_bind].
  destruct (negb (bit attr 15)).
  { intros [= <-]. apply colours_kept_refl. }
  destruct (fog_blend regs more bufs pa) as [b1|] eqn:H1; [| discriminate].
  cbn [mbind option_bind].
  apply fog_blend_kept in H1.
  apply (colours_kept_weaken _ (two_layers pa)) in H1; [| intros i <-; left; reflexivity].
  destruct (negb (nonzero (Z.land attr 3))).
  { intros [= <-]. exact H1. }
  destruct (load (AttrBuffer b1) _) as [attr2|]; [| discriminate].
  cbn [mbind option_bind].
  destruct (negb (bit attr2 15)).
  { intros [= <-]. exact H1. }
  intros H2. apply fog_blend_kept in H2.
  apply (colours_kept_weaken _ (two_layers pa)) in H2; [| intros i <-; right; reflexivity].
  exact (colours_kept_trans _ _ _ _ H1 H2).
Qed.

Lemma antialias_pixel_kept (y x : Z) (bufs bufs' : Buffers) :
  antialias_pixel y x bufs = Some bufs' ->
  colours_kept (eq (pixel_address y x)) bufs bufs'.
Proof.
  unfold antialias_pixel. cbv zeta. set (pa := pixel_address y x).
  destruct (load (AttrBuffer bufs) pa) as [attr|]; [| discriminate].
  cbn [mbind option_bind].
  destruct (negb (nonzero (Z.land attr 3))).
  { intros [= <-]. apply colours_kept_refl. }
  destruct (_ =? 31).
  { intros [= <-]. apply colours_kept_refl. }
  destruct (_ =? 0).
  - destruct (load (ColorBuffer bufs) _) as [c|]; [| discriminate].
    cbn [mbind option_bind].
    destruct (store (ColorBuffer bufs) pa c) as [colors|] eqn:Hc; [| discriminate].
    cbn [mbind option_bind]. intros [= <-].
    exact (put_colour_kept (eq pa) bufs pa _ colors eq_refl Hc).
  - destruct (load (ColorBuffer bufs) pa) as [top|]; [| discriminate].
    cbn [mbind option_bind].
    destruct (load (ColorBuffer bufs) _) as [bot|]; [| discriminate].
    cbn [mbind option_bind].
    destruct (_ >? 0);
      (destruct (store (ColorBuffer bufs) pa _) as [colors|] eqn:Hc; [| discriminate];
       cbn [mbind option_bind]; intros [= <-];
       exact (put_colour_kept (eq pa) bufs pa _ colors eq_refl Hc)).
Qed.

Lemma two_layers_on_line (y k i : Z) :
  0 <= y < 192 -> 0 <= k < 256 -> two_layers (pixel_address y k) i -> line_cells y i.
Proof.
  intros Hy Hk Hi. apply (pixel_layers_on_line y k i Hy Hk).
  unfold pixel_layers. destruct Hi as [-> | ->]; auto.
Qed.

(** X21: the final pass works on the colours of its own line.  When
    ScanlineFinalPass returns for a visible line [y], the depth buffer, the
    stencil buffer and the shadow-mask flag are as before, and the colour
    and attribute buffers are as before outside the cells of line [y];
    with edge marking, fog and anti-aliasing all off it changes nothing. *)
Theorem ScanlineFinalPass_stays_on_its_line
    (regs : Registers) (more : FrameRegisters) (y : Z) (bufs bufs' : Buffers) :
  0 <= y < 192 ->
  ScanlineFinalPass regs more y bufs = Some bufs' ->
  bufs'.(DepthBuffer) = bufs.(DepthBuffer) /\
  bufs'.(StencilBuffer) = bufs.(StencilBuffer) /\
  bufs'.(PrevIsShadowMask) = bufs.(PrevIsShadowMask) /\
  same_outside (line_cells y) bufs.(ColorBuffer) bufs'.(ColorBuffer) /\
  same_outside (line_cells y) bufs.(AttrBuffer) bufs'.(AttrBuffer) /\
  (bit regs.(RenderDispCnt) 4 = false -> bit regs.(RenderDispCnt) 5 = false ->
   bit regs.(RenderDispCnt) 7 = false -> bufs' = bufs).
Proof.
  intros Hy. unfold ScanlineFinalPass.
  assert (forall (body : Z -> Buffers -> option Buffers) (t : Z -> Z -> Prop) (b0 b b' : Buffers),
            (forall k s s', body k s = Some s' -> colours_kept (t k) s s') ->
            (forall k i, 0 <= k < 256 -> t k i -> line_cells y i) ->
            colours_kept (line_cells y) b0 b ->
            for_x 256 0 body b = Some b' -> colours_kept (line_cells y) b0 b') as Hpass.
  { intros body t b0 b b' Hbody Ht Hb Hrun.
    apply (for_x_invariant (colours_kept (line_cells y) b0) body 0 256)
      with (n := 256%nat) (x := 0) (s := b); try assumption; try lia.
    intros k s s' Hk Hs Hstep.
    apply (colours_kept_trans _ _ s); [exact Hs |].
    apply (colours_kept_weaken (t k)); [intros i; apply Ht; exact Hk | apply Hbody; exact Hstep]. }
  destruct (bit (RenderDispCnt regs) 5) eqn:H5.
  - destruct (for_x 256 0 (edge_mark_pixel more y) bufs) as [b1|] eqn:H1; [| discriminate].
    cbn [mbind option_bind].
    apply (Hpass _ (fun k => eq (pixel_address y k)) bufs) in H1;
      [| apply edge_mark_pixel_kept
       | intros k i Hk <-; apply (two_layers_on_line y k); [lia | lia | left; reflexivity]
       | apply colours_kept_refl].
    revert H1. generalize b1. clear b1. intros b1 H1.
    destruct (bit (RenderDispCnt regs) 7) eqn:H7.
    + destruct (for_x 256 0 (fog_pixel regs more y) b1) as [b2|] eqn:H2; [| discriminate].
      cbn [mbind option_bind].
      apply (Hpass _ (fun k => two_layers (pixel_address y k)) bufs) in H2;
        [| apply fog_pixel_kept | intros k i Hk; apply two_layers_on_line; lia | exact H1].
      destruct (bit (RenderDispCnt regs) 4) eqn:H4.
      * intros H3.
        apply (Hpass _ (fun k => eq (pixel_address y k)) bufs) in H3;
          [| apply antialias_pixel_kept
           | intros k i Hk <-; apply (two_layers_on_line y k); [lia | lia | left; reflexivity]
           | exact H2].
        destruct H3 as [(C & _ & A & S & P) D].
        repeat split; try assumption; try apply C; try apply A; discriminate.
      * intros [= <-]. destruct H2 as [(C & _ & A & S & P) D].
        repeat split; try assumption; try apply C; try apply A; discriminate.
    + cbn [mbind option_bind].
      destruct (bit (RenderDispCnt regs) 4) eqn:H4.
      * intros H3.
        apply (Hpass _ (fun k => eq (pixel_address y k)) bufs) in H3;
          [| apply antialias_pixel_kept
           | intros k i Hk <-; apply (two_layers_on_line y k); [lia | lia | left; reflexivity]
           | exact H1].
        destruct H3 as [(C & _ & A & S & P) D].
        repeat split; try assumption; try apply C; try apply A; discriminate.
      * intros [= <-]. destruct H1 as [(C & _ & A & S & P) D].
        repeat split; try assumption; try apply C; try apply A; discriminate.
  - cbn [mbind option_bind].
    pose proof (colours_kept_refl (line_cells y) bufs) as H1.
    destruct (bit (RenderDispCnt regs) 7) eqn:H7.
    + destruct (for_x 256 0 (fog_pixel regs more y) bufs) as [b2|] eqn:H2; [| discriminate].
      cbn [mbind option_bind].
      apply (Hpass _ (fun k => two_layers (pixel_address y k)) bufs) in H2;
        [| apply fog_pixel_kept | intros k i Hk; apply two_layers_on_line; lia | exact H1].
      destruct (bit (RenderDispCnt regs) 4) eqn:H4.
      * intros H3.
        apply (Hpass _ (fun k => eq (pixel_address y k)) bufs) in H3;
          [| apply antialias_pixel_kept
           | intros k i Hk <-; apply (two_layers_on_line y k); [lia | lia | left; reflexivity]
           | exact H2].
        destruct H3 as [(C & _ & A & S & P) D].
        repeat split; try assumption; try apply C; try apply A; discriminate.
      * intros [= <-]. destruct H2 as [(C & _ & A & S & P) D].
        repeat split; try assumption; try apply C; try apply A; discriminate.
    + cbn [mbind option_bind].
      destruct (bit (RenderDispCnt regs) 4) eqn:H4.
      * intros H3.
        apply (Hpass _ (fun k => eq (pixel_address y k)) bufs) in H3;
          [| apply antialias_pixel_kept
           | intros k i Hk <-; apply (two_layers_on_line y k); [lia | lia | left; reflexivity]
           | exact H1].
        destruct H3 as [(C & _ & A & S & P) D].
        repeat split; try assumption; try apply C; try apply A; discriminate.
      * intros [= <-]. repeat split; try apply same_outside_refl; reflexivity.
Qed.

Lemma ScanlineFinalPass_stays_on_its_line_witness :
  exists bufs',
    ScanlineFinalPass (sample_registers 0xB0)
      {| RenderEdgeTable := replicate 8 0; RenderFogColor := 0;
         RenderClearAttr1 := 0; RenderClearAttr2 := 0 |} 1 (sample_buffers 0) = Some bufs' /\
    bufs'.(DepthBuffer) = (sample_buffers 0).(DepthBuffer) /\
    same_outside (line_cells 1) (sample_buffers 0).(ColorBuffer) bufs'.(ColorBuffer).
Proof.
  assert (exists bufs', ScanlineFinalPass (sample_registers 0xB0)
            {| RenderEdgeTable := replicate 8 0; RenderFogColor := 0;
               RenderClearAttr1 := 0; RenderClearAttr2 := 0 |} 1 (sample_buffers 0)
          = Some bufs') as [bufs' Hrun] by (vm_compute; eexists; reflexivity).
  exists bufs'. split; [exact Hrun |].
  destruct (ScanlineFinalPass_stays_on_its_line _ _ 1 _ _ ltac:(lia) Hrun)
    as (HD & _ & _ & HC & _).
  split; assumption.
Defined.

(** * Blends *)

Lemma expand5_u32_range (field : Z) : 0 <= expand5_u32 field <= 63.
Proof.
  unfold expand5_u32. cbv zeta.
  change 0x3E with (Z.shiftl 31 1).
  rewrite land_shifted_mask by lia. rewrite Z.shiftl_mul_pow2 by lia.
  pose proof (land_mask_range (Z.shiftr (u32 field) 1) 5 ltac:(lia)) as Hm.
  change (2 ^ 5 - 1) with 31 in Hm. change (2 ^ 1) with 2.
  set (c := Z.land (Z.shiftr (u32 field) 1) 31) in *.
  unfold nonzero. destruct (Z.eqb_spec (c * 2) 0); cbn [negb]; [lia |].
  rewrite u32_id by (unfold in_u32; lia). lia.
Qed.

(** A weighted mean of two values lies between them, and is one of them
    when the weight is at an end. *)
Lemma weighted_between (f s w sh : Z) :
  0 <= f < 2 ^ 8 -> 0 <= s < 2 ^ 8 -> 0 <= sh <= 8 -> 0 <= w <= 2 ^ sh ->
  between s (weighted f s w (2 ^ sh) sh) f /\
  (w = 0 -> weighted f s w (2 ^ sh) sh = s) /\
  (w = 2 ^ sh -> weighted f s w (2 ^ sh) sh = f).
Proof.
  intros Hf Hs Hsh Hw. unfold weighted, between.
  assert (0 < 2 ^ sh <= 2 ^ 8) as Hp
    by (split; [apply Z.pow_pos_nonneg; lia | apply Z.pow_le_mono_r; lia]).
  set (T := 2 ^ sh) in *.
  rewrite (u32_id (T - w)) by (unfold in_u32; lia).
  assert (0 <= f * w <= 2 ^ 8 * 2 ^ 8)
    by (split; [apply Z.mul_nonneg_nonneg | apply Z.mul_le_mono_nonneg]; lia).
  assert (0 <= s * (T - w) <= 2 ^ 8 * 2 ^ 8)
    by (split; [apply Z.mul_nonneg_nonneg | apply Z.mul_le_mono_nonneg]; lia).
  rewrite (u32_id (f * w)), (u32_id (s * (T - w))) by (unfold in_u32; lia).
  rewrite u32_id by (unfold in_u32; lia).
  rewrite Z.shiftr_div_pow2 by lia. fold T.
  split; [| split].
  - destruct (Z_le_gt_dec s f) as [Hle | Hgt].
    + left.
      assert (s * T <= f * w + s * (T - w)).
      { replace (f * w + s * (T - w)) with (s * T + (f - s) * w) by ring.
        assert (0 <= (f - s) * w) by (apply Z.mul_nonneg_nonneg; lia). lia. }
      assert (f * w + s * (T - w) <= f * T).
      { replace (f * w + s * (T - w)) with (f * T - (f - s) * (T - w)) by ring.
        assert (0 <= (f - s) * (T - w)) by (apply Z.mul_nonneg_nonneg; lia). lia. }
      split; [apply Z.div_le_lower_bound; lia |].
      apply Z.div_le_upper_bound; lia.
    + right.
      assert (f * T <= f * w + s * (T - w)).
      { replace (f * w + s * (T - w)) with (f * T + (s - f) * (T - w)) by ring.
        assert (0 <= (s - f) * (T - w)) by (apply Z.mul_nonneg_nonneg; lia). lia. }
      assert (f * w + s * (T - w) <= s * T).
      { replace (f * w + s * (T - w)) with (s * T - (s - f) * w) by ring.
        assert (0 <= (s - f) * w) by (apply Z.mul_nonneg_nonneg; lia). lia. }
      split; [apply Z.div_le_lower_bound; lia |].
      apply Z.div_le_upper_bound; lia.
  - intros ->. rewrite Z.mul_0_r, Z.add_0_l, Z.sub_0_r. apply Z.div_mul. lia.
  - intros ->. rewrite Z.sub_diag, Z.mul_0_r, Z.add_0_r. apply Z.div_mul. lia.
Qed.

Lemma between_range (lo hi a b v : Z) :
  lo <= a <= hi -> lo <= b <= hi -> between a v b -> lo <= v <= hi.
Proof. unfold between. lia. Qed.

Lemma pack_color_fields (r g b a : Z) :
  0 <= r < 64 -> 0 <= g < 64 -> 0 <= b < 64 -> 0 <= a < 256 ->
  chanR (pack_color r g b a) = r /\ chanG (pack_color r g b a) = g /\
  chanB (pack_color r g b a) = b /\ chanA (pack_color r g b a) = a.
Proof.
  intros Hr Hg Hb Ha. unfold pack_color.
  rewrite !u32_id by (unfold in_u32; rewrite Z.shiftl_mul_pow2 by lia; lia).
  destruct (pack_channels r g b a Hr Hg Hb Ha) as (_ & H). exact H.
Qed.

Lemma fog_density_range (regs : Registers) (bufs : Buffers) (pixeladdr d : Z) :
  CalculateFogDensity regs bufs pixeladdr = Some d -> 0 <= d <= 128.
Proof.
  unfold CalculateFogDensity.
  destruct (load (DepthBuffer bufs) pixeladdr) as [z|]; [| discriminate].
  cbn [mbind option_bind]. destruct (fog_index regs z) as [id frac].
  destruct (load _ id) as [t0|]; [| discriminate]. cbn [mbind option_bind].
  destruct (load _ _) as [t1|]; [| discriminate]. cbn [mbind option_bind].
  set (density := Z.shiftr _ 17).
  assert (0 <= density).
  { subst density. apply Z.shiftr_nonneg.
    match goal with |- 0 <= u32 ?v => pose proof (u32_range v) as Hu end.
    unfold in_u32 in Hu. lia. }
  unfold Z.geb. intros [= <-].
  destruct (Z.compare_spec density 127); lia.
Qed.

(** X22: the fog blend moves a pixel's colour towards the fog colour and
    never past it.  When fog_blend returns, the pixel holds a well-formed
    colour word whose alpha lies between the old alpha and the fog alpha;
    with the fog-colour mode on (bit 6 clear) each of its channels lies
    between the old channel and the fog channel, otherwise the channels
    are the old ones. *)
Theorem fog_blend_between (regs : Registers) (more : FrameRegisters)
    (bufs bufs' : Buffers) (pixeladdr c : Z) :
  fog_blend regs more bufs pixeladdr = Some bufs' ->
  load bufs.(ColorBuffer) pixeladdr = Some c ->
  exists c',
    load bufs'.(ColorBuffer) pixeladdr = Some c' /\
    (if bit regs.(RenderDispCnt) 6 then
       chanR c' = chanR c /\ chanG c' = chanG c /\ chanB c' = chanB c
     else
       between (chanR c) (chanR c') (expand5_u32 (Z.shiftl more.(RenderFogColor) 1)) /\
       between (chanG c) (chanG c') (expand5_u32 (Z.shiftr more.(RenderFogColor) 4)) /\
       between (chanB c) (chanB c') (expand5_u32 (Z.shiftr more.(RenderFogColor) 9))) /\
    between (Z.land (Z.shiftr c 24) 0x1F) (chanA c')
            (Z.land (Z.shiftr more.(RenderFogColor) 16) 0x1F) /\
    0 <= chanA c' <= 31.
Proof.
  unfold fog_blend. cbv zeta.
  destruct (CalculateFogDensity regs bufs pixeladdr) as [d|] eqn:Hd; [| discriminate].
  apply fog_density_range in Hd. cbn [mbind option_bind].
  intros Hrun Hc. rewrite Hc in Hrun. cbn [mbind option_bind] in Hrun.
  fold (chanR c) (chanG c) (chanB c) in Hrun.
  destruct (chan_range c) as (HR & HG & HB).
  pose proof (land_mask_range (Z.shiftr c 24) 5 ltac:(lia)) as HA.
  pose proof (land_mask_range (Z.shiftr (RenderFogColor more) 16) 5 ltac:(lia)) as HFA.
  change (2 ^ 5 - 1) with 31 in HA, HFA.
  pose proof (expand5_u32_range (Z.shiftl (RenderFogColor more) 1)) as HFR.
  pose proof (expand5_u32_range (Z.shiftr (RenderFogColor more) 4)) as HFG.
  pose proof (expand5_u32_range (Z.shiftr (RenderFogColor more) 9)) as HFB.
  set (fogR := expand5_u32 (Z.shiftl (RenderFogColor more) 1)) in *.
  set (fogG := expand5_u32 (Z.shiftr (RenderFogColor more) 4)) in *.
  set (fogB := expand5_u32 (Z.shiftr (RenderFogColor more) 9)) in *.
  set (fogA := Z.land (Z.shiftr (RenderFogColor more) 16) 31) in *.
  set (srcA := Z.land (Z.shiftr c 24) 31) in *.
  assert (forall f s, 0 <= f <= 63 -> 0 <= s <= 63 ->
            between s (weighted f s d 128 7) f /\ 0 <= weighted f s d 128 7 <= 63) as Hmix.
  { intros f s Hf Hs.
    destruct (weighted_between f s d 7 ltac:(lia) ltac:(lia) ltac:(lia) ltac:(lia)) as (Hb & _).
    change (2 ^ 7) with 128 in Hb. split; [exact Hb |].
    apply (between_range 0 63 s f); [lia | lia | exact Hb]. }
  destruct (Hmix fogA srcA ltac:(lia) ltac:(lia)) as (HbA & _).
  assert (0 <= weighted fogA srcA d 128 7 <= 31) as HrA
    by (apply (between_range 0 31 srcA fogA); [lia | lia | exact HbA]).
  destruct (bit (RenderDispCnt regs) 6); cbn [negb] in Hrun.
  - destruct (store (ColorBuffer bufs) pixeladdr _) as [colors|] eqn:Hst; [| discriminate].
    cbn [mbind option_bind] in Hrun. injection Hrun as <-. cbn [ColorBuffer].
    eexists. split; [exact (load_store_same _ _ _ _ Hst) |].
    destruct (pack_color_fields (chanR c) (chanG c) (chanB c) (weighted fogA srcA d 128 7))
      as (-> & -> & -> & ->); try lia.
    repeat split; try reflexivity; try exact HbA; lia.
  - destruct (Hmix fogR (chanR c) ltac:(lia) ltac:(lia)) as (HbR & HrR).
    destruct (Hmix fogG (chanG c) ltac:(lia) ltac:(lia)) as (HbG & HrG).
    destruct (Hmix fogB (chanB c) ltac:(lia) ltac:(lia)) as (HbB & HrB).
    destruct (store (ColorBuffer bufs) pixeladdr _) as [colors|] eqn:Hst; [| discriminate].
    cbn [mbind option_bind] in Hrun. injection Hrun as <-. cbn [ColorBuffer].
    eexists. split; [exact (load_store_same _ _ _ _ Hst) |].
    destruct (pack_color_fields (weighted fogR (chanR c) d 128 7)
                (weighted fogG (chanG c) d 128 7) (weighted fogB (chanB c) d 128 7)
                (weighted fogA srcA d 128 7)) as (-> & -> & -> & ->); try lia.
    repeat split; try assumption; lia.
Qed.

Lemma fog_blend_between_witness :
  exists c',
    (bufs' ← fog_blend
       {| RenderDispCnt := 0x80; RenderAlphaRef := 0; RenderFogOffset := 0;
          RenderFogShift := 0; RenderFogDensityTable := replicate 34 64;
          RenderToonTable := replicate 32 0 |}
       {| RenderEdgeTable := replicate 8 0; RenderFogColor := 0x1F7FFF;
          RenderClearAttr1 := 0; RenderClearAttr2 := 0 |}
       {| ColorBuffer := [0x10000021]; DepthBuffer := [0x4000]; AttrBuffer := [0x8000];
          StencilBuffer := []; PrevIsShadowMask := false |} 0;
     load bufs'.(ColorBuffer) 0) = Some c' /\
    between 0x21 (chanR c') 0x3F /\ between 0x10 (chanA c') 0x1F.
Proof.
  set (regs := {| RenderDispCnt := 0x80; RenderAlphaRef := 0; RenderFogOffset := 0;
                  RenderFogShift := 0; RenderFogDensityTable := replicate 34 64;
                  RenderToonTable := replicate 32 0 |}).
  set (more := {| RenderEdgeTable := replicate 8 0; RenderFogColor := 0x1F7FFF;
                  RenderClearAttr1 := 0; RenderClearAttr2 := 0 |}).
  set (bufs := {| ColorBuffer := [0x10000021]; DepthBuffer := [0x4000];
                  AttrBuffer := [0x8000]; StencilBuffer := [];
                  PrevIsShadowMask := false |}).
  assert (exists bufs', fog_blend regs more bufs 0 = Some bufs') as [bufs' Hrun]
    by (vm_compute; eexists; reflexivity).
  destruct (fog_blend_between regs more bufs bufs' 0 0x10000021 Hrun eq_refl)
    as (c' & Hload & Hrgb & Ha & _).
  exists c'. rewrite Hrun. cbn [mbind option_bind]. split; [exact Hload |].
  split; [exact (proj1 Hrgb) | exact Ha].
Defined.

(** * Clearing the buffers *)

Lemma for_step_invariant {S : Type} (Inv : nat -> S -> Prop) (body : Z -> S -> option S)
    (step x : Z) (n : nat) (s : S) :
  Inv O s ->
  (forall (i : nat) (t : S), (i < n)%nat -> Inv i t ->
     exists t', body (x + Z.of_nat i * step) t = Some t' /\ Inv (Datatypes.S i) t') ->
  exists s', for_step n x step body s = Some s' /\ Inv n s'.
Proof.
  revert Inv x s. induction n as [| n IH]; intros Inv x s H0 Hstep.
  - exists s. split; [reflexivity | exact H0].
  - destruct (Hstep O s ltac:(lia) H0) as (t & Ht & HI).
    replace (x + Z.of_nat 0 * step) with x in Ht by lia.
    cbn [for_step]. rewrite Ht. cbn [mbind option_bind].
    apply (IH (fun i => Inv (Datatypes.S i)) (x + step) t HI).
    intros i u Hi Hu. destruct (Hstep (Datatypes.S i) u ltac:(lia) Hu) as (u' & Hu' & HI').
    exists u'. split; [| exact HI'].
    rewrite <- Hu'. f_equal. lia.
Qed.

Lemma put_cell_cell (color depth attr i : Z) (b : Buffers) :
  two_layer_buffers b -> 0 <= i < 2 * BufferSize ->
  exists b',
    put_cell color depth attr i b = Some b' /\
    two_layer_buffers b' /\
    b'.(StencilBuffer) = b.(StencilBuffer) /\
    b'.(PrevIsShadowMask) = b.(PrevIsShadowMask) /\
    cell b' i = Some (color, depth, attr) /\
    (forall j, j <> i -> cell b' j = cell b j).
Proof.
  intros (HC & HD & HA) Hi. unfold put_cell.
  assert (forall (buf : list Z) (v : Z), Z.of_nat (length buf) = 2 * BufferSize ->
            exists buf', store buf i v = Some buf'
                         /\ Z.of_nat (length buf') = 2 * BufferSize
                         /\ load buf' i = Some v
                         /\ forall j, j <> i -> load buf' j = load buf j) as Hst.
  { intros buf v Hlen. unfold store.
    destruct (Z.leb_spec 0 i); [| lia].
    destruct (Z.ltb_spec i (Z.of_nat (length buf))); [| lia]. cbn [andb].
    eexists. split; [reflexivity |]. split; [rewrite length_insert; exact Hlen |].
    unfold load. split.
    - destruct (Z.leb_spec 0 i); [| lia]. apply list_lookup_insert_eq. lia.
    - intros j Hj. destruct (Z.leb_spec 0 j); [| reflexivity].
      apply list_lookup_insert_ne. lia. }
  destruct (Hst (ColorBuffer b) color HC) as (cs & -> & HC' & Hc1 & Hc2).
  destruct (Hst (DepthBuffer b) depth HD) as (ds & -> & HD' & Hd1 & Hd2).
  destruct (Hst (AttrBuffer b) attr HA) as (az & -> & HA' & Ha1 & Ha2).
  cbn [mbind option_bind]. eexists. split; [reflexivity |].
  unfold cell, two_layer_buffers. cbn [ColorBuffer DepthBuffer AttrBuffer StencilBuffer PrevIsShadowMask].
  repeat split; try assumption.
  - rewrite Hc1, Hd1, Ha1. reflexivity.
  - intros j Hj. rewrite (Hc2 j Hj), (Hd2 j Hj), (Ha2 j Hj). reflexivity.
Qed.

Lemma filled_start (V : Z -> Z -> Z * Z * Z) (b : Buffers) :
  two_layer_buffers b -> filled (fun _ _ => false) V b b.
Proof. intros Hb. repeat split; try apply Hb; intros; reflexivity. Qed.

Lemma filled_ext (W W' : Z -> Z -> bool) (V : Z -> Z -> Z * Z * Z) (b0 b : Buffers) :
  (forall r c, 0 <= r < NumScanlines -> 0 <= c < ScanlineWidth -> W r c = W' r c) ->
  filled W V b0 b -> filled W' V b0 b.
Proof.
  intros Hext (H1 & H2 & H3 & H4 & H5). repeat split; try apply H1; try assumption.
  intros r c Hr Hc. rewrite <- (Hext r c Hr Hc). apply H5; assumption.
Qed.

(** Writing one more cell of the first layer. *)
Lemma filled_put (W : Z -> Z -> bool) (V : Z -> Z -> Z * Z * Z) (color depth attr : Z)
    (b0 b : Buffers) (r0 c0 : Z) :
  filled W V b0 b ->
  V r0 c0 = (color, depth, attr) ->
  0 <= r0 < NumScanlines -> 0 <= c0 < ScanlineWidth ->
  exists b',
    put_cell color depth attr (ScanlineWidth * r0 + c0) b = Some b' /\
    filled (fun r c => W r c || ((r =? r0) && (c =? c0))) V b0 b'.
Proof.
  intros (H1 & H2 & H3 & H4 & H5) HV Hr0 Hc0. unfold filled.
  change BufferSize with 50052 in *. change NumScanlines with 194 in *.
  change ScanlineWidth with 258 in *.
  assert (0 <= 258 * r0 + c0 < 2 * 50052) as Hrange by lia.
  destruct (put_cell_cell color depth attr (258 * r0 + c0) b H1 Hrange)
    as (b' & Hput & Hs & Hst & Hp & Hat & Hother).
  exists b'. split; [exact Hput |].
  split; [exact Hs |]. split; [congruence |]. split; [congruence |]. split.
  - intros j Hj. rewrite Hother by lia. apply H4. exact Hj.
  - intros r c Hr Hc.
    destruct (Z.eqb_spec r r0) as [-> | Hne]; cbn [andb].
    + destruct (Z.eqb_spec c c0) as [-> | Hne]; cbn [andb orb].
      * rewrite orb_true_r, HV. exact Hat.
      * rewrite orb_false_r. rewrite Hother by lia. apply H5; assumption.
    + rewrite orb_false_r. rewrite Hother by lia. apply H5; assumption.
Qed.

Lemma for_x_as_step {S : Type} (body : Z -> S -> option S) (n : nat) :
  forall (x : Z) (s : S), for_x n x body s = for_step n x 1 body s.
Proof.
  induction n as [| n IH]; intros x s; [reflexivity |].
  cbn [for_x for_step]. destruct (body x s); [apply IH | reflexivity].
Qed.

Ltac by_cases :=
  repeat match goal with
         | |- context [?a =? ?b] => destruct (Z.eqb_spec a b)
         | |- context [?a <? ?b] => destruct (Z.ltb_spec a b)
         | |- context [?a <=? ?b] => destruct (Z.leb_spec a b)
         end;
  cbn [andb orb]; try reflexivity; try lia.

(** Inside the chosen cells only the values there matter. *)
Lemma filled_values (W : Z -> Z -> bool) (V V' : Z -> Z -> Z * Z * Z) (b0 b : Buffers) :
  (forall r c, 0 <= r < NumScanlines -> 0 <= c < ScanlineWidth -> W r c = true ->
     V r c = V' r c) ->
  filled W V b0 b -> filled W V' b0 b.
Proof.
  intros Hext (H1 & H2 & H3 & H4 & H5). repeat split; try apply H1; try assumption.
  intros r c Hr Hc. rewrite (H5 r c Hr Hc).
  destruct (W r c) eqn:HW; [| reflexivity]. rewrite (Hext r c Hr Hc HW). reflexivity.
Qed.

(** A run of [n] cells along row [r0], from column [c0]. *)
Lemma fill_row (V : Z -> Z -> Z * Z * Z) (color depth attr : Z) (b0 b : Buffers)
    (r0 c0 : Z) (n : nat) (W : Z -> Z -> bool) :
  filled W V b0 b ->
  (forall c, c0 <= c < c0 + Z.of_nat n -> V r0 c = (color, depth, attr)) ->
  0 <= r0 < NumScanlines -> 0 <= c0 -> c0 + Z.of_nat n <= ScanlineWidth ->
  exists b',
    for_step n (ScanlineWidth * r0 + c0) 1 (put_cell color depth attr) b = Some b' /\
    filled (fun r c => W r c || ((r =? r0) && (c0 <=? c) && (c <? c0 + Z.of_nat n))) V b0 b'.
Proof.
  intros Hb HV Hr0 Hc0 Hn.
  apply (for_step_invariant
           (fun i t => filled (fun r c => W r c
                                         || ((r =? r0) && (c0 <=? c) && (c <? c0 + Z.of_nat i)))
                              V b0 t)).
  - apply (filled_ext W); [| exact Hb].
    intros r c Hr Hc. destruct (W r c); [reflexivity |]. by_cases.
  - intros i t Hi Ht.
    destruct (filled_put _ V color depth attr b0 t r0 (c0 + Z.of_nat i) Ht
                ltac:(apply HV; lia) Hr0 ltac:(lia))
      as (t' & Hput & Ht').
    exists t'. split.
    + rewrite <- Hput. f_equal. lia.
    + eapply filled_ext; [| exact Ht'].
      intros r c Hr Hc. cbv beta. destruct (W r c); [reflexivity |].
      cbn [orb]. by_cases.
Qed.

Lemma clear_depth_range (attr2 : Z) : 0x1FF <= clear_depth attr2 <= 0xFFFFFF.
Proof.
  unfold clear_depth.
  pose proof (land_mask_range attr2 15 ltac:(lia)) as Hm.
  change (2 ^ 15 - 1) with 0x7FFF in Hm.
  rewrite (u32_id (_ * 512)) by (unfold in_u32; lia).
  rewrite u32_id by (unfold in_u32; lia). lia.
Qed.

Lemma for_step_reindex {S : Type} (body1 body2 : Z -> S -> option S)
    (step1 step2 : Z) (n : nat) :
  forall (x1 x2 : Z) (s : S),
    (forall (i : nat) (t : S), (i < n)%nat ->
       body1 (x1 + Z.of_nat i * step1) t = body2 (x2 + Z.of_nat i * step2) t) ->
    for_step n x1 step1 body1 s = for_step n x2 step2 body2 s.
Proof.
  induction n as [| n IH]; intros x1 x2 s Heq; [reflexivity |].
  cbn [for_step]. pose proof (Heq O s ltac:(lia)) as H0.
  replace (x1 + Z.of_nat 0 * step1) with x1 in H0 by lia.
  replace (x2 + Z.of_nat 0 * step2) with x2 in H0 by lia.
  rewrite H0. destruct (body2 x2 s) as [t|]; [| reflexivity]. cbn [mbind option_bind].
  apply IH. intros i u Hi. pose proof (Heq (Datatypes.S i) u ltac:(lia)) as Hi'.
  replace (x1 + step1 + Z.of_nat i * step1) with (x1 + Z.of_nat (Datatypes.S i) * step1) by lia.
  replace (x2 + step2 + Z.of_nat i * step2) with (x2 + Z.of_nat (Datatypes.S i) * step2) by lia.
  exact Hi'.
Qed.

(** The three border loops of ClearBuffers. *)
Lemma border_loops (color depth attr : Z) (bufs : Buffers) :
  two_layer_buffers bufs ->
  exists b3,
    (b1 ← for_upto_step 0 ScanlineWidth 1 (put_cell color depth attr) bufs;
     b2 ← for_upto_step ScanlineWidth (ScanlineWidth * 193) ScanlineWidth
            (fun x b => b ← put_cell color depth attr x b;
                        put_cell color depth attr (x + 257) b) b1;
     for_upto_step (ScanlineWidth * 193) (ScanlineWidth * 194) 1
       (put_cell color depth attr) b2) = Some b3 /\
    filled on_border (fun _ _ => (color, depth, attr)) bufs b3.
Proof.
  intros Hsz. unfold for_upto_step.
  change (Z.to_nat ((ScanlineWidth - 0 + 1 - 1) / 1)) with 258%nat.
  change (Z.to_nat ((ScanlineWidth * 193 - ScanlineWidth + ScanlineWidth - 1) / ScanlineWidth))
    with 192%nat.
  change (Z.to_nat ((ScanlineWidth * 194 - ScanlineWidth * 193 + 1 - 1) / 1)) with 258%nat.
  (* row 0 *)
  destruct (fill_row (fun _ _ => (color, depth, attr)) color depth attr bufs bufs 0 0 258
              (fun _ _ => false)
              (filled_start _ bufs Hsz) ltac:(reflexivity)
              ltac:(unfold NumScanlines; lia) ltac:(lia)
              ltac:(unfold ScanlineWidth; lia)) as (b1 & Hrun1 & H1).
  change (ScanlineWidth * 0 + 0) with 0 in Hrun1. rewrite Hrun1. cbn [mbind option_bind].
  (* columns 0 and 257 *)
  destruct (for_step_invariant
              (fun i t => filled (fun r c => (r =? 0)
                                             || ((1 <=? r) && (r <=? Z.of_nat i)
                                                 && ((c =? 0) || (c =? 257))))
                                 (fun _ _ => (color, depth, attr)) bufs t)
              (fun x b => b ← put_cell color depth attr x b;
                          put_cell color depth attr (x + 257) b)
              ScanlineWidth ScanlineWidth 192 b1) as (b2 & Hrun2 & H2).
  { eapply filled_ext; [| exact H1].
    intros r c Hr Hc. cbv beta. unfold ScanlineWidth in Hc. cbn [orb]. by_cases. }
  { intros i t Hi Ht.
    destruct (filled_put _ _ color depth attr bufs t (Z.of_nat i + 1) 0 Ht eq_refl
                ltac:(unfold NumScanlines; lia) ltac:(unfold ScanlineWidth; lia))
      as (t1 & Hp1 & Ht1).
    destruct (filled_put _ _ color depth attr bufs t1 (Z.of_nat i + 1) 257 Ht1 eq_refl
                ltac:(unfold NumScanlines; lia) ltac:(unfold ScanlineWidth; lia))
      as (t2 & Hp2 & Ht2).
    exists t2. split.
    - replace (ScanlineWidth + Z.of_nat i * ScanlineWidth)
        with (ScanlineWidth * (Z.of_nat i + 1) + 0) by lia.
      rewrite Hp1. cbn [mbind option_bind]. rewrite <- Hp2. f_equal. lia.
    - eapply filled_ext; [| exact Ht2].
      intros r c Hr Hc. cbv beta. unfold ScanlineWidth in Hc.
      replace (Z.of_nat (Datatypes.S i)) with (Z.of_nat i + 1) by lia. by_cases. }
  rewrite Hrun2. cbn [mbind option_bind].
  (* row 193 *)
  destruct (fill_row _ color depth attr bufs b2 193 0 258 _ H2 ltac:(reflexivity)
              ltac:(unfold NumScanlines; lia) ltac:(lia)
              ltac:(unfold ScanlineWidth; lia)) as (b3 & Hrun3 & H3).
  change (ScanlineWidth * 193 + 0) with (ScanlineWidth * 193) in Hrun3.
  exists b3. split; [exact Hrun3 |].
  eapply filled_ext; [| exact H3].
  intros r c Hr Hc. cbv beta. unfold on_border, ScanlineWidth, NumScanlines in *.
  change (Z.of_nat 192) with 192. change (Z.of_nat 258) with 258. by_cases.
Qed.

Lemma screen_address (i k : nat) :
  (i < 192)%nat -> (k < 256)%nat ->
  u32 (s32 (FirstPixelOffset + (0 + Z.of_nat i * ScanlineWidth)) + (0 + Z.of_nat k * 1))
  = ScanlineWidth * (Z.of_nat i + 1) + 1 + Z.of_nat k * 1.
Proof.
  intros Hi Hk. unfold FirstPixelOffset, ScanlineWidth.
  rewrite s32_id by (unfold in_s32; lia). rewrite u32_id by (unfold in_u32; lia). lia.
Qed.

Lemma on_screen_or_border (r c : Z) :
  0 <= r < NumScanlines -> 0 <= c < ScanlineWidth ->
  on_screen r c = negb (on_border r c).
Proof.
  unfold NumScanlines, ScanlineWidth, on_screen, on_border. intros Hr Hc. by_cases.
Qed.

(** X23: without a rear image, ClearBuffers run on buffers of two layers
    returns, and leaves in the first layer the clear colour, depth and
    attributes on the 192 x 256 cells of the screen and colour 0, the clear
    depth and the polygon id alone on the border around them; the second
    layer, the stencil buffer and the shadow-mask flag are as before. *)
Theorem ClearBuffers_plain (regs : Registers) (more : FrameRegisters) (vram : VRAM)
    (bufs : Buffers) :
  bit regs.(RenderDispCnt) 14 = false ->
  two_layer_buffers bufs ->
  exists bufs',
    ClearBuffers regs more vram bufs = Some bufs' /\
    filled (fun _ _ => true)
           (fun r c => if on_screen r c then clear_pixel more else border_cell more)
           bufs bufs'.
Proof.
  intros Hmode Hsz. unfold ClearBuffers. cbv zeta. rewrite Hmode.
  destruct (border_loops 0 (clear_depth (RenderClearAttr2 more))
              (Z.land (RenderClearAttr1 more) 0x3F000000) bufs Hsz) as (b3 & Hrun & H3).
  destruct (for_upto_step 0 ScanlineWidth 1 _ bufs) as [b1|]; [| discriminate].
  cbn [mbind option_bind] in Hrun |- *.
  destruct (for_upto_step ScanlineWidth _ _ _ b1) as [b2|]; [| discriminate].
  cbn [mbind option_bind] in Hrun |- *. rewrite Hrun. cbn [mbind option_bind].
  clear Hrun b1 b2.
  set (V := fun r c => if on_screen r c then clear_pixel more else border_cell more).
  assert (filled on_border V bufs b3) as H3'.
  { eapply filled_values; [| exact H3].
    intros r c Hr Hc HW. unfold V. rewrite (on_screen_or_border r c Hr Hc), HW. reflexivity. }
  clear H3. unfold for_upto_step.
  change (Z.to_nat ((ScanlineWidth * 192 - 0 + ScanlineWidth - 1) / ScanlineWidth))
    with 192%nat.
  destruct (for_step_invariant
              (fun i t => filled (fun r c => on_border r c
                                             || ((1 <=? r) && (r <=? Z.of_nat i)
                                                 && (1 <=? c) && (c <=? 256)))
                                 V bufs t)
              (fun y b =>
                 for_x 256 0
                   (fun x b => put_cell (fst (fst (clear_pixel more)))
                                 (snd (fst (clear_pixel more))) (snd (clear_pixel more))
                                 (u32 (s32 (FirstPixelOffset + y) + x)) b) b)
              ScanlineWidth 0 192 b3) as (b4 & Hrun4 & H4).
  { eapply filled_ext; [| exact H3'].
    intros r c Hr Hc. cbv beta. destruct (on_border r c); [reflexivity |]. cbn [orb].
    by_cases. }
  { intros i t Hi Ht.
    destruct (fill_row V _ _ _ bufs t (Z.of_nat i + 1) 1 256 _ Ht
                ltac:(intros c Hc; unfold V, on_screen;
                      destruct (Z.leb_spec 1 (Z.of_nat i + 1)); [| lia];
                      destruct (Z.leb_spec (Z.of_nat i + 1) 192); [| lia];
                      destruct (Z.leb_spec 1 c); [| lia];
                      destruct (Z.leb_spec c 256); [| lia];
                      cbn [andb]; reflexivity)
                ltac:(unfold NumScanlines; lia) ltac:(lia)
                ltac:(unfold ScanlineWidth; lia)) as (t' & Hrow & Ht').
    exists t'. split.
    - rewrite for_x_as_step. rewrite <- Hrow.
      apply for_step_reindex. intros k u Hk. cbv beta.
      rewrite (screen_address i k Hi Hk). reflexivity.
    - eapply filled_ext; [| exact Ht'].
      intros r c Hr Hc. cbv beta. destruct (on_border r c); [reflexivity |]. cbn [orb].
      unfold ScanlineWidth in Hc.
      replace (Z.of_nat (Datatypes.S i)) with (Z.of_nat i + 1) by lia.
      change (Z.of_nat 256) with 256. by_cases. }
  exists b4. split; [exact Hrun4 |].
  eapply filled_ext; [| exact H4].
  intros r c Hr Hc. cbv beta. unfold on_border, NumScanlines, ScanlineWidth in *.
  change (Z.of_nat 192) with 192. by_cases.
Qed.

Lemma image_pixel_cell (vram : VRAM) (polyid y x : Z) (b : Buffers) (xo yo : Z) :
  image_pixel vram polyid y x (b, xo, yo) =
  (v ← image_cell vram polyid xo yo;
   b' ← put_cell (fst (fst v)) (snd (fst v)) (snd v) (u32 (s32 (FirstPixelOffset + y) + x)) b;
   Some (b', u8 (xo + 1), yo)).
Proof.
  unfold image_pixel, image_cell.
  destruct (rear_image_reads vram xo yo) as [[val2 val3] |]; reflexivity.
Qed.

Lemma image_cell_ok (vram : VRAM) (polyid xo yo : Z) :
  Z.of_nat (length vram.(VRAMFlat_Texture)) = 0x80000 ->
  is_Some (image_cell vram polyid xo yo).
Proof.
  intros Htex. unfold image_cell, rear_image_reads.
  repeat read_next Htex Htex. eauto.
Qed.

Lemma u8_step (a : Z) : u8 (u8 a + 1) = u8 (a + 1).
Proof. unfold u8, wrap_unsigned. apply Zplus_mod_idemp_l. Qed.

Lemma u8_turn (a : Z) : 0 <= a < 256 -> u8 (a + 256) = a.
Proof.
  intros Ha. unfold u8, wrap_unsigned. change (2 ^ 8) with 256.
  replace (a + 256) with (a + 1 * 256) by lia. rewrite Z.mod_add by lia.
  apply Z.mod_small. exact Ha.
Qed.

(** One row of the rear image. *)
Lemma image_row_fill (vram : VRAM) (polyid : Z) (V : Z -> Z -> Z * Z * Z) (b0 b : Buffers)
    (xo yo : Z) (i : nat) (W : Z -> Z -> bool) :
  filled W V b0 b -> 0 <= xo < 256 -> (i < 192)%nat ->
  (forall k : nat, (k < 256)%nat ->
     image_cell vram polyid (u8 (xo + Z.of_nat k)) yo
     = Some (V (Z.of_nat i + 1) (1 + Z.of_nat k))) ->
  exists b',
    image_row vram polyid (0 + Z.of_nat i * ScanlineWidth) (b, xo, yo)
    = Some (b', xo, u8 (yo + 1)) /\
    filled (fun r c => W r c || ((r =? Z.of_nat i + 1) && (1 <=? c) && (c <? 1 + 256)))
           V b0 b'.
Proof.
  intros Hb Hxo Hi HV. unfold image_row. rewrite for_x_as_step.
  destruct (for_step_invariant
              (fun k (st : image_state) =>
                 snd st = yo /\ snd (fst st) = u8 (xo + Z.of_nat k) /\
                 filled (fun r c => W r c
                                    || ((r =? Z.of_nat i + 1) && (1 <=? c)
                                        && (c <? 1 + Z.of_nat k)))
                        V b0 (fst (fst st)))
              (image_pixel vram polyid (0 + Z.of_nat i * ScanlineWidth))
              1 0 256 (b, xo, yo)) as ([[b' xo'] yo'] & Hrun & Hyo & Hxo' & Hb').
  { cbn [fst snd]. split; [reflexivity |]. split.
    - change (Z.of_nat 0) with 0. rewrite Z.add_0_r. symmetry. apply u8_id.
      unfold in_u8. lia.
    - apply (filled_ext W); [| exact Hb].
      intros r c Hr Hc. destruct (W r c); [reflexivity |]. by_cases. }
  { intros k [[t x] y'] Hk (Hy & Hx & Ht). cbn [fst snd] in Hy, Hx, Ht. subst x y'.
    rewrite image_pixel_cell, (HV k Hk). cbn [mbind option_bind].
    destruct (V (Z.of_nat i + 1) (1 + Z.of_nat k)) as [[color depth] attr] eqn:HVk.
    cbn [fst snd].
    destruct (filled_put _ V color depth attr b0 t (Z.of_nat i + 1) (1 + Z.of_nat k) Ht HVk
                ltac:(unfold NumScanlines; lia) ltac:(unfold ScanlineWidth; lia))
      as (t' & Hput & Ht').
    rewrite (screen_address i k Hi Hk).
    replace (ScanlineWidth * (Z.of_nat i + 1) + 1 + Z.of_nat k * 1)
      with (ScanlineWidth * (Z.of_nat i + 1) + (1 + Z.of_nat k)) by lia.
    rewrite Hput. cbn [mbind option_bind]. eexists. split; [reflexivity |].
    cbn [fst snd]. split; [reflexivity |]. split.
    - rewrite u8_step. f_equal. lia.
    - eapply filled_ext; [| exact Ht'].
      intros r c Hr Hc. cbv beta. destruct (W r c); [reflexivity |]. cbn [orb].
      by_cases. }
  rewrite Hrun. cbn [mbind option_bind fst snd] in *. subst yo' xo'.
  change (Z.of_nat 256) with 256 in *. rewrite (u8_turn xo Hxo).
  exists b'. split; [reflexivity | exact Hb'].
Qed.

(** X24: with a rear image and texture memory of 512 KB, ClearBuffers run
    on buffers of two layers returns; the cell of screen row [r] and column
    [c] (from 1) holds the texel of the rear image at the offsets of
    RenderClearAttr2 moved by [c - 1] and [r - 1], each wrapped to 8 bits,
    and the border holds colour 0, the clear depth and the polygon id. *)
Theorem ClearBuffers_rear_image (regs : Registers) (more : FrameRegisters) (vram : VRAM)
    (bufs : Buffers) :
  bit regs.(RenderDispCnt) 14 = true ->
  two_layer_buffers bufs ->
  Z.of_nat (length vram.(VRAMFlat_Texture)) = 0x80000 ->
  exists bufs',
    ClearBuffers regs more vram bufs = Some bufs' /\
    filled (fun _ _ => true) (rear_plane more vram) bufs bufs' /\
    forall r c, on_screen r c = true ->
      image_cell vram (Z.land more.(RenderClearAttr1) 0x3F000000)
        (u8 (Z.land (Z.shiftr more.(RenderClearAttr2) 16) 0xFF + (c - 1)))
        (u8 (Z.land (Z.shiftr more.(RenderClearAttr2) 24) 0xFF + (r - 1)))
      = Some (rear_plane more vram r c).
Proof.
  intros Hmode Hsz Htex. unfold ClearBuffers. cbv zeta. rewrite Hmode.
  destruct (border_loops 0 (clear_depth (RenderClearAttr2 more))
              (Z.land (RenderClearAttr1 more) 0x3F000000) bufs Hsz) as (b3 & Hrun & H3).
  destruct (for_upto_step 0 ScanlineWidth 1 _ bufs) as [b1|]; [| discriminate].
  cbn [mbind option_bind] in Hrun |- *.
  destruct (for_upto_step ScanlineWidth _ _ _ b1) as [b2|]; [| discriminate].
  cbn [mbind option_bind] in Hrun |- *. rewrite Hrun. cbn [mbind option_bind].
  clear Hrun b1 b2.
  set (polyid := Z.land (RenderClearAttr1 more) 0x3F000000).
  set (xoff := u8 (Z.land (Z.shiftr (RenderClearAttr2 more) 16) 0xFF)).
  set (yoff := u8 (Z.land (Z.shiftr (RenderClearAttr2 more) 24) 0xFF)).
  assert (0 <= xoff < 256) as Hxoff by apply u8_range.
  assert (forall r c, on_screen r c = true ->
            image_cell vram polyid (u8 (xoff + (c - 1))) (u8 (yoff + (r - 1)))
            = Some (rear_plane more vram r c)) as Hcell.
  { intros r c Hon. unfold rear_plane. rewrite Hon. fold polyid xoff yoff.
    destruct (image_cell_ok vram polyid (u8 (xoff + (c - 1))) (u8 (yoff + (r - 1))) Htex)
      as [v ->]. reflexivity. }
  assert (filled on_border (rear_plane more vram) bufs b3) as H3'.
  { eapply filled_values; [| exact H3].
    intros r c Hr Hc HW. unfold rear_plane.
    rewrite (on_screen_or_border r c Hr Hc), HW. reflexivity. }
  clear H3. unfold for_upto_step.
  change (Z.to_nat ((ScanlineWidth * 192 - 0 + ScanlineWidth - 1) / ScanlineWidth))
    with 192%nat.
  destruct (for_step_invariant
              (fun i (st : image_state) =>
                 snd st = u8 (yoff + Z.of_nat i) /\ snd (fst st) = xoff /\
                 filled (fun r c => on_border r c
                                    || ((1 <=? r) && (r <=? Z.of_nat i)
                                        && (1 <=? c) && (c <=? 256)))
                        (rear_plane more vram) bufs (fst (fst st)))
              (image_row vram polyid)
              ScanlineWidth 0 192 (b3, xoff, yoff))
    as ([[b4 xo] yo] & Hrun4 & _ & _ & H4).
  { cbn [fst snd]. split; [| split; [reflexivity |]].
    - change (Z.of_nat 0) with 0. rewrite Z.add_0_r. symmetry. apply u8_id. apply u8_range.
    - eapply filled_ext; [| exact H3'].
      intros r c Hr Hc. cbv beta. destruct (on_border r c); [reflexivity |]. cbn [orb].
      by_cases. }
  { intros i [[t x] y'] Hi (Hy & Hx & Ht). cbn [fst snd] in Hy, Hx, Ht. subst x y'.
    destruct (image_row_fill vram polyid (rear_plane more vram) bufs t xoff
                (u8 (yoff + Z.of_nat i)) i _ Ht Hxoff Hi) as (t' & Hrow & Ht').
    { intros k Hk.
      rewrite <- (Hcell (Z.of_nat i + 1) (1 + Z.of_nat k)).
      - f_equal; f_equal; lia.
      - unfold on_screen. by_cases. }
    rewrite Hrow. eexists. split; [reflexivity |]. cbn [fst snd].
    split; [| split; [reflexivity |]].
    - rewrite u8_step. f_equal. lia.
    - eapply filled_ext; [| exact Ht'].
      intros r c Hr Hc. cbv beta. destruct (on_border r c); [reflexivity |]. cbn [orb].
      unfold ScanlineWidth in Hc.
      replace (Z.of_nat (Datatypes.S i)) with (Z.of_nat i + 1) by lia. by_cases. }
  rewrite Hrun4. cbn [mbind option_bind]. exists b4. split; [reflexivity |]. split.
  - eapply filled_ext; [| exact H4].
    intros r c Hr Hc. cbv beta. unfold on_border, NumScanlines, ScanlineWidth in *.
    change (Z.of_nat 192) with 192. by_cases.
  - intros r c Hon. rewrite <- (Hcell r c Hon). unfold xoff, yoff.
    rewrite !(u8_id (Z.land _ 0xFF)); [reflexivity | |];
      unfold in_u8; apply (land_mask_range _ 8); lia.
Qed.

Lemma ClearBuffers_plain_witness :
  exists bufs',
    ClearBuffers (sample_registers 0) (sample_frame_registers 0x3F1F7FFF 0x7FFF) blank_vram
      blank_frame = Some bufs' /\
    cell bufs' (ScanlineWidth * 1 + 1) = Some (0x1F3F3F3F, 0xFFFFFF, 0x3F000000) /\
    cell bufs' (ScanlineWidth * 1 + 0) = Some (0, 0xFFFFFF, 0x3F000000).
Proof.
  assert (two_layer_buffers blank_frame) as Hsz
    by (unfold two_layer_buffers; split; [| split]; vm_compute; reflexivity).
  destruct (ClearBuffers_plain (sample_registers 0) (sample_frame_registers 0x3F1F7FFF 0x7FFF)
              blank_vram blank_frame eq_refl Hsz)
    as (bufs' & Hrun & _ & _ & _ & _ & Hcells).
  exists bufs'. split; [exact Hrun |]. split.
  - rewrite (Hcells 1 1) by (vm_compute; split; congruence). vm_compute. reflexivity.
  - rewrite (Hcells 1 0) by (vm_compute; split; congruence). vm_compute. reflexivity.
Defined.

Lemma ClearBuffers_rear_image_witness :
  exists bufs',
    ClearBuffers (sample_registers 0x4000) (sample_frame_registers 0 0xFF800000) blank_vram
      blank_frame = Some bufs' /\
    cell bufs' (ScanlineWidth * 2 + 129) = Some (0, 0x1FF, 0).
Proof.
  assert (two_layer_buffers blank_frame) as Hsz
    by (unfold two_layer_buffers; split; [| split]; vm_compute; reflexivity).
  assert (Z.of_nat (length blank_vram.(VRAMFlat_Texture)) = 0x80000) as Htex
    by (vm_compute; reflexivity).
  destruct (ClearBuffers_rear_image (sample_registers 0x4000)
              (sample_frame_registers 0 0xFF800000) blank_vram blank_frame eq_refl Hsz Htex)
    as (bufs' & Hrun & (_ & _ & _ & _ & Hcells) & Himage).
  exists bufs'. split; [exact Hrun |].
  rewrite (Hcells 2 129) by (vm_compute; split; congruence). cbv beta iota.
  rewrite <- (Himage 2 129 eq_refl). vm_compute. reflexivity.
Defined.

(** * The polygons of a scanline *)

Lemma RenderShadowMaskScanline_draws_nothing
    (regs : Registers) (uninit : Interpolator.t) (bufs bufs' : Buffers)
    (rp rp' : RendererPolygon) (y : Z) :
  RenderShadowMaskScanline regs uninit bufs rp y = Some (bufs', rp') ->
  bufs'.(ColorBuffer) = bufs.(ColorBuffer) /\
  bufs'.(DepthBuffer) = bufs.(DepthBuffer) /\
  bufs'.(AttrBuffer) = bufs.(AttrBuffer) /\
  bufs'.(PrevIsShadowMask) = true /\
  rp'.(PolyData) = rp.(PolyData).
Proof.
  unfold RenderShadowMaskScanline. cbv zeta.
  set (polygon := PolyData rp) in *.
  bind_next.
  assert (PolyData r = polygon) as Hpoly.
  { destruct (negb (YTop polygon =? YBottom polygon));
      [| injection Hstep as <-; reflexivity].
    destruct (load (Vertices polygon) (NextVL rp)) as [vl|]; [| discriminate].
    cbn [mbind option_bind] in Hstep.
    destruct (if (y >=? snd (FinalPosition vl)) && negb (CurVL rp =? VBottom polygon)
              then SetupPolygonLeftEdge rp y else Some rp) as [rp1|] eqn:H1; [| discriminate].
    cbn [mbind option_bind] in Hstep.
    assert (PolyData rp1 = polygon) as Hp1.
    { destruct ((y >=? snd (FinalPosition vl)) && negb (CurVL rp =? VBottom polygon)).
      - apply (proj1 (edge_setup_keeps_polygon rp rp1 y)). exact H1.
      - injection H1 as <-. reflexivity. }
    destruct (load (Vertices polygon) (NextVR rp1)) as [vr|]; [| discriminate].
    cbn [mbind option_bind] in Hstep.
    destruct ((y >=? snd (FinalPosition vr)) && negb (CurVR rp1 =? VBottom polygon)).
    - rewrite <- Hp1. apply (proj2 (edge_setup_keeps_polygon rp1 r y)). exact Hstep.
    - injection Hstep as <-. exact Hp1. }
  clear Hstep.
  destruct (if (_ <? 31) || _ then (true, true) else _) as [lf rf].
  do 8 bind_next.
  destruct (if XL r >? XR r then _ else _) as [[[[[[[[[xs xe] wl] wr] zl] zr] lf'] rf'] le] re].
  destruct (_ <=? RenderAlphaRef regs).
  { intros [= <- <-]. cbn. repeat split; try reflexivity. exact Hpoly. }
  bind_next. destruct p as [x1 st1].
  bind_next. destruct p as [x2 st2].
  bind_next. destruct p as [x3 st3].
  destruct (Slope.Step (SlopeL r)) as [sl XL']. destruct (Slope.Step (SlopeR r)) as [sr XR'].
  intros [= <- <-]. cbn. repeat split; reflexivity.
Qed.

Lemma fold_kind_step (y : Z) (rest : list RendererPolygon) (rp : RendererPolygon)
    (flag : bool) :
  last_kind_on_line y (rp :: rest) flag
  = last_kind_on_line y rest
      (if on_scanline rp.(PolyData) y then rp.(PolyData).(IsShadowMask) else flag).
Proof. reflexivity. Qed.

Lemma RenderScanline_from_spec (regs : Registers) (vram : VRAM)
    (uninit : nat -> Interpolator.t) (y : Z) (PolygonList : list RendererPolygon) :
  forall (i : nat) (bufs bufs' : Buffers) (PolygonList' : list RendererPolygon),
    RenderScanline_from regs vram uninit y i PolygonList bufs = Some (bufs', PolygonList') ->
    map PolyData PolygonList' = map PolyData PolygonList /\
    bufs'.(PrevIsShadowMask) = last_kind_on_line y PolygonList bufs.(PrevIsShadowMask) /\
    (forall (k : nat) (rp : RendererPolygon),
       PolygonList !! k = Some rp -> on_scanline rp.(PolyData) y = false ->
       PolygonList' !! k = Some rp) /\
    ((forall rp, In rp PolygonList -> on_scanline rp.(PolyData) y = false) -> bufs' = bufs) /\
    ((forall rp, In rp PolygonList -> on_scanline rp.(PolyData) y = true ->
        rp.(PolyData).(IsShadowMask) = true) ->
     bufs'.(ColorBuffer) = bufs.(ColorBuffer) /\ bufs'.(DepthBuffer) = bufs.(DepthBuffer) /\
     bufs'.(AttrBuffer) = bufs.(AttrBuffer)).
Proof.
  induction PolygonList as [| rp rest IH]; intros i bufs bufs' PolygonList'.
  - cbn [RenderScanline_from]. intros [= <- <-].
    repeat split; try reflexivity. intros k rp Hk. rewrite lookup_nil in Hk. discriminate.
  - cbn [RenderScanline_from]. bind_next. destruct p as [b1 rp1].
    bind_next. destruct p as [b2 rest']. intros [= <- <-].
    destruct (IH _ _ _ _ Hstep0) as (Hmap & Hflag & Hslots & Hnone & Hmasks).
    rewrite fold_kind_step.
    assert (PolyData rp1 = PolyData rp /\
            b1.(PrevIsShadowMask)
            = (if on_scanline rp.(PolyData) y then rp.(PolyData).(IsShadowMask)
               else bufs.(PrevIsShadowMask)) /\
            (on_scanline rp.(PolyData) y = false -> b1 = bufs /\ rp1 = rp) /\
            (rp.(PolyData).(IsShadowMask) = true ->
             b1.(ColorBuffer) = bufs.(ColorBuffer) /\ b1.(DepthBuffer) = bufs.(DepthBuffer) /\
             b1.(AttrBuffer) = bufs.(AttrBuffer))) as (Hp1 & Hf1 & Hoff & Hmask).
    { destruct (on_scanline (PolyData rp) y).
      - destruct (IsShadowMask (PolyData rp)).
        + destruct (RenderShadowMaskScanline_draws_nothing _ _ _ _ _ _ _ Hstep)
            as (HC & HD & HA & HF & HP).
          repeat split; try assumption; discriminate.
        + destruct (RenderPolygonScanline_invariant (fun b => b.(PrevIsShadowMask) = false)
                      regs vram (uninit i) bufs b1 rp rp1 y) as [HF HP];
            [| reflexivity | exact Hstep |].
          * intros polyattr edge cover edgecov zl zr ends k st st' _ Hst Hb.
            destruct (span_pixel_frame _ _ _ _ _ _ _ _ _ _ _ _ _ _ _ Hb)
              as (_ & _ & _ & _ & HP). congruence.
          * repeat split; try assumption; discriminate.
      - injection Hstep as <- <-. repeat split; reflexivity. }
    split; [cbn [map]; rewrite Hp1, Hmap; reflexivity |].
    split; [rewrite Hflag, Hf1; reflexivity |].
    split; [| split].
    + intros [| k] rp0 Hk Hoff0.
      * cbn in Hk. injection Hk as <-. destruct (Hoff Hoff0) as [_ ->]. reflexivity.
      * cbn in Hk |- *. apply Hslots; assumption.
    + intros Hall. rewrite Hnone by (intros rp0 Hin; apply Hall; right; exact Hin).
      apply Hoff. apply Hall. left. reflexivity.
    + intros Hall.
      destruct Hmasks as (HC & HD & HA);
        [intros rp0 Hin; apply Hall; right; exact Hin |].
      rewrite HC, HD, HA.
      destruct (on_scanline (PolyData rp) y) eqn:Hon.
      * apply Hmask. apply Hall; [left; reflexivity | exact Hon].
      * destruct (Hoff eq_refl) as [-> _]. repeat split; reflexivity.
Qed.

(** X25: RenderScanline keeps the polygon list in step with the polygons.
    When it returns, every slot still refers to its polygon, the slots of
    the polygons that are not on line [y] are as before, and if no polygon
    is on the line the buffers are returned as they were. *)
Theorem RenderScanline_keeps_slots (regs : Registers) (vram : VRAM)
    (uninit : nat -> Interpolator.t) (y : Z) (PolygonList PolygonList' : list RendererPolygon)
    (bufs bufs' : Buffers) :
  RenderScanline regs vram uninit y PolygonList bufs = Some (bufs', PolygonList') ->
  map PolyData PolygonList' = map PolyData PolygonList /\
  (forall (k : nat) (rp : RendererPolygon),
     PolygonList !! k = Some rp -> on_scanline rp.(PolyData) y = false ->
     PolygonList' !! k = Some rp) /\
  ((forall rp, In rp PolygonList -> on_scanline rp.(PolyData) y = false) -> bufs' = bufs).
Proof.
  intros Hrun. destruct (RenderScanline_from_spec _ _ _ _ _ _ _ _ _ Hrun)
    as (Hmap & _ & Hslots & Hnone & _).
  split; [exact Hmap |]. split; [exact Hslots | exact Hnone].
Qed.

Lemma RenderScanline_keeps_slots_witness :
  exists m p bufs' m' p',
    sample_setup (sample_triangle 0x001F0000 true false) = Some m /\
    sample_setup (sample_triangle 0x001F0000 false false) = Some p /\
    RenderScanline (sample_registers 0) blank_vram (fun _ => Interpolator.blank) 1 [m; p]
      (sample_buffers 0) = Some (bufs', [m'; p']) /\
    m'.(PolyData) = m.(PolyData) /\ p'.(PolyData) = p.(PolyData).
Proof.
  assert (exists m, sample_setup (sample_triangle 0x001F0000 true false) = Some m)
    as [m Hm] by (vm_compute; eexists; reflexivity).
  assert (exists p, sample_setup (sample_triangle 0x001F0000 false false) = Some p)
    as [p Hp] by (vm_compute; eexists; reflexivity).
  assert (exists bufs' m' p',
            RenderScanline (sample_registers 0) blank_vram (fun _ => Interpolator.blank) 1
              [m; p] (sample_buffers 0) = Some (bufs', [m'; p']))
    as (bufs' & m' & p' & Hrun).
  { vm_compute in Hm, Hp. injection Hm as <-. injection Hp as <-.
    vm_compute. do 3 eexists. reflexivity. }
  exists m, p, bufs', m', p'. split; [exact Hm |]. split; [exact Hp |].
  split; [exact Hrun |].
  destruct (RenderScanline_keeps_slots _ _ _ _ _ _ _ _ Hrun) as (Hmap & _).
  cbn [map] in Hmap. injection Hmap as H1 H2. split; assumption.
Defined.

(** X26: after RenderScanline the shadow-mask flag tells the kind of the
    last polygon drawn on the line (the flag is as before if there was
    none), and a line on which only shadow masks were drawn has its colour,
    depth and attribute buffers unchanged. *)
Theorem RenderScanline_flag_is_last_kind (regs : Registers) (vram : VRAM)
    (uninit : nat -> Interpolator.t) (y : Z) (PolygonList PolygonList' : list RendererPolygon)
    (bufs bufs' : Buffers) :
  RenderScanline regs vram uninit y PolygonList bufs = Some (bufs', PolygonList') ->
  bufs'.(PrevIsShadowMask) = last_kind_on_line y PolygonList bufs.(PrevIsShadowMask) /\
  ((forall rp, In rp PolygonList -> on_scanline rp.(PolyData) y = true ->
      rp.(PolyData).(IsShadowMask) = true) ->
   bufs'.(ColorBuffer) = bufs.(ColorBuffer) /\ bufs'.(DepthBuffer) = bufs.(DepthBuffer) /\
   bufs'.(AttrBuffer) = bufs.(AttrBuffer)).
Proof.
  intros Hrun. destruct (RenderScanline_from_spec _ _ _ _ _ _ _ _ _ Hrun)
    as (_ & Hflag & _ & _ & Hmasks).
  split; [exact Hflag | exact Hmasks].
Qed.

Lemma RenderScanline_flag_is_last_kind_witness :
  exists m out,
    sample_setup (sample_triangle 0x001F0000 true false) = Some m /\
    RenderScanline (sample_registers 0) blank_vram (fun _ => Interpolator.blank) 0 [m]
      (sample_buffers 0) = Some out /\
    (sample_buffers 0).(PrevIsShadowMask) = false /\
    (fst out).(PrevIsShadowMask) = true /\
    (fst out).(ColorBuffer) = (sample_buffers 0).(ColorBuffer).
Proof.
  assert (exists m, sample_setup (sample_triangle 0x001F0000 true false) = Some m)
    as [m Hm] by (vm_compute; eexists; reflexivity).
  assert (exists out,
            RenderScanline (sample_registers 0) blank_vram (fun _ => Interpolator.blank) 0
              [m] (sample_buffers 0) = Some out)
    as ([bufs' l'] & Hrun).
  { vm_compute in Hm. injection Hm as <-. vm_compute. eexists. reflexivity. }
  exists m, (bufs', l'). split; [exact Hm |]. split; [exact Hrun |].
  split; [reflexivity |].
  destruct (RenderScanline_flag_is_last_kind _ _ _ _ _ _ _ _ Hrun) as (Hflag & Hmasks).
  cbn [fst]. vm_compute in Hm. injection Hm as <-. split.
  - rewrite Hflag. reflexivity.
  - apply Hmasks. intros rp [<- | []] _. reflexivity.
Defined.

(** * Anti-aliasing and edge marking *)

(** X27: anti-aliasing blends an edge pixel with the pixel underneath and
    never leaves the range the two span.  A pixel without edge flags or
    with full coverage keeps its colour, coverage 0 copies the colour
    underneath, and otherwise the new alpha lies between the two alphas and
    each colour channel lies between the two channels (or is the top one
    when the pixel underneath is fully transparent). *)
Theorem antialias_pixel_between (y x : Z) (bufs bufs' : Buffers) (attr top bot : Z) :
  antialias_pixel y x bufs = Some bufs' ->
  load bufs.(AttrBuffer) (pixel_address y x) = Some attr ->
  load bufs.(ColorBuffer) (pixel_address y x) = Some top ->
  load bufs.(ColorBuffer) (u32 (pixel_address y x + BufferSize)) = Some bot ->
  exists c',
    load bufs'.(ColorBuffer) (pixel_address y x) = Some c' /\
    if negb (nonzero (Z.land attr 0x3)) || (Z.land (Z.shiftr attr 8) 0x1F =? 0x1F)
    then c' = top
    else if Z.land (Z.shiftr attr 8) 0x1F =? 0 then c' = bot
    else
      between (Z.land (Z.shiftr bot 24) 0x1F) (chanA c') (Z.land (Z.shiftr top 24) 0x1F) /\
      if Z.land (Z.shiftr bot 24) 0x1F >? 0 then
        between (chanR bot) (chanR c') (chanR top) /\
        between (chanG bot) (chanG c') (chanG top) /\
        between (chanB bot) (chanB c') (chanB top)
      else chanR c' = chanR top /\ chanG c' = chanG top /\ chanB c' = chanB top.
Proof.
  unfold antialias_pixel. cbv zeta. set (pa := pixel_address y x).
  intros Hrun Hattr Htop Hbot. rewrite Hattr in Hrun. cbn [mbind option_bind] in Hrun.
  destruct (negb (nonzero (Z.land attr 3))); cbn [orb].
  { injection Hrun as <-. exists top. split; [exact Htop | reflexivity]. }
  pose proof (land_mask_range (Z.shiftr attr 8) 5 ltac:(lia)) as Hcov.
  change (2 ^ 5 - 1) with 31 in Hcov.
  set (cov := Z.land (Z.shiftr attr 8) 31) in *.
  destruct (Z.eqb_spec cov 31) as [| Hfull].
  { injection Hrun as <-. exists top. split; [exact Htop | reflexivity]. }
  destruct (Z.eqb_spec cov 0) as [| Hsome].
  { rewrite Hbot in Hrun. cbn [mbind option_bind] in Hrun.
    destruct (store (ColorBuffer bufs) pa bot) as [colors|] eqn:Hst; [| discriminate].
    cbn [mbind option_bind] in Hrun. injection Hrun as <-. cbn [ColorBuffer].
    exists bot. split; [exact (load_store_same _ _ _ _ Hst) | reflexivity]. }
  rewrite Htop in Hrun. cbn [mbind option_bind] in Hrun.
  rewrite Hbot in Hrun. cbn [mbind option_bind] in Hrun.
  fold (chanR top) (chanG top) (chanB top) (chanR bot) (chanG bot) (chanB bot) in Hrun.
  destruct (chan_range top) as (HRt & HGt & HBt).
  destruct (chan_range bot) as (HRb & HGb & HBb).
  pose proof (land_mask_range (Z.shiftr top 24) 5 ltac:(lia)) as HAt.
  pose proof (land_mask_range (Z.shiftr bot 24) 5 ltac:(lia)) as HAb.
  change (2 ^ 5 - 1) with 31 in HAt, HAb.
  set (topA := Z.land (Z.shiftr top 24) 31) in *.
  set (botA := Z.land (Z.shiftr bot 24) 31) in *.
  rewrite (u32_id (cov + 1)) in Hrun by (unfold in_u32; lia).
  assert (forall f s, 0 <= f <= 63 -> 0 <= s <= 63 ->
            between s (weighted f s (cov + 1) 32 5) f /\
            0 <= weighted f s (cov + 1) 32 5 <= 63) as Hmix.
  { intros f s Hf Hs.
    destruct (weighted_between f s (cov + 1) 5 ltac:(lia) ltac:(lia) ltac:(lia) ltac:(lia))
      as (Hb & _).
    change (2 ^ 5) with 32 in Hb. split; [exact Hb |].
    apply (between_range 0 63 s f); [lia | lia | exact Hb]. }
  destruct (Hmix topA botA ltac:(lia) ltac:(lia)) as (HbA & _).
  assert (0 <= weighted topA botA (cov + 1) 32 5 <= 31) as HrA
    by (apply (between_range 0 31 botA topA); [lia | lia | exact HbA]).
  destruct (botA >? 0).
  - destruct (Hmix (chanR top) (chanR bot) ltac:(lia) ltac:(lia)) as (HbR & HrR).
    destruct (Hmix (chanG top) (chanG bot) ltac:(lia) ltac:(lia)) as (HbG & HrG).
    destruct (Hmix (chanB top) (chanB bot) ltac:(lia) ltac:(lia)) as (HbB & HrB).
    destruct (store (ColorBuffer bufs) pa _) as [colors|] eqn:Hst; [| discriminate].
    cbn [mbind option_bind] in Hrun. injection Hrun as <-. cbn [ColorBuffer].
    eexists. split; [exact (load_store_same _ _ _ _ Hst) |].
    destruct (pack_color_fields (weighted (chanR top) (chanR bot) (cov + 1) 32 5)
                (weighted (chanG top) (chanG bot) (cov + 1) 32 5)
                (weighted (chanB top) (chanB bot) (cov + 1) 32 5)
                (weighted topA botA (cov + 1) 32 5)) as (-> & -> & -> & ->); try lia.
    repeat split; assumption.
  - destruct (store (ColorBuffer bufs) pa _) as [colors|] eqn:Hst; [| discriminate].
    cbn [mbind option_bind] in Hrun. injection Hrun as <-. cbn [ColorBuffer].
    eexists. split; [exact (load_store_same _ _ _ _ Hst) |].
    destruct (pack_color_fields (chanR top) (chanG top) (chanB top)
                (weighted topA botA (cov + 1) 32 5)) as (-> & -> & -> & ->); try lia.
    repeat split; try reflexivity. exact HbA.
Qed.

Lemma antialias_pixel_between_witness :
  exists c',
    (bufs' ← antialias_pixel 0 0
       {| ColorBuffer := replicate 259 0 ++ [0x1F3F2010] ++ replicate (Z.to_nat 50051) 0 ++ [0x1F001030];
          DepthBuffer := []; AttrBuffer := replicate 259 0 ++ [0x0F01];
          StencilBuffer := []; PrevIsShadowMask := false |};
     load bufs'.(ColorBuffer) (pixel_address 0 0)) = Some c' /\
    between 0x30 (chanR c') 0x10 /\ between 0x10 (chanG c') 0x20.
Proof.
  set (bufs := {| ColorBuffer := replicate 259 0 ++ [0x1F3F2010] ++ replicate (Z.to_nat 50051) 0
                                   ++ [0x1F001030];
                  DepthBuffer := []; AttrBuffer := replicate 259 0 ++ [0x0F01];
                  StencilBuffer := []; PrevIsShadowMask := false |}).
  assert (match antialias_pixel 0 0 bufs with Some _ => true | None => false end = true)
    as Hsome
    by (vm_compute; reflexivity).
  destruct (antialias_pixel 0 0 bufs) as [bufs' |] eqn:Hrun; [clear Hsome | discriminate].
  destruct (antialias_pixel_between 0 0 bufs bufs' 0x0F01 0x1F3F2010 0x1F001030 Hrun
              ltac:(vm_compute; reflexivity) ltac:(vm_compute; reflexivity)
              ltac:(vm_compute; reflexivity))
    as (c' & Hload & Hc).
  exists c'. cbn [mbind option_bind]. split; [exact Hload |].
  vm_compute in Hc. destruct Hc as (_ & HR & HG & _). split; assumption.
Defined.

Lemma keeps_alpha_byte (rgb old : Z) :
  0 <= rgb < 2 ^ 24 ->
  Z.land (Z.lor rgb (Z.land old 0xFF000000)) 0xFF000000 = Z.land old 0xFF000000.
Proof.
  intros Hrgb. rewrite Z.land_lor_distr_l.
  replace (Z.land rgb 0xFF000000) with 0.
  - rewrite Z.lor_0_l, <- Z.land_assoc. reflexivity.
  - symmetry. apply Z.bits_inj'. intros n Hn. rewrite Z.land_spec, Z.bits_0.
    destruct (Z_lt_le_dec n 24) as [Hlt | Hge].
    + replace (Z.testbit 0xFF000000 n) with false; [apply andb_false_r |].
      symmetry. change 0xFF000000 with (Z.shiftl 0xFF 24).
      apply Z.shiftl_spec_low. exact Hlt.
    + rewrite (testbit_above rgb 24 n Hrgb Hge). reflexivity.
Qed.

Lemma keeps_outside_coverage (attr : Z) :
  Z.land (Z.lor (Z.land attr 0xFFFFE0FF) 0x00001000) 0xFFFFE0FF = Z.land attr 0xFFFFE0FF /\
  Z.land (Z.shiftr (Z.lor (Z.land attr 0xFFFFE0FF) 0x00001000) 8) 0x1F = 0x10.
Proof.
  split.
  - rewrite Z.land_lor_distr_l, <- Z.land_assoc.
    change (Z.land 0xFFFFE0FF 0xFFFFE0FF) with 0xFFFFE0FF.
    change (Z.land 0x1000 0xFFFFE0FF) with 0. apply Z.lor_0_r.
  - rewrite Z.shiftr_lor, Z.land_lor_distr_l, Z.shiftr_land.
    rewrite <- Z.land_assoc.
    change (Z.land (Z.shiftr 0xFFFFE0FF 8) 0x1F) with 0. rewrite Z.land_0_r.
    reflexivity.
Qed.

(** X28: edge marking recolours a pixel and nothing else.  When
    edge_mark_pixel returns, the pixel keeps its alpha byte and every
    attribute bit outside the coverage field; it is either untouched, or its
    coverage is 0x10 and its colour channels are those of the edge-table
    entry of its polygon id (the id shifted right by 3). *)
Theorem edge_mark_pixel_recolours (more : FrameRegisters) (y x : Z) (bufs bufs' : Buffers)
    (attr c : Z) :
  edge_mark_pixel more y x bufs = Some bufs' ->
  load bufs.(AttrBuffer) (pixel_address y x) = Some attr ->
  load bufs.(ColorBuffer) (pixel_address y x) = Some c ->
  exists attr' c',
    load bufs'.(AttrBuffer) (pixel_address y x) = Some attr' /\
    load bufs'.(ColorBuffer) (pixel_address y x) = Some c' /\
    Z.land c' 0xFF000000 = Z.land c 0xFF000000 /\
    Z.land attr' 0xFFFFE0FF = Z.land attr 0xFFFFE0FF /\
    ((attr' = attr /\ c' = c) \/
     (Z.land attr 0xF <> 0 /\
      Z.land (Z.shiftr attr' 8) 0x1F = 0x10 /\
      exists edgecolor,
        load more.(RenderEdgeTable) (Z.shiftr (Z.shiftr attr 24) 3) = Some edgecolor /\
        chanR c' = expand5_u32 (Z.shiftl edgecolor 1) /\
        chanG c' = expand5_u32 (Z.shiftr edgecolor 4) /\
        chanB c' = expand5_u32 (Z.shiftr edgecolor 9))).
Proof.
  unfold edge_mark_pixel. cbv zeta. set (pa := pixel_address y x).
  intros Hrun Hattr Hc. rewrite Hattr in Hrun. cbn [mbind option_bind] in Hrun.
  assert (forall b, b = bufs ->
            exists attr' c',
              load (AttrBuffer b) pa = Some attr' /\ load (ColorBuffer b) pa = Some c' /\
              Z.land c' 0xFF000000 = Z.land c 0xFF000000 /\
              Z.land attr' 0xFFFFE0FF = Z.land attr 0xFFFFE0FF /\
              ((attr' = attr /\ c' = c) \/
               (Z.land attr 0xF <> 0 /\ Z.land (Z.shiftr attr' 8) 0x1F = 0x10 /\
                exists edgecolor,
                  load more.(RenderEdgeTable) (Z.shiftr (Z.shiftr attr 24) 3) = Some edgecolor /\
                  chanR c' = expand5_u32 (Z.shiftl edgecolor 1) /\
                  chanG c' = expand5_u32 (Z.shiftr edgecolor 4) /\
                  chanB c' = expand5_u32 (Z.shiftr edgecolor 9)))) as Hsame.
  { intros b ->. exists attr, c. repeat split; try assumption. left. split; reflexivity. }
  unfold nonzero in Hrun. destruct (Z.eqb_spec (Z.land attr 15) 0) as [| Hedge];
    cbn [negb] in Hrun.
  { injection Hrun as <-. apply Hsame. reflexivity. }
  destruct (load (DepthBuffer bufs) pa) as [z|]; [| discriminate].
  cbn [mbind option_bind] in Hrun.
  destruct (or_else _ _) as [[|]|]; [| | discriminate]; cbn [mbind option_bind] in Hrun.
  2: { injection Hrun as <-. apply Hsame. reflexivity. }
  destruct (load (RenderEdgeTable more) _) as [edgecolor|] eqn:Hedgecolor; [| discriminate].
  cbn [mbind option_bind] in Hrun. rewrite Hc in Hrun. cbn [mbind option_bind] in Hrun.
  destruct (store (ColorBuffer bufs) pa _) as [colors|] eqn:Hcs; [| discriminate].
  cbn [mbind option_bind] in Hrun.
  destruct (store (AttrBuffer bufs) pa _) as [attrs|] eqn:Has; [| discriminate].
  cbn [mbind option_bind] in Hrun. injection Hrun as <-. cbn [ColorBuffer AttrBuffer].
  pose proof (expand5_u32_range (Z.shiftl edgecolor 1)) as HR.
  pose proof (expand5_u32_range (Z.shiftr edgecolor 4)) as HG.
  pose proof (expand5_u32_range (Z.shiftr edgecolor 9)) as HB.
  set (edgeR := expand5_u32 (Z.shiftl edgecolor 1)) in *.
  set (edgeG := expand5_u32 (Z.shiftr edgecolor 4)) in *.
  set (edgeB := expand5_u32 (Z.shiftr edgecolor 9)) in *.
  rewrite !u32_id in Hcs by (unfold in_u32; rewrite Z.shiftl_mul_pow2 by lia; lia).
  destruct (pack_channels edgeR edgeG edgeB 0 ltac:(lia) ltac:(lia) ltac:(lia) ltac:(lia))
    as (Hsum & HcR & HcG & HcB & _).
  cbv zeta in Hsum, HcR, HcG, HcB.
  change (Z.shiftl 0 24) with 0 in Hsum, HcR, HcG, HcB. rewrite Z.lor_0_r in Hsum, HcR, HcG, HcB.
  set (rgb := Z.lor (Z.lor edgeR (Z.shiftl edgeG 8)) (Z.shiftl edgeB 16)) in *.
  assert (0 <= rgb < 2 ^ 24) as Hrgb by lia.
  destruct (keeps_outside_coverage attr) as (Hkeep & Hcov).
  eexists _, _. split; [exact (load_store_same _ _ _ _ Has) |].
  split; [exact (load_store_same _ _ _ _ Hcs) |].
  split; [apply keeps_alpha_byte; exact Hrgb |].
  split; [exact Hkeep |]. right.
  split; [exact Hedge |]. split; [exact Hcov |].
  exists edgecolor. split; [reflexivity |].
  assert (forall k, 0 <= k < 24 ->
            Z.land (Z.shiftr (Z.lor rgb (Z.land c 0xFF000000)) k) 0x3F
            = Z.land (Z.shiftr rgb k) 0x3F \/ 18 < k) as Hlow.
  { intros k Hk. destruct (Z_le_gt_dec k 18) as [Hle | Hgt]; [left | right; lia].
    apply Z.bits_inj'. intros n Hn. rewrite !Z.land_spec, !Z.shiftr_spec, Z.lor_spec by lia.
    destruct (Z_lt_le_dec n 6) as [Hlt | Hge].
    - rewrite Z.land_spec. change 0xFF000000 with (Z.shiftl 0xFF 24).
      rewrite (Z.shiftl_spec_low 0xFF 24 (n + k)) by lia.
      rewrite andb_false_r, orb_false_r. reflexivity.
    - replace (Z.testbit 0x3F n) with false; [rewrite !andb_false_r; reflexivity |].
      symmetry. apply (testbit_above 0x3F 6 n); lia. }
  unfold chanR, chanG, chanB in *.
  destruct (Hlow 0 ltac:(lia)) as [H0 |]; [| lia].
  destruct (Hlow 8 ltac:(lia)) as [H8 |]; [| lia].
  destruct (Hlow 16 ltac:(lia)) as [H16 |]; [| lia].
  rewrite Z.shiftr_0_r in H0. rewrite (Z.shiftr_0_r rgb) in H0.
  rewrite H0, H8, H16. repeat split; assumption.
Qed.

Lemma edge_mark_pixel_recolours_witness :
  exists attr' c',
    (bufs' ← edge_mark_pixel
       {| RenderEdgeTable := [0; 0x7FFF; 0; 0; 0; 0; 0; 0]; RenderFogColor := 0;
          RenderClearAttr1 := 0; RenderClearAttr2 := 0 |} 0 0
       {| ColorBuffer := <[259%nat := 0x1F000000]> (replicate 518 0);
          DepthBuffer := <[259%nat := 0]> (replicate 518 0xFFFFFF);
          AttrBuffer := <[259%nat := 0x08001F01]> (replicate 518 0);
          StencilBuffer := []; PrevIsShadowMask := false |};
     a ← load bufs'.(AttrBuffer) (pixel_address 0 0);
     c ← load bufs'.(ColorBuffer) (pixel_address 0 0);
     Some (a, c)) = Some (attr', c') /\
    Z.land c' 0xFF000000 = 0x1F000000 /\ Z.land attr' 0xFFFFE0FF = 0x08000001.
Proof.
  set (more := {| RenderEdgeTable := [0; 0x7FFF; 0; 0; 0; 0; 0; 0]; RenderFogColor := 0;
                  RenderClearAttr1 := 0; RenderClearAttr2 := 0 |}).
  set (bufs := {| ColorBuffer := <[259%nat := 0x1F000000]> (replicate 518 0);
                  DepthBuffer := <[259%nat := 0]> (replicate 518 0xFFFFFF);
                  AttrBuffer := <[259%nat := 0x08001F01]> (replicate 518 0);
                  StencilBuffer := []; PrevIsShadowMask := false |}).
  assert (exists bufs', edge_mark_pixel more 0 0 bufs = Some bufs') as [bufs' Hrun]
    by (vm_compute; eexists; reflexivity).
  destruct (edge_mark_pixel_recolours more 0 0 bufs bufs' 0x08001F01 0x1F000000 Hrun
              eq_refl eq_refl)
    as (attr' & c' & Hattr & Hcolor & Halpha & Hkeep & _).
  exists attr', c'. rewrite Hrun. cbn [mbind option_bind].
  rewrite Hattr. cbn [mbind option_bind]. rewrite Hcolor. cbn [mbind option_bind].
  split; [reflexivity |]. split; [exact Halpha | exact Hkeep].
Defined.
